(** * Metadata journaling for VSFS: a shallow embedding of [journal.c]

    The program keeps a write-ahead log inside a disk image file
    ([vsfs.img]).  [journal_create] stages the creation of a file as a run
    of block-level redo records closed by a commit record; [journal_install]
    replays the committed runs onto the image and clears the log.

    The image file is a list of bytes.  C's unsigned 32-bit arithmetic is
    written out with [wrap32]; multi-byte fields are laid out as the
    structs of the source are on a little-endian host, with no padding
    (every struct of the source is naturally aligned). *)

From Stdlib Require Import ZArith List Lia Bool.
From Stdlib.Strings Require Import Byte.
Import ListNotations.
Open Scope Z_scope.

(** ** Constants of the source *)

Definition BLOCK_SIZE : Z := 4096.

Definition TOTAL_BLOCKS : Z := 85.

Definition JOURNAL_BLOCKS : Z := 16.

Definition MAX_INODES : Z := 64.

Definition MAX_DIRENTS : Z := BLOCK_SIZE / 32.

Definition INODES_PER_BLOCK : Z := BLOCK_SIZE / 128.

Definition SUPERBLOCK_MAGIC : Z := 0x56534653.

Definition JOURNAL_MAGIC : Z := 0x4A524E4C.

Definition REC_DATA : Z := 1.

Definition REC_COMMIT : Z := 2.

Definition INODE_FREE : Z := 0.

Definition INODE_FILE : Z := 1.

Definition INODE_DIR : Z := 2.

(** [sizeof] of the structs. *)
Definition sizeof_journal_header : Z := 8.

Definition sizeof_rec_header : Z := 4.

Definition sizeof_data_record : Z := 4 + 4 + BLOCK_SIZE.

Definition sizeof_commit_record : Z := 4.

Definition sizeof_dirent : Z := 32.

Definition sizeof_inode : Z := 128.

(** ** Machine integers and bytes *)

Definition wrap32 (z : Z) : Z := z mod 2^32.

Definition wrap16 (z : Z) : Z := z mod 2^16.

Definition byte_to_Z (b : byte) : Z := Z.of_N (Byte.to_N b).

Definition Z_to_byte (z : Z) : byte :=
  match Byte.of_N (Z.to_N (z mod 256)) with
  | Some b => b
  | None => x00
  end.

(** Little-endian encodings of [uint16_t] and [uint32_t]. *)
Definition enc16 (z : Z) : list byte :=
  [Z_to_byte z; Z_to_byte (Z.shiftr z 8)].

Definition enc32 (z : Z) : list byte :=
  [Z_to_byte z; Z_to_byte (Z.shiftr z 8);
   Z_to_byte (Z.shiftr z 16); Z_to_byte (Z.shiftr z 24)].

(** ** Memory buffers

    A buffer is a list of bytes; offsets are byte offsets.  [peek8],
    [peek16] and [peek32] read a field at an offset the caller keeps inside
    the buffer. *)

Definition peek8 (buf : list byte) (off : Z) : Z :=
  byte_to_Z (nth (Z.to_nat off) buf x00).

Definition peek16 (buf : list byte) (off : Z) : Z :=
  peek8 buf off + 256 * peek8 buf (off + 1).

Definition peek32 (buf : list byte) (off : Z) : Z :=
  peek8 buf off + 256 * peek8 buf (off + 1)
  + 65536 * peek8 buf (off + 2) + 16777216 * peek8 buf (off + 3).

(** [sub buf off n]: the [n] bytes of [buf] from offset [off]. *)
Definition sub (buf : list byte) (off n : Z) : list byte :=
  firstn (Z.to_nat n) (skipn (Z.to_nat off) buf).

(** [in_buf buf off n]: the range [off, off + n) lies inside [buf]. *)
Definition in_buf (buf : list byte) (off n : Z) : bool :=
  (0 <=? off) && (off + n <=? Z.of_nat (length buf)).

(** [pwrite buf pos bs] overwrites [buf] from offset [pos] with [bs].  Past
    the end it extends the buffer, and a gap between the old end and [pos]
    reads as zero bytes, as a write after a seek beyond the end of a file
    does. *)
Definition pwrite (buf : list byte) (pos : Z) (bs : list byte) : list byte :=
  let p := Z.to_nat pos in
  firstn p buf ++ repeat x00 (p - length buf) ++ bs
  ++ skipn (p + length bs) buf.

(** [pread d pos n] is [fseek] to [pos] followed by
    [fread (buffer, n, 1, disk)]: it yields the item only when all its [n]
    bytes are in the file.  Every call of the source has [n > 0]. *)
Definition pread (d : list byte) (pos n : Z) : option (list byte) :=
  if pos + n <=? Z.of_nat (length d) then Some (sub d pos n) else None.

(** ** The superblock and the block store *)

Record superblock : Type := mk_superblock {
  sb_magic : Z;
  sb_block_size : Z;
  sb_total_blocks : Z;
  sb_inode_count : Z;
  sb_journal_block : Z;
  sb_inode_bitmap : Z;
  sb_data_bitmap : Z;
  sb_inode_start : Z;
  sb_data_start : Z
}.

Definition disk : Type := list byte.

(** [read_block]: [fseek (disk, block_no * BLOCK_SIZE)] in [uint32_t]
    arithmetic, then one item of [BLOCK_SIZE] bytes.  [None] is the
    function's [-1]. *)
Definition read_block (d : disk) (block_no : Z) : option (list byte) :=
  pread d (wrap32 (block_no * BLOCK_SIZE)) BLOCK_SIZE.

(** [write_block], with [buffer] holding [BLOCK_SIZE] bytes.  The seek
    offset of a [uint32_t] product is never negative, and the write is
    taken to complete. *)
Definition write_block (d : disk) (block_no : Z) (buffer : list byte) : disk :=
  pwrite d (wrap32 (block_no * BLOCK_SIZE)) buffer.

Definition journal_start (sb : superblock) : Z :=
  wrap32 (sb_journal_block sb * BLOCK_SIZE).

Definition read_journal_bytes (sb : superblock) (d : disk) (offset size : Z)
  : option (list byte) :=
  pread d (wrap32 (journal_start sb + offset)) size.

Definition write_journal_bytes (sb : superblock) (d : disk) (offset : Z)
  (buffer : list byte) : disk :=
  pwrite d (wrap32 (journal_start sb + offset)) buffer.

Definition decode_superblock (b : list byte) : superblock :=
  mk_superblock (peek32 b 0) (peek32 b 4) (peek32 b 8) (peek32 b 12)
    (peek32 b 16) (peek32 b 20) (peek32 b 24) (peek32 b 28) (peek32 b 32).

(** [open_disk] on an image that could be opened: read block 0 into [sb]
    and check the magic number. *)
Definition open_disk (d : disk) : option superblock :=
  match read_block d 0 with
  | None => None
  | Some b =>
      let sb := decode_superblock b in
      if sb_magic sb =? SUPERBLOCK_MAGIC then Some sb else None
  end.

(** ** C strings, bitmaps, inodes and directory entries *)

(** A [const char *] argument is given as a list of bytes; the string it
    denotes ends before the first NUL byte. *)
Fixpoint cstr (s : list byte) : list byte :=
  match s with
  | [] => []
  | c :: s' => if byte_to_Z c =? 0 then [] else c :: cstr s'
  end.

Definition strlen (s : list byte) : Z := Z.of_nat (length (cstr s)).

(** [strcmp_eq buf off s] is [strcmp (buf + off, s) == 0] for a string [s]
    without NUL: the comparison walks both strings and stops at the first
    difference or at the common NUL. *)
Fixpoint strcmp_eq (buf : list byte) (off : Z) (s : list byte) : bool :=
  match s with
  | [] => peek8 buf off =? 0
  | c :: s' => (peek8 buf off =? byte_to_Z c) && strcmp_eq buf (off + 1) s'
  end.

(** [zrange lo n] = [lo; lo + 1; ...; lo + n - 1], the values a [for] loop
    counter takes. *)
Fixpoint zrange (lo : Z) (n : nat) : list Z :=
  match n with
  | O => []
  | S n' => lo :: zrange (lo + 1) n'
  end.

(** [(bitmap[i / 8] & (1 << (i % 8))) == 0] *)
Definition bit_is_clear (bitmap : list byte) (i : Z) : bool :=
  Z.land (peek8 bitmap (i / 8)) (Z.shiftl 1 (i mod 8)) =? 0.

(** [set_bit]: [bitmap[index / 8] |= (1 << (index % 8))] *)
Definition set_bit (bitmap : list byte) (index : Z) : list byte :=
  pwrite bitmap (index / 8)
    [Z_to_byte (Z.lor (peek8 bitmap (index / 8)) (Z.shiftl 1 (index mod 8)))].

(** The loop of [journal_create] that looks for a free inode: the first
    [i] in [1, MAX_INODES) whose bit is clear, or [-1]. *)
Fixpoint first_clear (bitmap : list byte) (idxs : list Z) : Z :=
  match idxs with
  | [] => -1
  | i :: rest => if bit_is_clear bitmap i then i else first_clear bitmap rest
  end.

Definition free_inode_of (inode_bitmap : list byte) : Z :=
  first_clear inode_bitmap (zrange 1 (Z.to_nat (MAX_INODES - 1))).

(** Field offsets of [struct inode] and [struct dirent]. *)
Definition inode_off (idx : Z) : Z := sizeof_inode * idx.

Definition off_type : Z := 0.

Definition off_links : Z := 2.

Definition off_size : Z := 4.

Definition off_direct (j : Z) : Z := 8 + 4 * j.

Definition off_ctime : Z := 40.

Definition off_mtime : Z := 44.

Definition dirent_off (i : Z) : Z := sizeof_dirent * i.

Definition off_name : Z := 4.

Definition inode_type (blk : list byte) (idx : Z) : Z :=
  peek16 blk (inode_off idx + off_type).

Definition inode_links (blk : list byte) (idx : Z) : Z :=
  peek16 blk (inode_off idx + off_links).

Definition inode_size (blk : list byte) (idx : Z) : Z :=
  peek32 blk (inode_off idx + off_size).

Definition inode_direct (blk : list byte) (idx j : Z) : Z :=
  peek32 blk (inode_off idx + off_direct j).

Definition dirent_inode (blk : list byte) (i : Z) : Z :=
  peek32 blk (dirent_off i).

Definition dirent_name (blk : list byte) (i : Z) : list byte :=
  sub blk (dirent_off i + off_name) 28.

(** [dirents[i].name[0] != '\0'] *)
Definition dirent_used (blk : list byte) (i : Z) : bool :=
  negb (peek8 blk (dirent_off i + off_name) =? 0).

(** The assignments that make inode [idx] of an inode-table block a new
    file: type, links, size, the eight direct pointers, ctime, mtime. *)
Definition init_file_inode (blk : list byte) (idx current_time : Z)
  : list byte :=
  let b1 := pwrite blk (inode_off idx + off_type) (enc16 INODE_FILE) in
  let b2 := pwrite b1 (inode_off idx + off_links) (enc16 1) in
  let b3 := pwrite b2 (inode_off idx + off_size) (enc32 0) in
  let b4 := fold_left
              (fun b j => pwrite b (inode_off idx + off_direct j) (enc32 0))
              (zrange 0 8) b3 in
  let b5 := pwrite b4 (inode_off idx + off_ctime) (enc32 current_time) in
  pwrite b5 (inode_off idx + off_mtime) (enc32 current_time).

(** The directory scan of [journal_create]: [None] when a used slot holds
    [filename] (the function returns at once), otherwise the final value
    of [free_dirent], which starts at [-1] and takes the first empty
    slot. *)
Fixpoint scan_dirents (dirents filename : list byte) (idxs : list Z)
  (free_dirent : Z) : option Z :=
  match idxs with
  | [] => Some free_dirent
  | i :: rest =>
      if dirent_used dirents i then
        if strcmp_eq dirents (dirent_off i + off_name) filename then None
        else scan_dirents dirents filename rest free_dirent
      else if free_dirent =? -1 then scan_dirents dirents filename rest i
      else scan_dirents dirents filename rest free_dirent
  end.

(** The loop that finds the highest used entry. *)
Definition highest_used_of (dirents : list byte) : Z :=
  fold_left (fun highest_used i =>
               if dirent_used dirents i then i else highest_used)
    (zrange 0 (Z.to_nat MAX_DIRENTS)) (-1).

(** The three statements that fill the directory entry: the inode number,
    [memset (name, 0, 28)] and [strncpy (name, filename, 27)]. *)
Definition set_dirent (dir_block : list byte) (slot free_inode : Z)
  (filename : list byte) : list byte :=
  let b1 := pwrite dir_block (dirent_off slot) (enc32 free_inode) in
  let b2 := pwrite b1 (dirent_off slot + off_name) (repeat x00 28) in
  pwrite b2 (dirent_off slot + off_name) (firstn 27 filename).

(** ** Journal records *)

Definition enc_data_record (block_no : Z) (data : list byte) : list byte :=
  enc16 REC_DATA ++ enc16 sizeof_data_record ++ enc32 block_no ++ data.

Definition enc_commit_record : list byte :=
  enc16 REC_COMMIT ++ enc16 sizeof_commit_record.

Definition enc_journal_header (magic nbytes_used : Z) : list byte :=
  enc32 magic ++ enc32 nbytes_used.

(** ** The create command *)

(** How [journal_create] ends: the message it prints.  Every case but
    [Created] returns [-1]. *)
Inductive create_status : Type :=
| Created (free_inode : Z)
| NameTooLong
| CannotReadJournal
| JournalFull
| CannotReadBitmap
| NoFreeInodes
| CannotReadInodeTable
| CannotReadRootDir
| AlreadyExists
| DirectoryFull.

Definition create_ret (s : create_status) : Z :=
  match s with
  | Created _ => 0
  | _ => -1
  end.

(** The updated in-memory copies that a create call logs. *)
Record staged : Type := mk_staged {
  st_free_inode : Z;
  st_inode_in_block1 : bool;
  st_root_dir_block : Z;
  st_inode_bitmap : list byte;
  st_inode_block0 : list byte;
  st_inode_block1 : list byte;
  st_dir_block : list byte
}.

(** "Now prepare the updated blocks in memory": from the blocks read and
    the targets chosen to the blocks to log. *)
Definition prepare (inode_bitmap inode_block0 inode_block1 dir_block : list byte)
  (root_dir_block free_inode free_dirent current_time : Z)
  (filename : list byte) : staged :=
  let inode_in_block1 := INODES_PER_BLOCK <=? free_inode in
  let inode_bitmap' := set_bit inode_bitmap free_inode in
  let inode_block1' :=
    if inode_in_block1
    then init_file_inode inode_block1 (free_inode - INODES_PER_BLOCK)
           current_time
    else inode_block1 in
  let inode_block0' :=
    if inode_in_block1 then inode_block0
    else init_file_inode inode_block0 free_inode current_time in
  let dir_block' := set_dirent dir_block free_dirent free_inode filename in
  let highest_used := highest_used_of dir_block' in
  let inode_block0'' :=
    if highest_used >=? 0
    then pwrite inode_block0' (inode_off 0 + off_size)
           (enc32 ((highest_used + 1) * sizeof_dirent))
    else inode_block0' in
  mk_staged free_inode inode_in_block1 root_dir_block
    inode_bitmap' inode_block0'' inode_block1' dir_block'.

(** "Now write to journal": the data records, the commit record and the
    header, each written at the running [offset]. *)
Definition log_staged (sb : superblock) (nbytes_used : Z) (s : staged)
  (d : disk) : disk :=
  let offset := nbytes_used in
  let d := write_journal_bytes sb d offset
             (enc_data_record (sb_inode_bitmap sb) (st_inode_bitmap s)) in
  let offset := wrap32 (offset + sizeof_data_record) in
  let d := write_journal_bytes sb d offset
             (enc_data_record (sb_inode_start sb) (st_inode_block0 s)) in
  let offset := wrap32 (offset + sizeof_data_record) in
  let d := if st_inode_in_block1 s
           then write_journal_bytes sb d offset
                  (enc_data_record (wrap32 (sb_inode_start sb + 1))
                     (st_inode_block1 s))
           else d in
  let offset := if st_inode_in_block1 s
                then wrap32 (offset + sizeof_data_record) else offset in
  let d := write_journal_bytes sb d offset
             (enc_data_record (st_root_dir_block s) (st_dir_block s)) in
  let offset := wrap32 (offset + sizeof_data_record) in
  let d := write_journal_bytes sb d offset enc_commit_record in
  let offset := wrap32 (offset + sizeof_commit_record) in
  write_journal_bytes sb d 0 (enc_journal_header JOURNAL_MAGIC offset).

(** [journal_create (filename)], with the value [time (NULL)] returns
    given as [current_time].  The image is returned with the status; it is
    the argument itself whenever the call fails. *)
Definition journal_create (sb : superblock) (current_time : Z)
  (filename : list byte) (d : disk) : create_status * disk :=
  let filename := cstr filename in
  if Z.of_nat (length filename) >? 27 then (NameTooLong, d) else
  match read_journal_bytes sb d 0 sizeof_journal_header with
  | None => (CannotReadJournal, d)
  | Some jh =>
  let nbytes_used :=
    if peek32 jh 0 =? JOURNAL_MAGIC then peek32 jh 4
    else sizeof_journal_header in
  let journal_space := JOURNAL_BLOCKS * BLOCK_SIZE in
  let needed_space := 4 * sizeof_data_record + sizeof_commit_record in
  if wrap32 (nbytes_used + needed_space) >? journal_space
  then (JournalFull, d) else
  match read_block d (sb_inode_bitmap sb) with
  | None => (CannotReadBitmap, d)
  | Some inode_bitmap =>
  let free_inode := free_inode_of inode_bitmap in
  if free_inode =? -1 then (NoFreeInodes, d) else
  match read_block d (sb_inode_start sb) with
  | None => (CannotReadInodeTable, d)
  | Some inode_block0 =>
  match read_block d (wrap32 (sb_inode_start sb + 1)) with
  | None => (CannotReadInodeTable, d)
  | Some inode_block1 =>
  let root_dir_block := inode_direct inode_block0 0 0 in
  match read_block d root_dir_block with
  | None => (CannotReadRootDir, d)
  | Some dir_block =>
  match scan_dirents dir_block filename
          (zrange 0 (Z.to_nat MAX_DIRENTS)) (-1) with
  | None => (AlreadyExists, d)
  | Some free_dirent =>
  if free_dirent =? -1 then (DirectoryFull, d) else
  let s := prepare inode_bitmap inode_block0 inode_block1 dir_block
             root_dir_block free_inode free_dirent (wrap32 current_time)
             filename in
  (Created free_inode, log_staged sb nbytes_used s d)
  end end end end end end.

(** ** The install command *)

(** How a run of the record loop ends: it completes, it reads outside the
    buffer [journal_data] (undefined behaviour in C), or the fuel given to
    the model runs out. *)
Inductive outcome (A : Type) : Type :=
| Done (a : A)
| Undefined
| OutOfFuel.

Arguments Done {A} a.

Arguments Undefined {A}.

Arguments OutOfFuel {A}.

(** A buffered write: [write_blocks[i]] and [write_data[i]]. *)
Definition pending_write : Type := (Z * list byte)%type.

Section InstallLoop.

(** The loop is written over any store with a block write, so that it
    can be run on the image and on the list of the calls it makes. *)
Context {S : Type} (wr : S -> Z -> list byte -> S).

Definition apply_pending (pending : list pending_write) (st : S) : S :=
  fold_left (fun s w => wr s (fst w) (snd w)) pending st.

(** The [while (offset < jh.nbytes_used)] loop.  [pending] holds the
    first [pending_writes] entries of the two arrays of 16; the result
    is [transactions], what is still pending, and the store. *)
Fixpoint install_loop (fuel : nat) (journal_data : list byte)
  (nbytes_used offset : Z) (pending : list pending_write)
  (transactions : Z) (st : S)
  : outcome (Z * list pending_write * S) :=
  match fuel with
  | O => OutOfFuel
  | Datatypes.S fuel' =>
    if offset <? nbytes_used then
      if negb (in_buf journal_data offset sizeof_rec_header)
      then Undefined else
      let rec_type := peek16 journal_data offset in
      let rec_size := peek16 journal_data (offset + 2) in
      if (rec_size =? 0) || (wrap32 (offset + rec_size) >? nbytes_used)
      then Done (transactions, pending, st)
      else if rec_type =? REC_DATA then
        if Z.of_nat (length pending) <? 16 then
          if negb (in_buf journal_data offset sizeof_data_record)
          then Undefined else
          install_loop fuel' journal_data nbytes_used
            (wrap32 (offset + sizeof_data_record))
            (pending ++ [(peek32 journal_data (offset + 4),
                          sub journal_data (offset + 8) BLOCK_SIZE)])
            transactions st
        else
          install_loop fuel' journal_data nbytes_used
            (wrap32 (offset + sizeof_data_record))
            pending transactions st
      else if rec_type =? REC_COMMIT then
        install_loop fuel' journal_data nbytes_used
          (wrap32 (offset + sizeof_commit_record))
          [] (transactions + 1) (apply_pending pending st)
      else Done (transactions, pending, st)
    else Done (transactions, pending, st)
  end.

End InstallLoop.

(** How [journal_install] ends.  [NothingToInstall] covers both early
    returns of an empty journal; the two read failures return [-1]. *)
Inductive install_status : Type :=
| Installed
| NothingToInstall
| CannotReadHeader
| CannotReadData.

Definition install_ret (s : install_status) : Z :=
  match s with
  | Installed | NothingToInstall => 0
  | _ => -1
  end.

(** [journal_install ()]: the status, the final value of [transactions]
    and the image.  [malloc] is taken to succeed. *)
Definition journal_install (sb : superblock) (d : disk)
  : outcome (install_status * Z * disk) :=
  match read_journal_bytes sb d 0 sizeof_journal_header with
  | None => Done (CannotReadHeader, 0, d)
  | Some jh =>
  if negb (peek32 jh 0 =? JOURNAL_MAGIC) then Done (NothingToInstall, 0, d)
  else
  let nbytes_used := peek32 jh 4 in
  if nbytes_used <=? sizeof_journal_header
  then Done (NothingToInstall, 0, d) else
  match read_journal_bytes sb d 0 nbytes_used with
  | None => Done (CannotReadData, 0, d)
  | Some journal_data =>
  match install_loop write_block (Z.to_nat nbytes_used) journal_data
          nbytes_used sizeof_journal_header [] 0 d with
  | Done (transactions, _, d') =>
      Done (Installed, transactions,
            write_journal_bytes sb d' 0
              (enc_journal_header (peek32 jh 0) sizeof_journal_header))
  | Undefined => Undefined
  | OutOfFuel => OutOfFuel
  end end end.

(** The store that records the calls made on it. *)
Definition log_call (calls : list pending_write) (b : Z) (data : list byte)
  : list pending_write := calls ++ [(b, data)].

(** The calls of [write_block] that the record loop makes on a buffer, in
    the order it makes them. *)
Definition install_writes (journal_data : list byte) (nbytes_used : Z)
  : outcome (Z * list pending_write * list pending_write) :=
  install_loop log_call
    (Z.to_nat nbytes_used) journal_data nbytes_used sizeof_journal_header
    [] 0 [].

(** ** The command line *)

Inductive command : Type :=
| CmdCreate (filename : list byte) (current_time : Z)
| CmdInstall.

(** [main] for one command on an image that can be opened: the exit code
    and the image left behind; [Undefined] and [OutOfFuel] as in
    [journal_install]. *)
Definition main (c : command) (d : disk) : outcome (Z * disk) :=
  match open_disk d with
  | None => Done (1, d)
  | Some sb =>
      match c with
      | CmdCreate filename current_time =>
          let '(s, d') := journal_create sb current_time filename d in
          Done (if create_ret s =? 0 then 0 else 1, d')
      | CmdInstall =>
          match journal_install sb d with
          | Done (s, _, d') => Done (if install_ret s =? 0 then 0 else 1, d')
          | Undefined => Undefined
          | OutOfFuel => OutOfFuel
          end
      end
  end.

(** ** The helpers of the second copy of the program

    The second source file factors the three loops of [journal_create]
    into functions. *)

Fixpoint find_free_in_byte (bitmap : list byte) (i : Z) (js : list Z)
  : option Z :=
  match js with
  | [] => None
  | j :: rest =>
      let idx := i * 8 + j in
      if idx =? 0 then find_free_in_byte bitmap i rest
      else if Z.land (peek8 bitmap i) (Z.shiftl 1 j) =? 0 then Some idx
      else find_free_in_byte bitmap i rest
  end.

Fixpoint find_free_bytes (bitmap : list byte) (ixs : list Z) : Z :=
  match ixs with
  | [] => -1
  | i :: rest =>
      if peek8 bitmap i =? 255 then find_free_bytes bitmap rest
      else match find_free_in_byte bitmap i (zrange 0 8) with
           | Some idx => idx
           | None => find_free_bytes bitmap rest
           end
  end.

Definition find_free_inode (bitmap : list byte) : Z :=
  find_free_bytes bitmap (zrange 0 (Z.to_nat (MAX_INODES / 8))).

(** [find_free_dirent (dirents, filename, &slot)]: the loop state is
    [*slot] and [found_slot]; the result is the return value ([-1]
    duplicate, [0] slot found, [-2] full) and the final [*slot]. *)
Fixpoint find_free_dirent_loop (dirents filename : list byte)
  (idxs : list Z) (slot : Z) (found_slot : bool) : Z * Z :=
  match idxs with
  | [] => (if found_slot then 0 else -2, slot)
  | i :: rest =>
      if dirent_used dirents i then
        if strcmp_eq dirents (dirent_off i + off_name) filename
        then (-1, slot)
        else find_free_dirent_loop dirents filename rest slot found_slot
      else if negb found_slot
      then find_free_dirent_loop dirents filename rest i true
      else find_free_dirent_loop dirents filename rest slot found_slot
  end.

Definition find_free_dirent (dirents filename : list byte) : Z * Z :=
  find_free_dirent_loop dirents filename
    (zrange 0 (Z.to_nat MAX_DIRENTS)) (-1) false.

Definition get_highest_dirent (dirents : list byte) : Z :=
  fold_left (fun highest i => if dirent_used dirents i then i else highest)
    (zrange 0 (Z.to_nat MAX_DIRENTS)) (-1).

(** A used slot whose name is [filename], as the scan tests it. *)
Definition slot_matches (dirents filename : list byte) (i : Z) : bool :=
  dirent_used dirents i
  && strcmp_eq dirents (dirent_off i + off_name) filename.

(** The first empty slot among [idxs], or [-1]. *)
Fixpoint first_empty (dirents : list byte) (idxs : list Z) : Z :=
  match idxs with
  | [] => -1
  | i :: rest =>
      if dirent_used dirents i then first_empty dirents rest else i
  end.

(** The three outcomes of the search, stated on the directory block. *)
Definition conflict (dirents filename : list byte) : Prop :=
  exists i, 0 <= i < MAX_DIRENTS /\ dirent_used dirents i = true
            /\ cstr (dirent_name dirents i) = filename.

Definition lowest_empty (dirents : list byte) (s : Z) : Prop :=
  0 <= s < MAX_DIRENTS /\ dirent_used dirents s = false
  /\ forall j, 0 <= j < s -> dirent_used dirents j = true.

Definition all_used (dirents : list byte) : Prop :=
  forall j, 0 <= j < MAX_DIRENTS -> dirent_used dirents j = true.

(** ** The record loop and the calls it makes *)

Definition outcome_map {A B : Type} (f : A -> B) (o : outcome A) : outcome B :=
  match o with
  | Done a => Done (f a)
  | Undefined => Undefined
  | OutOfFuel => OutOfFuel
  end.

(** ** Logs as lists of records *)

(** The redo records of the data model: a data record carries a block
    index and one block of payload, a commit record nothing. *)
Inductive record : Type :=
| RData (block_no : Z) (data : list byte)
| RCommit.

Definition enc_record (r : record) : list byte :=
  match r with
  | RData block_no data => enc_data_record block_no data
  | RCommit => enc_commit_record
  end.

Definition enc_records (rs : list record) : list byte :=
  flat_map enc_record rs.

(** A record that [struct data_record] can hold. *)
Definition wf_record (r : record) : Prop :=
  match r with
  | RData block_no data =>
      0 <= block_no < 2^32 /\ Z.of_nat (length data) = BLOCK_SIZE
  | RCommit => True
  end.

(** What the record loop does, read on the list of records: a data record
    is buffered while fewer than 16 are pending, a commit record applies
    and clears what is pending. *)
Fixpoint replay {S : Type} (wr : S -> Z -> list byte -> S)
  (rs : list record) (pending : list pending_write) (t : Z) (st : S)
  : Z * list pending_write * S :=
  match rs with
  | [] => (t, pending, st)
  | RData block_no data :: rs' =>
      replay wr rs'
        (if Z.of_nat (length pending) <? 16
         then pending ++ [(block_no, data)] else pending) t st
  | RCommit :: rs' =>
      replay wr rs' [] (t + 1) (apply_pending wr pending st)
  end.

(** The complete transactions of a log, in log order: each run of data
    records that a commit record closes, as the writes it asks for.
    [run] holds the data records read since the last commit record. *)
Fixpoint transactions (rs : list record) (run : list pending_write)
  : list (list pending_write) :=
  match rs with
  | [] => []
  | RData block_no data :: rs' => transactions rs' (run ++ [(block_no, data)])
  | RCommit :: rs' => run :: transactions rs' []
  end.

(** The calls of [write_block] for a list of transactions, of which the
    loop keeps the first 16 writes each. *)
Definition calls_of (txs : list (list pending_write)) : list pending_write :=
  concat (map (firstn 16) txs).

Fixpoint count_commits (rs : list record) : Z :=
  match rs with
  | [] => 0
  | RData _ _ :: rs' => count_commits rs'
  | RCommit :: rs' => 1 + count_commits rs'
  end.

Fixpoint count_data (rs : list record) : Z :=
  match rs with
  | [] => 0
  | RData _ _ :: rs' => 1 + count_data rs'
  | RCommit :: rs' => count_data rs'
  end.

(** The journal region of image [d] holds a valid header and the log
    [rs] as its used region. *)
Definition journal_holds (sb : superblock) (d : disk) (rs : list record)
  : Prop :=
  let nbytes_used :=
    sizeof_journal_header + Z.of_nat (length (enc_records rs)) in
  Forall wf_record rs
  /\ nbytes_used < 2^32
  /\ read_journal_bytes sb d 0 nbytes_used
     = Some (enc_journal_header JOURNAL_MAGIC nbytes_used ++ enc_records rs).

(** ** The block indices install writes to *)

(** What the record loop of [journal_install] asks of the record at
    [off] before it looks at its type: the offset lies in the used
    region, the size field is not zero, and the offset plus the size
    field, in 32 bits, does not pass the used region. *)
Definition accepted (buf : list byte) (u off : Z) : Prop :=
  off < u
  /\ peek16 buf (off + 2) <> 0
  /\ wrap32 (off + peek16 buf (off + 2)) <= u.

(** The offsets at which the record loop reads a record.  The first
    record follows the journal header; from a data record it accepts the
    loop goes on by [sizeof (struct data_record)], whether or not it
    keeps the record, and from a commit record by
    [sizeof (struct commit_record)]. *)
Inductive scanned (buf : list byte) (u : Z) : Z -> Prop :=
| scanned_first : scanned buf u sizeof_journal_header
| scanned_after_data (o : Z) :
    scanned buf u o -> accepted buf u o -> peek16 buf o = REC_DATA ->
    scanned buf u (wrap32 (o + sizeof_data_record))
| scanned_after_commit (o : Z) :
    scanned buf u o -> accepted buf u o -> peek16 buf o = REC_COMMIT ->
    scanned buf u (wrap32 (o + sizeof_commit_record)).

(** [w] is the write a data record read by the loop asks for: at an
    offset the loop reaches there is a record it accepts, of type
    [REC_DATA] and inside the buffer, with the block index and payload of
    [w].  Bytes of a payload that happen to spell a record header are
    not such a record. *)
Definition scanned_data (buf : list byte) (u : Z) (w : pending_write)
  : Prop :=
  exists o,
    scanned buf u o /\ accepted buf u o
    /\ peek16 buf o = REC_DATA
    /\ 0 <= o /\ o + sizeof_data_record <= Z.of_nat (length buf)
    /\ fst w = peek32 buf (o + 4)
    /\ snd w = sub buf (o + 8) BLOCK_SIZE.

(** ** Sample images *)

(** Modelled from the spec: the formatting tool ([mkfs.c]) is not among
    the sources.  Its image is laid out as section 6 of the spec and the
    README say: 85 blocks of 4096 bytes, block 0 the superblock, a
    16-block journal from block 1 (left zeroed: a log never used), the
    inode bitmap, the data bitmap, two inode-table blocks for 64 inodes,
    then the data region, whose first block is the root directory with
    its entries [.] and [..] (the slots 0 and 1 that a comment of
    [journal_create] mentions); inode 0 is the root directory. *)
Definition fresh_sb : superblock :=
  mk_superblock SUPERBLOCK_MAGIC BLOCK_SIZE TOTAL_BLOCKS MAX_INODES
    1 17 18 19 21.

Definition enc_superblock (sb : superblock) : list byte :=
  enc32 (sb_magic sb) ++ enc32 (sb_block_size sb)
  ++ enc32 (sb_total_blocks sb) ++ enc32 (sb_inode_count sb)
  ++ enc32 (sb_journal_block sb) ++ enc32 (sb_inode_bitmap sb)
  ++ enc32 (sb_data_bitmap sb) ++ enc32 (sb_inode_start sb)
  ++ enc32 (sb_data_start sb).

Definition fresh_image : disk :=
  let d := repeat x00 (Z.to_nat (TOTAL_BLOCKS * BLOCK_SIZE)) in
  let d := pwrite d 0 (enc_superblock fresh_sb) in
  let d := pwrite d (17 * BLOCK_SIZE) [x01] in
  let d := pwrite d (18 * BLOCK_SIZE) [x01] in
  let d := pwrite d (19 * BLOCK_SIZE)
             (enc16 INODE_DIR ++ enc16 2 ++ enc32 (2 * sizeof_dirent)
              ++ enc32 21) in
  let d := pwrite d (21 * BLOCK_SIZE) (enc32 0 ++ [x2e]) in
  pwrite d (21 * BLOCK_SIZE + sizeof_dirent) (enc32 0 ++ [x2e; x2e]).

(** The name [a.txt]. *)
Definition a_txt : list byte := [x61; x2e; x74; x78; x74].

(** [with_log sb d rs]: the image [d] with a valid journal header and the
    log [rs] written into its journal region. *)
Definition with_log (sb : superblock) (d : disk) (rs : list record) : disk :=
  let nbytes_used :=
    sizeof_journal_header + Z.of_nat (length (enc_records rs)) in
  write_journal_bytes sb d 0
    (enc_journal_header JOURNAL_MAGIC nbytes_used ++ enc_records rs).

Definition block_of (c : byte) : list byte :=
  repeat c (Z.to_nat BLOCK_SIZE).







(** A log whose only transaction writes block 85 of an 85-block image. *)
Definition log_beyond : list record := [RData 85 (block_of x41); RCommit].

Definition image_beyond : disk := with_log fresh_sb fresh_image log_beyond.

(** A log whose only transaction rewrites block 40. *)
Definition log_one : list record := [RData 40 (block_of x41); RCommit].

Definition image_one : disk := with_log fresh_sb fresh_image log_one.

(** Byte [k] of block [b] of an image. *)
Definition block_byte (d : disk) (b k : Z) : option Z :=
  option_map (fun x => peek8 x k) (read_block d b).

(** The image left by an install that ran the record loop. *)
Definition installed (sb : superblock) (d : disk) : option (Z * disk) :=
  match journal_install sb d with
  | Done (Installed, n, d') => Some (n, d')
  | _ => None
  end.

(** ** What a create call reads and logs *)

(** The value of [jh.nbytes_used] after the header was read and, if its
    magic was wrong, initialised. *)
Definition used_of (jh : list byte) : Z :=
  if peek32 jh 0 =? JOURNAL_MAGIC then peek32 jh 4
  else sizeof_journal_header.

Definition needed_space : Z := 4 * sizeof_data_record + sizeof_commit_record.

(** The facts a successful create call rests on. *)
Record create_facts (sb : superblock) (current_time : Z)
  (filename : list byte) (d : disk) (free_inode : Z) (d' : disk)
  (jh inode_bitmap inode_block0 inode_block1 dir_block : list byte)
  (free_dirent : Z) : Prop := mk_create_facts {
  cf_name : Z.of_nat (length (cstr filename)) <= 27;
  cf_header : read_journal_bytes sb d 0 sizeof_journal_header = Some jh;
  cf_space : wrap32 (used_of jh + needed_space) <= JOURNAL_BLOCKS * BLOCK_SIZE;
  cf_bitmap : read_block d (sb_inode_bitmap sb) = Some inode_bitmap;
  cf_inode : free_inode = free_inode_of inode_bitmap;
  cf_inode_found : free_inode <> -1;
  cf_block0 : read_block d (sb_inode_start sb) = Some inode_block0;
  cf_block1 :
    read_block d (wrap32 (sb_inode_start sb + 1)) = Some inode_block1;
  cf_dir : read_block d (inode_direct inode_block0 0 0) = Some dir_block;
  cf_slot :
    scan_dirents dir_block (cstr filename)
      (zrange 0 (Z.to_nat MAX_DIRENTS)) (-1) = Some free_dirent;
  cf_slot_found : free_dirent <> -1;
  cf_image :
    d' = log_staged sb (used_of jh)
           (prepare inode_bitmap inode_block0 inode_block1 dir_block
              (inode_direct inode_block0 0 0) free_inode free_dirent
              (wrap32 current_time) (cstr filename)) d
}.

(** ** The capacity check on the README's scenario *)

(** [create_each]: one create call per name, each on the image the one
    before left. *)
Fixpoint create_each (sb : superblock) (t : Z) (names : list (list byte))
  (d : disk) : list create_status * disk :=
  match names with
  | [] => ([], d)
  | n :: rest =>
      let r := journal_create sb t n d in
      let r' := create_each sb t rest (snd r) in
      (fst r :: fst r', snd r')
  end.

(** The names [f1.txt] to [f5.txt]. *)
Definition f_txt (digit : byte) : list byte :=
  [x66; digit; x2e; x74; x78; x74].

Definition five_names : list (list byte) :=
  map f_txt [x31; x32; x33; x34; x35].

Definition used_bytes_of (sb : superblock) (d : disk) : option Z :=
  option_map (fun jh => peek32 jh 4)
    (read_journal_bytes sb d 0 sizeof_journal_header).

(** The statuses of the calls of [create_each] and [nbytes_used] as the
    journal header has it afterwards. *)
Definition create_each_used (sb : superblock) (t : Z)
  (names : list (list byte)) (d : disk) : list create_status * option Z :=
  let r := create_each sb t names d in
  (fst r, used_bytes_of sb (snd r)).


(** The records a create call appends, in the order it writes them. *)
Definition staged_records (sb : superblock) (s : staged) : list record :=
  [RData (sb_inode_bitmap sb) (st_inode_bitmap s);
   RData (sb_inode_start sb) (st_inode_block0 s)]
  ++ (if st_inode_in_block1 s
      then [RData (wrap32 (sb_inode_start sb + 1)) (st_inode_block1 s)]
      else [])
  ++ [RData (st_root_dir_block s) (st_dir_block s); RCommit].

Definition staged_wf (s : staged) : Prop :=
  Z.of_nat (length (st_inode_bitmap s)) = BLOCK_SIZE
  /\ Z.of_nat (length (st_inode_block0 s)) = BLOCK_SIZE
  /\ Z.of_nat (length (st_inode_block1 s)) = BLOCK_SIZE
  /\ Z.of_nat (length (st_dir_block s)) = BLOCK_SIZE.

(** The 48 bytes that [init_file_inode] writes over an inode. *)
Definition file_inode_bytes (current_time : Z) : list byte :=
  enc16 INODE_FILE ++ enc16 1 ++ enc32 0
  ++ enc32 0 ++ enc32 0 ++ enc32 0 ++ enc32 0
  ++ enc32 0 ++ enc32 0 ++ enc32 0 ++ enc32 0
  ++ enc32 current_time ++ enc32 current_time.

(** The 28 bytes of a name field after [memset] and [strncpy]. *)
Definition name_field (filename : list byte) : list byte :=
  firstn 27 filename ++ repeat x00 (28 - length (firstn 27 filename)).

(** What the journal region holds, for a create call to append to: a
    header and a log, or a header without the magic number (a journal
    never used), which stands for the empty log. *)
Definition journal_state (sb : superblock) (d : disk) (rs : list record)
  : Prop :=
  journal_holds sb d rs
  \/ (rs = []
      /\ exists jh,
           read_journal_bytes sb d 0 sizeof_journal_header = Some jh
           /\ peek32 jh 0 <> JOURNAL_MAGIC).

(** ** Formatted images and the writes of staged transactions *)

(** The layout of section 6 of the spec, read off the superblock and
    inode 0: superblock, journal, inode bitmap, (data bitmap,) two
    inode-table blocks, then the data region with the root directory
    block [root], all inside an image of [len] bytes that 32-bit offsets
    can address. *)
Record layout (sb : superblock) (root len : Z) : Prop := mk_layout {
  lay_journal : 0 < sb_journal_block sb;
  lay_bitmap : sb_journal_block sb + JOURNAL_BLOCKS <= sb_inode_bitmap sb;
  lay_table : sb_inode_bitmap sb < sb_inode_start sb;
  lay_root : sb_inode_start sb + 1 < root;
  lay_end : (root + 1) * BLOCK_SIZE <= len;
  lay_max : len <= 2^32
}.

(** An image that [open_disk] accepts with superblock [sb] and whose
    layout is the formatted one. *)
Definition formatted (sb : superblock) (d : disk) : Prop :=
  open_disk d = Some sb
  /\ exists ib0,
       read_block d (sb_inode_start sb) = Some ib0
       /\ layout sb (inode_direct ib0 0 0) (Z.of_nat (length d)).

(** The writes a staged transaction asks for. *)
Definition staged_writes (sb : superblock) (s : staged)
  : list pending_write :=
  [(sb_inode_bitmap sb, st_inode_bitmap s);
   (sb_inode_start sb, st_inode_block0 s)]
  ++ (if st_inode_in_block1 s
      then [(wrap32 (sb_inode_start sb + 1), st_inode_block1 s)]
      else [])
  ++ [(st_root_dir_block s, st_dir_block s)].

(** Block [b] lies inside an image of [len] bytes. *)
Definition blk_in (len b : Z) : Prop :=
  0 <= b /\ (b + 1) * BLOCK_SIZE <= len.

(** The four metadata blocks of an image. *)
Record meta (sb : superblock) (d : disk) (bm ib0 ib1 dir : list byte)
  : Prop := mk_meta {
  m_bitmap : read_block d (sb_inode_bitmap sb) = Some bm;
  m_block0 : read_block d (sb_inode_start sb) = Some ib0;
  m_block1 : read_block d (sb_inode_start sb + 1) = Some ib1;
  m_dir : read_block d (inode_direct ib0 0 0) = Some dir
}.

(** A transaction staged by a create call on an image whose metadata
    blocks are [bm], [ib0], [ib1] and [dir]: the blocks [prepare] makes
    for the free inode of [bm], some slot, time and name. *)
Definition staged_from (bm ib0 ib1 dir : list byte) (s : staged) : Prop :=
  exists slot t filename,
    0 <= slot < MAX_DIRENTS
    /\ s = prepare bm ib0 ib1 dir (inode_direct ib0 0 0) (free_inode_of bm)
             slot t filename.

(** ** The inode table a create call stages *)

(** The type field of inode [i], read in the inode-table block that
    holds it. *)
Definition inode_type_at (ib0 ib1 : list byte) (i : Z) : Z :=
  inode_type (if i <? INODES_PER_BLOCK then ib0 else ib1)
    (i mod INODES_PER_BLOCK).

(** The inode bitmap agrees with the inode table: bit [i] is set exactly
    when inode [i] is not free. *)
Definition agrees (bm ib0 ib1 : list byte) : Prop :=
  forall i, 0 <= i < MAX_INODES ->
            bit_is_clear bm i = false
            <-> inode_type_at ib0 ib1 i <> INODE_FREE.

(** ** Sequences of commands *)

(** The inode bitmap of the image agrees with its inode table. *)
Definition bitmap_agrees (sb : superblock) (d : disk) : Prop :=
  exists bm ib0 ib1,
    read_block d (sb_inode_bitmap sb) = Some bm
    /\ read_block d (sb_inode_start sb) = Some ib0
    /\ read_block d (sb_inode_start sb + 1) = Some ib1
    /\ agrees bm ib0 ib1.

(** One process per command, each on the image the one before left. *)
Fixpoint run (cs : list command) (d : disk) : outcome disk :=
  match cs with
  | [] => Done d
  | c :: cs' =>
      match main c d with
      | Done (_, d') => run cs' d'
      | Undefined => Undefined
      | OutOfFuel => OutOfFuel
      end
  end.

(** The invariant of a formatted image under create and install: the
    bitmap agrees with the inode table, and the journal is unused or
    holds transactions that create calls staged on the metadata blocks
    the image has now. *)
Definition inv (sb : superblock) (d : disk) : Prop :=
  formatted sb d
  /\ exists bm ib0 ib1 dir,
       meta sb d bm ib0 ib1 dir
       /\ agrees bm ib0 ib1
       /\ exists txs,
            Forall (staged_from bm ib0 ib1 dir) txs
            /\ journal_state sb d (flat_map (staged_records sb) txs)
            /\ sizeof_journal_header
               + Z.of_nat (length (enc_records
                                     (flat_map (staged_records sb) txs)))
               <= JOURNAL_BLOCKS * BLOCK_SIZE
            /\ (txs <> [] ->
                1 <= free_inode_of bm < MAX_INODES
                /\ bit_is_clear bm (free_inode_of bm) = true).

(** Two directory blocks are alike for a name when they have the same
    used slots and compare alike with the name at each of them. *)
Definition alike (a b name : list byte) (i : Z) : Prop :=
  dirent_used a i = dirent_used b i
  /\ (dirent_used b i = true ->
      strcmp_eq a (dirent_off i + off_name) name
      = strcmp_eq b (dirent_off i + off_name) name).

(** ** The sample image as a starting point *)

(** The bitmap check as a function. *)
Definition agreesb (bm ib0 ib1 : list byte) : bool :=
  forallb (fun i => Bool.eqb (negb (bit_is_clear bm i))
                      (negb (inode_type_at ib0 ib1 i =? INODE_FREE)))
    (zrange 0 (Z.to_nat MAX_INODES)).

Definition fresh_bitmap : list byte := sub fresh_image (17 * BLOCK_SIZE) BLOCK_SIZE.

Definition fresh_ib0 : list byte := sub fresh_image (19 * BLOCK_SIZE) BLOCK_SIZE.

Definition fresh_ib1 : list byte := sub fresh_image (20 * BLOCK_SIZE) BLOCK_SIZE.

Definition fresh_dir : list byte := sub fresh_image (21 * BLOCK_SIZE) BLOCK_SIZE.

(** The sample image with a journal header that carries the magic number
    and [nbytes_used = used]. *)
Definition image_used (used : Z) : disk :=
  write_journal_bytes fresh_sb fresh_image 0
    (enc_journal_header JOURNAL_MAGIC used).

(** [nbytes_used = 2^32 - 4096]. *)
Definition image_wrapped : disk := image_used (2^32 - BLOCK_SIZE).

(** What a create call returns and leaves in block 0. *)
Definition create_observed (sb : superblock) (t : Z) (filename : list byte)
  (d : disk) : create_status * option (list byte) * option superblock :=
  let r := journal_create sb t filename d in
  (fst r, read_block (snd r) 0, open_disk (snd r)).

(** ** The bitmap searches *)

(** [find_free_bit (bitmap, max_bits)]: the inner loop over the bits of
    byte [i], whose value is [b]. *)
Fixpoint find_free_bit_in (b i : Z) (js : list Z) : option Z :=
  match js with
  | [] => None
  | j :: rest =>
      if Z.land b (Z.shiftl 1 j) =? 0 then Some (i * 8 + j)
      else find_free_bit_in b i rest
  end.

(** The outer loop, over the bytes [i < max_bits / 8]. *)
Fixpoint find_free_bit_loop (bitmap : list byte) (ixs : list Z) : Z :=
  match ixs with
  | [] => -1
  | i :: rest =>
      if negb (peek8 bitmap i =? 255) then
        match find_free_bit_in (peek8 bitmap i) i (zrange 0 8) with
        | Some idx => idx
        | None => find_free_bit_loop bitmap rest
        end
      else find_free_bit_loop bitmap rest
  end.

(** [max_bits / 8] is C's division of [int]s, which truncates. *)
Definition find_free_bit (bitmap : list byte) (max_bits : Z) : Z :=
  find_free_bit_loop bitmap (zrange 0 (Z.to_nat (Z.quot max_bits 8))).

Definition nonzero (k : Z) : bool := negb (k =? 0).

(** ** The blocks a create call stages, byte by byte *)

Definition inode_ctime (blk : list byte) (idx : Z) : Z :=
  peek32 blk (inode_off idx + off_ctime).

Definition inode_mtime (blk : list byte) (idx : Z) : Z :=
  peek32 blk (inode_off idx + off_mtime).

(** The size write of inode 0: [inodes0[0].size = (highest_used + 1) *
    sizeof (struct dirent)] when a slot is used. *)
Definition size_write (blk : list byte) (highest_used : Z) : list byte :=
  if highest_used >=? 0
  then pwrite blk (inode_off 0 + off_size)
         (enc32 ((highest_used + 1) * sizeof_dirent))
  else blk.

(** ** Several create calls before an install *)

(** The number of create calls whose transactions the journal takes:
    four when the free inode lies in the first inode-table block (three
    data records a transaction), three when it lies in the second (four
    data records). *)
Definition creates_cap (bm : list byte) : nat :=
  if INODES_PER_BLOCK <=? free_inode_of bm then 3%nat else 4%nat.

(** The transaction that a create call for [name] stages on the metadata
    blocks [bm], [ib0], [ib1], [dir]. *)
Definition staged_for (bm ib0 ib1 dir : list byte) (t : Z)
  (name : list byte) : staged :=
  prepare bm ib0 ib1 dir (inode_direct ib0 0 0) (free_inode_of bm)
    (first_empty dir (zrange 0 (Z.to_nat MAX_DIRENTS))) (wrap32 t)
    (cstr name).

(** A name that passes the checks of [journal_create] on the directory
    block [dir]. *)
Definition name_ok (dir name : list byte) : Prop :=
  Z.of_nat (length (cstr name)) <= 27 /\ ~ conflict dir (cstr name).

(** ** Install on a log with a record it does not accept *)


(** ** The command line, from [argv] *)

(** [strcmp (a, b) == 0] for two C strings. *)
Fixpoint bytes_eqb (a b : list byte) : bool :=
  match a, b with
  | [], [] => true
  | x :: a', y :: b' => Byte.eqb x y && bytes_eqb a' b'
  | _, _ => false
  end.

Definition streq (a b : list byte) : bool := bytes_eqb (cstr a) (cstr b).

(** The strings [create] and [install]. *)
Definition str_create : list byte := [x63; x72; x65; x61; x74; x65].

Definition str_install : list byte := [x69; x6e; x73; x74; x61; x6c; x6c].

(** [main (argc, argv)] with [argv] as the list of its [argc] strings:
    the exit code and the image left behind. *)
Definition main_args (argv : list (list byte)) (current_time : Z) (d : disk)
  : outcome (Z * disk) :=
  match argv with
  | [] | [_] => Done (1, d)
  | _ :: command :: args =>
      match open_disk d with
      | None => Done (1, d)
      | Some sb =>
          if streq command str_create then
            match args with
            | [] => Done (1, d)
            | filename :: _ =>
                let '(s, d') := journal_create sb current_time filename d in
                Done (if create_ret s =? 0 then 0 else 1, d')
            end
          else if streq command str_install then
            match journal_install sb d with
            | Done (s, _, d') =>
                Done (if install_ret s =? 0 then 0 else 1, d')
            | Undefined => Undefined
            | OutOfFuel => OutOfFuel
            end
          else Done (1, d)
      end
  end.

(** ** A create call that is interrupted *)

(** The calls of [write_journal_bytes] that [journal_create] makes, in
    the order it makes them: offset and bytes.  The header comes last. *)
Definition journal_writes (sb : superblock) (nbytes_used : Z) (s : staged)
  : list (Z * list byte) :=
  let offset := nbytes_used in
  let w1 := (offset,
             enc_data_record (sb_inode_bitmap sb) (st_inode_bitmap s)) in
  let offset := wrap32 (offset + sizeof_data_record) in
  let w2 := (offset,
             enc_data_record (sb_inode_start sb) (st_inode_block0 s)) in
  let offset := wrap32 (offset + sizeof_data_record) in
  let w3 := if st_inode_in_block1 s
            then [(offset,
                   enc_data_record (wrap32 (sb_inode_start sb + 1))
                     (st_inode_block1 s))]
            else [] in
  let offset := if st_inode_in_block1 s
                then wrap32 (offset + sizeof_data_record) else offset in
  let w4 := (offset,
             enc_data_record (st_root_dir_block s) (st_dir_block s)) in
  let offset := wrap32 (offset + sizeof_data_record) in
  let w5 := (offset, enc_commit_record) in
  let offset := wrap32 (offset + sizeof_commit_record) in
  [w1; w2] ++ w3 ++ [w4; w5; (0, enc_journal_header JOURNAL_MAGIC offset)].

(** The image after a list of journal writes. *)
Definition do_writes (sb : superblock) (ws : list (Z * list byte)) (d : disk)
  : disk :=
  fold_left (fun d w => write_journal_bytes sb d (fst w) (snd w)) ws d.

(** ** Install on a data record that is cut short *)

(** The number of data records since the last commit record. *)
Fixpoint open_run (rs : list record) (n : nat) : nat :=
  match rs with
  | [] => n
  | RData _ _ :: rs' => open_run rs' (Datatypes.S n)
  | RCommit :: rs' => open_run rs' 0
  end.

(** The header of a data record whose size field passes the check of
    the loop, with fewer bytes after it than a data record has. *)
Definition cut_short (tail : list byte) : Prop :=
  4 <= Z.of_nat (length tail) < sizeof_data_record
  /\ peek16 tail 0 = REC_DATA
  /\ 0 < peek16 tail 2 <= Z.of_nat (length tail).

(** ** The second copy of [journal_create] *)

(** The blocks as the second copy prepares them: the statements of the
    first, with [get_highest_dirent] for the loop. *)
Definition prepare_v2 (inode_bitmap inode_block0 inode_block1 dir_block
                         : list byte)
  (root_dir_block free_inode free_slot current_time : Z)
  (filename : list byte) : staged :=
  let in_block1 := INODES_PER_BLOCK <=? free_inode in
  let inode_bitmap' := set_bit inode_bitmap free_inode in
  let inode_block1' :=
    if in_block1
    then init_file_inode inode_block1 (free_inode - INODES_PER_BLOCK)
           current_time
    else inode_block1 in
  let inode_block0' :=
    if in_block1 then inode_block0
    else init_file_inode inode_block0 free_inode current_time in
  let dir_block' := set_dirent dir_block free_slot free_inode filename in
  let highest := get_highest_dirent dir_block' in
  let inode_block0'' :=
    if highest >=? 0
    then pwrite inode_block0' (inode_off 0 + off_size)
           (enc32 ((highest + 1) * sizeof_dirent))
    else inode_block0' in
  mk_staged free_inode in_block1 root_dir_block
    inode_bitmap' inode_block0'' inode_block1' dir_block'.

(** [journal_create] of the second copy: the return value ([TRUE] is 1,
    [FALSE] is 0) and the image.  This copy does not test what its
    reads return; after a read that fails it goes on with a buffer whose
    contents are indeterminate, which is [Undefined] here. *)
Definition journal_create_v2 (sb : superblock) (current_time : Z)
  (filename : list byte) (d : disk) : outcome (Z * disk) :=
  let filename := cstr filename in
  if Z.of_nat (length filename) >? 27 then Done (0, d) else
  match read_journal_bytes sb d 0 sizeof_journal_header with
  | None => Undefined
  | Some jh =>
  let nbytes_used :=
    if peek32 jh 0 =? JOURNAL_MAGIC then peek32 jh 4
    else sizeof_journal_header in
  let space_available := JOURNAL_BLOCKS * BLOCK_SIZE in
  let space_needed := 4 * sizeof_data_record + sizeof_commit_record in
  if wrap32 (nbytes_used + space_needed) >? space_available
  then Done (0, d) else
  match read_block d (sb_inode_bitmap sb) with
  | None => Undefined
  | Some inode_bitmap =>
  let free_inode := find_free_inode inode_bitmap in
  if free_inode =? -1 then Done (0, d) else
  match read_block d (sb_inode_start sb) with
  | None => Undefined
  | Some inode_block0 =>
  match read_block d (wrap32 (sb_inode_start sb + 1)) with
  | None => Undefined
  | Some inode_block1 =>
  let root_dir_block := inode_direct inode_block0 0 0 in
  match read_block d root_dir_block with
  | None => Undefined
  | Some dir_block =>
  let '(result, free_slot) := find_free_dirent dir_block filename in
  if result =? -1 then Done (0, d) else
  if (result =? -2) || (free_slot =? -1) then Done (0, d) else
  let s := prepare_v2 inode_bitmap inode_block0 inode_block1 dir_block
             root_dir_block free_inode free_slot (wrap32 current_time)
             filename in
  Done (1, log_staged sb nbytes_used s d)
  end end end end end.

(** Whether a status of the first copy is one of its read failures. *)
Definition read_failed (s : create_status) : bool :=
  match s with
  | CannotReadJournal | CannotReadBitmap | CannotReadInodeTable
  | CannotReadRootDir => true
  | _ => false
  end.

(** ** The theorems above on the sample image *)

(** The names [a.txt] and [f1.txt]. *)
Definition two_names : list (list byte) := [a_txt; f_txt x31].



(** An eight-byte data record header with no payload after it. *)
Definition cut_tail : list byte := enc16 REC_DATA ++ enc16 8 ++ enc32 21.

Definition image_cut : disk :=
  let u := sizeof_journal_header + Z.of_nat (length (enc_records []))
           + Z.of_nat (length cut_tail) in
  write_journal_bytes fresh_sb fresh_image 0
    (enc_journal_header JOURNAL_MAGIC u ++ enc_records [] ++ cut_tail).

(** [journal_install] of the second copy: the return value ([TRUE] is
    1), the number of transactions it prints and the image.  This copy
    does not test what its reads return; after a read that fails it goes
    on with a header or a buffer whose contents are indeterminate, which
    is [Undefined] here.  The record loop is that of the first copy. *)
Definition journal_install_v2 (sb : superblock) (d : disk)
  : outcome (Z * Z * disk) :=
  match read_journal_bytes sb d 0 sizeof_journal_header with
  | None => Undefined
  | Some jh =>
  if negb (peek32 jh 0 =? JOURNAL_MAGIC) then Done (1, 0, d) else
  let nbytes_used := peek32 jh 4 in
  if nbytes_used <=? sizeof_journal_header then Done (1, 0, d) else
  match read_journal_bytes sb d 0 nbytes_used with
  | None => Undefined
  | Some journal_data =>
  match install_loop write_block (Z.to_nat nbytes_used) journal_data
          nbytes_used sizeof_journal_header [] 0 d with
  | Done (transactions, _, d') =>
      Done (1, transactions,
            write_journal_bytes sb d' 0
              (enc_journal_header (peek32 jh 0) sizeof_journal_header))
  | Undefined => Undefined
  | OutOfFuel => OutOfFuel
  end end end.

(** ** The second copy of [main] *)

(** [open_disk] of the second copy does not test what [read_block]
    returns.  The superblock is a global, so all zero before the read:
    on an image with no bytes the read leaves it so and the magic number
    does not match; after a read that stops inside the block its
    contents are indeterminate. *)
Definition open_disk_v2 (d : disk) : outcome (option superblock) :=
  match read_block d 0 with
  | Some b =>
      let sb := decode_superblock b in
      Done (if sb_magic sb =? SUPERBLOCK_MAGIC then Some sb else None)
  | None =>
      match d with
      | [] => Done None
      | _ :: _ => Undefined
      end
  end.

(** [main] of the second copy: [result] is [TRUE] or [FALSE], and the
    exit status is 0 exactly for [TRUE]. *)
Definition main_args_v2 (argv : list (list byte)) (current_time : Z)
  (d : disk) : outcome (Z * disk) :=
  match argv with
  | [] | [_] => Done (1, d)
  | _ :: command :: args =>
      match open_disk_v2 d with
      | Done None => Done (1, d)
      | Done (Some sb) =>
          if streq command str_create then
            match args with
            | [] => Done (1, d)
            | filename :: _ =>
                match journal_create_v2 sb current_time filename d with
                | Done (result, d') =>
                    Done (if result =? 1 then 0 else 1, d')
                | Undefined => Undefined
                | OutOfFuel => OutOfFuel
                end
            end
          else if streq command str_install then
            match journal_install_v2 sb d with
            | Done (result, _, d') =>
                Done (if result =? 1 then 0 else 1, d')
            | Undefined => Undefined
            | OutOfFuel => OutOfFuel
            end
          else Done (1, d)
      | Undefined => Undefined
      | OutOfFuel => OutOfFuel
      end
  end.

(** * Properties *)

(** ** Bytes and buffers *)

Lemma byte_to_Z_range (b : byte) : 0 <= byte_to_Z b < 256.
Proof.
  unfold byte_to_Z. pose proof (Byte.to_N_bounded b). lia.
Qed.

Lemma byte_to_Z_inj (a b : byte) : byte_to_Z a = byte_to_Z b -> a = b.
Proof.
  unfold byte_to_Z. intros H. apply N2Z.inj in H.
  pose proof (Byte.of_to_N a) as Ha. rewrite H, Byte.of_to_N in Ha.
  congruence.
Qed.

Lemma byte_to_Z_to_byte (z : Z) : byte_to_Z (Z_to_byte z) = z mod 256.
Proof.
  unfold Z_to_byte, byte_to_Z.
  assert (Hr : 0 <= z mod 256 < 256) by (apply Z.mod_pos_bound; lia).
  destruct (Byte.of_N (Z.to_N (z mod 256))) as [b|] eqn:E.
  - apply Byte.to_of_N in E. rewrite E. lia.
  - apply Byte.of_N_None_iff in E. lia.
Qed.

Lemma Z_to_byte_to_Z (b : byte) : Z_to_byte (byte_to_Z b) = b.
Proof.
  apply byte_to_Z_inj. rewrite byte_to_Z_to_byte.
  pose proof (byte_to_Z_range b). apply Z.mod_small. lia.
Qed.

Lemma length_pwrite (buf : list byte) (pos : Z) (bs : list byte) :
  length (pwrite buf pos bs)
  = Nat.max (length buf) (Z.to_nat pos + length bs).
Proof.
  unfold pwrite. rewrite !length_app, length_firstn, repeat_length,
    length_skipn. lia.
Qed.

Lemma nth_pwrite (buf : list byte) (pos : Z) (bs : list byte) (i : nat) :
  nth i (pwrite buf pos bs) x00
  = if (Z.to_nat pos <=? i)%nat && (i <? Z.to_nat pos + length bs)%nat
    then nth (i - Z.to_nat pos) bs x00
    else nth i buf x00.
Proof.
  unfold pwrite. set (p := Z.to_nat pos).
  destruct (Nat.leb_spec p i) as [Hpi|Hpi]; simpl.
  - assert (Hl : length (firstn p buf ++ repeat x00 (p - length buf)) = p).
    { rewrite length_app, length_firstn, repeat_length. lia. }
    rewrite app_assoc, app_nth2 by lia. rewrite Hl.
    destruct (Nat.ltb_spec i (p + length bs)) as [Hi|Hi].
    + rewrite app_nth1 by lia. reflexivity.
    + rewrite app_nth2 by lia. rewrite nth_skipn. f_equal. lia.
  - destruct (Nat.lt_ge_cases i (length buf)) as [Hb|Hb].
    + rewrite app_nth1 by (rewrite length_firstn; lia).
      rewrite nth_firstn.
      destruct (Nat.ltb_spec i p); [reflexivity|lia].
    + rewrite nth_overflow with (l := buf) by lia.
      rewrite app_nth2 by (rewrite length_firstn; lia).
      rewrite length_firstn.
      rewrite app_nth1 by (rewrite repeat_length; lia).
      apply nth_repeat.
Qed.

Lemma length_sub (buf : list byte) (off n : Z) :
  length (sub buf off n)
  = Nat.min (Z.to_nat n) (length buf - Z.to_nat off).
Proof. unfold sub. rewrite length_firstn, length_skipn. reflexivity. Qed.

Lemma nth_sub (buf : list byte) (off n : Z) (i : nat) :
  (i < Z.to_nat n)%nat ->
  nth i (sub buf off n) x00 = nth (Z.to_nat off + i) buf x00.
Proof.
  intros Hi. unfold sub. rewrite nth_firstn.
  destruct (Nat.ltb_spec i (Z.to_nat n)); [|lia].
  apply nth_skipn.
Qed.

(** Two buffers with the same length and the same bytes are equal. *)
Lemma buf_ext (a b : list byte) :
  length a = length b ->
  (forall i, (i < length a)%nat -> nth i a x00 = nth i b x00) ->
  a = b.
Proof. intros Hl Hn. apply (nth_ext a b x00 x00 Hl Hn). Qed.

Lemma peek8_range (buf : list byte) (off : Z) : 0 <= peek8 buf off < 256.
Proof. apply byte_to_Z_range. Qed.

Lemma peek8_overflow (buf : list byte) (off : Z) :
  (length buf <= Z.to_nat off)%nat -> peek8 buf off = 0.
Proof.
  intros H. unfold peek8. rewrite nth_overflow by lia. reflexivity.
Qed.

Lemma sub_nil (buf : list byte) (off n : Z) :
  (length buf <= Z.to_nat off)%nat -> sub buf off n = [].
Proof.
  intros H. apply length_zero_iff_nil. rewrite length_sub. lia.
Qed.

Lemma sub_cons (buf : list byte) (off n : Z) :
  0 <= off -> 0 < n -> (Z.to_nat off < length buf)%nat ->
  sub buf off n = nth (Z.to_nat off) buf x00 :: sub buf (off + 1) (n - 1).
Proof.
  intros Hoff Hn Hlt. apply buf_ext.
  - simpl. rewrite !length_sub. lia.
  - intros i Hi. rewrite length_sub in Hi.
    rewrite nth_sub by lia. destruct i as [|i]; simpl.
    + f_equal. lia.
    + rewrite nth_sub by lia. f_equal. lia.
Qed.

(** ** The free-slot search *)

Lemma zrange_In (lo : Z) (n : nat) (i : Z) :
  In i (zrange lo n) <-> lo <= i < lo + Z.of_nat n.
Proof.
  revert lo. induction n as [|n IH]; intros lo; simpl.
  - lia.
  - rewrite IH. lia.
Qed.

(** [strcmp] against a string without NUL that fits the name field
    compares the C string held in the field. *)
Lemma strcmp_eq_cstr (buf : list byte) (s : list byte) :
  forall (off n : Z),
    0 <= off -> cstr s = s -> Z.of_nat (length s) < n ->
    strcmp_eq buf off s = true <-> cstr (sub buf off n) = s.
Proof.
  induction s as [|c s IH]; intros off n Hoff Hs Hn; simpl in *.
  - destruct (Nat.lt_ge_cases (Z.to_nat off) (length buf)) as [Hlt|Hge].
    + rewrite sub_cons by lia. simpl. unfold peek8.
      destruct (byte_to_Z (nth (Z.to_nat off) buf x00) =? 0);
        split; congruence.
    + rewrite sub_nil, peek8_overflow by lia. simpl. split; reflexivity.
  - destruct (byte_to_Z c =? 0) eqn:Ec; [discriminate|].
    assert (Hs' : cstr s = s) by congruence.
    apply Z.eqb_neq in Ec.
    destruct (Nat.lt_ge_cases (Z.to_nat off) (length buf)) as [Hlt|Hge].
    + rewrite sub_cons by lia. simpl. unfold peek8 at 1.
      set (b := nth (Z.to_nat off) buf x00).
      rewrite andb_true_iff, Z.eqb_eq.
      rewrite (IH (off + 1) (n - 1)) by first [lia | assumption].
      destruct (byte_to_Z b =? 0) eqn:Eb.
      * apply Z.eqb_eq in Eb. split; [intros [H _]; lia|discriminate].
      * split.
        -- intros [H1 H2]. apply byte_to_Z_inj in H1. congruence.
        -- intros H. injection H as H1 H2. subst b. rewrite H1. auto.
    + rewrite sub_nil, peek8_overflow by lia. cbn [cstr].
      rewrite andb_true_iff, Z.eqb_eq. split; [intros [H _]; lia|discriminate].
Qed.

Lemma scan_dirents_None (dirents filename : list byte) (idxs : list Z) :
  forall fd,
    scan_dirents dirents filename idxs fd = None
    <-> exists i, In i idxs /\ slot_matches dirents filename i = true.
Proof.
  unfold slot_matches.
  induction idxs as [|i rest IH]; intros fd; simpl.
  - split; [discriminate|]. intros (i & [] & _).
  - destruct (dirent_used dirents i) eqn:Eu.
    + destruct (strcmp_eq dirents (dirent_off i + off_name) filename) eqn:Ec.
      * split; [|reflexivity]. intros _. exists i. rewrite Eu, Ec. auto.
      * rewrite IH. split; intros (j & Hj & Hm).
        -- exists j. auto.
        -- destruct Hj as [<-|Hj]; [rewrite Eu, Ec in Hm; discriminate|].
           exists j. auto.
    + assert (Hrest : forall fd',
                scan_dirents dirents filename rest fd' = None
                <-> exists j, In j (i :: rest)
                    /\ dirent_used dirents j
                       && strcmp_eq dirents (dirent_off j + off_name)
                            filename = true).
      { intros fd'. rewrite IH. split; intros (j & Hj & Hm).
        - exists j. simpl. auto.
        - destruct Hj as [<-|Hj]; [rewrite Eu in Hm; discriminate|].
          exists j. auto. }
      destruct (fd =? -1); apply Hrest.
Qed.

Lemma scan_dirents_Some (dirents filename : list byte) (idxs : list Z) :
  forall fd,
    (forall i, In i idxs -> 0 <= i) ->
    (forall i, In i idxs -> slot_matches dirents filename i = false) ->
    scan_dirents dirents filename idxs fd
    = Some (if fd =? -1 then first_empty dirents idxs else fd).
Proof.
  unfold slot_matches.
  induction idxs as [|i rest IH]; intros fd Hpos Hno; simpl.
  - destruct (fd =? -1) eqn:E; [apply Z.eqb_eq in E; congruence|reflexivity].
  - pose proof (Hno i (or_introl eq_refl)) as Hi.
    pose proof (Hpos i (or_introl eq_refl)) as Hi0.
    assert (Hrest : forall j, In j rest ->
              dirent_used dirents j
              && strcmp_eq dirents (dirent_off j + off_name) filename = false)
      by (intros j Hj; apply Hno; right; exact Hj).
    assert (Hpos' : forall j, In j rest -> 0 <= j)
      by (intros j Hj; apply Hpos; right; exact Hj).
    destruct (dirent_used dirents i) eqn:Eu; simpl in Hi.
    + rewrite Hi. apply IH; assumption.
    + destruct (fd =? -1) eqn:E.
      * rewrite IH by assumption.
        destruct (i =? -1) eqn:Ei; [apply Z.eqb_eq in Ei; lia|reflexivity].
      * rewrite IH by assumption. rewrite E. reflexivity.
Qed.

Lemma first_empty_zrange (dirents : list byte) (n : nat) :
  forall lo, 0 <= lo ->
    let r := first_empty dirents (zrange lo n) in
    (r = -1 /\ forall j, lo <= j < lo + Z.of_nat n ->
                 dirent_used dirents j = true)
    \/ (lo <= r < lo + Z.of_nat n /\ dirent_used dirents r = false
        /\ forall j, lo <= j < r -> dirent_used dirents j = true).
Proof.
  induction n as [|n IH]; intros lo Hlo; simpl.
  - left. split; [reflexivity|]. intros j Hj. lia.
  - destruct (dirent_used dirents lo) eqn:Eu.
    + destruct (IH (lo + 1) ltac:(lia)) as [[Hr Hall]|(Hr & Hu & Hlow)].
      * left. split; [exact Hr|]. intros j Hj.
        destruct (Z.eq_dec j lo) as [->|Hne]; [exact Eu|apply Hall; lia].
      * right. split; [lia|]. split; [exact Hu|]. intros j Hj.
        destruct (Z.eq_dec j lo) as [->|Hne]; [exact Eu|apply Hlow; lia].
    + right. split; [lia|]. split; [exact Eu|]. intros j Hj. lia.
Qed.

Lemma find_free_dirent_loop_scan (dirents filename : list byte)
  (idxs : list Z) :
  forall slot found,
    found = negb (slot =? -1) ->
    (forall i, In i idxs -> 0 <= i) ->
    match scan_dirents dirents filename idxs slot with
    | None =>
        fst (find_free_dirent_loop dirents filename idxs slot found) = -1
    | Some fd =>
        find_free_dirent_loop dirents filename idxs slot found
        = (if fd =? -1 then -2 else 0, fd)
    end.
Proof.
  induction idxs as [|i rest IH]; intros slot found Hf Hpos; simpl.
  - subst found. destruct (slot =? -1); reflexivity.
  - assert (Hpos' : forall j, In j rest -> 0 <= j)
      by (intros j Hj; apply Hpos; right; exact Hj).
    pose proof (Hpos i (or_introl eq_refl)) as Hi0.
    destruct (dirent_used dirents i).
    + destruct (strcmp_eq dirents (dirent_off i + off_name) filename).
      * reflexivity.
      * apply IH; assumption.
    + subst found. destruct (slot =? -1) eqn:E; simpl.
      * apply IH; [|assumption].
        destruct (Z.eqb_spec i (-1)); [lia|reflexivity].
      * apply IH; [|assumption]. rewrite E. reflexivity.
Qed.

Lemma slot_matches_spec (dirents filename : list byte) (i : Z) :
  0 <= i -> cstr filename = filename -> Z.of_nat (length filename) <= 27 ->
  slot_matches dirents filename i = true
  <-> dirent_used dirents i = true
      /\ cstr (dirent_name dirents i) = filename.
Proof.
  intros Hi Hs Hl. unfold slot_matches, dirent_name.
  rewrite andb_true_iff.
  rewrite (strcmp_eq_cstr dirents filename (dirent_off i + off_name) 28);
    [reflexivity| unfold dirent_off, sizeof_dirent, off_name; lia
    | exact Hs | lia].
Qed.

Lemma MAX_DIRENTS_val : MAX_DIRENTS = 128.
Proof. reflexivity. Qed.

Lemma MAX_DIRENTS_nat : Z.of_nat (Z.to_nat MAX_DIRENTS) = 128.
Proof. reflexivity. Qed.

Lemma conflict_iff (dirents filename : list byte) :
  cstr filename = filename -> Z.of_nat (length filename) <= 27 ->
  conflict dirents filename
  <-> exists i, In i (zrange 0 (Z.to_nat MAX_DIRENTS))
                /\ slot_matches dirents filename i = true.
Proof.
  intros Hs Hl. unfold conflict.
  split; intros (i & Hi & H).
  - exists i. split; [apply zrange_In; rewrite MAX_DIRENTS_nat;
                      rewrite MAX_DIRENTS_val in Hi; lia|].
    apply slot_matches_spec; [lia|assumption|assumption|exact H].
  - apply zrange_In in Hi. rewrite MAX_DIRENTS_nat in Hi. exists i.
    split; [rewrite MAX_DIRENTS_val; lia|].
    apply slot_matches_spec; [lia|assumption|assumption|exact H].
Qed.

(** The result of the scan when no slot holds the name. *)
Lemma scan_dirents_no_conflict (dirents filename : list byte) :
  cstr filename = filename -> Z.of_nat (length filename) <= 27 ->
  ~ conflict dirents filename ->
  scan_dirents dirents filename (zrange 0 (Z.to_nat MAX_DIRENTS)) (-1)
  = Some (first_empty dirents (zrange 0 (Z.to_nat MAX_DIRENTS))).
Proof.
  intros Hs Hl Hno.
  rewrite scan_dirents_Some; [reflexivity| |].
  - intros i Hi. apply zrange_In in Hi. lia.
  - intros i Hi. destruct (slot_matches dirents filename i) eqn:E;
      [|reflexivity].
    exfalso. apply Hno. apply conflict_iff; [assumption..|].
    exists i. auto.
Qed.

Lemma lowest_empty_unique (dirents : list byte) (s t : Z) :
  lowest_empty dirents s -> lowest_empty dirents t -> s = t.
Proof.
  intros (Hs & Hus & Hls) (Ht & Hut & Hlt).
  destruct (Z.lt_trichotomy s t) as [H|[H|H]]; [|exact H|].
  - rewrite Hlt in Hus by lia. discriminate.
  - rewrite Hls in Hut by lia. discriminate.
Qed.

Lemma first_empty_cases (dirents : list byte) :
  let r := first_empty dirents (zrange 0 (Z.to_nat MAX_DIRENTS)) in
  (r = -1 /\ all_used dirents) \/ lowest_empty dirents r.
Proof.
  pose proof (first_empty_zrange dirents (Z.to_nat MAX_DIRENTS) 0 ltac:(lia))
    as H.
  assert (E : Z.of_nat (Z.to_nat MAX_DIRENTS) = MAX_DIRENTS) by reflexivity.
  cbv zeta in *. rewrite E in H. destruct H as [[Hr Hall]|(Hr & Hu & Hl)].
  - left. split; [exact Hr|]. intros j Hj. apply Hall. lia.
  - right. split; [lia|]. split; [exact Hu|exact Hl].
Qed.

(** C7.  The free-slot search of [journal_create], and [find_free_dirent]
    of the second copy, on any directory block and any name of at most 27
    bytes: the search reports a conflict exactly when a used slot holds
    the name, whether or not an empty slot exists; otherwise it yields
    the lowest-indexed empty slot; and it reports a full directory
    ([-1] left in [free_dirent], return value [-2]) exactly when no slot
    holds the name and no slot is empty. *)
Theorem free_slot_search_spec (dirents filename : list byte) :
  cstr filename = filename -> Z.of_nat (length filename) <= 27 ->
  let r := scan_dirents dirents filename
             (zrange 0 (Z.to_nat MAX_DIRENTS)) (-1) in
  let r' := find_free_dirent dirents filename in
  (r = None <-> conflict dirents filename)
  /\ (forall s, r = Some s /\ s <> -1
                <-> ~ conflict dirents filename /\ lowest_empty dirents s)
  /\ (r = Some (-1) <-> ~ conflict dirents filename /\ all_used dirents)
  /\ (fst r' = -1 <-> conflict dirents filename)
  /\ (forall s, r' = (0, s)
                <-> ~ conflict dirents filename /\ lowest_empty dirents s)
  /\ (r' = (-2, -1) <-> ~ conflict dirents filename /\ all_used dirents).
Proof.
  intros Hs Hl r r'.
  assert (HNone : r = None <-> conflict dirents filename).
  { unfold r. rewrite scan_dirents_None. symmetry.
    apply conflict_iff; assumption. }
  assert (Hlink :
    match r with
    | None => fst r' = -1
    | Some fd => r' = (if fd =? -1 then -2 else 0, fd)
    end).
  { apply find_free_dirent_loop_scan; [reflexivity|].
    intros i Hi. apply zrange_In in Hi. lia. }
  assert (Hcase : conflict dirents filename \/ ~ conflict dirents filename).
  { destruct r eqn:E; [right|left; apply HNone; reflexivity].
    intros Hc. apply HNone in Hc. discriminate. }
  destruct Hcase as [Hc|Hnc].
  - (* a used slot holds the name *)
    pose proof (proj2 HNone Hc) as Er. rewrite Er in Hlink.
    split; [exact HNone|].
    split; [intros s; rewrite Er; split;
              [intros [? _]; discriminate|intros [? _]; contradiction]|].
    split; [rewrite Er; split;
              [discriminate|intros [? _]; contradiction]|].
    split; [tauto|].
    split; [intros s; split;
              [intros E; rewrite E in Hlink; discriminate
              |intros [? _]; contradiction]|].
    split; [intros E; rewrite E in Hlink; discriminate
           |intros [? _]; contradiction].
  - (* no slot holds the name *)
    pose proof (scan_dirents_no_conflict dirents filename Hs Hl Hnc) as Er.
    fold r in Er. rewrite Er in Hlink.
    pose proof (first_empty_cases dirents) as Hfe. cbv zeta in Hfe.
    set (fe := first_empty dirents (zrange 0 (Z.to_nat MAX_DIRENTS))) in *.
    split; [exact HNone|].
    destruct Hfe as [[Hfe Hall]|Hlow].
    + (* the directory is full *)
      rewrite Hfe in *. simpl in Hlink.
      assert (Hnl : forall s, ~ lowest_empty dirents s).
      { intros s (Hs1 & Hu & _). rewrite Hall in Hu by lia. discriminate. }
      split; [intros s; rewrite Er; split;
                [intros [E Hne]; congruence
                |intros [_ H]; exfalso; exact (Hnl s H)]|].
      split; [rewrite Er; tauto|].
      split; [rewrite Hlink; simpl; split; [lia|intros; contradiction]|].
      split; [intros s; rewrite Hlink; split;
                [intros E; discriminate
                |intros [_ H]; exfalso; exact (Hnl s H)]|].
      rewrite Hlink. tauto.
    + (* [fe] is the lowest empty slot *)
      assert (Hne : fe <> -1) by (destruct Hlow as (H & _); lia).
      assert (Hnall : ~ all_used dirents).
      { intros Hall. destruct Hlow as (H1 & Hu & _).
        rewrite Hall in Hu by lia. discriminate. }
      destruct (Z.eqb_spec fe (-1)) as [|_]; [contradiction|].
      split; [intros s; rewrite Er; split;
                [intros [E _]; injection E as <-; auto
                |intros [_ H]; split;
                   [f_equal; eapply lowest_empty_unique; eassumption
                   |destruct H as (H & _); lia]]|].
      split; [rewrite Er; split;
                [intros E; congruence|intros [_ H]; contradiction]|].
      split; [rewrite Hlink; simpl; split; [lia|intros; contradiction]|].
      split; [intros s; rewrite Hlink; split;
                [intros E; injection E as <-; auto
                |intros [_ H]; f_equal;
                   eapply lowest_empty_unique; eassumption]|].
      rewrite Hlink. split; [intros E; discriminate
                            |intros [_ H]; contradiction].
Qed.

(** ** Reading back what was written *)

Lemma wrap32_range (z : Z) : 0 <= wrap32 z < 2^32.
Proof. unfold wrap32. apply Z.mod_pos_bound. lia. Qed.

Lemma wrap32_small (z : Z) : 0 <= z < 2^32 -> wrap32 z = z.
Proof. unfold wrap32. apply Z.mod_small. Qed.

Lemma le32_decode (z : Z) :
  z mod 256 + 256 * (Z.shiftr z 8 mod 256)
  + 65536 * (Z.shiftr z 16 mod 256) + 16777216 * (Z.shiftr z 24 mod 256)
  = z mod 2^32.
Proof.
  rewrite !Z.shiftr_div_pow2 by lia.
  change (2^32) with (256 * (256 * (256 * 256))).
  rewrite (Z.rem_mul_r z 256 (256 * (256 * 256))) by lia.
  rewrite (Z.rem_mul_r (z / 256) 256 (256 * 256)) by lia.
  rewrite (Z.rem_mul_r (z / 256 / 256) 256 256) by lia.
  rewrite !Z.div_div by lia.
  change (2^8) with 256. change (2^16) with (256 * 256).
  change (2^24) with (256 * 256 * 256).
  change (256 * 256 * 256) with 16777216. change (256 * 256) with 65536.
  lia.
Qed.

Lemma le16_decode (z : Z) :
  z mod 256 + 256 * (Z.shiftr z 8 mod 256) = z mod 2^16.
Proof.
  rewrite !Z.shiftr_div_pow2 by lia.
  change (2^16) with (256 * 256).
  rewrite (Z.rem_mul_r z 256 256) by lia.
  change (2^8) with 256. lia.
Qed.

Lemma peek8_pwrite (buf : list byte) (pos : Z) (bs : list byte) (off : Z) :
  0 <= pos -> 0 <= off ->
  peek8 (pwrite buf pos bs) off
  = if (pos <=? off) && (off <? pos + Z.of_nat (length bs))
    then peek8 bs (off - pos) else peek8 buf off.
Proof.
  intros Hp Ho. unfold peek8. rewrite nth_pwrite.
  destruct (Z.leb_spec pos off), (Z.ltb_spec off (pos + Z.of_nat (length bs)));
    destruct (Nat.leb_spec (Z.to_nat pos) (Z.to_nat off));
    destruct (Nat.ltb_spec (Z.to_nat off) (Z.to_nat pos + length bs));
    simpl; try lia; try reflexivity.
  do 2 f_equal. lia.
Qed.

Lemma peek8_pwrite_other (buf : list byte) (pos : Z) (bs : list byte)
  (off : Z) :
  0 <= pos -> 0 <= off ->
  off < pos \/ pos + Z.of_nat (length bs) <= off ->
  peek8 (pwrite buf pos bs) off = peek8 buf off.
Proof.
  intros Hp Ho Hd. rewrite peek8_pwrite by assumption.
  destruct (Z.leb_spec pos off), (Z.ltb_spec off (pos + Z.of_nat (length bs)));
    simpl; try reflexivity; lia.
Qed.

Lemma peek8_pwrite_in (buf : list byte) (pos : Z) (bs : list byte) (off : Z) :
  0 <= pos -> pos <= off < pos + Z.of_nat (length bs) ->
  peek8 (pwrite buf pos bs) off = peek8 bs (off - pos).
Proof.
  intros Hp Hd. rewrite peek8_pwrite by lia.
  destruct (Z.leb_spec pos off), (Z.ltb_spec off (pos + Z.of_nat (length bs)));
    simpl; try reflexivity; lia.
Qed.

Lemma peek16_pwrite_other (buf : list byte) (pos : Z) (bs : list byte)
  (off : Z) :
  0 <= pos -> 0 <= off ->
  off + 2 <= pos \/ pos + Z.of_nat (length bs) <= off ->
  peek16 (pwrite buf pos bs) off = peek16 buf off.
Proof.
  intros Hp Ho Hd. unfold peek16.
  rewrite !peek8_pwrite_other by lia. reflexivity.
Qed.

Lemma peek32_pwrite_other (buf : list byte) (pos : Z) (bs : list byte)
  (off : Z) :
  0 <= pos -> 0 <= off ->
  off + 4 <= pos \/ pos + Z.of_nat (length bs) <= off ->
  peek32 (pwrite buf pos bs) off = peek32 buf off.
Proof.
  intros Hp Ho Hd. unfold peek32.
  rewrite !peek8_pwrite_other by lia. reflexivity.
Qed.

Lemma peek32_enc32 (z : Z) (rest : list byte) :
  peek32 (enc32 z ++ rest) 0 = wrap32 z.
Proof.
  unfold peek32, peek8, enc32.
  change (Z.to_nat 0) with 0%nat. change (Z.to_nat (0 + 1)) with 1%nat.
  change (Z.to_nat (0 + 2)) with 2%nat. change (Z.to_nat (0 + 3)) with 3%nat.
  cbn [nth app].
  rewrite !byte_to_Z_to_byte. apply le32_decode.
Qed.

Lemma peek16_enc16 (z : Z) (rest : list byte) :
  peek16 (enc16 z ++ rest) 0 = wrap16 z.
Proof.
  unfold peek16, peek8, enc16.
  change (Z.to_nat 0) with 0%nat. change (Z.to_nat (0 + 1)) with 1%nat.
  cbn [nth app].
  rewrite !byte_to_Z_to_byte. apply le16_decode.
Qed.

Lemma peek8_app_r (a b : list byte) (off : Z) :
  Z.of_nat (length a) <= off ->
  peek8 (a ++ b) off = peek8 b (off - Z.of_nat (length a)).
Proof.
  intros H. unfold peek8. rewrite app_nth2 by lia. do 2 f_equal. lia.
Qed.

Lemma peek8_app_l (a b : list byte) (off : Z) :
  0 <= off < Z.of_nat (length a) ->
  peek8 (a ++ b) off = peek8 a off.
Proof.
  intros H. unfold peek8. rewrite app_nth1 by lia. reflexivity.
Qed.

Lemma peek32_pwrite_enc32 (buf : list byte) (pos z : Z) :
  0 <= pos -> peek32 (pwrite buf pos (enc32 z)) pos = wrap32 z.
Proof.
  intros Hp. unfold peek32.
  rewrite !peek8_pwrite_in by (simpl; lia).
  replace (pos - pos) with 0 by lia.
  replace (pos + 1 - pos) with 1 by lia.
  replace (pos + 2 - pos) with 2 by lia.
  replace (pos + 3 - pos) with 3 by lia.
  rewrite <- (peek32_enc32 z []), app_nil_r. reflexivity.
Qed.

Lemma peek16_pwrite_enc16 (buf : list byte) (pos z : Z) :
  0 <= pos -> peek16 (pwrite buf pos (enc16 z)) pos = wrap16 z.
Proof.
  intros Hp. unfold peek16.
  rewrite !peek8_pwrite_in by (simpl; lia).
  replace (pos - pos) with 0 by lia.
  replace (pos + 1 - pos) with 1 by lia.
  rewrite <- (peek16_enc16 z []), app_nil_r. reflexivity.
Qed.

Lemma sub_pwrite_same (buf : list byte) (pos : Z) (bs : list byte) :
  0 <= pos -> sub (pwrite buf pos bs) pos (Z.of_nat (length bs)) = bs.
Proof.
  intros Hp. apply buf_ext.
  - rewrite length_sub, length_pwrite. lia.
  - intros i Hi. rewrite length_sub, length_pwrite in Hi.
    rewrite nth_sub by lia. rewrite nth_pwrite.
    destruct (Nat.leb_spec (Z.to_nat pos) (Z.to_nat pos + i));
      destruct (Nat.ltb_spec (Z.to_nat pos + i) (Z.to_nat pos + length bs));
      simpl; try lia.
    f_equal. lia.
Qed.

Lemma sub_pwrite_other (buf : list byte) (pos : Z) (bs : list byte)
  (off n : Z) :
  0 <= pos -> 0 <= off -> 0 <= n ->
  off + n <= Z.of_nat (length buf) ->
  off + n <= pos \/ pos + Z.of_nat (length bs) <= off ->
  sub (pwrite buf pos bs) off n = sub buf off n.
Proof.
  intros Hp Ho Hn Hin Hd. apply buf_ext.
  - rewrite !length_sub, length_pwrite. lia.
  - intros i Hi. rewrite length_sub, length_pwrite in Hi.
    rewrite !nth_sub by lia. rewrite nth_pwrite.
    destruct (Nat.leb_spec (Z.to_nat pos) (Z.to_nat off + i));
      destruct (Nat.ltb_spec (Z.to_nat off + i) (Z.to_nat pos + length bs));
      simpl; try reflexivity; lia.
Qed.

Lemma pread_Some (d : list byte) (pos n : Z) (b : list byte) :
  pread d pos n = Some b ->
  pos + n <= Z.of_nat (length d) /\ b = sub d pos n.
Proof.
  unfold pread. destruct (Z.leb_spec (pos + n) (Z.of_nat (length d)));
    [|discriminate].
  intros E. injection E as <-. auto.
Qed.

Lemma pread_length (d : list byte) (pos n : Z) (b : list byte) :
  0 <= pos -> 0 <= n -> pread d pos n = Some b -> Z.of_nat (length b) = n.
Proof.
  intros Hp Hn H. apply pread_Some in H as [Hle ->].
  rewrite length_sub. lia.
Qed.

Lemma pread_pwrite_same (d : list byte) (pos : Z) (bs : list byte) :
  0 <= pos ->
  pread (pwrite d pos bs) pos (Z.of_nat (length bs)) = Some bs.
Proof.
  intros Hp. unfold pread. rewrite length_pwrite.
  destruct (Z.leb_spec (pos + Z.of_nat (length bs))
              (Z.of_nat (Nat.max (length d) (Z.to_nat pos + length bs))));
    [|lia].
  f_equal. apply sub_pwrite_same. exact Hp.
Qed.

Lemma pread_pwrite_other (d : list byte) (pos : Z) (bs : list byte)
  (off n : Z) :
  0 <= pos -> 0 <= off -> 0 <= n ->
  off + n <= Z.of_nat (length d) ->
  off + n <= pos \/ pos + Z.of_nat (length bs) <= off ->
  pread (pwrite d pos bs) off n = pread d off n.
Proof.
  intros Hp Ho Hn Hin Hd. unfold pread. rewrite length_pwrite.
  destruct (Z.leb_spec (off + n) (Z.of_nat (length d))); [|lia].
  destruct (Z.leb_spec (off + n)
              (Z.of_nat (Nat.max (length d) (Z.to_nat pos + length bs))));
    [|lia].
  f_equal. apply sub_pwrite_other; assumption.
Qed.

Lemma apply_pending_log (pending calls : list pending_write) :
  apply_pending log_call pending calls = calls ++ pending.
Proof.
  unfold apply_pending.
  revert calls. induction pending as [|[b data] pending IH]; intros calls;
    cbn [fold_left fst snd].
  - rewrite app_nil_r. reflexivity.
  - rewrite IH. unfold log_call. rewrite <- app_assoc. reflexivity.
Qed.

Lemma apply_pending_app {S : Type} (wr : S -> Z -> list byte -> S)
  (p q : list pending_write) (st : S) :
  apply_pending wr (p ++ q) st = apply_pending wr q (apply_pending wr p st).
Proof. unfold apply_pending. apply fold_left_app. Qed.

Lemma install_loop_log_prefix (fuel : nat) (buf : list byte) (u : Z) :
  forall off pending t calls,
    install_loop log_call fuel buf u off pending t calls
    = outcome_map (fun r => (fst (fst r), snd (fst r), calls ++ snd r))
        (install_loop log_call fuel buf u off pending t []).
Proof.
  induction fuel as [|fuel IH]; intros off pending t calls; simpl.
  - reflexivity.
  - destruct (off <? u); [|simpl; rewrite app_nil_r; reflexivity].
    destruct (negb (in_buf buf off sizeof_rec_header)); [reflexivity|].
    destruct ((peek16 buf (off + 2) =? 0)
              || (wrap32 (off + peek16 buf (off + 2)) >? u));
      [simpl; rewrite app_nil_r; reflexivity|].
    destruct (peek16 buf off =? REC_DATA).
    + destruct (Z.of_nat (length pending) <? 16).
      * destruct (negb (in_buf buf off sizeof_data_record)); [reflexivity|].
        apply IH.
      * apply IH.
    + destruct (peek16 buf off =? REC_COMMIT).
      * rewrite IH.
        rewrite (IH _ _ _ (apply_pending log_call pending [])).
        rewrite !apply_pending_log.
        destruct (install_loop log_call fuel buf u
                    (wrap32 (off + sizeof_commit_record)) [] (t + 1) [])
          as [[[t' p'] c']| |]; simpl; [|reflexivity|reflexivity].
        rewrite app_assoc. reflexivity.
      * simpl. rewrite app_nil_r. reflexivity.
Qed.

(** Running the loop on a store is running it on the call log and then
    making the calls. *)
Lemma install_loop_calls {S : Type} (wr : S -> Z -> list byte -> S)
  (fuel : nat) (buf : list byte) (u : Z) :
  forall off pending t st,
    install_loop wr fuel buf u off pending t st
    = outcome_map
        (fun r => (fst (fst r), snd (fst r), apply_pending wr (snd r) st))
        (install_loop log_call fuel buf u off pending t []).
Proof.
  induction fuel as [|fuel IH]; intros off pending t st; simpl.
  - reflexivity.
  - destruct (off <? u); [|reflexivity].
    destruct (negb (in_buf buf off sizeof_rec_header)); [reflexivity|].
    destruct ((peek16 buf (off + 2) =? 0)
              || (wrap32 (off + peek16 buf (off + 2)) >? u));
      [reflexivity|].
    destruct (peek16 buf off =? REC_DATA).
    + destruct (Z.of_nat (length pending) <? 16).
      * destruct (negb (in_buf buf off sizeof_data_record)); [reflexivity|].
        apply IH.
      * apply IH.
    + destruct (peek16 buf off =? REC_COMMIT); [|reflexivity].
      rewrite IH. rewrite apply_pending_log.
      rewrite (install_loop_log_prefix fuel buf u _ [] (t + 1)
                 ([] ++ pending)).
      destruct (install_loop log_call fuel buf u
                  (wrap32 (off + sizeof_commit_record)) [] (t + 1) [])
        as [[[t' p'] c']| |]; simpl; [|reflexivity|reflexivity].
      rewrite apply_pending_app. reflexivity.
Qed.

(** The loop ends within the fuel [journal_install] gives it, whenever
    adding a record size to an offset inside the used region cannot wrap
    around. *)
Lemma install_loop_fuel {S : Type} (wr : S -> Z -> list byte -> S)
  (buf : list byte) (u : Z) :
  u + sizeof_data_record <= 2^32 ->
  forall fuel off pending t st,
    0 <= off ->
    (Z.to_nat (u - off) < fuel)%nat ->
    install_loop wr fuel buf u off pending t st <> OutOfFuel.
Proof.
  intros Hu. unfold sizeof_data_record, BLOCK_SIZE in Hu.
  induction fuel as [|fuel IH]; intros off pending t st Hoff Hf; [lia|].
  simpl.
  destruct (Z.ltb_spec off u) as [Hlt|Hge]; [|discriminate].
  destruct (negb (in_buf buf off sizeof_rec_header)); [discriminate|].
  destruct ((peek16 buf (off + 2) =? 0)
            || (wrap32 (off + peek16 buf (off + 2)) >? u));
    [discriminate|].
  assert (Hd : wrap32 (off + sizeof_data_record) = off + 4104)
    by (apply wrap32_small; unfold sizeof_data_record, BLOCK_SIZE; lia).
  assert (Hc : wrap32 (off + sizeof_commit_record) = off + 4)
    by (apply wrap32_small; unfold sizeof_commit_record; lia).
  destruct (peek16 buf off =? REC_DATA).
  - destruct (Z.of_nat (length pending) <? 16).
    + destruct (negb (in_buf buf off sizeof_data_record)); [discriminate|].
      rewrite Hd. apply IH; lia.
    + rewrite Hd. apply IH; lia.
  - destruct (peek16 buf off =? REC_COMMIT); [|discriminate].
    rewrite Hc. apply IH; lia.
Qed.

(** ** Install on an empty journal, and install twice *)

Lemma enc_journal_header_length (m u : Z) :
  Z.of_nat (length (enc_journal_header m u)) = sizeof_journal_header.
Proof. reflexivity. Qed.

Lemma enc_journal_header_magic (m u : Z) :
  peek32 (enc_journal_header m u) 0 = wrap32 m.
Proof. unfold enc_journal_header. apply peek32_enc32. Qed.

Lemma enc_journal_header_used (m u : Z) :
  peek32 (enc_journal_header m u) 4 = wrap32 u.
Proof.
  unfold enc_journal_header, peek32.
  rewrite !peek8_app_r by (simpl; lia).
  change (Z.of_nat (length (enc32 m))) with 4.
  replace (4 - 4) with 0 by lia. replace (4 + 1 - 4) with (0 + 1) by lia.
  replace (4 + 2 - 4) with (0 + 2) by lia.
  replace (4 + 3 - 4) with (0 + 3) by lia.
  rewrite <- (peek32_enc32 u []), app_nil_r. reflexivity.
Qed.

Lemma read_header_written (sb : superblock) (d : disk) (m u : Z) :
  read_journal_bytes sb (write_journal_bytes sb d 0 (enc_journal_header m u))
    0 sizeof_journal_header
  = Some (enc_journal_header m u).
Proof.
  unfold read_journal_bytes, write_journal_bytes.
  rewrite <- (enc_journal_header_length m u).
  apply pread_pwrite_same. apply wrap32_range.
Qed.

(** An install that finds a cleared header changes nothing. *)
Lemma journal_install_cleared (sb : superblock) (d : disk) (jh : list byte) :
  read_journal_bytes sb d 0 sizeof_journal_header = Some jh ->
  peek32 jh 0 <> JOURNAL_MAGIC \/ peek32 jh 4 <= sizeof_journal_header ->
  journal_install sb d = Done (NothingToInstall, 0, d).
Proof.
  intros Hr Hc. unfold journal_install. rewrite Hr.
  destruct (Z.eqb_spec (peek32 jh 0) JOURNAL_MAGIC) as [Hm|Hm]; simpl;
    [|reflexivity].
  destruct Hc as [Hc|Hc]; [contradiction|].
  destruct (Z.leb_spec (peek32 jh 4) sizeof_journal_header); [reflexivity|lia].
Qed.

(** C5.  Install is idempotent.  On a journal whose header magic is absent
    or whose [nbytes_used] is the header size, [journal_install] returns
    with zero transactions and the image untouched; and whatever a first
    call did, a second call right after it reports zero transactions and
    leaves the image exactly as the first call left it. *)
Theorem install_idempotent (sb : superblock) (d : disk) :
  (forall jh,
      read_journal_bytes sb d 0 sizeof_journal_header = Some jh ->
      peek32 jh 0 <> JOURNAL_MAGIC \/ peek32 jh 4 = sizeof_journal_header ->
      journal_install sb d = Done (NothingToInstall, 0, d))
  /\ (forall s n d1,
         journal_install sb d = Done (s, n, d1) ->
         exists s',
           journal_install sb d1 = Done (s', 0, d1)
           /\ (install_ret s = 0 -> s' = NothingToInstall)).
Proof.
  split.
  - intros jh Hr Hc. apply (journal_install_cleared sb d jh Hr).
    destruct Hc as [Hc|Hc]; [left; exact Hc|right; lia].
  - intros s n d1 H. pose proof H as H0. unfold journal_install in H.
    destruct (read_journal_bytes sb d 0 sizeof_journal_header) as [jh|] eqn:Hr.
    2:{ injection H as <- <- <-. exists CannotReadHeader.
        split; [exact H0|discriminate]. }
    destruct (Z.eqb_spec (peek32 jh 0) JOURNAL_MAGIC) as [Hm|Hm]; simpl in H.
    2:{ injection H as <- <- <-. exists NothingToInstall. split; [exact H0|auto]. }
    destruct (Z.leb_spec (peek32 jh 4) sizeof_journal_header) as [Hu|Hu].
    { injection H as <- <- <-. exists NothingToInstall. split; [exact H0|auto]. }
    destruct (read_journal_bytes sb d 0 (peek32 jh 4)) as [buf|] eqn:Hb.
    2:{ injection H as <- <- <-. exists CannotReadData.
        split; [exact H0|discriminate]. }
    destruct (install_loop write_block (Z.to_nat (peek32 jh 4)) buf
                (peek32 jh 4) sizeof_journal_header [] 0 d)
      as [[[t p] d']| |]; [|discriminate|discriminate].
    injection H as <- <- <-. exists NothingToInstall. split; [|auto].
    eapply journal_install_cleared; [apply read_header_written|].
    right. rewrite enc_journal_header_used.
    rewrite wrap32_small; unfold sizeof_journal_header; lia.
Qed.

Lemma enc_record_length (r : record) :
  wf_record r ->
  Z.of_nat (length (enc_record r))
  = match r with
    | RData _ _ => sizeof_data_record
    | RCommit => sizeof_commit_record
    end.
Proof.
  destruct r as [b data|]; cbn [enc_record wf_record]; [|reflexivity].
  intros [_ Hl]. unfold enc_data_record.
  rewrite !length_app. unfold sizeof_data_record in *.
  unfold enc16, enc32. cbn [length]. lia.
Qed.

Lemma enc_records_length (rs : list record) :
  Forall wf_record rs ->
  Z.of_nat (length (enc_records rs))
  = sizeof_data_record * count_data rs
    + sizeof_commit_record * count_commits rs.
Proof.
  induction 1 as [|r rs Hr _ IH]; [reflexivity|].
  unfold enc_records in *. cbn [flat_map]. rewrite length_app, Nat2Z.inj_add.
  rewrite (enc_record_length r Hr), IH.
  destruct r; cbn [count_data count_commits]; lia.
Qed.

Lemma count_data_nonneg (rs : list record) : 0 <= count_data rs.
Proof.
  induction rs as [|[|] rs IH]; cbn [count_data count_commits]; lia.
Qed.

Lemma count_commits_nonneg (rs : list record) : 0 <= count_commits rs.
Proof.
  induction rs as [|[|] rs IH]; cbn [count_data count_commits]; lia.
Qed.

Lemma count_length (rs : list record) :
  Z.of_nat (length rs) = count_data rs + count_commits rs.
Proof. induction rs as [|[|] rs IH]; cbn [length count_data count_commits]; lia. Qed.

(** Reading fields of a record that follows a prefix of the buffer. *)
Lemma peek8_at (pre x : list byte) (k : Z) :
  0 <= k ->
  peek8 (pre ++ x) (Z.of_nat (length pre) + k) = peek8 x k.
Proof.
  intros Hk. rewrite peek8_app_r by lia. f_equal. lia.
Qed.

Lemma peek16_at (pre x : list byte) (k : Z) :
  0 <= k ->
  peek16 (pre ++ x) (Z.of_nat (length pre) + k) = peek16 x k.
Proof.
  intros Hk. unfold peek16. rewrite <- Z.add_assoc.
  rewrite !peek8_at by lia. reflexivity.
Qed.

Lemma peek32_at (pre x : list byte) (k : Z) :
  0 <= k ->
  peek32 (pre ++ x) (Z.of_nat (length pre) + k) = peek32 x k.
Proof.
  intros Hk. unfold peek32. rewrite <- !Z.add_assoc.
  rewrite !peek8_at by lia. reflexivity.
Qed.

Lemma sub_at (pre x : list byte) (k n : Z) :
  0 <= k ->
  sub (pre ++ x) (Z.of_nat (length pre) + k) n = sub x k n.
Proof.
  intros Hk. unfold sub. f_equal.
  replace (Z.to_nat (Z.of_nat (length pre) + k))
    with (length pre + Z.to_nat k)%nat by lia.
  rewrite skipn_app, skipn_all2 by lia.
  replace (length pre + Z.to_nat k - length pre)%nat with (Z.to_nat k) by lia.
  reflexivity.
Qed.

Lemma sub_prefix (x rest : list byte) :
  sub (x ++ rest) 0 (Z.of_nat (length x)) = x.
Proof.
  unfold sub. simpl. rewrite Nat2Z.id, firstn_app, firstn_all.
  replace (length x - length x)%nat with 0%nat by lia.
  simpl. apply app_nil_r.
Qed.

Lemma wrap16_small (z : Z) : 0 <= z < 2^16 -> wrap16 z = z.
Proof. unfold wrap16. apply Z.mod_small. Qed.

Lemma enc_data_record_type (b : Z) (data rest : list byte) :
  peek16 (enc_data_record b data ++ rest) 0 = REC_DATA.
Proof.
  unfold enc_data_record. rewrite <- app_assoc, peek16_enc16. reflexivity.
Qed.

Lemma enc_data_record_size (b : Z) (data rest : list byte) :
  peek16 (enc_data_record b data ++ rest) 2 = sizeof_data_record.
Proof.
  unfold enc_data_record. rewrite <- !app_assoc.
  change 2 with (Z.of_nat (length (enc16 REC_DATA)) + 0).
  rewrite peek16_at by lia. rewrite peek16_enc16. reflexivity.
Qed.

Lemma enc_data_record_block (b : Z) (data rest : list byte) :
  0 <= b < 2^32 ->
  peek32 (enc_data_record b data ++ rest) 4 = b.
Proof.
  intros Hb. unfold enc_data_record.
  rewrite <- !app_assoc. rewrite (app_assoc (enc16 REC_DATA)).
  change 4 with
    (Z.of_nat (length (enc16 REC_DATA ++ enc16 sizeof_data_record)) + 0).
  rewrite peek32_at by lia. rewrite peek32_enc32. apply wrap32_small, Hb.
Qed.

Lemma enc_data_record_data (b : Z) (data rest : list byte) :
  sub (enc_data_record b data ++ rest) 8 (Z.of_nat (length data)) = data.
Proof.
  unfold enc_data_record.
  rewrite <- !app_assoc. rewrite (app_assoc (enc16 REC_DATA)).
  rewrite (app_assoc (enc16 REC_DATA ++ enc16 sizeof_data_record)).
  change 8 with
    (Z.of_nat (length ((enc16 REC_DATA ++ enc16 sizeof_data_record)
                       ++ enc32 b)) + 0).
  rewrite sub_at by lia. apply sub_prefix.
Qed.

Lemma enc_commit_record_type (rest : list byte) :
  peek16 (enc_commit_record ++ rest) 0 = REC_COMMIT.
Proof.
  unfold enc_commit_record. rewrite <- app_assoc, peek16_enc16. reflexivity.
Qed.

Lemma enc_commit_record_size (rest : list byte) :
  peek16 (enc_commit_record ++ rest) 2 = sizeof_commit_record.
Proof.
  unfold enc_commit_record. rewrite <- !app_assoc.
  change 2 with (Z.of_nat (length (enc16 REC_COMMIT)) + 0).
  rewrite peek16_at by lia. rewrite peek16_enc16. reflexivity.
Qed.

(** On a buffer that holds encoded records from [offset] to its end, the
    record loop is [replay]. *)
Lemma install_loop_records {S : Type} (wr : S -> Z -> list byte -> S)
  (buf : list byte) (u : Z) :
  u = Z.of_nat (length buf) -> u < 2^32 ->
  forall rs pre pending t st fuel,
    Forall wf_record rs ->
    buf = pre ++ enc_records rs ->
    (length rs < fuel)%nat ->
    install_loop wr fuel buf u (Z.of_nat (length pre)) pending t st
    = Done (replay wr rs pending t st).
Proof.
  intros Hu Hmax.
  induction rs as [|r rs IH]; intros pre pending t st fuel Hwf Hbuf Hfuel.
  - destruct fuel as [|fuel]; [simpl in Hfuel; lia|].
    cbn [install_loop replay]. unfold enc_records in Hbuf. simpl in Hbuf.
    rewrite app_nil_r in Hbuf. subst buf.
    destruct (Z.ltb_spec (Z.of_nat (length pre)) u); [lia|reflexivity].
  - destruct fuel as [|fuel]; [simpl in Hfuel; lia|].
    inversion Hwf as [|r' rs' Hr Hrs]; subst r' rs'.
    unfold enc_records in Hbuf. cbn [flat_map] in Hbuf.
    fold (enc_records rs) in Hbuf.
    pose proof (enc_record_length r Hr) as Hlen.
    assert (Hbl : Z.of_nat (length buf)
                  = Z.of_nat (length pre) + Z.of_nat (length (enc_record r))
                    + Z.of_nat (length (enc_records rs))).
    { rewrite Hbuf, !length_app. lia. }
    assert (Hnext : buf = (pre ++ enc_record r) ++ enc_records rs)
      by (rewrite <- app_assoc; exact Hbuf).
    set (off := Z.of_nat (length pre)) in *.
    assert (Hty : peek16 buf off = peek16 (enc_record r ++ enc_records rs) 0).
    { rewrite Hbuf. unfold off. rewrite <- (Z.add_0_r (Z.of_nat (length pre))).
      apply peek16_at. lia. }
    assert (Hsz : peek16 buf (off + 2)
                  = peek16 (enc_record r ++ enc_records rs) 2).
    { rewrite Hbuf. apply peek16_at. lia. }
    cbn [install_loop].
    destruct r as [b data|]; cbn [replay enc_record] in *.
    + destruct Hr as [Hb Hdl].
      unfold sizeof_data_record, BLOCK_SIZE in *.
      rewrite enc_data_record_type in Hty.
      rewrite enc_data_record_size in Hsz.
      unfold sizeof_data_record, BLOCK_SIZE in Hsz.
      destruct (Z.ltb_spec off u); [|lia].
      unfold in_buf, sizeof_rec_header.
      destruct (Z.leb_spec 0 off); [|lia].
      destruct (Z.leb_spec (off + 4) (Z.of_nat (length buf))); [|lia].
      cbn [andb negb]. rewrite Hsz, Hty.
      assert (Hw : wrap32 (off + (4 + 4 + 4096)) = off + (4 + 4 + 4096))
        by (apply wrap32_small; lia).
      rewrite Hw. cbn [Z.eqb orb].
      destruct (Z.gtb_spec (off + (4 + 4 + 4096)) u); [lia|].
      change (REC_DATA =? REC_DATA) with true. cbn iota.
      assert (Hoff' : off + (4 + 4 + 4096)
                      = Z.of_nat (length (pre ++ enc_data_record b data))).
      { rewrite length_app. unfold off. lia. }
      destruct (Z.of_nat (length pending) <? 16).
      * destruct (Z.leb_spec (off + (4 + 4 + 4096)) (Z.of_nat (length buf)));
          [|lia].
        cbn [negb].
        assert (Hblk : peek32 buf (off + 4) = b).
        { rewrite Hbuf. unfold off. rewrite peek32_at by lia.
          apply enc_data_record_block, Hb. }
        assert (Hdat : sub buf (off + 8) 4096 = data).
        { rewrite Hbuf. unfold off. rewrite sub_at by lia.
          rewrite <- Hdl. apply enc_data_record_data. }
        rewrite Hblk, Hdat, Hoff'.
        apply IH; [exact Hrs|exact Hnext|simpl in Hfuel; lia].
      * rewrite Hoff'.
        apply IH; [exact Hrs|exact Hnext|simpl in Hfuel; lia].
    + unfold sizeof_commit_record in *.
      rewrite enc_commit_record_type in Hty.
      rewrite enc_commit_record_size in Hsz.
      unfold sizeof_commit_record in Hsz.
      destruct (Z.ltb_spec off u); [|lia].
      unfold in_buf, sizeof_rec_header.
      destruct (Z.leb_spec 0 off); [|lia].
      destruct (Z.leb_spec (off + 4) (Z.of_nat (length buf))); [|lia].
      cbn [andb negb]. rewrite Hsz, Hty.
      assert (Hw : wrap32 (off + 4) = off + 4) by (apply wrap32_small; lia).
      rewrite Hw. cbn [Z.eqb orb].
      destruct (Z.gtb_spec (off + 4) u); [lia|].
      change (REC_COMMIT =? REC_DATA) with false.
      change (REC_COMMIT =? REC_COMMIT) with true. cbn iota.
      assert (Hoff' : off + 4 = Z.of_nat (length (pre ++ enc_commit_record))).
      { rewrite length_app. unfold off. lia. }
      rewrite Hoff'.
      apply IH; [exact Hrs|exact Hnext|simpl in Hfuel; lia].
Qed.

Lemma sub_firstn (d : list byte) (p n m : Z) :
  0 <= m <= n -> sub d p m = firstn (Z.to_nat m) (sub d p n).
Proof.
  intros H. unfold sub. rewrite firstn_firstn.
  replace (Nat.min (Z.to_nat m) (Z.to_nat n)) with (Z.to_nat m) by lia.
  reflexivity.
Qed.

Lemma pread_prefix (d : list byte) (p : Z) (a b : list byte) :
  pread d p (Z.of_nat (length a) + Z.of_nat (length b)) = Some (a ++ b) ->
  pread d p (Z.of_nat (length a)) = Some a.
Proof.
  intros H. apply pread_Some in H as [Hle Heq]. unfold pread.
  destruct (Z.leb_spec (p + Z.of_nat (length a)) (Z.of_nat (length d)));
    [|lia].
  f_equal.
  rewrite (sub_firstn d p (Z.of_nat (length a) + Z.of_nat (length b)))
    by lia.
  rewrite <- Heq, Nat2Z.id, firstn_app, firstn_all.
  replace (length a - length a)%nat with 0%nat by lia.
  simpl. apply app_nil_r.
Qed.

Lemma replay_calls {S : Type} (wr : S -> Z -> list byte -> S)
  (rs : list record) :
  forall pending t st,
    replay wr rs pending t st
    = let r := replay log_call rs pending t [] in
      (fst (fst r), snd (fst r), apply_pending wr (snd r) st).
Proof.
  assert (Hpre : forall rs pending t calls,
             replay log_call rs pending t calls
             = let r := replay log_call rs pending t [] in
               (fst (fst r), snd (fst r), calls ++ snd r)).
  { clear rs. induction rs as [|[b data|] rs IH]; intros pending t calls;
      cbn [replay].
    - cbv zeta. cbn [fst snd]. rewrite app_nil_r. reflexivity.
    - apply IH.
    - rewrite IH. rewrite (IH [] (t + 1) (apply_pending log_call pending [])).
      cbv zeta. cbn [fst snd]. rewrite !apply_pending_log.
      rewrite app_assoc. reflexivity. }
  induction rs as [|[b data|] rs IH]; intros pending t st; cbn [replay].
  - reflexivity.
  - apply IH.
  - rewrite IH. rewrite (Hpre rs [] (t + 1) (apply_pending log_call pending [])).
    cbv zeta. cbn [fst snd]. rewrite apply_pending_log.
    rewrite apply_pending_app. reflexivity.
Qed.

(** [replay], with what is pending being the first 16 writes of the
    current run, makes the calls of the complete transactions. *)
Lemma replay_transactions {S : Type} (wr : S -> Z -> list byte -> S)
  (rs : list record) :
  forall run t st,
    fst (fst (replay wr rs (firstn 16 run) t st))
    = t + Z.of_nat (length (transactions rs run))
    /\ snd (replay wr rs (firstn 16 run) t st)
       = apply_pending wr (calls_of (transactions rs run)) st.
Proof.
  induction rs as [|[b data|] rs IH]; intros run t st;
    cbn [replay transactions].
  - cbn [fst snd length]. split; [lia|reflexivity].
  - assert (E : (if Z.of_nat (length (firstn 16 run)) <? 16
                 then firstn 16 run ++ [(b, data)] else firstn 16 run)
                = firstn 16 (run ++ [(b, data)])).
    { rewrite length_firstn, firstn_app.
      destruct (Nat.lt_ge_cases (length run) 16) as [Hl|Hl].
      - rewrite (firstn_all2 run) by lia.
        destruct (Z.ltb_spec (Z.of_nat (Nat.min 16 (length run))) 16); [|lia].
        f_equal. destruct (16 - length run)%nat eqn:E; [lia|].
        cbn [firstn]. destruct n; reflexivity.
      - destruct (Z.ltb_spec (Z.of_nat (Nat.min 16 (length run))) 16); [lia|].
        replace (16 - length run)%nat with 0%nat by lia.
        simpl. rewrite app_nil_r. reflexivity. }
    rewrite E. apply IH.
  - destruct (IH [] (t + 1) (apply_pending wr (firstn 16 run) st))
      as [IH1 IH2].
    change (firstn 16 (@nil pending_write)) with (@nil pending_write) in *.
    rewrite IH1, IH2. split.
    + cbn [length]. lia.
    + unfold calls_of. cbn [map concat]. rewrite apply_pending_app.
      reflexivity.
Qed.



Lemma enc_records_nonempty (rs : list record) :
  Forall wf_record rs -> rs <> [] ->
  4 * Z.of_nat (length rs) <= Z.of_nat (length (enc_records rs))
  /\ 0 < Z.of_nat (length (enc_records rs)).
Proof.
  intros Hwf Hne. rewrite (enc_records_length rs Hwf), count_length.
  pose proof (count_data_nonneg rs). pose proof (count_commits_nonneg rs).
  unfold sizeof_data_record, sizeof_commit_record, BLOCK_SIZE.
  assert (0 < Z.of_nat (length rs))
    by (destruct rs; [congruence|simpl; lia]).
  rewrite count_length in *. lia.
Qed.

Lemma journal_holds_header (sb : superblock) (d : disk) (rs : list record) :
  journal_holds sb d rs ->
  read_journal_bytes sb d 0 sizeof_journal_header
  = Some (enc_journal_header JOURNAL_MAGIC
            (sizeof_journal_header + Z.of_nat (length (enc_records rs)))).
Proof.
  intros (_ & _ & Hr). unfold read_journal_bytes in *. cbv zeta in Hr.
  set (h := enc_journal_header JOURNAL_MAGIC
              (sizeof_journal_header + Z.of_nat (length (enc_records rs))))
    in *.
  change sizeof_journal_header with (Z.of_nat (length h)) in Hr at 1.
  apply pread_prefix in Hr. exact Hr.
Qed.

(** [journal_install] on a journal that holds the log [rs]. *)
Lemma journal_install_holds (sb : superblock) (d : disk) (rs : list record) :
  journal_holds sb d rs -> rs <> [] ->
  journal_install sb d
  = Done (Installed, fst (fst (replay write_block rs [] 0 d)),
          write_journal_bytes sb (snd (replay write_block rs [] 0 d)) 0
            (enc_journal_header JOURNAL_MAGIC sizeof_journal_header)).
Proof.
  intros Hh Hne. pose proof (journal_holds_header sb d rs Hh) as Hhdr.
  destruct Hh as (Hwf & Hmax & Hr). cbv zeta in *.
  destruct (enc_records_nonempty rs Hwf Hne) as [Hlen Hpos].
  set (u := sizeof_journal_header + Z.of_nat (length (enc_records rs))) in *.
  assert (Hu8 : sizeof_journal_header < u) by (unfold u; lia).
  unfold journal_install. rewrite Hhdr.
  rewrite enc_journal_header_magic, enc_journal_header_used.
  change (wrap32 JOURNAL_MAGIC) with JOURNAL_MAGIC.
  change (JOURNAL_MAGIC =? JOURNAL_MAGIC) with true. cbn [negb].
  rewrite (wrap32_small u) by (unfold u, sizeof_journal_header in *; lia).
  destruct (Z.leb_spec u sizeof_journal_header); [lia|].
  rewrite Hr.
  assert (Hbl : u = Z.of_nat (length (enc_journal_header JOURNAL_MAGIC u
                                      ++ enc_records rs))).
  { rewrite length_app, Nat2Z.inj_add, enc_journal_header_length.
    reflexivity. }
  assert (Hfuel : (length rs < Z.to_nat u)%nat)
    by (unfold u, sizeof_journal_header in *; lia).
  pose proof (install_loop_records write_block _ u Hbl Hmax rs
                (enc_journal_header JOURNAL_MAGIC u) [] 0 d (Z.to_nat u)
                Hwf eq_refl Hfuel) as HL.
  change (Z.of_nat (length (enc_journal_header JOURNAL_MAGIC u)))
    with sizeof_journal_header in HL.
  rewrite HL.
  destruct (replay write_block rs [] 0 d) as [[t p] d']. reflexivity.
Qed.

Lemma journal_install_holds_empty (sb : superblock) (d : disk) :
  journal_holds sb d [] ->
  journal_install sb d = Done (NothingToInstall, 0, d).
Proof.
  intros Hh. pose proof (journal_holds_header sb d [] Hh) as Hhdr.
  eapply journal_install_cleared; [exact Hhdr|].
  right. rewrite enc_journal_header_used. simpl.
  rewrite wrap32_small; unfold sizeof_journal_header; lia.
Qed.

(** ** Where blocks lie in the image *)

Lemma block_pos (b : Z) :
  wrap32 (b * BLOCK_SIZE) = BLOCK_SIZE * (b mod 2^20).
Proof.
  unfold wrap32, BLOCK_SIZE. change (2^32) with (2^20 * 4096).
  rewrite Z.mul_mod_distr_r by lia. lia.
Qed.

Lemma block_pos_range (b : Z) :
  0 <= wrap32 (b * BLOCK_SIZE) /\ wrap32 (b * BLOCK_SIZE) + BLOCK_SIZE <= 2^32.
Proof.
  rewrite block_pos. unfold BLOCK_SIZE.
  pose proof (Z.mod_pos_bound b (2^20) ltac:(lia)). lia.
Qed.

Lemma blocks_apart (b1 b2 : Z) :
  wrap32 (b1 * BLOCK_SIZE) <> wrap32 (b2 * BLOCK_SIZE) ->
  wrap32 (b1 * BLOCK_SIZE) + BLOCK_SIZE <= wrap32 (b2 * BLOCK_SIZE)
  \/ wrap32 (b2 * BLOCK_SIZE) + BLOCK_SIZE <= wrap32 (b1 * BLOCK_SIZE).
Proof.
  rewrite !block_pos. unfold BLOCK_SIZE. lia.
Qed.

Lemma journal_start_pos (sb : superblock) :
  wrap32 (journal_start sb + 0) = journal_start sb.
Proof.
  rewrite Z.add_0_r. apply wrap32_small. apply wrap32_range.
Qed.

Lemma read_block_write_other (d : disk) (b b' : Z) (data x : list byte) :
  read_block d b = Some x ->
  Z.of_nat (length data) <= BLOCK_SIZE ->
  wrap32 (b' * BLOCK_SIZE) <> wrap32 (b * BLOCK_SIZE) ->
  read_block (write_block d b' data) b = Some x.
Proof.
  intros Hr Hl Hne. unfold read_block, write_block in *.
  pose proof (block_pos_range b). pose proof (block_pos_range b').
  apply blocks_apart in Hne.
  pose proof (pread_Some _ _ _ _ Hr) as [Hin _].
  rewrite pread_pwrite_other; [exact Hr|unfold BLOCK_SIZE in *; lia..].
Qed.

Lemma read_block_write_same (d : disk) (b : Z) (data : list byte) :
  Z.of_nat (length data) = BLOCK_SIZE ->
  read_block (write_block d b data) b = Some data.
Proof.
  intros Hl. unfold read_block, write_block.
  pose proof (pread_pwrite_same d (wrap32 (b * BLOCK_SIZE)) data
                (proj1 (block_pos_range b))) as H.
  rewrite Hl in H. exact H.
Qed.





(** ** Install on a log: complete transactions and dangling records *)

Lemma journal_install_transactions (sb : superblock) (d : disk)
  (rs : list record) :
  journal_holds sb d rs -> rs <> [] ->
  journal_install sb d
  = Done (Installed, Z.of_nat (length (transactions rs [])),
          write_journal_bytes sb
            (apply_pending write_block (calls_of (transactions rs [])) d) 0
            (enc_journal_header JOURNAL_MAGIC sizeof_journal_header)).
Proof.
  intros Hh Hne. rewrite (journal_install_holds sb d rs Hh Hne).
  destruct (replay_transactions write_block rs [] 0 d) as [H1 H2].
  change (firstn 16 (@nil pending_write)) with (@nil pending_write) in *.
  rewrite H1, H2. reflexivity.
Qed.





Lemma install_loop_scanned (buf : list byte) (u : Z) (fuel : nat) :
  forall off pending t calls r,
    install_loop log_call fuel buf u off pending t calls = Done r ->
    scanned buf u off ->
    (forall w, In w pending -> scanned_data buf u w) ->
    (forall w, In w calls -> scanned_data buf u w) ->
    forall w, In w (snd r) -> scanned_data buf u w.
Proof.
  induction fuel as [|fuel IH]; intros off pending t calls r H Hs Hp Hc;
    cbn [install_loop] in H; [discriminate|].
  destruct (Z.ltb_spec off u) as [Hlt|_]; [|injection H as <-; exact Hc].
  destruct (in_buf buf off sizeof_rec_header); cbn [negb] in H;
    [|discriminate].
  destruct (Z.eqb_spec (peek16 buf (off + 2)) 0) as [_|Hsz]; cbn [orb] in H;
    [injection H as <-; exact Hc|].
  destruct (Z.gtb_spec (wrap32 (off + peek16 buf (off + 2))) u) as [_|Hfit];
    [injection H as <-; exact Hc|].
  assert (Hacc : accepted buf u off)
    by (split; [exact Hlt|split; [exact Hsz|exact Hfit]]).
  destruct (Z.eqb_spec (peek16 buf off) REC_DATA) as [Hty|Hty].
  - pose proof (scanned_after_data buf u off Hs Hacc Hty) as Hs'.
    destruct (Z.of_nat (length pending) <? 16).
    + destruct (in_buf buf off sizeof_data_record) eqn:Hin; cbn [negb] in H;
        [|discriminate].
      eapply IH; [exact H|exact Hs'| |exact Hc].
      intros w Hw. apply in_app_or in Hw as [Hw|[<-|[]]]; [apply Hp, Hw|].
      unfold in_buf in Hin. apply andb_true_iff in Hin as [H0 H1].
      apply Z.leb_le in H0, H1.
      exists off. cbn [fst snd].
      split; [exact Hs|]. split; [exact Hacc|]. split; [exact Hty|].
      split; [exact H0|]. split; [exact H1|]. split; reflexivity.
    + eapply IH; [exact H|exact Hs'|exact Hp|exact Hc].
  - destruct (Z.eqb_spec (peek16 buf off) REC_COMMIT) as [Hcm|_];
      [|injection H as <-; exact Hc].
    eapply IH; [exact H|apply scanned_after_commit; assumption
               |intros w []|].
    rewrite apply_pending_log. intros w Hw.
    apply in_app_or in Hw as [Hw|Hw]; [apply Hc, Hw|apply Hp, Hw].
Qed.

(** C6, as the code has it.  Nothing compares a block index with the
    number of blocks.  Whatever bytes the used region of the journal
    holds, install applies every call of [write_block] of its committed
    transactions and reports success, whatever the indices are; every
    call asks for the block index and payload of a data record that the
    record loop read and accepted; so the indices of the calls lie within
    [0, n) whenever those of the data records the loop reads do, for any
    bound [n] and so for the image's block count. *)
Theorem install_writes_as_recorded (sb : superblock) (d : disk)
  (jh buf : list byte) (t : Z) (p calls : list pending_write) :
  read_journal_bytes sb d 0 sizeof_journal_header = Some jh ->
  peek32 jh 0 = JOURNAL_MAGIC ->
  sizeof_journal_header < peek32 jh 4 ->
  read_journal_bytes sb d 0 (peek32 jh 4) = Some buf ->
  install_writes buf (peek32 jh 4) = Done (t, p, calls) ->
  journal_install sb d
  = Done (Installed, t,
          write_journal_bytes sb (apply_pending write_block calls d) 0
            (enc_journal_header JOURNAL_MAGIC sizeof_journal_header))
  /\ (forall w, In w calls -> scanned_data buf (peek32 jh 4) w)
  /\ (forall n,
         (forall w, scanned_data buf (peek32 jh 4) w -> 0 <= fst w < n) ->
         forall w, In w calls -> 0 <= fst w < n).
Proof.
  intros Hjh Hm Hu Hbuf Hw.
  assert (Hrec : forall w, In w calls -> scanned_data buf (peek32 jh 4) w).
  { unfold install_writes in Hw.
    apply (install_loop_scanned buf (peek32 jh 4) _ _ _ _ _ _ Hw);
      [apply scanned_first|intros w []..]. }
  split; [|split; [exact Hrec|]].
  - unfold journal_install. rewrite Hjh, Hm.
    change (negb (JOURNAL_MAGIC =? JOURNAL_MAGIC)) with false. cbv iota.
    destruct (Z.leb_spec (peek32 jh 4) sizeof_journal_header); [lia|].
    rewrite Hbuf. rewrite install_loop_calls.
    unfold install_writes in Hw. rewrite Hw. reflexivity.
  - intros n Hn w Hin. apply Hn, Hrec, Hin.
Qed.

Lemma with_log_holds (sb : superblock) (d : disk) (rs : list record) :
  Forall wf_record rs ->
  sizeof_journal_header + Z.of_nat (length (enc_records rs)) < 2^32 ->
  journal_holds sb (with_log sb d rs) rs.
Proof.
  intros Hwf Hmax. unfold journal_holds, with_log. cbv zeta.
  split; [exact Hwf|]. split; [exact Hmax|].
  unfold read_journal_bytes, write_journal_bytes.
  set (u := sizeof_journal_header + Z.of_nat (length (enc_records rs))).
  set (x := enc_journal_header JOURNAL_MAGIC u ++ enc_records rs).
  assert (E : u = Z.of_nat (length x)).
  { unfold x. rewrite length_app, Nat2Z.inj_add, enc_journal_header_length.
    reflexivity. }
  rewrite E at 1. apply pread_pwrite_same. apply wrap32_range.
Qed.

Lemma block_of_length (c : byte) : Z.of_nat (length (block_of c)) = BLOCK_SIZE.
Proof. unfold block_of. rewrite repeat_length. reflexivity. Qed.

Lemma open_fresh_image : open_disk fresh_image = Some fresh_sb.
Proof. vm_compute. reflexivity. Qed.




Lemma free_slot_search_spec_witness :
  let dirents := sub fresh_image (21 * BLOCK_SIZE) BLOCK_SIZE in
  let filename := a_txt in
  let r := scan_dirents dirents filename
             (zrange 0 (Z.to_nat MAX_DIRENTS)) (-1) in
  let r' := find_free_dirent dirents filename in
  (r = None <-> conflict dirents filename)
  /\ (forall s, r = Some s /\ s <> -1
                <-> ~ conflict dirents filename /\ lowest_empty dirents s)
  /\ (r = Some (-1) <-> ~ conflict dirents filename /\ all_used dirents)
  /\ (fst r' = -1 <-> conflict dirents filename)
  /\ (forall s, r' = (0, s)
                <-> ~ conflict dirents filename /\ lowest_empty dirents s)
  /\ (r' = (-2, -1) <-> ~ conflict dirents filename /\ all_used dirents).
Proof.
  apply (free_slot_search_spec
           (sub fresh_image (21 * BLOCK_SIZE) BLOCK_SIZE) a_txt).
  - reflexivity.
  - simpl. lia.
Defined.

Lemma wf_record_dec (r : record) :
  match r with
  | RData b data =>
      (0 <=? b) && (b <? 2^32) && (Z.of_nat (length data) =? BLOCK_SIZE)
  | RCommit => true
  end = true ->
  wf_record r.
Proof.
  destruct r as [b data|]; [|intros _; exact I].
  intros H. apply andb_true_iff in H as [H H3].
  apply andb_true_iff in H as [H1 H2].
  apply Z.leb_le in H1. apply Z.ltb_lt in H2. apply Z.eqb_eq in H3.
  split; [lia|exact H3].
Qed.

Lemma Forall_wf_record_dec (rs : list record) :
  forallb (fun r =>
             match r with
             | RData b data =>
                 (0 <=? b) && (b <? 2^32)
                 && (Z.of_nat (length data) =? BLOCK_SIZE)
             | RCommit => true
             end) rs = true ->
  Forall wf_record rs.
Proof.
  intros H. rewrite forallb_forall in H. apply Forall_forall.
  intros r Hr. apply wf_record_dec, H, Hr.
Qed.





(** C6, as the claim states it, fails: nothing compares a block index
    with the block count.  Here the image has 85 blocks and the log's
    only transaction asks for block 85; install makes the call, returns
    success and leaves an image of 86 blocks whose last block is the
    payload. *)
Lemma write_beyond_total_blocks :
  open_disk image_beyond = Some fresh_sb
  /\ sb_total_blocks fresh_sb = 85
  /\ Z.of_nat (length image_beyond) = 85 * BLOCK_SIZE
  /\ journal_holds fresh_sb image_beyond log_beyond
  /\ option_map (fun jh => install_writes
                             (enc_journal_header JOURNAL_MAGIC (peek32 jh 4)
                              ++ enc_records log_beyond) (peek32 jh 4))
       (read_journal_bytes fresh_sb image_beyond 0 sizeof_journal_header)
     = Some (Done (1, [], [(85, block_of x41)]))
  /\ option_map (fun r => (fst r, Z.of_nat (length (snd r)),
                           block_byte (snd r) 85 0))
       (installed fresh_sb image_beyond)
     = Some (1, 86 * BLOCK_SIZE, Some 65)
  /\ outcome_map fst (main CmdInstall image_beyond) = Done 0.
Proof.
  assert (Hh : journal_holds fresh_sb image_beyond log_beyond).
  { apply with_log_holds.
    - apply Forall_wf_record_dec. vm_compute. reflexivity.
    - vm_compute. reflexivity. }
  split; [vm_compute; reflexivity|].
  split; [reflexivity|].
  split; [vm_compute; reflexivity|].
  split; [exact Hh|].
  split; [vm_compute; reflexivity|].
  split; [vm_compute; reflexivity|].
  vm_compute. reflexivity.
Qed.

Lemma install_writes_as_recorded_witness :
  let sb := fresh_sb in
  let d := image_one in
  let jh := enc_journal_header JOURNAL_MAGIC 4116 in
  let buf := jh ++ enc_records log_one in
  let calls := [(40, block_of x41)] in
  journal_install sb d
  = Done (Installed, 1,
          write_journal_bytes sb (apply_pending write_block calls d) 0
            (enc_journal_header JOURNAL_MAGIC sizeof_journal_header))
  /\ (forall w, In w calls -> scanned_data buf 4116 w)
  /\ (forall n,
         (forall w, scanned_data buf 4116 w -> 0 <= fst w < n) ->
         forall w, In w calls -> 0 <= fst w < n).
Proof.
  apply (install_writes_as_recorded fresh_sb image_one
           (enc_journal_header JOURNAL_MAGIC 4116)
           (enc_journal_header JOURNAL_MAGIC 4116 ++ enc_records log_one)
           1 [] [(40, block_of x41)]).
  - vm_compute. reflexivity.
  - vm_compute. reflexivity.
  - vm_compute. reflexivity.
  - vm_compute. reflexivity.
  - vm_compute. reflexivity.
Defined.

Lemma journal_create_Created (sb : superblock) (t : Z) (filename : list byte)
  (d : disk) (k : Z) (d' : disk) :
  journal_create sb t filename d = (Created k, d') <->
  exists jh bm ib0 ib1 dir slot,
    create_facts sb t filename d k d' jh bm ib0 ib1 dir slot.
Proof.
  unfold journal_create. fold needed_space. split.
  - intros H.
    destruct (Z.gtb_spec (Z.of_nat (length (cstr filename))) 27) as [Hn|Hn];
      [discriminate|].
    destruct (read_journal_bytes sb d 0 sizeof_journal_header) as [jh|] eqn:Hjh;
      [|discriminate].
    fold (used_of jh) in H.
    destruct (Z.gtb_spec (wrap32 (used_of jh + needed_space))
                (JOURNAL_BLOCKS * BLOCK_SIZE)) as [Hs|Hs]; [discriminate|].
    destruct (read_block d (sb_inode_bitmap sb)) as [bm|] eqn:Hbm;
      [|discriminate].
    destruct (Z.eqb_spec (free_inode_of bm) (-1)) as [Hk|Hk]; [discriminate|].
    destruct (read_block d (sb_inode_start sb)) as [ib0|] eqn:Hb0;
      [|discriminate].
    destruct (read_block d (wrap32 (sb_inode_start sb + 1))) as [ib1|] eqn:Hb1;
      [|discriminate].
    destruct (read_block d (inode_direct ib0 0 0)) as [dir|] eqn:Hdir;
      [|discriminate].
    destruct (scan_dirents dir (cstr filename)
                (zrange 0 (Z.to_nat MAX_DIRENTS)) (-1)) as [slot|] eqn:Hsl;
      [|discriminate].
    destruct (Z.eqb_spec slot (-1)) as [Hs1|Hs1]; [discriminate|].
    injection H as <- <-.
    exists jh, bm, ib0, ib1, dir, slot.
    constructor; try assumption; try reflexivity; lia.
  - intros (jh & bm & ib0 & ib1 & dir & slot & [H1 H2 H3 H4 H5 H6 H7 H8 H9 H10 H11 H12]).
    destruct (Z.gtb_spec (Z.of_nat (length (cstr filename))) 27); [lia|].
    rewrite H2. fold (used_of jh).
    destruct (Z.gtb_spec (wrap32 (used_of jh + needed_space))
                (JOURNAL_BLOCKS * BLOCK_SIZE)); [lia|].
    rewrite H4, <- H5.
    destruct (Z.eqb_spec k (-1)); [contradiction|].
    rewrite H7, H8, H9, H10.
    destruct (Z.eqb_spec slot (-1)); [contradiction|].
    rewrite H12. reflexivity.
Qed.

(** A create call that fails returns the image it was given. *)
Lemma journal_create_failed (sb : superblock) (t : Z) (filename : list byte)
  (d : disk) (s : create_status) (d' : disk) :
  journal_create sb t filename d = (s, d') ->
  create_ret s = -1 -> d' = d.
Proof.
  unfold journal_create. intros H Hs.
  repeat match type of H with
         | (if ?c then _ else _) = _ => destruct c
         | match ?x with _ => _ end = _ => destruct x
         end;
    injection H as <- <-; try reflexivity; discriminate.
Qed.

(** The capacity check: a create call that got as far as the check is
    refused exactly when [nbytes_used] plus the size of four data records
    and a commit record, computed in 32 bits, exceeds the journal size. *)
Lemma journal_create_full (sb : superblock) (t : Z) (filename : list byte)
  (d : disk) (jh : list byte) :
  Z.of_nat (length (cstr filename)) <= 27 ->
  read_journal_bytes sb d 0 sizeof_journal_header = Some jh ->
  (fst (journal_create sb t filename d) = JournalFull
   <-> wrap32 (used_of jh + needed_space) > JOURNAL_BLOCKS * BLOCK_SIZE).
Proof.
  intros Hn Hjh. unfold journal_create. fold needed_space.
  destruct (Z.gtb_spec (Z.of_nat (length (cstr filename))) 27); [lia|].
  rewrite Hjh. fold (used_of jh).
  destruct (Z.gtb_spec (wrap32 (used_of jh + needed_space))
              (JOURNAL_BLOCKS * BLOCK_SIZE)) as [Hs|Hs].
  - split; [intros _; lia|reflexivity].
  - split; [|lia]. intros HF.
    repeat match type of HF with
           | fst (if ?c then _ else _) = _ => destruct c
           | fst (match ?x with _ => _ end) = _ => destruct x
           end; discriminate.
Qed.

(** C2 on the code: test 3 of the README creates [f1.txt] to [f5.txt] on
    a fresh image and expects the sixth create to be the first refused.
    The fifth is refused: after four creates [nbytes_used] is 49272; the
    transaction of the fifth takes three data records and a commit
    record, 12316 bytes, which fit the 65536 bytes of the journal, but
    the check asks for room for four data records. *)
Lemma fifth_create_refused :
  create_each_used fresh_sb 0 five_names fresh_image
  = ([Created 1; Created 1; Created 1; Created 1; JournalFull], Some 49272)
  /\ 49272 + (3 * sizeof_data_record + sizeof_commit_record)
     <= JOURNAL_BLOCKS * BLOCK_SIZE
  /\ 49272 + needed_space > JOURNAL_BLOCKS * BLOCK_SIZE.
Proof.
  split; [vm_compute; reflexivity|].
  split; vm_compute; congruence.
Qed.

(** ** A create call writes inside the journal only *)




Lemma pwrite_adjacent (d : list byte) (p : Z) (a b : list byte) :
  0 <= p ->
  pwrite (pwrite d p a) (p + Z.of_nat (length a)) b = pwrite d p (a ++ b).
Proof.
  intros Hp. apply buf_ext.
  - rewrite !length_pwrite, length_app. lia.
  - intros i _. rewrite !nth_pwrite, length_app.
    replace (Z.to_nat (p + Z.of_nat (length a)))
      with (Z.to_nat p + length a)%nat by lia.
    destruct (Nat.leb_spec (Z.to_nat p + length a) i);
      destruct (Nat.ltb_spec i (Z.to_nat p + length a + length b));
      destruct (Nat.leb_spec (Z.to_nat p) i);
      destruct (Nat.ltb_spec i (Z.to_nat p + length a));
      destruct (Nat.ltb_spec i (Z.to_nat p + (length a + length b)));
      cbn [andb]; try lia; try reflexivity.
    + rewrite app_nth2 by lia. f_equal. lia.
    + rewrite app_nth1 by lia. reflexivity.
Qed.

Lemma enc_data_record_length (b : Z) (data : list byte) :
  Z.of_nat (length (enc_data_record b data))
  = 8 + Z.of_nat (length data).
Proof.
  unfold enc_data_record. rewrite !length_app. unfold enc16, enc32.
  cbn [length]. lia.
Qed.

Lemma staged_records_length (sb : superblock) (s : staged) :
  staged_wf s ->
  Z.of_nat (length (enc_records (staged_records sb s)))
  = (if st_inode_in_block1 s then 4 else 3) * sizeof_data_record
    + sizeof_commit_record.
Proof.
  intros (H1 & H2 & H3 & H4).
  unfold staged_records, enc_records, sizeof_data_record,
    sizeof_commit_record.
  destruct (st_inode_in_block1 s); cbn [app flat_map enc_record];
    rewrite !length_app, !Nat2Z.inj_add, !enc_data_record_length,
      ?H1, ?H2, ?H3, ?H4; cbn [length]; change (length enc_commit_record) with 4%nat;
    unfold BLOCK_SIZE; lia.
Qed.

(** The writes of [log_staged] are one write of the encoded records
    followed by the header write. *)
Lemma log_staged_eq (sb : superblock) (used : Z) (s : staged) (d : disk) :
  staged_wf s ->
  0 <= used -> used + needed_space <= JOURNAL_BLOCKS * BLOCK_SIZE ->
  journal_start sb + JOURNAL_BLOCKS * BLOCK_SIZE <= 2^32 ->
  log_staged sb used s d
  = write_journal_bytes sb
      (write_journal_bytes sb d used (enc_records (staged_records sb s))) 0
      (enc_journal_header JOURNAL_MAGIC
         (used + Z.of_nat (length (enc_records (staged_records sb s))))).
Proof.
  intros Hwf Hu Hfit Hj. rewrite (staged_records_length sb s Hwf).
  destruct Hwf as (H1 & H2 & H3 & H4).
  pose proof (wrap32_range (sb_journal_block sb * BLOCK_SIZE)) as Hjs.
  fold (journal_start sb) in Hjs.
  unfold needed_space, sizeof_data_record, sizeof_commit_record,
    JOURNAL_BLOCKS, BLOCK_SIZE in *.
  unfold log_staged, write_journal_bytes, sizeof_data_record,
    sizeof_commit_record, BLOCK_SIZE.
  assert (Hw : forall k, 0 <= k <= 16420 -> wrap32 (used + k) = used + k)
    by (intros k Hk; apply wrap32_small; lia).
  assert (Hwj : forall k, 0 <= k <= 16416 ->
                          wrap32 (journal_start sb + (used + k))
                          = journal_start sb + used + k)
    by (intros k Hk; rewrite wrap32_small; lia).
  rewrite (Hw (4 + 4 + 4096)) by lia.
  replace (wrap32 (journal_start sb + used)) with (journal_start sb + used)
    by (rewrite <- (Z.add_0_r used) at 2; rewrite Hwj; lia).
  rewrite (Hwj (4 + 4 + 4096)) by lia.
  replace (used + (4 + 4 + 4096) + (4 + 4 + 4096)) with (used + 8208) by lia.
  rewrite (Hw 8208) by lia.
  unfold staged_records, enc_records.
  destruct (st_inode_in_block1 s); cbn [app flat_map enc_record].
  - rewrite (Hwj 8208) by lia.
    replace (used + 8208 + (4 + 4 + 4096)) with (used + 12312) by lia.
    rewrite (Hw 12312) by lia. rewrite (Hwj 12312) by lia.
    replace (used + 12312 + (4 + 4 + 4096)) with (used + 16416) by lia.
    rewrite (Hw 16416) by lia. rewrite (Hwj 16416) by lia.
    replace (used + 16416 + 4) with (used + 16420) by lia.
    rewrite (Hw 16420) by lia.
    replace (used + (4 * (4 + 4 + 4096) + 4)) with (used + 16420) by lia.
    f_equal. rewrite app_nil_r.
    rewrite <- !pwrite_adjacent by lia.
    rewrite !enc_data_record_length, H1, H2, H3, H4.
    repeat (f_equal; try lia).
  - rewrite (Hwj 8208) by lia.
    replace (used + 8208 + (4 + 4 + 4096)) with (used + 12312) by lia.
    rewrite (Hw 12312) by lia. rewrite (Hwj 12312) by lia.
    replace (used + 12312 + 4) with (used + 12316) by lia.
    rewrite (Hw 12316) by lia.
    replace (used + (3 * (4 + 4 + 4096) + 4)) with (used + 12316) by lia.
    f_equal. rewrite app_nil_r.
    rewrite <- !pwrite_adjacent by lia.
    rewrite !enc_data_record_length, H1, H2, H4.
    repeat (f_equal; try lia).
Qed.

(** ** The blocks a create call stages *)

Lemma length_pwrite_in (b : list byte) (p : Z) (bs : list byte) :
  0 <= p -> p + Z.of_nat (length bs) <= Z.of_nat (length b) ->
  length (pwrite b p bs) = length b.
Proof. intros Hp Hl. rewrite length_pwrite. lia. Qed.

Lemma init_file_inode_eq (blk : list byte) (idx t : Z) :
  0 <= idx ->
  init_file_inode blk idx t = pwrite blk (inode_off idx) (file_inode_bytes t).
Proof.
  intros Hi. unfold init_file_inode, file_inode_bytes.
  cbn [zrange fold_left].
  unfold inode_off, sizeof_inode, off_type, off_links, off_size, off_direct,
    off_ctime, off_mtime.
  rewrite <- !pwrite_adjacent by lia.
  unfold enc16, enc32. cbn [length].
  repeat (f_equal; try lia).
Qed.

Lemma first_clear_spec (bitmap : list byte) (n : nat) :
  forall lo, 0 <= lo ->
    let r := first_clear bitmap (zrange lo n) in
    (r = -1 /\ forall j, lo <= j < lo + Z.of_nat n ->
                 bit_is_clear bitmap j = false)
    \/ (lo <= r < lo + Z.of_nat n /\ bit_is_clear bitmap r = true
        /\ forall j, lo <= j < r -> bit_is_clear bitmap j = false).
Proof.
  induction n as [|n IH]; intros lo Hlo; cbn [zrange first_clear].
  - left. split; [reflexivity|]. intros j Hj. lia.
  - destruct (bit_is_clear bitmap lo) eqn:Eb.
    + right. split; [lia|]. split; [exact Eb|]. intros j Hj. lia.
    + destruct (IH (lo + 1) ltac:(lia)) as [[Hr Hall]|(Hr & Hc & Hlow)].
      * left. split; [exact Hr|]. intros j Hj.
        destruct (Z.eq_dec j lo) as [->|Hne]; [exact Eb|apply Hall; lia].
      * right. split; [lia|]. split; [exact Hc|]. intros j Hj.
        destruct (Z.eq_dec j lo) as [->|Hne]; [exact Eb|apply Hlow; lia].
Qed.

(** The inode a create call allocates is the lowest-numbered inode from 1
    whose bit is clear. *)
Lemma free_inode_of_spec (bitmap : list byte) :
  let k := free_inode_of bitmap in
  (k = -1 /\ forall j, 1 <= j < MAX_INODES -> bit_is_clear bitmap j = false)
  \/ (1 <= k < MAX_INODES /\ bit_is_clear bitmap k = true
      /\ forall j, 1 <= j < k -> bit_is_clear bitmap j = false).
Proof.
  unfold free_inode_of.
  pose proof (first_clear_spec bitmap (Z.to_nat (MAX_INODES - 1)) 1
                ltac:(lia)) as H.
  change (Z.of_nat (Z.to_nat (MAX_INODES - 1))) with 63 in H.
  cbv zeta in *. set (r := first_clear _ _) in *.
  change MAX_INODES with 64.
  destruct H as [[Hr Hall]|(Hr & Hc & Hlow)].
  - left. split; [exact Hr|]. intros j Hj. apply Hall. lia.
  - right. split; [lia|]. split; [exact Hc|exact Hlow].
Qed.

(** The slot a create call takes is the lowest empty one. *)
Lemma scan_dirents_slot (dirents filename : list byte) (slot : Z) :
  scan_dirents dirents filename (zrange 0 (Z.to_nat MAX_DIRENTS)) (-1)
  = Some slot ->
  slot <> -1 ->
  lowest_empty dirents slot
  /\ forall i, 0 <= i < MAX_DIRENTS ->
               slot_matches dirents filename i = false.
Proof.
  intros Hs Hne.
  assert (Hnm : forall i, In i (zrange 0 (Z.to_nat MAX_DIRENTS)) ->
                          slot_matches dirents filename i = false).
  { intros i Hi. destruct (slot_matches dirents filename i) eqn:E;
      [|reflexivity].
    assert (Hn : scan_dirents dirents filename
                   (zrange 0 (Z.to_nat MAX_DIRENTS)) (-1) = None)
      by (apply scan_dirents_None; exists i; auto).
    congruence. }
  rewrite scan_dirents_Some in Hs; [|intros i Hi; apply zrange_In in Hi; lia
                                    |exact Hnm].
  injection Hs as Hs.
  change (first_empty dirents (zrange 0 (Z.to_nat MAX_DIRENTS)) = slot) in Hs.
  split.
  - pose proof (first_empty_cases dirents) as Hfe. cbv zeta in Hfe.
    rewrite Hs in Hfe. destruct Hfe as [[Hfe _]|Hfe]; [contradiction|exact Hfe].
  - intros i Hi. apply Hnm, zrange_In. rewrite MAX_DIRENTS_nat.
    rewrite MAX_DIRENTS_val in Hi. lia.
Qed.

Lemma read_block_length (d : disk) (b : Z) (x : list byte) :
  read_block d b = Some x -> Z.of_nat (length x) = BLOCK_SIZE.
Proof.
  intros H. unfold read_block in H.
  apply pread_length in H; [exact H|apply block_pos_range|unfold BLOCK_SIZE; lia].
Qed.

Lemma prepare_wf (bm ib0 ib1 dir : list byte) (root k slot t : Z)
  (filename : list byte) :
  Z.of_nat (length bm) = BLOCK_SIZE ->
  Z.of_nat (length ib0) = BLOCK_SIZE ->
  Z.of_nat (length ib1) = BLOCK_SIZE ->
  Z.of_nat (length dir) = BLOCK_SIZE ->
  1 <= k < MAX_INODES -> 0 <= slot < MAX_DIRENTS ->
  staged_wf (prepare bm ib0 ib1 dir root k slot t filename).
Proof.
  unfold BLOCK_SIZE, MAX_INODES. rewrite MAX_DIRENTS_val.
  intros H1 H2 H3 H4 Hk Hs.
  assert (Hfn : (length (firstn 27 filename) <= 27)%nat)
    by apply firstn_le_length.
  assert (Hdir : Z.of_nat (length (set_dirent dir slot k filename)) = 4096).
  { unfold set_dirent, dirent_off, sizeof_dirent, off_name.
    assert (L1 : length (pwrite dir (32 * slot) (enc32 k)) = length dir)
      by (apply length_pwrite_in; unfold enc32; cbn [length]; lia).
    assert (L2 : length (pwrite (pwrite dir (32 * slot) (enc32 k))
                           (32 * slot + 4) (repeat x00 28)) = length dir)
      by (rewrite length_pwrite_in; rewrite ?repeat_length; lia).
    rewrite length_pwrite_in; lia. }
  assert (Hfile : forall blk idx,
             Z.of_nat (length blk) = 4096 -> 0 <= idx < 32 ->
             Z.of_nat (length (init_file_inode blk idx t)) = 4096).
  { intros blk idx Hb Hi. rewrite init_file_inode_eq by lia.
    rewrite length_pwrite_in; [exact Hb|unfold inode_off, sizeof_inode; lia|].
    change (Z.of_nat (length (file_inode_bytes t))) with 48.
    unfold inode_off, sizeof_inode. lia. }
  unfold staged_wf, prepare, BLOCK_SIZE.
  cbn [st_inode_bitmap st_inode_block0 st_inode_block1 st_dir_block].
  change INODES_PER_BLOCK with 32.
  assert (Hq : 0 <= k / 8 < 8) by (split; [apply Z.div_pos; lia
                                          |apply Z.div_lt_upper_bound; lia]).
  assert (L0 : Z.of_nat (length (if 32 <=? k then ib0
                                 else init_file_inode ib0 k t)) = 4096).
  { destruct (Z.leb_spec 32 k); [exact H2|apply Hfile; [exact H2|lia]]. }
  split; [|split; [|split]].
  - unfold set_bit. rewrite length_pwrite_in; cbn [length]; lia.
  - destruct (highest_used_of (set_dirent dir slot k filename) >=? 0);
      [|exact L0].
    rewrite length_pwrite_in; [exact L0| |];
      unfold inode_off, sizeof_inode, off_size, enc32; cbn [length]; lia.
  - destruct (Z.leb_spec 32 k); [apply Hfile; [exact H3|lia]|exact H3].
  - exact Hdir.
Qed.

Lemma peek32_range (buf : list byte) (off : Z) : 0 <= peek32 buf off < 2^32.
Proof.
  unfold peek32.
  pose proof (peek8_range buf off). pose proof (peek8_range buf (off + 1)).
  pose proof (peek8_range buf (off + 2)).
  pose proof (peek8_range buf (off + 3)). lia.
Qed.


(** What the facts of a successful create call give once [nbytes_used] is
    known not to exceed the journal size: the staged blocks are whole
    blocks, and the image returned is the given one with the records
    written from [nbytes_used] and the header rewritten. *)
Lemma create_facts_image (sb : superblock) (t : Z) (filename : list byte)
  (d : disk) (k : Z) (d' : disk) (jh bm ib0 ib1 dir : list byte) (slot : Z) :
  journal_start sb + JOURNAL_BLOCKS * BLOCK_SIZE <= 2^32 ->
  used_of jh <= JOURNAL_BLOCKS * BLOCK_SIZE ->
  create_facts sb t filename d k d' jh bm ib0 ib1 dir slot ->
  let s := prepare bm ib0 ib1 dir (inode_direct ib0 0 0) k slot (wrap32 t)
             (cstr filename) in
  staged_wf s
  /\ 1 <= k < MAX_INODES /\ 0 <= slot < MAX_DIRENTS
  /\ 0 <= used_of jh
  /\ used_of jh + needed_space <= JOURNAL_BLOCKS * BLOCK_SIZE
  /\ d' = write_journal_bytes sb
            (write_journal_bytes sb d (used_of jh)
               (enc_records (staged_records sb s))) 0
            (enc_journal_header JOURNAL_MAGIC
               (used_of jh
                + Z.of_nat (length (enc_records (staged_records sb s))))).
Proof.
  intros Hj Hcap [H1 H2 H3 H4 H5 H6 H7 H8 H9 H10 H11 H12] s.
  assert (Hu0 : 0 <= used_of jh).
  { unfold used_of. destruct (peek32 jh 0 =? JOURNAL_MAGIC);
      [apply peek32_range|unfold sizeof_journal_header; lia]. }
  assert (Hfit : used_of jh + needed_space <= JOURNAL_BLOCKS * BLOCK_SIZE).
  { rewrite wrap32_small in H3; [exact H3|].
    unfold needed_space, sizeof_data_record, sizeof_commit_record,
      JOURNAL_BLOCKS, BLOCK_SIZE in *. lia. }
  assert (Hk : 1 <= k < MAX_INODES).
  { pose proof (free_inode_of_spec bm) as Hs. cbv zeta in Hs.
    rewrite <- H5 in Hs. destruct Hs as [[Hs _]|[Hs _]]; [contradiction|exact Hs]. }
  assert (Hslot : 0 <= slot < MAX_DIRENTS).
  { destruct (scan_dirents_slot _ _ _ H10 H11) as [(Hs & _) _]. exact Hs. }
  assert (Hwf : staged_wf s).
  { apply prepare_wf; try assumption; eapply read_block_length; eassumption. }
  repeat (split; [assumption|]).
  rewrite H12. apply log_staged_eq; assumption.
Qed.


Lemma create_fresh_a_txt :
  journal_create fresh_sb 0 a_txt fresh_image
  = (Created 1, snd (journal_create fresh_sb 0 a_txt fresh_image)).
Proof.
  assert (E : fst (journal_create fresh_sb 0 a_txt fresh_image) = Created 1)
    by (vm_compute; reflexivity).
  rewrite <- E. apply surjective_pairing.
Qed.



(** ** Bits, inodes and directory entries after an update *)

Lemma land_bit (x n : Z) :
  0 <= n -> (Z.land x (Z.shiftl 1 n) =? 0) = negb (Z.testbit x n).
Proof.
  intros Hn. rewrite Z.shiftl_1_l.
  destruct (Z.testbit x n) eqn:Eb; cbn [negb].
  - apply Z.eqb_neq. intros H0.
    assert (Ht : Z.testbit (Z.land x (2 ^ n)) n = true)
      by (rewrite Z.land_spec, Eb, Z.pow2_bits_true; auto).
    rewrite H0, Z.bits_0 in Ht. discriminate.
  - apply Z.eqb_eq. apply Z.bits_inj'. intros m Hm.
    rewrite Z.land_spec, Z.bits_0, Z.pow2_bits_eqb by lia.
    destruct (Z.eqb_spec n m) as [->|]; [rewrite Eb|rewrite andb_false_r];
      reflexivity.
Qed.

Lemma bit_is_clear_testbit (bitmap : list byte) (i : Z) :
  0 <= i ->
  bit_is_clear bitmap i = negb (Z.testbit (peek8 bitmap (i / 8)) (i mod 8)).
Proof.
  intros Hi. unfold bit_is_clear. apply land_bit.
  apply Z.mod_pos_bound. lia.
Qed.

(** [set_bit] sets the bit it is asked to and no other. *)
Lemma bit_is_clear_set_bit (bitmap : list byte) (k i : Z) :
  0 <= k -> 0 <= i ->
  bit_is_clear (set_bit bitmap k) i
  = if i =? k then false else bit_is_clear bitmap i.
Proof.
  intros Hk Hi. rewrite !bit_is_clear_testbit by assumption.
  unfold set_bit.
  assert (Hk8 : 0 <= k / 8) by (apply Z.div_pos; lia).
  assert (Hi8 : 0 <= i / 8) by (apply Z.div_pos; lia).
  pose proof (Z.mod_pos_bound k 8 ltac:(lia)) as Hkm.
  pose proof (Z.mod_pos_bound i 8 ltac:(lia)) as Him.
  rewrite peek8_pwrite by assumption. cbn [length].
  destruct (Z.eq_dec (i / 8) (k / 8)) as [Heq|Hne].
  - rewrite Heq.
    destruct (Z.leb_spec (k / 8) (k / 8)); [|lia].
    destruct (Z.ltb_spec (k / 8) (k / 8 + Z.of_nat 1)); [|lia].
    cbn [andb]. replace (k / 8 - k / 8) with 0 by lia.
    unfold peek8. change (Z.to_nat 0) with 0%nat. cbn [nth].
    rewrite byte_to_Z_to_byte.
    change 256 with (2 ^ 8).
    rewrite Z.mod_pow2_bits_low by lia.
    rewrite Z.lor_spec, Z.shiftl_1_l, Z.pow2_bits_eqb by lia.
    fold (peek8 bitmap (k / 8)).
    destruct (Z.eqb_spec i k) as [->|Hik].
    + rewrite Z.eqb_refl, orb_true_r. reflexivity.
    + destruct (Z.eqb_spec (k mod 8) (i mod 8)) as [Hm|Hm].
      * exfalso. apply Hik.
        rewrite (Z.div_mod i 8), (Z.div_mod k 8) by lia. lia.
      * rewrite orb_false_r. reflexivity.
  - assert (Hik : i <> k) by congruence.
    destruct (Z.eqb_spec i k); [contradiction|].
    destruct (Z.leb_spec (k / 8) (i / 8));
      destruct (Z.ltb_spec (i / 8) (k / 8 + Z.of_nat 1));
      cbn [andb]; try reflexivity; lia.
Qed.

Lemma peek16_pwrite_in (buf : list byte) (pos : Z) (bs : list byte)
  (off : Z) :
  0 <= pos -> pos <= off -> off + 2 <= pos + Z.of_nat (length bs) ->
  peek16 (pwrite buf pos bs) off = peek16 bs (off - pos).
Proof.
  intros Hp H1 H2. unfold peek16.
  rewrite !peek8_pwrite_in by lia.
  replace (off + 1 - pos) with (off - pos + 1) by lia. reflexivity.
Qed.

Lemma peek32_pwrite_in (buf : list byte) (pos : Z) (bs : list byte)
  (off : Z) :
  0 <= pos -> pos <= off -> off + 4 <= pos + Z.of_nat (length bs) ->
  peek32 (pwrite buf pos bs) off = peek32 bs (off - pos).
Proof.
  intros Hp H1 H2. unfold peek32.
  rewrite !peek8_pwrite_in by lia.
  replace (off + 1 - pos) with (off - pos + 1) by lia.
  replace (off + 2 - pos) with (off - pos + 2) by lia.
  replace (off + 3 - pos) with (off - pos + 3) by lia. reflexivity.
Qed.

(** The fields of an inode that [init_file_inode] made a file, and of the
    other inodes of the block. *)
Lemma init_file_inode_fields (blk : list byte) (idx t : Z) :
  0 <= idx ->
  let blk' := init_file_inode blk idx t in
  inode_type blk' idx = INODE_FILE
  /\ inode_links blk' idx = 1
  /\ inode_size blk' idx = 0
  /\ (forall j, 0 <= j < 8 -> inode_direct blk' idx j = 0).
Proof.
  intros Hi blk'. unfold blk'. rewrite init_file_inode_eq by assumption.
  unfold inode_type, inode_links, inode_size, inode_direct, inode_off,
    sizeof_inode, off_type, off_links, off_size, off_direct.
  assert (Hl : Z.of_nat (length (file_inode_bytes t)) = 48) by reflexivity.
  split; [|split; [|split]].
  - rewrite peek16_pwrite_in by lia.
    replace (128 * idx + 0 - 128 * idx) with 0 by lia. reflexivity.
  - rewrite peek16_pwrite_in by lia.
    replace (128 * idx + 2 - 128 * idx) with 2 by lia. reflexivity.
  - rewrite peek32_pwrite_in by lia.
    replace (128 * idx + 4 - 128 * idx) with 4 by lia. reflexivity.
  - intros j Hj. rewrite peek32_pwrite_in by lia.
    replace (128 * idx + (8 + 4 * j) - 128 * idx) with (8 + 4 * j) by lia.
    assert (Hc : j = 0 \/ j = 1 \/ j = 2 \/ j = 3 \/ j = 4 \/ j = 5
                 \/ j = 6 \/ j = 7) by lia.
    repeat destruct Hc as [->|Hc]; try subst j; reflexivity.
Qed.

Lemma init_file_inode_other (blk : list byte) (idx t j : Z) :
  0 <= idx -> 0 <= j -> j <> idx ->
  inode_type (init_file_inode blk idx t) j = inode_type blk j.
Proof.
  intros Hi Hj Hne. rewrite init_file_inode_eq by assumption.
  unfold inode_type, inode_off, sizeof_inode, off_type.
  apply peek16_pwrite_other; [lia|lia|].
  change (Z.of_nat (length (file_inode_bytes t))) with 48. lia.
Qed.

Lemma name_field_length (filename : list byte) :
  length (name_field filename) = 28%nat.
Proof.
  unfold name_field. rewrite length_app, repeat_length.
  pose proof (firstn_le_length 27 filename). lia.
Qed.

Lemma set_dirent_eq (dir : list byte) (slot k : Z) (filename : list byte) :
  0 <= slot ->
  set_dirent dir slot k filename
  = pwrite dir (dirent_off slot) (enc32 k ++ name_field filename).
Proof.
  intros Hs. unfold set_dirent, dirent_off, sizeof_dirent, off_name.
  pose proof (firstn_le_length 27 filename) as Hfn.
  set (fn := firstn 27 filename) in *.
  apply buf_ext.
  - rewrite !length_pwrite, length_app, name_field_length, repeat_length.
    unfold enc32. cbn [length]. lia.
  - intros i _. rewrite !nth_pwrite, length_app, name_field_length,
      repeat_length.
    unfold name_field. fold fn.
    replace (Z.to_nat (32 * slot + 4)) with (Z.to_nat (32 * slot) + 4)%nat
      by lia.
    set (p := Z.to_nat (32 * slot)).
    change (length (enc32 k)) with 4%nat.
    destruct (Nat.leb_spec (p + 4) i); destruct (Nat.ltb_spec i (p + 4 + length fn));
      destruct (Nat.ltb_spec i (p + 4 + 28)); destruct (Nat.leb_spec p i);
      destruct (Nat.ltb_spec i (p + 4)); destruct (Nat.ltb_spec i (p + (4 + 28)));
      cbn [andb]; try lia; try reflexivity.
    + rewrite app_nth2 by (unfold enc32; cbn [length]; lia).
      change (length (enc32 k)) with 4%nat.
      rewrite app_nth1 by lia. f_equal. lia.
    + rewrite app_nth2 by (unfold enc32; cbn [length]; lia).
      change (length (enc32 k)) with 4%nat.
      rewrite app_nth2 by lia. rewrite !nth_repeat. reflexivity.
    + rewrite app_nth1 by (unfold enc32; cbn [length]; lia). reflexivity.
Qed.

Lemma sub_pwrite_in (buf : list byte) (pos : Z) (bs : list byte) (a n : Z) :
  0 <= pos -> 0 <= a -> 0 <= n -> a + n <= Z.of_nat (length bs) ->
  sub (pwrite buf pos bs) (pos + a) n = sub bs a n.
Proof.
  intros Hp Ha Hn Hl. apply buf_ext.
  - rewrite !length_sub, length_pwrite. lia.
  - intros i Hi. rewrite length_sub, length_pwrite in Hi.
    rewrite !nth_sub by lia. rewrite nth_pwrite.
    destruct (Nat.leb_spec (Z.to_nat pos) (Z.to_nat (pos + a) + i));
      destruct (Nat.ltb_spec (Z.to_nat (pos + a) + i)
                  (Z.to_nat pos + length bs));
      cbn [andb]; try lia.
    f_equal. lia.
Qed.

Lemma cstr_padded (s : list byte) (n : nat) :
  cstr s = s -> cstr (s ++ repeat x00 (S n)) = s.
Proof.
  induction s as [|c s IH]; intros Hs.
  - reflexivity.
  - cbn [cstr app] in *. destruct (byte_to_Z c =? 0); [discriminate|].
    f_equal. apply IH. congruence.
Qed.

Lemma cstr_idem (s : list byte) : cstr (cstr s) = cstr s.
Proof.
  induction s as [|c s IH]; [reflexivity|]. cbn [cstr].
  destruct (byte_to_Z c =? 0) eqn:E; [reflexivity|].
  cbn [cstr]. rewrite E, IH. reflexivity.
Qed.

(** The slot a create call fills, and the slots it leaves. *)
Lemma set_dirent_slot (dir : list byte) (slot k : Z) (filename : list byte) :
  0 <= slot -> 0 <= k < 2^32 ->
  cstr filename = filename -> Z.of_nat (length filename) <= 27 ->
  let dir' := set_dirent dir slot k filename in
  dirent_inode dir' slot = k
  /\ cstr (dirent_name dir' slot) = filename
  /\ dirent_used dir' slot = negb (Z.of_nat (length filename) =? 0).
Proof.
  intros Hs Hk Hc Hl dir'. unfold dir'.
  rewrite set_dirent_eq by assumption.
  assert (Hfn : firstn 27 filename = filename) by (apply firstn_all2; lia).
  assert (Hlen : Z.of_nat (length (enc32 k ++ name_field filename)) = 32).
  { rewrite length_app, name_field_length. reflexivity. }
  unfold dirent_inode, dirent_name, dirent_used, dirent_off, sizeof_dirent,
    off_name in *.
  split; [|split].
  - rewrite peek32_pwrite_in by lia.
    replace (32 * slot - 32 * slot) with 0 by lia.
    rewrite peek32_enc32. apply wrap32_small. exact Hk.
  - rewrite sub_pwrite_in by lia.
    change 4 with (Z.of_nat (length (enc32 k)) + 0).
    rewrite sub_at by lia.
    replace 28 with (Z.of_nat (length (name_field filename)))
      by (rewrite name_field_length; reflexivity).
    rewrite <- (app_nil_r (name_field filename)) at 1. rewrite sub_prefix.
    unfold name_field. rewrite Hfn.
    replace (28 - length filename)%nat
      with (S (27 - length filename)) by lia.
    apply cstr_padded, Hc.
  - rewrite peek8_pwrite_in by lia.
    replace (32 * slot + 4 - 32 * slot) with (Z.of_nat (length (enc32 k)) + 0)
      by (change (Z.of_nat (length (enc32 k))) with 4; lia).
    rewrite peek8_at by lia. unfold name_field. rewrite Hfn.
    destruct filename as [|c s].
    + reflexivity.
    + cbn [cstr] in Hc. unfold peek8. change (Z.to_nat 0) with 0%nat.
      cbn [app nth length].
      destruct (byte_to_Z c =? 0); [discriminate|].
      destruct (Z.eqb_spec (Z.of_nat (S (length s))) 0); [lia|reflexivity].
Qed.

Lemma set_dirent_other (dir : list byte) (slot k : Z) (filename : list byte)
  (i : Z) :
  0 <= slot -> 0 <= i -> i <> slot ->
  (dirent_off i + sizeof_dirent <= Z.of_nat (length dir)) ->
  let dir' := set_dirent dir slot k filename in
  dirent_inode dir' i = dirent_inode dir i
  /\ dirent_name dir' i = dirent_name dir i
  /\ dirent_used dir' i = dirent_used dir i.
Proof.
  intros Hs Hi Hne Hin dir'. unfold dir'.
  rewrite set_dirent_eq by assumption.
  assert (Hlen : Z.of_nat (length (enc32 k ++ name_field filename)) = 32).
  { rewrite length_app, name_field_length. reflexivity. }
  unfold dirent_inode, dirent_name, dirent_used, dirent_off, sizeof_dirent,
    off_name in *.
  split; [|split].
  - apply peek32_pwrite_other; lia.
  - apply sub_pwrite_other; lia.
  - rewrite peek8_pwrite_other by lia. reflexivity.
Qed.

(** ** The journal after a create call *)

Lemma pread_pwrite_append (d : list byte) (p n : Z) (a bs : list byte) :
  0 <= p -> 0 <= n ->
  pread d p n = Some a ->
  pread (pwrite d (p + n) bs) p (n + Z.of_nat (length bs)) = Some (a ++ bs).
Proof.
  intros Hp Hn H. apply pread_Some in H as [Hle ->]. unfold pread.
  rewrite length_pwrite.
  destruct (Z.leb_spec (p + (n + Z.of_nat (length bs)))
              (Z.of_nat (Nat.max (length d)
                           (Z.to_nat (p + n) + length bs)))); [|lia].
  f_equal. apply buf_ext.
  - rewrite length_app, !length_sub, length_pwrite. lia.
  - intros i Hi. rewrite length_sub, length_pwrite in Hi.
    rewrite nth_sub by lia. rewrite nth_pwrite.
    destruct (Nat.lt_ge_cases i (Z.to_nat n)) as [Hlt|Hge].
    + rewrite app_nth1 by (rewrite length_sub; lia).
      rewrite nth_sub by lia.
      destruct (Nat.leb_spec (Z.to_nat (p + n)) (Z.to_nat p + i)); [lia|].
      reflexivity.
    + rewrite app_nth2 by (rewrite length_sub; lia).
      rewrite length_sub.
      destruct (Nat.leb_spec (Z.to_nat (p + n)) (Z.to_nat p + i)); [|lia].
      destruct (Nat.ltb_spec (Z.to_nat p + i)
                  (Z.to_nat (p + n) + length bs)); [|lia].
      cbn [andb]. f_equal. lia.
Qed.

Lemma pread_pwrite_head (d : list byte) (p m : Z) (h0 h rest : list byte) :
  0 <= p -> 0 <= m -> length h0 = length h ->
  pread d p (Z.of_nat (length h) + m) = Some (h0 ++ rest) ->
  pread (pwrite d p h) p (Z.of_nat (length h) + m) = Some (h ++ rest).
Proof.
  intros Hp Hm Hl H. apply pread_Some in H as [Hle Heq]. unfold pread.
  rewrite length_pwrite.
  destruct (Z.leb_spec (p + (Z.of_nat (length h) + m))
              (Z.of_nat (Nat.max (length d) (Z.to_nat p + length h))));
    [|lia].
  f_equal.
  assert (Hlr : length (h0 ++ rest) = Z.to_nat (Z.of_nat (length h) + m)).
  { rewrite Heq, length_sub. lia. }
  rewrite length_app in Hlr.
  apply buf_ext.
  - rewrite length_app, !length_sub, length_pwrite. lia.
  - intros i Hi. rewrite length_sub, length_pwrite in Hi.
    rewrite nth_sub by lia. rewrite nth_pwrite.
    destruct (Nat.leb_spec (Z.to_nat p) (Z.to_nat p + i)); [|lia].
    destruct (Nat.ltb_spec (Z.to_nat p + i) (Z.to_nat p + length h));
      cbn [andb].
    + rewrite app_nth1 by lia. f_equal. lia.
    + rewrite app_nth2 by lia.
      rewrite <- (nth_sub d p (Z.of_nat (length h) + m)) by lia.
      rewrite <- Heq. rewrite app_nth2 by lia. f_equal. lia.
Qed.

Lemma enc_records_app (a b : list record) :
  enc_records (a ++ b) = enc_records a ++ enc_records b.
Proof. unfold enc_records. apply flat_map_app. Qed.

(** Appending the records of a create call to a journal in state [rs]
    gives a journal that holds [rs] followed by them. *)
Lemma append_holds (sb : superblock) (d : disk) (rs new : list record)
  (jh : list byte) :
  journal_start sb + JOURNAL_BLOCKS * BLOCK_SIZE <= 2^32 ->
  journal_state sb d rs ->
  read_journal_bytes sb d 0 sizeof_journal_header = Some jh ->
  Forall wf_record new -> new <> [] ->
  used_of jh + Z.of_nat (length (enc_records new))
  <= JOURNAL_BLOCKS * BLOCK_SIZE ->
  used_of jh = sizeof_journal_header + Z.of_nat (length (enc_records rs))
  /\ journal_holds sb
       (write_journal_bytes sb
          (write_journal_bytes sb d (used_of jh) (enc_records new)) 0
          (enc_journal_header JOURNAL_MAGIC
             (used_of jh + Z.of_nat (length (enc_records new)))))
       (rs ++ new).
Proof.
  intros Hj Hst Hjh Hnew Hne Hfit.
  destruct (enc_records_nonempty new Hnew Hne) as [_ HLpos].
  pose proof (wrap32_range (sb_journal_block sb * BLOCK_SIZE)) as Hjs.
  fold (journal_start sb) in Hjs.
  assert (Hpre :
    used_of jh = sizeof_journal_header + Z.of_nat (length (enc_records rs))
    /\ Forall wf_record rs
    /\ length jh = 8%nat
    /\ pread d (journal_start sb) (used_of jh) = Some (jh ++ enc_records rs)).
  { destruct Hst as [Hh|(-> & jh' & Hjh' & Hm)].
    - pose proof (journal_holds_header sb d rs Hh) as Hhdr.
      assert (Ejh : jh = enc_journal_header JOURNAL_MAGIC
                           (sizeof_journal_header
                            + Z.of_nat (length (enc_records rs))))
        by congruence.
      destruct Hh as (Hwf & Hmax & Hr).
      assert (Eu : used_of jh
                   = sizeof_journal_header
                     + Z.of_nat (length (enc_records rs))).
      { unfold used_of. rewrite Ejh.
        rewrite enc_journal_header_magic, enc_journal_header_used.
        destruct (Z.eqb_spec (wrap32 JOURNAL_MAGIC) JOURNAL_MAGIC) as [_|Hm];
          [|exfalso; apply Hm; reflexivity].
        apply wrap32_small. unfold sizeof_journal_header in *. lia. }
      rewrite Eu. rewrite Ejh.
      split; [reflexivity|]. split; [exact Hwf|]. split; [reflexivity|].
      unfold read_journal_bytes in Hr. rewrite journal_start_pos in Hr.
      exact Hr.
    - assert (jh' = jh) by congruence. subst jh'.
      unfold used_of. destruct (Z.eqb_spec (peek32 jh 0) JOURNAL_MAGIC);
        [contradiction|].
      split; [reflexivity|]. split; [constructor|].
      unfold read_journal_bytes in Hjh. rewrite journal_start_pos in Hjh.
      split.
      + apply pread_length in Hjh; unfold sizeof_journal_header in *; lia.
      + cbn [enc_records flat_map]. rewrite app_nil_r. exact Hjh. }
  destruct Hpre as (Hu & Hwf & Hjl & Hr).
  split; [exact Hu|].
  unfold journal_holds. cbv zeta.
  rewrite enc_records_app, length_app, Nat2Z.inj_add.
  split; [apply Forall_app; auto|].
  split; [unfold JOURNAL_BLOCKS, BLOCK_SIZE in *; lia|].
  unfold read_journal_bytes, write_journal_bytes. rewrite journal_start_pos.
  set (u := used_of jh) in *. set (L := Z.of_nat (length (enc_records new))) in *.
  assert (Hu0 : 0 <= u) by (unfold sizeof_journal_header in Hu; lia).
  assert (Hw : wrap32 (journal_start sb + u) = journal_start sb + u).
  { apply wrap32_small. unfold JOURNAL_BLOCKS, BLOCK_SIZE in *. lia. }
  rewrite Hw.
  replace (sizeof_journal_header
           + (Z.of_nat (length (enc_records rs)) + L))
    with (u + L) by lia.
  pose proof (pread_pwrite_append d (journal_start sb) u
                (jh ++ enc_records rs) (enc_records new)
                ltac:(lia) Hu0 Hr) as Happ.
  fold L in Happ. rewrite <- app_assoc in Happ.
  set (h := enc_journal_header JOURNAL_MAGIC (u + L)).
  assert (Hhl : Z.of_nat (length h) = 8) by reflexivity.
  clearbody h.
  assert (E : u + L = Z.of_nat (length h)
                      + (Z.of_nat (length (enc_records rs)) + L))
    by (unfold sizeof_journal_header in Hu; lia).
  rewrite E in Happ |- *.
  apply (pread_pwrite_head _ _ _ jh); [lia|lia|lia|exact Happ].
Qed.

Lemma blk_in_pos (len b : Z) :
  len <= 2^32 -> blk_in len b -> wrap32 (b * BLOCK_SIZE) = b * BLOCK_SIZE.
Proof.
  intros Hl [H0 H1]. apply wrap32_small. unfold BLOCK_SIZE in *. lia.
Qed.

Lemma read_block_in (d : disk) (b : Z) :
  Z.of_nat (length d) <= 2^32 -> blk_in (Z.of_nat (length d)) b ->
  read_block d b = Some (sub d (b * BLOCK_SIZE) BLOCK_SIZE).
Proof.
  intros Hl Hb. unfold read_block. rewrite (blk_in_pos _ _ Hl Hb).
  destruct Hb as [H0 H1]. unfold pread.
  destruct (Z.leb_spec (b * BLOCK_SIZE + BLOCK_SIZE) (Z.of_nat (length d)));
    [reflexivity|lia].
Qed.

Lemma length_write_block (d : disk) (b : Z) (data : list byte) :
  Z.of_nat (length d) <= 2^32 -> blk_in (Z.of_nat (length d)) b ->
  Z.of_nat (length data) = BLOCK_SIZE ->
  length (write_block d b data) = length d.
Proof.
  intros Hl Hb Hd. unfold write_block. rewrite (blk_in_pos _ _ Hl Hb).
  destruct Hb as [H0 H1]. rewrite length_pwrite_in; [reflexivity| |];
    unfold BLOCK_SIZE in *; lia.
Qed.

Lemma read_write_block_other (d : disk) (b b' : Z) (data : list byte) :
  Z.of_nat (length d) <= 2^32 ->
  blk_in (Z.of_nat (length d)) b -> blk_in (Z.of_nat (length d)) b' ->
  b <> b' -> Z.of_nat (length data) = BLOCK_SIZE ->
  read_block (write_block d b' data) b = read_block d b.
Proof.
  intros Hl Hb Hb' Hne Hd. unfold read_block, write_block.
  rewrite (blk_in_pos _ _ Hl Hb), (blk_in_pos _ _ Hl Hb').
  destruct Hb as [H0 H1], Hb' as [H0' H1'].
  apply pread_pwrite_other; unfold BLOCK_SIZE in *; lia.
Qed.

Lemma read_write_block_same (d : disk) (b : Z) (data : list byte) :
  Z.of_nat (length data) = BLOCK_SIZE ->
  read_block (write_block d b data) b = Some data.
Proof. apply read_block_write_same. Qed.

Lemma write_block_step (d : disk) (b : Z) (data : list byte) (len : Z) :
  len <= 2^32 -> Z.of_nat (length d) = len -> blk_in len b ->
  Z.of_nat (length data) = BLOCK_SIZE ->
  Z.of_nat (length (write_block d b data)) = len
  /\ read_block (write_block d b data) b = Some data
  /\ (forall b', blk_in len b' -> b' <> b ->
                 read_block (write_block d b data) b' = read_block d b').
Proof.
  intros Hl <- Hb Hd. split; [|split].
  - rewrite length_write_block; auto.
  - apply read_write_block_same, Hd.
  - intros b' Hb' Hne. apply read_write_block_other; auto.
Qed.

(** Applying the writes of one staged transaction: the four metadata
    blocks become the staged ones, every other block and the length of
    the image stay. *)
Lemma apply_staged (sb : superblock) (d : disk) (s : staged) (root : Z) :
  layout sb root (Z.of_nat (length d)) ->
  staged_wf s -> st_root_dir_block s = root ->
  (st_inode_in_block1 s = false ->
   read_block d (sb_inode_start sb + 1) = Some (st_inode_block1 s)) ->
  let d1 := apply_pending write_block (staged_writes sb s) d in
  read_block d1 (sb_inode_bitmap sb) = Some (st_inode_bitmap s)
  /\ read_block d1 (sb_inode_start sb) = Some (st_inode_block0 s)
  /\ read_block d1 (sb_inode_start sb + 1) = Some (st_inode_block1 s)
  /\ read_block d1 root = Some (st_dir_block s)
  /\ length d1 = length d
  /\ (forall b, blk_in (Z.of_nat (length d)) b ->
                b <> sb_inode_bitmap sb -> b <> sb_inode_start sb ->
                b <> sb_inode_start sb + 1 -> b <> root ->
                read_block d1 b = read_block d b).
Proof.
  intros [L1 L2 L3 L4 L5 L6] (W1 & W2 & W3 & W4) Hroot Hb1 d1.
  unfold JOURNAL_BLOCKS in *.
  set (len := Z.of_nat (length d)) in *.
  assert (Bbm : blk_in len (sb_inode_bitmap sb))
    by (unfold blk_in, BLOCK_SIZE in *; lia).
  assert (Bi0 : blk_in len (sb_inode_start sb))
    by (unfold blk_in, BLOCK_SIZE in *; lia).
  assert (Bi1 : blk_in len (sb_inode_start sb + 1))
    by (unfold blk_in, BLOCK_SIZE in *; lia).
  assert (Brt : blk_in len root)
    by (unfold blk_in, BLOCK_SIZE in *; lia).
  assert (Hw1 : wrap32 (sb_inode_start sb + 1) = sb_inode_start sb + 1)
    by (apply wrap32_small; unfold BLOCK_SIZE in *; lia).
  unfold d1, staged_writes, apply_pending. rewrite Hroot, Hw1.
  destruct (write_block_step d (sb_inode_bitmap sb) (st_inode_bitmap s) len
              L6 eq_refl Bbm W1) as (La & Sa & Oa).
  set (da := write_block d (sb_inode_bitmap sb) (st_inode_bitmap s)) in *.
  destruct (write_block_step da (sb_inode_start sb) (st_inode_block0 s) len
              L6 La Bi0 W2) as (Lb & Sb & Ob).
  set (db := write_block da (sb_inode_start sb) (st_inode_block0 s)) in *.
  destruct (st_inode_in_block1 s) eqn:Eflag; cbn [app fold_left fst snd];
    fold da; fold db.
  - destruct (write_block_step db (sb_inode_start sb + 1)
                (st_inode_block1 s) len L6 Lb Bi1 W3) as (Lc & Sc & Oc).
    set (dc := write_block db (sb_inode_start sb + 1) (st_inode_block1 s))
      in *.
    destruct (write_block_step dc root (st_dir_block s) len L6 Lc Brt W4)
      as (Ld & Sd & Od).
    set (dd := write_block dc root (st_dir_block s)) in *.
    split; [|split; [|split; [|split; [|split]]]].
    + rewrite Od, Oc, Ob by (assumption || lia). exact Sa.
    + rewrite Od, Oc by (assumption || lia). exact Sb.
    + rewrite Od by (assumption || lia). exact Sc.
    + exact Sd.
    + unfold len in Ld. lia.
    + intros b Bb N1 N2 N3 N4.
      rewrite Od, Oc, Ob, Oa by assumption. reflexivity.
  - destruct (write_block_step db root (st_dir_block s) len L6 Lb Brt W4)
      as (Ld & Sd & Od).
    set (dd := write_block db root (st_dir_block s)) in *.
    split; [|split; [|split; [|split; [|split]]]].
    + rewrite Od, Ob by (assumption || lia). exact Sa.
    + rewrite Od by (assumption || lia). exact Sb.
    + rewrite Od, Ob, Oa by (assumption || lia). apply Hb1. reflexivity.
    + exact Sd.
    + unfold len in Ld. lia.
    + intros b Bb N1 N2 N3 N4.
      rewrite Od, Ob, Oa by assumption. reflexivity.
Qed.

Lemma transactions_staged (sb : superblock) (s : staged)
  (rest : list record) (run : list pending_write) :
  transactions (staged_records sb s ++ rest) run
  = (run ++ staged_writes sb s) :: transactions rest [].
Proof.
  unfold staged_records, staged_writes.
  destruct (st_inode_in_block1 s); cbn [app transactions];
    rewrite <- !app_assoc; reflexivity.
Qed.

Lemma transactions_staged_all (sb : superblock) (txs : list staged) :
  transactions (flat_map (staged_records sb) txs) []
  = map (staged_writes sb) txs.
Proof.
  induction txs as [|s txs IH]; [reflexivity|].
  cbn [flat_map map]. rewrite transactions_staged, IH. reflexivity.
Qed.

Lemma calls_of_staged (sb : superblock) (txs : list staged) :
  calls_of (map (staged_writes sb) txs)
  = concat (map (staged_writes sb) txs).
Proof.
  unfold calls_of. f_equal. rewrite map_map. apply map_ext.
  intros s. apply firstn_all2. unfold staged_writes.
  destruct (st_inode_in_block1 s); cbn [app length]; lia.
Qed.

Lemma apply_pending_concat {S : Type} (wr : S -> Z -> list byte -> S)
  (l : list pending_write) (ls : list (list pending_write)) (st : S) :
  apply_pending wr (concat (l :: ls)) st
  = apply_pending wr (concat ls) (apply_pending wr l st).
Proof. cbn [concat]. apply apply_pending_app. Qed.

Lemma INODES_PER_BLOCK_val : INODES_PER_BLOCK = 32.
Proof. reflexivity. Qed.

Lemma staged_from_facts (bm ib0 ib1 dir : list byte) (s : staged) :
  Z.of_nat (length bm) = BLOCK_SIZE -> Z.of_nat (length ib0) = BLOCK_SIZE ->
  Z.of_nat (length ib1) = BLOCK_SIZE -> Z.of_nat (length dir) = BLOCK_SIZE ->
  1 <= free_inode_of bm < MAX_INODES ->
  staged_from bm ib0 ib1 dir s ->
  staged_wf s
  /\ st_root_dir_block s = inode_direct ib0 0 0
  /\ st_inode_in_block1 s = (INODES_PER_BLOCK <=? free_inode_of bm)
  /\ (st_inode_in_block1 s = false -> st_inode_block1 s = ib1)
  /\ st_inode_bitmap s = set_bit bm (free_inode_of bm).
Proof.
  intros H1 H2 H3 H4 Hk (slot & t & name & Hs & ->).
  split; [apply prepare_wf; assumption|].
  unfold prepare.
  cbn [st_root_dir_block st_inode_in_block1 st_inode_block1 st_inode_bitmap].
  repeat split. intros ->. reflexivity.
Qed.

Lemma last_cons_default {A : Type} (l : list A) (a b : A) :
  last (a :: l) b = last l a.
Proof.
  revert a b. induction l as [|c l IH]; intros a b; [reflexivity|].
  change (last (a :: c :: l) b) with (last (c :: l) b).
  rewrite !IH. reflexivity.
Qed.

(** Applying the writes of several transactions staged on one image:
    the metadata blocks end as the last transaction staged them. *)
Lemma apply_staged_all (sb : superblock) (bm ib0 ib1 dir : list byte)
  (txs : list staged) :
  Z.of_nat (length bm) = BLOCK_SIZE -> Z.of_nat (length ib0) = BLOCK_SIZE ->
  Z.of_nat (length ib1) = BLOCK_SIZE -> Z.of_nat (length dir) = BLOCK_SIZE ->
  1 <= free_inode_of bm < MAX_INODES ->
  forall (d : disk) (s : staged),
    layout sb (inode_direct ib0 0 0) (Z.of_nat (length d)) ->
    ((INODES_PER_BLOCK <=? free_inode_of bm) = false ->
     read_block d (sb_inode_start sb + 1) = Some ib1) ->
    Forall (staged_from bm ib0 ib1 dir) (s :: txs) ->
    let d1 := apply_pending write_block
                (concat (map (staged_writes sb) (s :: txs))) d in
    let z := last txs s in
    read_block d1 (sb_inode_bitmap sb) = Some (st_inode_bitmap z)
    /\ read_block d1 (sb_inode_start sb) = Some (st_inode_block0 z)
    /\ read_block d1 (sb_inode_start sb + 1) = Some (st_inode_block1 z)
    /\ read_block d1 (inode_direct ib0 0 0) = Some (st_dir_block z)
    /\ length d1 = length d
    /\ (forall b, blk_in (Z.of_nat (length d)) b ->
                  b <> sb_inode_bitmap sb -> b <> sb_inode_start sb ->
                  b <> sb_inode_start sb + 1 -> b <> inode_direct ib0 0 0 ->
                  read_block d1 b = read_block d b).
Proof.
  intros H1 H2 H3 H4 Hk.
  induction txs as [|s' txs IH]; intros d s Hlay Hb1 Hall d1 z;
    inversion Hall as [|? ? Hs Hrest]; subst;
    destruct (staged_from_facts _ _ _ _ _ H1 H2 H3 H4 Hk Hs)
      as (Hwf & Hroot & Hfl & Hflag & _);
    assert (Hb1s : st_inode_in_block1 s = false ->
                   read_block d (sb_inode_start sb + 1)
                   = Some (st_inode_block1 s))
      by (intros Hf; rewrite (Hflag Hf); apply Hb1; congruence).
  - unfold d1, z. cbn [map concat last]. rewrite app_nil_r.
    apply apply_staged; assumption.
  - destruct (apply_staged sb d s _ Hlay Hwf Hroot Hb1s)
      as (A1 & A2 & A3 & A4 & A5 & A6).
    set (da := apply_pending write_block (staged_writes sb s) d) in *.
    unfold d1. rewrite map_cons, apply_pending_concat. fold da.
    assert (Hlay' : layout sb (inode_direct ib0 0 0) (Z.of_nat (length da)))
      by (rewrite A5; exact Hlay).
    assert (Hb1' : (INODES_PER_BLOCK <=? free_inode_of bm) = false ->
                   read_block da (sb_inode_start sb + 1) = Some ib1).
    { intros Hf. rewrite A3, Hflag; [reflexivity|congruence]. }
    destruct (IH da s' Hlay' Hb1' Hrest) as (B1 & B2 & B3 & B4 & B5 & B6).
    assert (Hz : z = last txs s') by apply last_cons_default.
    rewrite Hz.
    split; [exact B1|]. split; [exact B2|]. split; [exact B3|].
    split; [exact B4|]. split; [congruence|].
    intros b Bb N1 N2 N3 N4. rewrite B6 by (rewrite ?A5; assumption).
    apply A6; assumption.
Qed.

Lemma size_write_type (blk : list byte) (v j : Z) :
  0 <= j ->
  inode_type (pwrite blk (inode_off 0 + off_size) (enc32 v)) j
  = inode_type blk j.
Proof.
  intros Hj. unfold inode_type, inode_off, sizeof_inode, off_size, off_type.
  apply peek16_pwrite_other; [lia|lia|].
  change (Z.of_nat (length (enc32 v))) with 4. lia.
Qed.

Lemma size_write_peek32 (blk : list byte) (v off : Z) :
  8 <= off ->
  peek32 (pwrite blk (inode_off 0 + off_size) (enc32 v)) off
  = peek32 blk off.
Proof.
  intros Ho. unfold inode_off, sizeof_inode, off_size.
  apply peek32_pwrite_other; [lia|lia|].
  change (Z.of_nat (length (enc32 v))) with 4. lia.
Qed.

Lemma init_file_inode_peek32_other (blk : list byte) (idx t off : Z) :
  0 <= idx -> 0 <= off ->
  off + 4 <= inode_off idx \/ inode_off idx + 48 <= off ->
  peek32 (init_file_inode blk idx t) off = peek32 blk off.
Proof.
  intros Hi Ho Hd. rewrite init_file_inode_eq by assumption.
  apply peek32_pwrite_other;
    [unfold inode_off, sizeof_inode; lia|lia|].
  change (Z.of_nat (length (file_inode_bytes t))) with 48. exact Hd.
Qed.

Section Prepared.

Variables (bm ib0 ib1 dir : list byte) (root k slot t : Z)
  (filename : list byte).
Hypothesis Hk : 1 <= k < MAX_INODES.

Let s := prepare bm ib0 ib1 dir root k slot t filename.

Lemma prepare_inode_types (i : Z) :
  0 <= i < MAX_INODES ->
  inode_type_at (st_inode_block0 s) (st_inode_block1 s) i
  = if i =? k then INODE_FILE else inode_type_at ib0 ib1 i.
Proof.
  intros Hi. unfold s, prepare, inode_type_at, MAX_INODES in *.
  cbn [st_inode_block0 st_inode_block1].
  rewrite INODES_PER_BLOCK_val.
  set (dir' := set_dirent dir slot k filename).
  assert (H0 : forall blk j, 0 <= j ->
             inode_type (if highest_used_of dir' >=? 0
                         then pwrite blk (inode_off 0 + off_size)
                                (enc32 ((highest_used_of dir' + 1)
                                        * sizeof_dirent))
                         else blk) j = inode_type blk j).
  { intros blk j Hj. destruct (highest_used_of dir' >=? 0);
      [apply size_write_type; exact Hj|reflexivity]. }
  pose proof (Z.mod_pos_bound i 32 ltac:(lia)) as Hm.
  destruct (Z.ltb_spec i 32) as [Hlt|Hge].
  - rewrite H0 by lia. rewrite Z.mod_small by lia.
    destruct (Z.leb_spec 32 k).
    + destruct (Z.eqb_spec i k); [lia|reflexivity].
    + destruct (Z.eqb_spec i k) as [->|Hne].
      * apply init_file_inode_fields. lia.
      * apply init_file_inode_other; lia.
  - assert (Em : i mod 32 = i - 32).
    { rewrite <- (Z.mod_small (i - 32) 32) by lia.
      replace i with (i - 32 + 1 * 32) at 1 by lia.
      apply Z.mod_add. lia. }
    rewrite Em.
    destruct (Z.leb_spec 32 k).
    + destruct (Z.eqb_spec i k) as [->|Hne].
      * apply init_file_inode_fields. lia.
      * apply init_file_inode_other; lia.
    + destruct (Z.eqb_spec i k); [lia|reflexivity].
Qed.

Lemma prepare_root_pointer :
  inode_direct (st_inode_block0 s) 0 0 = inode_direct ib0 0 0.
Proof.
  unfold s, prepare, MAX_INODES in *. cbn [st_inode_block0].
  rewrite INODES_PER_BLOCK_val.
  unfold inode_direct, off_direct.
  change (inode_off 0 + (8 + 4 * 0)) with 8.
  set (dir' := set_dirent dir slot k filename).
  assert (H0 : forall blk,
             peek32 (if highest_used_of dir' >=? 0
                     then pwrite blk (inode_off 0 + off_size)
                            (enc32 ((highest_used_of dir' + 1)
                                    * sizeof_dirent))
                     else blk) 8 = peek32 blk 8).
  { intros blk. destruct (highest_used_of dir' >=? 0);
      [apply size_write_peek32; lia|reflexivity]. }
  rewrite H0. destruct (Z.leb_spec 32 k); [reflexivity|].
  apply init_file_inode_peek32_other; [lia|lia|].
  unfold inode_off, sizeof_inode. lia.
Qed.

(** The new inode is a file of size 0 without blocks. *)
Lemma prepare_new_inode :
  let blk := if k <? INODES_PER_BLOCK
             then st_inode_block0 s else st_inode_block1 s in
  let idx := k mod INODES_PER_BLOCK in
  inode_type blk idx = INODE_FILE
  /\ inode_links blk idx = 1
  /\ inode_size blk idx = 0
  /\ (forall j, 0 <= j < 8 -> inode_direct blk idx j = 0).
Proof.
  unfold s, prepare, MAX_INODES in *.
  cbn [st_inode_block0 st_inode_block1].
  rewrite INODES_PER_BLOCK_val.
  set (dir' := set_dirent dir slot k filename).
  destruct (Z.ltb_spec k 32) as [Hlt|Hge].
  - destruct (Z.leb_spec 32 k); [lia|].
    rewrite Z.mod_small by lia.
    destruct (init_file_inode_fields ib0 k t ltac:(lia))
      as (F1 & F2 & F3 & F4).
    destruct (highest_used_of dir' >=? 0); [|auto].
    unfold inode_type, inode_links, inode_size, inode_direct, inode_off,
      sizeof_inode, off_type, off_links, off_size, off_direct in *.
    assert (Hl : Z.of_nat (length (enc32 ((highest_used_of dir' + 1)
                                          * sizeof_dirent))) = 4)
      by reflexivity.
    rewrite !peek16_pwrite_other by lia.
    rewrite peek32_pwrite_other by lia.
    split; [exact F1|]. split; [exact F2|]. split; [exact F3|].
    intros j Hj. rewrite peek32_pwrite_other by lia. apply F4, Hj.
  - destruct (Z.leb_spec 32 k); [|lia].
    assert (Em : k mod 32 = k - 32).
    { rewrite <- (Z.mod_small (k - 32) 32) by lia.
      replace k with (k - 32 + 1 * 32) at 1 by lia.
      apply Z.mod_add. lia. }
    rewrite Em. apply init_file_inode_fields. lia.
Qed.

Lemma prepare_agrees :
  bit_is_clear bm k = true ->
  agrees bm ib0 ib1 ->
  agrees (st_inode_bitmap s) (st_inode_block0 s) (st_inode_block1 s).
Proof.
  intros Hfree Hag i Hi. rewrite prepare_inode_types by assumption.
  unfold s, prepare. cbn [st_inode_bitmap].
  unfold MAX_INODES in *.
  rewrite bit_is_clear_set_bit by lia.
  destruct (Z.eqb_spec i k) as [->|Hne].
  - split; [intros _; discriminate|reflexivity].
  - apply Hag. exact Hi.
Qed.

End Prepared.

(** ** Create and install on a formatted image *)

Lemma layout_journal (sb : superblock) (root len : Z) :
  layout sb root len ->
  journal_start sb = sb_journal_block sb * BLOCK_SIZE
  /\ journal_start sb + JOURNAL_BLOCKS * BLOCK_SIZE <= len
  /\ len <= 2^32
  /\ blk_in len 0 /\ blk_in len (sb_inode_bitmap sb)
  /\ blk_in len (sb_inode_start sb) /\ blk_in len (sb_inode_start sb + 1)
  /\ blk_in len root.
Proof.
  intros [L1 L2 L3 L4 L5 L6]. unfold journal_start, blk_in.
  unfold JOURNAL_BLOCKS, BLOCK_SIZE in *.
  rewrite wrap32_small by lia. repeat split; lia.
Qed.

(** The two journal writes of a create call, and the header write of an
    install, on an image that contains its journal region: the length
    and every block outside the journal stay. *)
Lemma journal_write_frame (sb : superblock) (d : disk) (offset : Z)
  (bs : list byte) :
  journal_start sb = sb_journal_block sb * BLOCK_SIZE ->
  0 <= sb_journal_block sb ->
  journal_start sb + JOURNAL_BLOCKS * BLOCK_SIZE <= Z.of_nat (length d) ->
  Z.of_nat (length d) <= 2^32 ->
  0 <= offset ->
  offset + Z.of_nat (length bs) <= JOURNAL_BLOCKS * BLOCK_SIZE ->
  0 < Z.of_nat (length bs) ->
  let d' := write_journal_bytes sb d offset bs in
  length d' = length d
  /\ (forall b, blk_in (Z.of_nat (length d)) b ->
                b < sb_journal_block sb
                \/ sb_journal_block sb + JOURNAL_BLOCKS <= b ->
                read_block d' b = read_block d b).
Proof.
  intros Hjs Hjb Hin Hmax Ho Hfit Hpos d'. unfold d', write_journal_bytes.
  unfold JOURNAL_BLOCKS, BLOCK_SIZE in *.
  assert (Hw : wrap32 (journal_start sb + offset) = journal_start sb + offset)
    by (apply wrap32_small; lia).
  rewrite Hw. split.
  - apply length_pwrite_in; lia.
  - intros b Hb Hout. unfold read_block.
    rewrite (blk_in_pos _ _ Hmax Hb). destruct Hb as [Hb0 Hb1].
    unfold BLOCK_SIZE in *.
    apply pread_pwrite_other; lia.
Qed.

Lemma open_disk_same (d d' : disk) :
  read_block d' 0 = read_block d 0 -> open_disk d' = open_disk d.
Proof. unfold open_disk. intros ->. reflexivity. Qed.

(** What a successful create call on a formatted image leaves: the same
    metadata blocks and length, and a journal that holds the log it found
    followed by the staged transaction. *)
Lemma create_on_formatted (sb : superblock) (t : Z) (filename : list byte)
  (d : disk) (k : Z) (d' : disk) (rs : list record) :
  formatted sb d ->
  journal_state sb d rs ->
  sizeof_journal_header + Z.of_nat (length (enc_records rs))
  <= JOURNAL_BLOCKS * BLOCK_SIZE ->
  journal_create sb t filename d = (Created k, d') ->
  exists bm ib0 ib1 dir slot,
    let s := prepare bm ib0 ib1 dir (inode_direct ib0 0 0) k slot
               (wrap32 t) (cstr filename) in
    meta sb d bm ib0 ib1 dir
    /\ k = free_inode_of bm /\ 1 <= k < MAX_INODES
    /\ bit_is_clear bm k = true
    /\ lowest_empty dir slot
    /\ (forall i, 0 <= i < MAX_DIRENTS ->
                  slot_matches dir (cstr filename) i = false)
    /\ Z.of_nat (length (cstr filename)) <= 27
    /\ formatted sb d'
    /\ meta sb d' bm ib0 ib1 dir
    /\ length d' = length d
    /\ journal_holds sb d' (rs ++ staged_records sb s)
    /\ sizeof_journal_header
       + Z.of_nat (length (enc_records (rs ++ staged_records sb s)))
       <= JOURNAL_BLOCKS * BLOCK_SIZE.
Proof.
  intros (Hopen & ib0' & Hib0' & Hlay) Hst Hcap Hc.
  apply journal_create_Created in Hc
    as (jh & bm & ib0 & ib1 & dir & slot & Hf).
  pose proof Hf as [F1 F2 F3 F4 F5 F6 F7 F8 F9 F10 F11 F12].
  assert (ib0' = ib0) by congruence. subst ib0'.
  destruct (layout_journal _ _ _ Hlay)
    as (Hjs & Hjin & Hmax & B0 & Bbm & Bi0 & Bi1 & Brt).
  pose proof Hlay as [L1 L2 L3 L4 L5 L6].
  assert (Hj32 : journal_start sb + JOURNAL_BLOCKS * BLOCK_SIZE <= 2^32)
    by lia.
  assert (Hw1 : wrap32 (sb_inode_start sb + 1) = sb_inode_start sb + 1)
    by (apply wrap32_small; unfold blk_in, BLOCK_SIZE in *; lia).
  rewrite Hw1 in F8.
  (* the header's [nbytes_used] is that of the log [rs] *)
  assert (Hused : used_of jh
                  = sizeof_journal_header
                    + Z.of_nat (length (enc_records rs))).
  { destruct Hst as [Hh|(-> & jh' & Hjh' & Hm)].
    - pose proof (journal_holds_header sb d rs Hh) as Hhdr.
      assert (Ejh : jh = enc_journal_header JOURNAL_MAGIC
                           (sizeof_journal_header
                            + Z.of_nat (length (enc_records rs))))
        by congruence.
      destruct Hh as (_ & Hm32 & _). cbv zeta in Hm32.
      unfold used_of. rewrite Ejh.
      rewrite enc_journal_header_magic, enc_journal_header_used.
      destruct (Z.eqb_spec (wrap32 JOURNAL_MAGIC) JOURNAL_MAGIC) as [_|Hm];
        [|exfalso; apply Hm; reflexivity].
      apply wrap32_small. unfold sizeof_journal_header in *. lia.
    - assert (jh' = jh) by congruence. subst jh'.
      unfold used_of. destruct (Z.eqb_spec (peek32 jh 0) JOURNAL_MAGIC);
        [contradiction|reflexivity]. }
  assert (Hcap' : used_of jh <= JOURNAL_BLOCKS * BLOCK_SIZE) by lia.
  destruct (create_facts_image _ _ _ _ _ _ _ _ _ _ _ _ Hj32 Hcap' Hf)
    as (Hwf & Hk & Hslot & Hu0 & Hfit & Hd').
  set (s := prepare bm ib0 ib1 dir (inode_direct ib0 0 0) k slot (wrap32 t)
              (cstr filename)) in *.
  pose proof (staged_records_length sb s Hwf) as Hlen.
  set (recs := enc_records (staged_records sb s)) in *.
  assert (HL : 0 < Z.of_nat (length recs) <= needed_space).
  { rewrite Hlen. unfold needed_space, sizeof_data_record,
      sizeof_commit_record, BLOCK_SIZE.
    destruct (st_inode_in_block1 s); lia. }
  (* the two writes keep the length and the blocks outside the journal *)
  destruct (journal_write_frame sb d (used_of jh) recs Hjs ltac:(lia)
              Hjin Hmax Hu0 ltac:(lia) ltac:(lia)) as (Ld1 & Fd1).
  set (d1 := write_journal_bytes sb d (used_of jh) recs) in *.
  set (hdr := enc_journal_header JOURNAL_MAGIC
                (used_of jh + Z.of_nat (length recs))) in *.
  destruct (journal_write_frame sb d1 0 hdr Hjs ltac:(lia)
              ltac:(rewrite Ld1; exact Hjin) ltac:(rewrite Ld1; exact Hmax)
              ltac:(lia)
              ltac:(unfold JOURNAL_BLOCKS, BLOCK_SIZE;
                    change (Z.of_nat (length hdr)) with 8; lia)
              ltac:(change (Z.of_nat (length hdr)) with 8; lia))
    as (Ld2 & Fd2).
  rewrite <- Hd' in Ld2, Fd2. rewrite Ld1 in Ld2, Fd2.
  assert (Hsame : forall b, blk_in (Z.of_nat (length d)) b ->
                            b < sb_journal_block sb
                            \/ sb_journal_block sb + JOURNAL_BLOCKS <= b ->
                            read_block d' b = read_block d b).
  { intros b Hb Hout. rewrite Fd2, Fd1 by assumption. reflexivity. }
  assert (Mbm : read_block d' (sb_inode_bitmap sb) = Some bm)
    by (rewrite Hsame; [exact F4|exact Bbm|lia]).
  assert (Mi0 : read_block d' (sb_inode_start sb) = Some ib0)
    by (rewrite Hsame; [exact F7|exact Bi0|lia]).
  assert (Mi1 : read_block d' (sb_inode_start sb + 1) = Some ib1)
    by (rewrite Hsame; [exact F8|exact Bi1|lia]).
  assert (Mdir : read_block d' (inode_direct ib0 0 0) = Some dir)
    by (rewrite Hsame; [exact F9|exact Brt|lia]).
  destruct (scan_dirents_slot _ _ _ F10 F11) as [Hlow Hnm].
  assert (Hclear : bit_is_clear bm k = true).
  { pose proof (free_inode_of_spec bm) as Hsp. cbv zeta in Hsp.
    rewrite <- F5 in Hsp.
    destruct Hsp as [[Hsp _]|(_ & Hsp & _)]; [contradiction|exact Hsp]. }
  (* the journal holds the old log followed by the new records *)
  assert (Hnew : Forall wf_record (staged_records sb s)).
  { destruct Hwf as (W1 & W2 & W3 & W4).
    unfold staged_records, blk_in, BLOCK_SIZE in *.
    pose proof (peek32_range ib0 (inode_off 0 + off_direct 0)) as Hr.
    fold (inode_direct ib0 0 0) in Hr.
    pose proof (wrap32_range (sb_inode_start sb + 1)).
    assert (Hroot : st_root_dir_block s = inode_direct ib0 0 0)
      by reflexivity.
    rewrite Hroot.
    destruct (st_inode_in_block1 s); cbn [app];
      repeat (constructor; [cbn [wf_record]; try (split; [lia|assumption]);
                            exact I|]);
      constructor. }
  assert (Hne : staged_records sb s <> []).
  { unfold staged_records. discriminate. }
  destruct (append_holds sb d rs (staged_records sb s) jh Hj32 Hst F2 Hnew
              Hne ltac:(fold recs; lia)) as (_ & Hholds).
  fold recs in Hholds. fold d1 in Hholds. fold hdr in Hholds.
  rewrite <- Hd' in Hholds.
  exists bm, ib0, ib1, dir, slot. cbv zeta. fold s.
  split; [constructor; assumption|].
  split; [exact F5|]. split; [exact Hk|]. split; [exact Hclear|].
  split; [exact Hlow|]. split; [exact Hnm|]. split; [exact F1|].
  split.
  { split; [rewrite (open_disk_same d d'); [exact Hopen|]|].
    - apply Hsame; [exact B0|lia].
    - exists ib0. split; [exact Mi0|]. rewrite Ld2. exact Hlay. }
  split; [constructor; assumption|].
  split; [exact Ld2|].
  split; [exact Hholds|].
  rewrite enc_records_app, length_app, Nat2Z.inj_add. fold recs.
  unfold needed_space in *. lia.
Qed.

Lemma last_In {A : Type} (l : list A) (a : A) : In (last l a) (a :: l).
Proof.
  revert a. induction l as [|b l IH]; intros a; [left; reflexivity|].
  rewrite (last_cons_default l b a). right. apply IH.
Qed.

Lemma journal_holds_cleared (sb : superblock) (d : disk) :
  journal_holds sb
    (write_journal_bytes sb d 0
       (enc_journal_header JOURNAL_MAGIC sizeof_journal_header)) [].
Proof.
  unfold journal_holds. cbn [enc_records flat_map length]. cbv zeta.
  split; [constructor|]. split; [reflexivity|].
  rewrite app_nil_r. apply read_header_written.
Qed.

(** What install leaves on a formatted image whose journal holds
    transactions staged on it: the metadata blocks of the last
    transaction, an empty journal, the same layout. *)
Lemma install_on_formatted (sb : superblock) (d : disk)
  (bm ib0 ib1 dir : list byte) (s : staged) (txs : list staged) :
  formatted sb d -> meta sb d bm ib0 ib1 dir ->
  1 <= free_inode_of bm < MAX_INODES ->
  Forall (staged_from bm ib0 ib1 dir) (s :: txs) ->
  journal_holds sb d (flat_map (staged_records sb) (s :: txs)) ->
  exists d2,
    journal_install sb d
    = Done (Installed, Z.of_nat (length (s :: txs)), d2)
    /\ meta sb d2 (st_inode_bitmap (last txs s)) (st_inode_block0 (last txs s))
         (st_inode_block1 (last txs s)) (st_dir_block (last txs s))
    /\ formatted sb d2
    /\ journal_holds sb d2 []
    /\ length d2 = length d.
Proof.
  intros (Hopen & ib0' & Hib0' & Hlay) [M1 M2 M3 M4] Hk Hall Hh.
  assert (ib0' = ib0) by congruence. subst ib0'.
  destruct (layout_journal _ _ _ Hlay)
    as (Hjs & Hjin & Hmax & B0 & Bbm & Bi0 & Bi1 & Brt).
  pose proof Hlay as [L1 L2 L3 L4 L5 L6].
  assert (Hne : flat_map (staged_records sb) (s :: txs) <> []).
  { cbn [flat_map]. unfold staged_records. discriminate. }
  rewrite (journal_install_transactions sb d _ Hh Hne).
  rewrite transactions_staged_all, calls_of_staged, length_map.
  pose proof (read_block_length _ _ _ M1) as Lbm.
  pose proof (read_block_length _ _ _ M2) as Li0.
  pose proof (read_block_length _ _ _ M3) as Li1.
  pose proof (read_block_length _ _ _ M4) as Ldir.
  destruct (apply_staged_all sb bm ib0 ib1 dir txs Lbm Li0 Li1 Ldir Hk d s
              Hlay (fun _ => M3) Hall) as (A1 & A2 & A3 & A4 & A5 & A6).
  set (d1 := apply_pending write_block
               (concat (map (staged_writes sb) (s :: txs))) d) in *.
  set (hdr := enc_journal_header JOURNAL_MAGIC sizeof_journal_header).
  destruct (journal_write_frame sb d1 0 hdr Hjs ltac:(lia)
              ltac:(rewrite A5; exact Hjin) ltac:(rewrite A5; exact Hmax)
              ltac:(lia)
              ltac:(unfold JOURNAL_BLOCKS, BLOCK_SIZE;
                    change (Z.of_nat (length hdr)) with 8; lia)
              ltac:(change (Z.of_nat (length hdr)) with 8; lia))
    as (Ld2 & Fd2).
  rewrite A5 in Fd2.
  set (d2 := write_journal_bytes sb d1 0 hdr) in *.
  exists d2. split; [reflexivity|].
  (* the last transaction is one of those staged on [d] *)
  pose proof (last_In txs s) as Hz.
  rewrite Forall_forall in Hall. apply Hall in Hz.
  destruct Hz as (slot & t & name & Hslot & Ez).
  assert (Hroot : inode_direct (st_inode_block0 (last txs s)) 0 0
                  = inode_direct ib0 0 0).
  { rewrite Ez. apply prepare_root_pointer. exact Hk. }
  unfold JOURNAL_BLOCKS in *.
  split.
  { constructor.
    - rewrite Fd2; [exact A1|exact Bbm|lia].
    - rewrite Fd2; [exact A2|exact Bi0|lia].
    - rewrite Fd2; [exact A3|exact Bi1|lia].
    - rewrite Hroot. rewrite Fd2; [exact A4|exact Brt|lia]. }
  split.
  { split.
    - rewrite (open_disk_same d d2); [exact Hopen|].
      rewrite Fd2; [|exact B0|lia].
      apply A6; [exact B0|lia..].
    - exists (st_inode_block0 (last txs s)). split.
      + rewrite Fd2; [exact A2|exact Bi0|lia].
      + rewrite Hroot, Ld2, A5. exact Hlay. }
  split; [apply journal_holds_cleared|].
  congruence.
Qed.

Lemma meta_inj (sb : superblock) (d : disk)
  (bm ib0 ib1 dir bm' ib0' ib1' dir' : list byte) :
  meta sb d bm ib0 ib1 dir -> meta sb d bm' ib0' ib1' dir' ->
  bm' = bm /\ ib0' = ib0 /\ ib1' = ib1 /\ dir' = dir.
Proof.
  intros [A1 A2 A3 A4] [B1 B2 B3 B4].
  assert (ib0' = ib0) by congruence. subst ib0'.
  repeat split; congruence.
Qed.

Lemma inv_create (sb : superblock) (d : disk) (t : Z)
  (filename : list byte) :
  inv sb d -> inv sb (snd (journal_create sb t filename d)).
Proof.
  intros (Hfm & bm & ib0 & ib1 & dir & Hmeta & Hag & txs & Hall & Hst
          & Hcap & Hk).
  destruct (journal_create sb t filename d) as [st d'] eqn:Hc. cbn [snd].
  destruct st as [k| | | | | | | | |];
    try (rewrite (journal_create_failed _ _ _ _ _ _ Hc eq_refl);
         split; [exact Hfm|];
         exists bm, ib0, ib1, dir; split; [exact Hmeta|];
         split; [exact Hag|]; exists txs; auto).
  destruct (create_on_formatted _ _ _ _ _ _ _ Hfm Hst Hcap Hc)
    as (bm' & ib0' & ib1' & dir' & slot & Hres). cbv zeta in Hres.
  destruct Hres as (Hm & Ek & Hkr & Hclear & Hlow & _ & _ & Hfm' & Hm'
                    & _ & Hh & Hcap').
  destruct (meta_inj _ _ _ _ _ _ _ _ _ _ Hmeta Hm) as (-> & -> & -> & ->).
  set (s := prepare bm ib0 ib1 dir (inode_direct ib0 0 0) k slot (wrap32 t)
              (cstr filename)) in *.
  split; [exact Hfm'|].
  exists bm, ib0, ib1, dir. split; [exact Hm'|]. split; [exact Hag|].
  exists (txs ++ [s]).
  assert (Eflat : flat_map (staged_records sb) (txs ++ [s])
                  = flat_map (staged_records sb) txs ++ staged_records sb s).
  { rewrite flat_map_app. cbn [flat_map]. rewrite app_nil_r. reflexivity. }
  rewrite Eflat.
  split.
  { apply Forall_app. split; [exact Hall|]. constructor; [|constructor].
    exists slot, (wrap32 t), (cstr filename).
    split; [apply Hlow|]. unfold s. rewrite Ek. reflexivity. }
  split; [left; exact Hh|]. split; [exact Hcap'|].
  intros _. rewrite <- Ek. split; [exact Hkr|exact Hclear].
Qed.

Lemma inv_install (sb : superblock) (d : disk) :
  inv sb d ->
  exists st n d', journal_install sb d = Done (st, n, d') /\ inv sb d'.
Proof.
  intros (Hfm & bm & ib0 & ib1 & dir & Hmeta & Hag & txs & Hall & Hst
          & Hcap & Hk).
  assert (Hsame : inv sb d).
  { split; [exact Hfm|]. exists bm, ib0, ib1, dir.
    split; [exact Hmeta|]. split; [exact Hag|]. exists txs. auto. }
  destruct txs as [|s txs].
  - exists NothingToInstall, 0, d. split; [|exact Hsame].
    destruct Hst as [Hh|(_ & jh & Hjh & Hm)].
    + apply journal_install_holds_empty. exact Hh.
    + eapply journal_install_cleared; [exact Hjh|left; exact Hm].
  - destruct Hst as [Hh|(E & _)];
      [|exfalso; cbn [flat_map] in E; unfold staged_records in E;
        discriminate].
    destruct (Hk ltac:(discriminate)) as [Hkr Hclear].
    destruct (install_on_formatted sb d bm ib0 ib1 dir s txs Hfm Hmeta Hkr
                Hall Hh) as (d2 & Hi & Hm2 & Hfm2 & Hh2 & _).
    exists Installed, (Z.of_nat (length (s :: txs))), d2.
    split; [exact Hi|]. split; [exact Hfm2|].
    set (z := last txs s) in *.
    exists (st_inode_bitmap z), (st_inode_block0 z), (st_inode_block1 z),
      (st_dir_block z).
    split; [exact Hm2|].
    split.
    { pose proof (last_In txs s) as Hz. fold z in Hz.
      rewrite Forall_forall in Hall. apply Hall in Hz.
      destruct Hz as (slot & t & name & _ & ->).
      apply prepare_agrees; assumption. }
    exists []. split; [constructor|]. split; [left; exact Hh2|].
    split; [vm_compute; discriminate|].
    intros E. contradiction.
Qed.

Lemma inv_run (sb : superblock) (cs : list command) :
  forall d, inv sb d -> exists d', run cs d = Done d' /\ inv sb d'.
Proof.
  induction cs as [|c cs IH]; intros d Hinv.
  - exists d. split; [reflexivity|exact Hinv].
  - cbn [run]. unfold main.
    pose proof Hinv as ((Hopen & _) & _). rewrite Hopen.
    destruct c as [filename t|].
    + pose proof (inv_create sb d t filename Hinv) as Hinv'.
      destruct (journal_create sb t filename d) as [st d1]. cbn [snd] in Hinv'.
      apply IH, Hinv'.
    + destruct (inv_install sb d Hinv) as (st & n & d1 & Hi & Hinv').
      rewrite Hi. apply IH, Hinv'.
Qed.

(** C9.  Starting from a formatted image whose inode bitmap agrees with
    its inode table and whose journal is empty or never used, every
    sequence of create and install commands runs to its end, and the
    image it leaves is formatted with a bitmap that agrees with the
    inode table: for every inode [i], bit [i] is set exactly when the
    type of inode [i] is not free. *)
Theorem bitmap_agreement_preserved (sb : superblock) (d0 : disk)
  (cs : list command) :
  formatted sb d0 -> bitmap_agrees sb d0 -> journal_state sb d0 [] ->
  exists d, run cs d0 = Done d /\ formatted sb d /\ bitmap_agrees sb d.
Proof.
  intros Hfm (bm & ib0 & ib1 & Hbm & Hi0 & Hi1 & Hag) Hst.
  pose proof Hfm as (_ & ib0' & Hib0' & Hlay).
  assert (ib0' = ib0) by congruence. subst ib0'.
  destruct (layout_journal _ _ _ Hlay) as (_ & _ & Hmax & _ & _ & _ & _ & Brt).
  assert (Hinv : inv sb d0).
  { split; [exact Hfm|].
    exists bm, ib0, ib1, (sub d0 (inode_direct ib0 0 0 * BLOCK_SIZE) BLOCK_SIZE).
    split; [constructor; try assumption; apply read_block_in; assumption|].
    split; [exact Hag|]. exists [].
    split; [constructor|]. split; [exact Hst|].
    split; [vm_compute; discriminate|].
    intros E. contradiction. }
  destruct (inv_run sb cs d0 Hinv) as (d & Hrun & Hfm' & bm' & ib0'' & ib1'
                                       & dir' & [M1 M2 M3 M4] & Hag' & _).
  exists d. split; [exact Hrun|]. split; [exact Hfm'|].
  exists bm', ib0'', ib1'. auto.
Qed.

(** ** A create call followed by an install *)

(** An unused journal: the header read of a create call finds eight
    bytes in use. *)
Lemma fresh_header (sb : superblock) (d : disk) :
  journal_state sb d [] ->
  exists jh, read_journal_bytes sb d 0 sizeof_journal_header = Some jh
             /\ used_of jh = sizeof_journal_header.
Proof.
  intros [Hh|(_ & jh & Hjh & Hm)].
  - pose proof (journal_holds_header sb d [] Hh) as Hhdr.
    eexists. split; [exact Hhdr|].
    unfold used_of.
    rewrite enc_journal_header_magic, enc_journal_header_used.
    reflexivity.
  - exists jh. split; [exact Hjh|]. unfold used_of.
    destruct (Z.eqb_spec (peek32 jh 0) JOURNAL_MAGIC);
      [contradiction|reflexivity].
Qed.

(** On a formatted image with an unused journal, a free inode, a free
    root-directory slot and no entry of the given name, create
    succeeds. *)
Lemma create_succeeds (sb : superblock) (t : Z) (filename : list byte)
  (d : disk) (bm ib0 ib1 dir : list byte) :
  formatted sb d -> journal_state sb d [] ->
  meta sb d bm ib0 ib1 dir ->
  Z.of_nat (length (cstr filename)) <= 27 ->
  (exists i, 1 <= i < MAX_INODES /\ bit_is_clear bm i = true) ->
  (exists j, 0 <= j < MAX_DIRENTS /\ dirent_used dir j = false) ->
  ~ conflict dir (cstr filename) ->
  exists k d1, journal_create sb t filename d = (Created k, d1).
Proof.
  intros (Hopen & ib0' & Hib0' & Hlay) Hst [M1 M2 M3 M4] Hlen
    (i & Hi & Hbit) (j & Hj & Hfree) Hnc.
  assert (ib0' = ib0) by congruence. subst ib0'.
  destruct (layout_journal _ _ _ Hlay)
    as (Hjs & Hjin & Hmax & B0 & Bbm & Bi0 & Bi1 & Brt).
  assert (Hw1 : wrap32 (sb_inode_start sb + 1) = sb_inode_start sb + 1)
    by (apply wrap32_small; unfold blk_in, BLOCK_SIZE in *; lia).
  destruct (fresh_header sb d Hst) as (jh & Hjh & Hused).
  exists (free_inode_of bm),
    (log_staged sb (used_of jh)
       (prepare bm ib0 ib1 dir (inode_direct ib0 0 0) (free_inode_of bm)
          (first_empty dir (zrange 0 (Z.to_nat MAX_DIRENTS)))
          (wrap32 t) (cstr filename)) d).
  apply journal_create_Created.
  exists jh, bm, ib0, ib1, dir,
    (first_empty dir (zrange 0 (Z.to_nat MAX_DIRENTS))).
  constructor; try assumption; try reflexivity.
  - rewrite Hused. vm_compute. discriminate.
  - pose proof (free_inode_of_spec bm) as Hspec. cbv zeta in Hspec.
    destruct Hspec as [(_ & Hall)|(Hk & _)]; [|lia].
    rewrite (Hall i Hi) in Hbit. discriminate.
  - rewrite Hw1. exact M3.
  - apply scan_dirents_no_conflict; [apply cstr_idem|exact Hlen|exact Hnc].
  - pose proof (first_empty_cases dir) as Hc. cbv zeta in Hc.
    destruct Hc as [(_ & Hall)|(Hr & _)]; [|lia].
    rewrite (Hall j Hj) in Hfree. discriminate.
Qed.

(** The create call above followed by an install: both succeed, the
    install applies one transaction, and the metadata blocks of the
    image are the ones the create call staged. *)
Lemma create_then_install (sb : superblock) (t : Z) (filename : list byte)
  (d : disk) (bm ib0 ib1 dir : list byte) :
  formatted sb d -> journal_state sb d [] ->
  meta sb d bm ib0 ib1 dir ->
  Z.of_nat (length (cstr filename)) <= 27 ->
  (exists i, 1 <= i < MAX_INODES /\ bit_is_clear bm i = true) ->
  (exists j, 0 <= j < MAX_DIRENTS /\ dirent_used dir j = false) ->
  ~ conflict dir (cstr filename) ->
  exists k slot d1 d2,
    let s := prepare bm ib0 ib1 dir (inode_direct ib0 0 0) k slot (wrap32 t)
               (cstr filename) in
    journal_create sb t filename d = (Created k, d1)
    /\ journal_install sb d1 = Done (Installed, 1, d2)
    /\ k = free_inode_of bm /\ 1 <= k < MAX_INODES
    /\ bit_is_clear bm k = true
    /\ lowest_empty dir slot
    /\ meta sb d2 (st_inode_bitmap s) (st_inode_block0 s)
         (st_inode_block1 s) (st_dir_block s)
    /\ formatted sb d2 /\ journal_holds sb d2 [].
Proof.
  intros Hfm Hst Hmeta Hlen Hino Hslot Hnc.
  destruct (create_succeeds sb t filename d bm ib0 ib1 dir Hfm Hst Hmeta Hlen
              Hino Hslot Hnc) as (k & d1 & Hc).
  assert (Hcap : sizeof_journal_header
                 + Z.of_nat (length (enc_records [])) <= JOURNAL_BLOCKS * BLOCK_SIZE)
    by (vm_compute; discriminate).
  destruct (create_on_formatted _ _ _ _ _ _ _ Hfm Hst Hcap Hc)
    as (bm' & ib0' & ib1' & dir' & slot & Hres). cbv zeta in Hres.
  destruct Hres as (Hm & Ek & Hkr & Hclear & Hlow & _ & _ & Hfm' & Hm'
                    & _ & Hh & _).
  destruct (meta_inj _ _ _ _ _ _ _ _ _ _ Hmeta Hm) as (-> & -> & -> & ->).
  set (s := prepare bm ib0 ib1 dir (inode_direct ib0 0 0) k slot (wrap32 t)
              (cstr filename)) in *.
  assert (Hall : Forall (staged_from bm ib0 ib1 dir) [s]).
  { constructor; [|constructor].
    exists slot, (wrap32 t), (cstr filename).
    split; [apply Hlow|]. unfold s. rewrite Ek. reflexivity. }
  assert (Hh' : journal_holds sb d1 (flat_map (staged_records sb) [s])).
  { cbn [flat_map]. rewrite app_nil_r. exact Hh. }
  destruct (install_on_formatted sb d1 bm ib0 ib1 dir s [] Hfm' Hm'
              ltac:(rewrite <- Ek; exact Hkr) Hall Hh')
    as (d2 & Hi & Hm2 & Hfm2 & Hh2 & _).
  exists k, slot, d1, d2. cbv zeta. fold s.
  split; [exact Hc|]. split; [exact Hi|]. split; [exact Ek|].
  split; [exact Hkr|]. split; [exact Hclear|]. split; [exact Hlow|].
  split; [exact Hm2|]. split; assumption.
Qed.

(** C3.  On a formatted image with an unused journal, a free inode, a
    free root-directory slot and no entry named [filename] (a name of 1
    to 27 bytes), [create filename] succeeds and the install that
    follows applies one transaction; afterwards the root directory holds
    exactly one entry with that name, it points at inode [k], the bit of
    [k] was clear before and is set now, and inode [k] is a regular file
    of size 0 whose eight direct pointers are 0. *)
Theorem create_install_round_trip (sb : superblock) (t : Z)
  (filename : list byte) (d : disk) (bm ib0 ib1 dir : list byte) :
  formatted sb d -> journal_state sb d [] ->
  meta sb d bm ib0 ib1 dir ->
  cstr filename = filename ->
  0 < Z.of_nat (length filename) <= 27 ->
  (exists i, 1 <= i < MAX_INODES /\ bit_is_clear bm i = true) ->
  (exists j, 0 <= j < MAX_DIRENTS /\ dirent_used dir j = false) ->
  ~ conflict dir filename ->
  exists k d1 d2 bm' ib0' ib1' dir',
    journal_create sb t filename d = (Created k, d1)
    /\ journal_install sb d1 = Done (Installed, 1, d2)
    /\ meta sb d2 bm' ib0' ib1' dir'
    /\ (exists slot,
          0 <= slot < MAX_DIRENTS
          /\ dirent_used dir' slot = true
          /\ cstr (dirent_name dir' slot) = filename
          /\ dirent_inode dir' slot = k
          /\ forall i, 0 <= i < MAX_DIRENTS ->
                       dirent_used dir' i = true ->
                       cstr (dirent_name dir' i) = filename -> i = slot)
    /\ 1 <= k < MAX_INODES
    /\ bit_is_clear bm k = true
    /\ bit_is_clear bm' k = false
    /\ (let blk := if k <? INODES_PER_BLOCK then ib0' else ib1' in
        let idx := k mod INODES_PER_BLOCK in
        inode_type blk idx = INODE_FILE
        /\ inode_size blk idx = 0
        /\ forall j, 0 <= j < 8 -> inode_direct blk idx j = 0).
Proof.
  intros Hfm Hst Hmeta Hcs Hlen Hino Hslot Hnc.
  pose proof Hnc as Hnc'. rewrite <- Hcs in Hnc'.
  destruct (create_then_install sb t filename d bm ib0 ib1 dir Hfm Hst Hmeta
              ltac:(rewrite Hcs; lia) Hino Hslot Hnc')
    as (k & slot & d1 & d2 & Hres). cbv zeta in Hres.
  rewrite Hcs in Hres.
  destruct Hres as (Hc & Hi & Ek & Hkr & Hclear & Hlow & Hm2 & _ & _).
  set (s := prepare bm ib0 ib1 dir (inode_direct ib0 0 0) k slot (wrap32 t)
              filename) in *.
  exists k, d1, d2, (st_inode_bitmap s), (st_inode_block0 s),
    (st_inode_block1 s), (st_dir_block s).
  split; [exact Hc|]. split; [exact Hi|]. split; [exact Hm2|].
  destruct Hlow as (Hsr & Hsfree & _).
  assert (Hdl : Z.of_nat (length dir) = BLOCK_SIZE)
    by (destruct Hmeta as [_ _ _ M4]; exact (read_block_length _ _ _ M4)).
  split.
  { exists slot. change (st_dir_block s) with (set_dirent dir slot k filename).
    destruct (set_dirent_slot dir slot k filename) as (E1 & E2 & E3);
      [lia|unfold MAX_INODES in Hkr; lia|exact Hcs|lia|].
    split; [exact Hsr|].
    split.
    { rewrite E3. destruct (Z.eqb_spec (Z.of_nat (length filename)) 0);
        [lia|reflexivity]. }
    split; [exact E2|]. split; [exact E1|].
    intros i Hir Hu Hn.
    destruct (Z.eq_dec i slot) as [E|Hne]; [exact E|exfalso].
    destruct (set_dirent_other dir slot k filename i) as (_ & O2 & O3);
      [lia|lia|exact Hne| |].
    { pose proof MAX_DIRENTS_val as Hmd. rewrite Hmd in Hir.
      unfold dirent_off, sizeof_dirent, BLOCK_SIZE in *. lia. }
    apply Hnc. exists i. rewrite <- O3, <- O2. auto. }
  split; [exact Hkr|]. split; [exact Hclear|].
  split.
  { change (st_inode_bitmap s) with (set_bit bm k).
    rewrite bit_is_clear_set_bit by lia. rewrite Z.eqb_refl. reflexivity. }
  destruct (prepare_new_inode bm ib0 ib1 dir (inode_direct ib0 0 0) k slot
              (wrap32 t) filename Hkr) as (P1 & _ & P3 & P4).
  fold s in P1, P3, P4. cbv zeta. auto.
Qed.

(** ** Directory scans on blocks that agree on the used entries *)

Lemma strcmp_eq_ext (a b s : list byte) :
  forall off,
    (forall j, 0 <= j <= Z.of_nat (length s) ->
               peek8 a (off + j) = peek8 b (off + j)) ->
    strcmp_eq a off s = strcmp_eq b off s.
Proof.
  induction s as [|c s IH]; intros off H; cbn [strcmp_eq].
  - generalize (H 0). rewrite Z.add_0_r. intros ->; [reflexivity|].
    cbn [length]. lia.
  - generalize (H 0). rewrite Z.add_0_r. intros ->; [|cbn [length]; lia].
    rewrite (IH (off + 1)); [reflexivity|].
    intros j Hj. rewrite <- Z.add_assoc. apply H. cbn [length]. lia.
Qed.

Lemma scan_dirents_ext (a b name : list byte) (idxs : list Z) :
  (forall i, In i idxs -> alike a b name i) ->
  forall fd, scan_dirents a name idxs fd = scan_dirents b name idxs fd.
Proof.
  induction idxs as [|i rest IH]; intros H fd; [reflexivity|].
  cbn [scan_dirents].
  destruct (H i (or_introl eq_refl)) as [Hu Hs]. rewrite Hu.
  assert (Hrest : forall j, In j rest -> alike a b name j)
    by (intros j Hj; apply H; right; exact Hj).
  destruct (dirent_used b i).
  - rewrite (Hs eq_refl).
    destruct (strcmp_eq b (dirent_off i + off_name) name);
      [reflexivity|apply IH, Hrest].
  - destruct (fd =? -1); apply IH, Hrest.
Qed.

Lemma find_free_dirent_loop_ext (a b name : list byte) (idxs : list Z) :
  (forall i, In i idxs -> alike a b name i) ->
  forall slot found,
    find_free_dirent_loop a name idxs slot found
    = find_free_dirent_loop b name idxs slot found.
Proof.
  induction idxs as [|i rest IH]; intros H slot found; [reflexivity|].
  cbn [find_free_dirent_loop].
  destruct (H i (or_introl eq_refl)) as [Hu Hs]. rewrite Hu.
  assert (Hrest : forall j, In j rest -> alike a b name j)
    by (intros j Hj; apply H; right; exact Hj).
  destruct (dirent_used b i).
  - rewrite (Hs eq_refl).
    destruct (strcmp_eq b (dirent_off i + off_name) name);
      [reflexivity|apply IH, Hrest].
  - destruct (negb found); apply IH, Hrest.
Qed.

Lemma highest_used_ext (a b : list byte) (idxs : list Z) :
  (forall i, In i idxs -> dirent_used a i = dirent_used b i) ->
  forall h,
    fold_left (fun highest_used i =>
                 if dirent_used a i then i else highest_used) idxs h
    = fold_left (fun highest_used i =>
                   if dirent_used b i then i else highest_used) idxs h.
Proof.
  induction idxs as [|i rest IH]; intros H h; [reflexivity|].
  cbn [fold_left]. rewrite (H i (or_introl eq_refl)).
  apply IH. intros j Hj. apply H. right. exact Hj.
Qed.

(** The entry written for the empty name: the inode number and 28 zero
    bytes; the bytes of the other entries stay. *)
Lemma set_dirent_empty (dir : list byte) (slot k : Z) :
  0 <= slot -> 0 <= k < 2^32 ->
  let dir' := set_dirent dir slot k [] in
  dirent_inode dir' slot = k
  /\ dirent_used dir' slot = false
  /\ (forall p, 0 <= p ->
                p < dirent_off slot \/ dirent_off slot + sizeof_dirent <= p ->
                peek8 dir' p = peek8 dir p).
Proof.
  intros Hs Hk dir'.
  destruct (set_dirent_slot dir slot k []) as (E1 & _ & E3);
    [exact Hs|exact Hk|reflexivity|cbn [length]; lia|].
  split; [exact E1|]. split; [exact E3|].
  intros p Hp Hout. unfold dir'. rewrite set_dirent_eq by exact Hs.
  apply peek8_pwrite_other;
    [unfold dirent_off, sizeof_dirent; lia|exact Hp|].
  rewrite length_app, name_field_length.
  change (length (enc32 k)) with 4%nat.
  unfold sizeof_dirent in Hout. lia.
Qed.

(** After the entry for the empty name is written in an unused slot,
    the block is like the one before for every name create accepts. *)
Lemma set_dirent_empty_alike (dir : list byte) (slot k : Z)
  (name : list byte) (i : Z) :
  0 <= slot -> 0 <= k < 2^32 -> dirent_used dir slot = false ->
  Z.of_nat (length name) <= 27 -> 0 <= i ->
  alike (set_dirent dir slot k []) dir name i.
Proof.
  intros Hs Hk Hfree Hlen Hi.
  destruct (set_dirent_empty dir slot k Hs Hk) as (_ & E2 & E3).
  destruct (Z.eq_dec i slot) as [->|Hne].
  - split; [rewrite E2, Hfree; reflexivity|].
    intros Hu. rewrite Hfree in Hu. discriminate.
  - assert (Hp : forall j, 0 <= j <= 27 ->
                 peek8 (set_dirent dir slot k []) (dirent_off i + off_name + j)
                 = peek8 dir (dirent_off i + off_name + j)).
    { intros j Hj. apply E3;
        unfold dirent_off, off_name, sizeof_dirent; lia. }
    split.
    + unfold dirent_used. generalize (Hp 0 ltac:(lia)).
      rewrite Z.add_0_r. intros ->. reflexivity.
    + intros _. apply strcmp_eq_ext. intros j Hj. apply Hp. lia.
Qed.

(** C10.  create accepts the empty name.  On a formatted image with an
    unused journal, a free inode and a free root-directory slot, the
    call succeeds and the install that follows applies its transaction:
    the bit of the allocated inode [k] is set and its type is FILE, and
    slot [slot] of the root directory holds inode number [k] under a name
    whose first byte is zero.  The directory has the same used slots as
    before, so the slot scan with its duplicate check (in both versions
    of the program) and the highest used slot, from which the directory
    size is computed, are what they were, [slot] is still the lowest
    unused slot, and if no used entry pointed at [k] before, none does
    now. *)
Theorem create_empty_name (sb : superblock) (t : Z) (filename : list byte)
  (d : disk) (bm ib0 ib1 dir : list byte) :
  formatted sb d -> journal_state sb d [] ->
  meta sb d bm ib0 ib1 dir ->
  cstr filename = [] ->
  (exists i, 1 <= i < MAX_INODES /\ bit_is_clear bm i = true) ->
  (exists j, 0 <= j < MAX_DIRENTS /\ dirent_used dir j = false) ->
  exists k slot d1 d2 bm' ib0' ib1' dir',
    journal_create sb t filename d = (Created k, d1)
    /\ journal_install sb d1 = Done (Installed, 1, d2)
    /\ meta sb d2 bm' ib0' ib1' dir'
    /\ 1 <= k < MAX_INODES
    /\ bit_is_clear bm k = true
    /\ bit_is_clear bm' k = false
    /\ inode_type_at ib0' ib1' k = INODE_FILE
    /\ lowest_empty dir slot
    /\ dirent_inode dir' slot = k
    /\ peek8 dir' (dirent_off slot + off_name) = 0
    /\ (forall i, 0 <= i < MAX_DIRENTS ->
                  dirent_used dir' i = dirent_used dir i)
    /\ (forall name, Z.of_nat (length name) <= 27 ->
          scan_dirents dir' name (zrange 0 (Z.to_nat MAX_DIRENTS)) (-1)
          = scan_dirents dir name (zrange 0 (Z.to_nat MAX_DIRENTS)) (-1))
    /\ (forall name, Z.of_nat (length name) <= 27 ->
          find_free_dirent dir' name = find_free_dirent dir name)
    /\ highest_used_of dir' = highest_used_of dir
    /\ get_highest_dirent dir' = get_highest_dirent dir
    /\ lowest_empty dir' slot
    /\ ((forall i, 0 <= i < MAX_DIRENTS -> dirent_used dir i = true ->
                   dirent_inode dir i <> k) ->
        forall i, 0 <= i < MAX_DIRENTS -> dirent_used dir' i = true ->
                  dirent_inode dir' i <> k).
Proof.
  intros Hfm Hst Hmeta Hcs Hino Hslot.
  assert (Hnc : ~ conflict dir (cstr filename)).
  { rewrite Hcs. intros Hc.
    apply conflict_iff in Hc; [|reflexivity|cbn [length]; lia].
    destruct Hc as (i & _ & Hm). unfold slot_matches in Hm.
    cbn [strcmp_eq] in Hm. unfold dirent_used in Hm.
    destruct (peek8 dir (dirent_off i + off_name) =? 0); discriminate. }
  destruct (create_then_install sb t filename d bm ib0 ib1 dir Hfm Hst Hmeta
              ltac:(rewrite Hcs; cbn [length]; lia) Hino Hslot Hnc)
    as (k & slot & d1 & d2 & Hres). cbv zeta in Hres.
  rewrite Hcs in Hres.
  destruct Hres as (Hc & Hi & Ek & Hkr & Hclear & Hlow & Hm2 & _ & _).
  set (s := prepare bm ib0 ib1 dir (inode_direct ib0 0 0) k slot (wrap32 t)
              []) in *.
  exists k, slot, d1, d2, (st_inode_bitmap s), (st_inode_block0 s),
    (st_inode_block1 s), (st_dir_block s).
  split; [exact Hc|]. split; [exact Hi|]. split; [exact Hm2|].
  split; [exact Hkr|]. split; [exact Hclear|].
  pose proof Hlow as (Hsr & Hsfree & Hbelow).
  assert (Hk32 : 0 <= k < 2^32) by (unfold MAX_INODES in Hkr; lia).
  assert (Hdl : Z.of_nat (length dir) = BLOCK_SIZE)
    by (destruct Hmeta as [_ _ _ M4]; exact (read_block_length _ _ _ M4)).
  change (st_dir_block s) with (set_dirent dir slot k []).
  destruct (set_dirent_empty dir slot k ltac:(lia) Hk32) as (E1 & E2 & E3).
  assert (Hused : forall i, 0 <= i < MAX_DIRENTS ->
                    dirent_used (set_dirent dir slot k []) i
                    = dirent_used dir i).
  { intros i Hir.
    apply (set_dirent_empty_alike dir slot k [] i); try lia; try assumption.
    cbn [length]. lia. }
  assert (Halike : forall name, Z.of_nat (length name) <= 27 ->
            forall i, In i (zrange 0 (Z.to_nat MAX_DIRENTS)) ->
                      alike (set_dirent dir slot k []) dir name i).
  { intros name Hn i Hin. apply zrange_In in Hin.
    apply set_dirent_empty_alike; try lia; assumption. }
  assert (Hrange : forall i, In i (zrange 0 (Z.to_nat MAX_DIRENTS)) ->
            dirent_used (set_dirent dir slot k []) i = dirent_used dir i).
  { intros i Hin. apply zrange_In in Hin. rewrite MAX_DIRENTS_nat in Hin.
    apply Hused. rewrite MAX_DIRENTS_val. lia. }
  split.
  { change (st_inode_bitmap s) with (set_bit bm k).
    rewrite bit_is_clear_set_bit by lia. rewrite Z.eqb_refl. reflexivity. }
  split.
  { unfold s. rewrite prepare_inode_types by (unfold MAX_INODES in *; lia).
    rewrite Z.eqb_refl. reflexivity. }
  split; [exact Hlow|]. split; [exact E1|].
  split.
  { unfold dirent_used in E2.
    destruct (Z.eqb_spec
                (peek8 (set_dirent dir slot k []) (dirent_off slot + off_name))
                0) as [E|_]; [exact E|discriminate]. }
  split; [exact Hused|].
  split; [intros name Hn; apply scan_dirents_ext, Halike, Hn|].
  split.
  { intros name Hn. unfold find_free_dirent.
    apply find_free_dirent_loop_ext, Halike, Hn. }
  split; [apply highest_used_ext, Hrange|].
  split; [apply highest_used_ext, Hrange|].
  split.
  { split; [exact Hsr|]. split; [exact E2|].
    intros j Hj. rewrite Hused by lia. apply Hbelow, Hj. }
  intros Hno i Hir Hu.
  destruct (Z.eq_dec i slot) as [->|Hne];
    [rewrite E2 in Hu; discriminate|].
  destruct (set_dirent_other dir slot k [] i) as (O1 & _ & O3);
    [lia|lia|exact Hne| |].
  { pose proof MAX_DIRENTS_val as Hmd. rewrite Hmd in Hir.
    unfold dirent_off, sizeof_dirent, BLOCK_SIZE in *. lia. }
  rewrite O1. apply Hno; [exact Hir|]. rewrite <- O3. exact Hu.
Qed.

Lemma agreesb_agrees (bm ib0 ib1 : list byte) :
  agreesb bm ib0 ib1 = true -> agrees bm ib0 ib1.
Proof.
  unfold agreesb, agrees. intros H i Hi.
  rewrite forallb_forall in H.
  assert (Hin : In i (zrange 0 (Z.to_nat MAX_INODES)))
    by (apply zrange_In; unfold MAX_INODES in *; lia).
  apply H, eqb_prop in Hin.
  destruct (bit_is_clear bm i);
    destruct (Z.eqb_spec (inode_type_at ib0 ib1 i) INODE_FREE) as [E|E];
    cbn [negb] in Hin; try discriminate; split; intros H1;
    try reflexivity; try discriminate; try exact E; contradiction.
Qed.

Lemma fresh_length : Z.of_nat (length fresh_image) = TOTAL_BLOCKS * BLOCK_SIZE.
Proof. vm_compute. reflexivity. Qed.

Lemma fresh_read_block (b : Z) :
  0 <= b < TOTAL_BLOCKS ->
  read_block fresh_image b
  = Some (sub fresh_image (b * BLOCK_SIZE) BLOCK_SIZE).
Proof.
  intros Hb. apply read_block_in; unfold blk_in; rewrite fresh_length;
    unfold TOTAL_BLOCKS, BLOCK_SIZE in *; lia.
Qed.

Lemma fresh_root_block : inode_direct fresh_ib0 0 0 = 21.
Proof. vm_compute. reflexivity. Qed.

Lemma fresh_meta :
  meta fresh_sb fresh_image fresh_bitmap fresh_ib0 fresh_ib1 fresh_dir.
Proof.
  constructor; [| | |rewrite fresh_root_block];
    apply fresh_read_block; unfold TOTAL_BLOCKS; cbn; lia.
Qed.

Lemma fresh_formatted : formatted fresh_sb fresh_image.
Proof.
  split; [exact open_fresh_image|].
  exists fresh_ib0. split; [exact (m_block0 _ _ _ _ _ _ fresh_meta)|].
  rewrite fresh_root_block, fresh_length.
  constructor; vm_compute; first [reflexivity|discriminate].
Qed.

Lemma fresh_unused : journal_state fresh_sb fresh_image [].
Proof.
  right. split; [reflexivity|].
  exists (sub fresh_image BLOCK_SIZE sizeof_journal_header).
  split; [vm_compute; reflexivity|vm_compute; discriminate].
Qed.

Lemma fresh_bitmap_agrees : bitmap_agrees fresh_sb fresh_image.
Proof.
  destruct fresh_meta as [M1 M2 M3 _].
  exists fresh_bitmap, fresh_ib0, fresh_ib1.
  split; [exact M1|]. split; [exact M2|]. split; [exact M3|].
  apply agreesb_agrees. vm_compute. reflexivity.
Qed.

Lemma fresh_free_inode :
  exists i, 1 <= i < MAX_INODES /\ bit_is_clear fresh_bitmap i = true.
Proof.
  exists 1. split; [unfold MAX_INODES; lia|vm_compute; reflexivity].
Qed.

Lemma fresh_free_slot :
  exists j, 0 <= j < MAX_DIRENTS /\ dirent_used fresh_dir j = false.
Proof.
  exists 2. split; [rewrite MAX_DIRENTS_val; lia|vm_compute; reflexivity].
Qed.

Lemma fresh_no_a_txt : ~ conflict fresh_dir a_txt.
Proof.
  intros Hc. apply conflict_iff in Hc; [|reflexivity|cbn [length a_txt]; lia].
  apply (scan_dirents_None fresh_dir a_txt _ (-1)) in Hc.
  vm_compute in Hc. discriminate.
Qed.

Lemma create_install_round_trip_witness :
  let sb := fresh_sb in
  let d := fresh_image in
  let filename := a_txt in
  let bm := fresh_bitmap in
  exists k d1 d2 bm' ib0' ib1' dir',
    journal_create sb 0 filename d = (Created k, d1)
    /\ journal_install sb d1 = Done (Installed, 1, d2)
    /\ meta sb d2 bm' ib0' ib1' dir'
    /\ (exists slot,
          0 <= slot < MAX_DIRENTS
          /\ dirent_used dir' slot = true
          /\ cstr (dirent_name dir' slot) = filename
          /\ dirent_inode dir' slot = k
          /\ forall i, 0 <= i < MAX_DIRENTS ->
                       dirent_used dir' i = true ->
                       cstr (dirent_name dir' i) = filename -> i = slot)
    /\ 1 <= k < MAX_INODES
    /\ bit_is_clear bm k = true
    /\ bit_is_clear bm' k = false
    /\ (let blk := if k <? INODES_PER_BLOCK then ib0' else ib1' in
        let idx := k mod INODES_PER_BLOCK in
        inode_type blk idx = INODE_FILE
        /\ inode_size blk idx = 0
        /\ forall j, 0 <= j < 8 -> inode_direct blk idx j = 0).
Proof.
  apply (create_install_round_trip fresh_sb 0 a_txt fresh_image
           fresh_bitmap fresh_ib0 fresh_ib1 fresh_dir).
  - exact fresh_formatted.
  - exact fresh_unused.
  - exact fresh_meta.
  - reflexivity.
  - cbn [length a_txt]. lia.
  - exact fresh_free_inode.
  - exact fresh_free_slot.
  - exact fresh_no_a_txt.
Defined.

Lemma bitmap_agreement_preserved_witness :
  exists d,
    run [CmdCreate a_txt 0; CmdInstall; CmdCreate (f_txt x31) 1; CmdInstall]
      fresh_image = Done d
    /\ formatted fresh_sb d /\ bitmap_agrees fresh_sb d.
Proof.
  apply (bitmap_agreement_preserved fresh_sb fresh_image).
  - exact fresh_formatted.
  - exact fresh_bitmap_agrees.
  - exact fresh_unused.
Defined.

Lemma create_empty_name_witness :
  let sb := fresh_sb in
  let d := fresh_image in
  let filename := @nil byte in
  let bm := fresh_bitmap in
  let dir := fresh_dir in
  exists k slot d1 d2 bm' ib0' ib1' dir',
    journal_create sb 0 filename d = (Created k, d1)
    /\ journal_install sb d1 = Done (Installed, 1, d2)
    /\ meta sb d2 bm' ib0' ib1' dir'
    /\ 1 <= k < MAX_INODES
    /\ bit_is_clear bm k = true
    /\ bit_is_clear bm' k = false
    /\ inode_type_at ib0' ib1' k = INODE_FILE
    /\ lowest_empty dir slot
    /\ dirent_inode dir' slot = k
    /\ peek8 dir' (dirent_off slot + off_name) = 0
    /\ (forall i, 0 <= i < MAX_DIRENTS ->
                  dirent_used dir' i = dirent_used dir i)
    /\ (forall name, Z.of_nat (length name) <= 27 ->
          scan_dirents dir' name (zrange 0 (Z.to_nat MAX_DIRENTS)) (-1)
          = scan_dirents dir name (zrange 0 (Z.to_nat MAX_DIRENTS)) (-1))
    /\ (forall name, Z.of_nat (length name) <= 27 ->
          find_free_dirent dir' name = find_free_dirent dir name)
    /\ highest_used_of dir' = highest_used_of dir
    /\ get_highest_dirent dir' = get_highest_dirent dir
    /\ lowest_empty dir' slot
    /\ ((forall i, 0 <= i < MAX_DIRENTS -> dirent_used dir i = true ->
                   dirent_inode dir i <> k) ->
        forall i, 0 <= i < MAX_DIRENTS -> dirent_used dir' i = true ->
                  dirent_inode dir' i <> k).
Proof.
  apply (create_empty_name fresh_sb 0 [] fresh_image
           fresh_bitmap fresh_ib0 fresh_ib1 fresh_dir).
  - exact fresh_formatted.
  - exact fresh_unused.
  - exact fresh_meta.
  - reflexivity.
  - exact fresh_free_inode.
  - exact fresh_free_slot.
Defined.

(** ** The capacity check and repeated creates *)

(** X1.  The capacity check of [journal_create].  A call with a name of at
    most 27 bytes that could read the journal header is refused with
    "Journal is full" exactly when [nbytes_used] plus the size of four
    data records and a commit record (16420 bytes, whether or not the
    second inode-table block is logged), computed in 32 bits, exceeds
    the 65536 bytes of the journal; a refused call leaves the image as
    it was. *)
Theorem create_capacity_check (sb : superblock) (t : Z)
  (filename : list byte) (d : disk) (jh : list byte) :
  Z.of_nat (length (cstr filename)) <= 27 ->
  read_journal_bytes sb d 0 sizeof_journal_header = Some jh ->
  (fst (journal_create sb t filename d) = JournalFull
   <-> wrap32 (used_of jh + 4 * sizeof_data_record + sizeof_commit_record)
       > JOURNAL_BLOCKS * BLOCK_SIZE)
  /\ (fst (journal_create sb t filename d) = JournalFull ->
      snd (journal_create sb t filename d) = d).
Proof.
  intros Hn Hjh. split.
  - rewrite (journal_create_full sb t filename d jh Hn Hjh).
    unfold needed_space. rewrite Z.add_assoc. reflexivity.
  - intros HF.
    apply (journal_create_failed sb t filename d JournalFull);
      [|reflexivity].
    rewrite <- HF. apply surjective_pairing.
Qed.

Lemma image_used_header :
  read_journal_bytes fresh_sb (image_used 49272) 0 sizeof_journal_header
  = Some (enc_journal_header JOURNAL_MAGIC 49272).
Proof. vm_compute. reflexivity. Qed.

Lemma create_capacity_check_witness :
  let d := image_used 49272 in
  let jh := enc_journal_header JOURNAL_MAGIC 49272 in
  (fst (journal_create fresh_sb 0 (f_txt x35) d) = JournalFull
   <-> wrap32 (used_of jh + 4 * sizeof_data_record + sizeof_commit_record)
       > JOURNAL_BLOCKS * BLOCK_SIZE)
  /\ (fst (journal_create fresh_sb 0 (f_txt x35) d) = JournalFull ->
      snd (journal_create fresh_sb 0 (f_txt x35) d) = d).
Proof.
  apply (create_capacity_check fresh_sb 0 (f_txt x35) (image_used 49272)).
  - cbn [length f_txt cstr]. vm_compute. discriminate.
  - exact image_used_header.
Defined.

(** X2.  A create call reads the metadata blocks of the image, which no
    create call writes: of two create calls in a row, with no install
    between them, the second allocates the inode the first allocated. *)
Theorem creates_share_inode (sb : superblock) (t1 t2 : Z)
  (name1 name2 : list byte) (d d1 d2 : disk) (k1 k2 : Z) :
  formatted sb d -> journal_state sb d [] ->
  journal_create sb t1 name1 d = (Created k1, d1) ->
  journal_create sb t2 name2 d1 = (Created k2, d2) ->
  k2 = k1.
Proof.
  intros Hfm Hst Hc1 Hc2.
  assert (Hcap : sizeof_journal_header
                 + Z.of_nat (length (enc_records [])) <= JOURNAL_BLOCKS * BLOCK_SIZE)
    by (vm_compute; discriminate).
  destruct (create_on_formatted _ _ _ _ _ _ _ Hfm Hst Hcap Hc1)
    as (bm & ib0 & ib1 & dir & slot & Hres). cbv zeta in Hres.
  destruct Hres as (_ & Ek1 & _ & _ & _ & _ & _ & Hfm1 & Hm1 & _ & Hh1
                    & Hcap1).
  destruct (create_on_formatted _ _ _ _ _ _ _ Hfm1 (or_introl Hh1) Hcap1 Hc2)
    as (bm' & ib0' & ib1' & dir' & slot' & Hres). cbv zeta in Hres.
  destruct Hres as (Hm2 & Ek2 & _).
  destruct (meta_inj _ _ _ _ _ _ _ _ _ _ Hm1 Hm2) as (-> & _).
  congruence.
Qed.

Lemma create_fresh_f1_txt :
  journal_create fresh_sb 1 (f_txt x31)
    (snd (journal_create fresh_sb 0 a_txt fresh_image))
  = (Created 1,
     snd (journal_create fresh_sb 1 (f_txt x31)
            (snd (journal_create fresh_sb 0 a_txt fresh_image)))).
Proof.
  assert (E : fst (journal_create fresh_sb 1 (f_txt x31)
                     (snd (journal_create fresh_sb 0 a_txt fresh_image)))
              = Created 1) by (vm_compute; reflexivity).
  rewrite <- E at 1. apply surjective_pairing.
Qed.

Lemma creates_share_inode_witness :
  fst (journal_create fresh_sb 0 a_txt fresh_image) = Created 1
  /\ fst (journal_create fresh_sb 1 (f_txt x31)
            (snd (journal_create fresh_sb 0 a_txt fresh_image))) = Created 1
  /\ 1 = 1.
Proof.
  split; [rewrite create_fresh_a_txt; reflexivity|].
  split; [rewrite create_fresh_f1_txt; reflexivity|].
  apply (creates_share_inode fresh_sb 0 1 a_txt (f_txt x31) fresh_image
           (snd (journal_create fresh_sb 0 a_txt fresh_image))
           (snd (journal_create fresh_sb 1 (f_txt x31)
                   (snd (journal_create fresh_sb 0 a_txt fresh_image))))
           1 1).
  - exact fresh_formatted.
  - exact fresh_unused.
  - exact create_fresh_a_txt.
  - exact create_fresh_f1_txt.
Defined.

(** C8 on the code: [journal_create] checks that the journal has room
    for the records before it writes them, but adds in 32 bits and never
    compares [nbytes_used] itself with the size of the journal.  With
    [nbytes_used = 2^32 - 4096] in the header the sum with 16420 wraps
    to 12324 and passes the check, and the seek offset
    [journal_start + nbytes_used] of the first record wraps to 0: the
    call succeeds with inode 1 and block 0 now holds the start of its
    first data record, the one of the inode bitmap; the magic number of
    the superblock is gone, so that [open_disk] refuses the image from
    then on. *)
Lemma create_overwrites_superblock :
  let d := image_wrapped in
  open_disk d = Some fresh_sb
  /\ used_bytes_of fresh_sb d = Some (2^32 - BLOCK_SIZE)
  /\ create_observed fresh_sb 0 a_txt d
     = (Created 1,
        Some (firstn (Z.to_nat BLOCK_SIZE)
                (enc_data_record (sb_inode_bitmap fresh_sb)
                   (set_bit fresh_bitmap 1))),
        None).
Proof.
  split; [vm_compute; reflexivity|].
  split; vm_compute; reflexivity.
Qed.

Lemma zrange_shift (n : nat) :
  forall lo, zrange lo n = map (Z.add lo) (zrange 0 n).
Proof.
  induction n as [|n IH]; intros lo; [reflexivity|].
  cbn [zrange map]. rewrite Z.add_0_r. f_equal.
  rewrite (IH (lo + 1)), (IH (0 + 1)), map_map.
  apply map_ext. intros x. lia.
Qed.

Lemma zrange_app (a b : nat) :
  forall lo, zrange lo (a + b) = zrange lo a ++ zrange (lo + Z.of_nat a) b.
Proof.
  induction a as [|a IH]; intros lo.
  - cbn [Nat.add zrange app]. rewrite Z.add_0_r. reflexivity.
  - cbn [Nat.add zrange app]. rewrite IH.
    replace (lo + Z.of_nat (S a)) with (lo + 1 + Z.of_nat a) by lia.
    reflexivity.
Qed.

Lemma first_clear_app (bitmap : list byte) (a b : list Z) :
  first_clear bitmap (a ++ b)
  = if existsb (bit_is_clear bitmap) a then first_clear bitmap a
    else first_clear bitmap b.
Proof.
  induction a as [|i a IH]; [reflexivity|].
  cbn [app first_clear existsb].
  destruct (bit_is_clear bitmap i); [reflexivity|exact IH].
Qed.

Lemma first_clear_none (bitmap : list byte) (a : list Z) :
  existsb (bit_is_clear bitmap) a = false -> first_clear bitmap a = -1.
Proof.
  induction a as [|i a IH]; [reflexivity|].
  cbn [first_clear existsb].
  destruct (bit_is_clear bitmap i); [discriminate|exact IH].
Qed.

(** Bit [j] of byte [i] is bit [8 * i + j] of the bitmap. *)
Lemma bit_is_clear_at (bitmap : list byte) (i j : Z) :
  0 <= j < 8 ->
  bit_is_clear bitmap (8 * i + j)
  = (Z.land (peek8 bitmap i) (Z.shiftl 1 j) =? 0).
Proof.
  intros Hj. unfold bit_is_clear.
  replace ((8 * i + j) / 8) with i
    by (apply (Z.div_unique _ 8 i j); lia).
  replace ((8 * i + j) mod 8) with j
    by (apply (Z.mod_unique _ 8 i j); lia).
  reflexivity.
Qed.

Lemma full_byte_bit (j : Z) :
  0 <= j < 8 -> (Z.land 255 (Z.shiftl 1 j) =? 0) = false.
Proof.
  intros Hj.
  assert (E : j = 0 \/ j = 1 \/ j = 2 \/ j = 3 \/ j = 4 \/ j = 5 \/ j = 6
              \/ j = 7) by lia.
  repeat (destruct E as [->|E]; [reflexivity|]). subst j. reflexivity.
Qed.

(** The bits of one byte, as the loop of [find_free_bit] and as the
    plain search see them. *)
Lemma find_free_bit_in_first (bitmap : list byte) (i : Z) (js : list Z) :
  Forall (fun j => 0 <= j < 8) js ->
  match find_free_bit_in (peek8 bitmap i) i js with
  | Some idx =>
      existsb (bit_is_clear bitmap) (map (Z.add (8 * i)) js) = true
      /\ first_clear bitmap (map (Z.add (8 * i)) js) = idx
  | None => existsb (bit_is_clear bitmap) (map (Z.add (8 * i)) js) = false
  end.
Proof.
  induction 1 as [|j js Hj _ IH]; [reflexivity|].
  cbn [find_free_bit_in map existsb first_clear].
  rewrite (bit_is_clear_at bitmap i j Hj).
  destruct (Z.land (peek8 bitmap i) (Z.shiftl 1 j) =? 0).
  - split; [reflexivity|lia].
  - cbn [orb]. exact IH.
Qed.

Lemma find_free_bit_in_full (i : Z) (js : list Z) :
  Forall (fun j => 0 <= j < 8) js -> find_free_bit_in 255 i js = None.
Proof.
  induction 1 as [|j js Hj _ IH]; [reflexivity|].
  cbn [find_free_bit_in]. rewrite (full_byte_bit j Hj). exact IH.
Qed.

Lemma bits_of_byte : Forall (fun j => 0 <= j < 8) (zrange 0 8).
Proof. repeat constructor; lia. Qed.

Lemma find_free_bit_loop_first (bitmap : list byte) (m : nat) :
  forall lo,
    find_free_bit_loop bitmap (zrange lo m)
    = first_clear bitmap (zrange (8 * lo) (8 * m)).
Proof.
  induction m as [|m IH]; intros lo; [reflexivity|].
  replace (8 * S m)%nat with (8 + 8 * m)%nat by lia.
  rewrite zrange_app, first_clear_app, (zrange_shift 8 (8 * lo)).
  replace (8 * lo + Z.of_nat 8) with (8 * (lo + 1)) by lia.
  rewrite <- IH.
  change (zrange lo (S m)) with (lo :: zrange (lo + 1) m).
  cbn [find_free_bit_loop].
  pose proof (find_free_bit_in_first bitmap lo (zrange 0 8) bits_of_byte)
    as Hb.
  destruct (Z.eqb_spec (peek8 bitmap lo) 255) as [E|_]; cbn [negb].
  - rewrite E, (find_free_bit_in_full lo _ bits_of_byte) in Hb.
    rewrite Hb. reflexivity.
  - destruct (find_free_bit_in (peek8 bitmap lo) lo (zrange 0 8)) as [idx|].
    + destruct Hb as [-> ->]. reflexivity.
    + rewrite Hb. reflexivity.
Qed.

(** X17.  [find_free_bit] returns the lowest clear bit among the whole bytes
    that [max_bits] covers, or [-1] when all their bits are set; it never
    looks at the bits of a last, partial byte.  The bitmap holds the
    bytes the loop reads. *)
Theorem find_free_bit_spec (bitmap : list byte) (max_bits : Z) :
  Z.quot max_bits 8 <= Z.of_nat (length bitmap) ->
  let n := 8 * Z.max 0 (Z.quot max_bits 8) in
  let r := find_free_bit bitmap max_bits in
  (r = -1 /\ forall k, 0 <= k < n -> bit_is_clear bitmap k = false)
  \/ (0 <= r < n /\ bit_is_clear bitmap r = true
      /\ forall k, 0 <= k < r -> bit_is_clear bitmap k = false).
Proof.
  intros _ n r. unfold r, find_free_bit.
  rewrite find_free_bit_loop_first. change (8 * 0) with 0.
  pose proof (first_clear_spec bitmap (8 * Z.to_nat (Z.quot max_bits 8)) 0
                ltac:(lia)) as H.
  cbv zeta in H.
  replace (0 + Z.of_nat (8 * Z.to_nat (Z.quot max_bits 8))) with n in H
    by (unfold n; lia).
  exact H.
Qed.

Lemma find_free_bit_spec_witness :
  let bitmap := [xff; x07; x00] in
  (find_free_bit bitmap 20 = -1
   /\ forall k, 0 <= k < 16 -> bit_is_clear bitmap k = false)
  \/ (0 <= find_free_bit bitmap 20 < 16
      /\ bit_is_clear bitmap (find_free_bit bitmap 20) = true
      /\ forall k, 0 <= k < find_free_bit bitmap 20 ->
                   bit_is_clear bitmap k = false).
Proof.
  apply (find_free_bit_spec [xff; x07; x00] 20).
  vm_compute. discriminate.
Defined.

Lemma first_clear_filter_app (bitmap : list byte) (a b : list Z) :
  first_clear bitmap (filter nonzero (a ++ b))
  = if existsb (bit_is_clear bitmap) (filter nonzero a)
    then first_clear bitmap (filter nonzero a)
    else first_clear bitmap (filter nonzero b).
Proof. rewrite filter_app. apply first_clear_app. Qed.

Lemma filter_nonzero_cons (k : Z) (l : list Z) :
  filter nonzero (k :: l)
  = if k =? 0 then filter nonzero l else k :: filter nonzero l.
Proof. cbn [filter]. unfold nonzero at 1. destruct (k =? 0); reflexivity. Qed.

(** The bits of one byte as the loop of [find_free_inode] sees them:
    index 0 is passed over. *)
Lemma find_free_in_byte_first (bitmap : list byte) (i : Z) (js : list Z) :
  Forall (fun j => 0 <= j < 8) js ->
  match find_free_in_byte bitmap i js with
  | Some idx =>
      existsb (bit_is_clear bitmap)
        (filter nonzero (map (Z.add (8 * i)) js)) = true
      /\ first_clear bitmap (filter nonzero (map (Z.add (8 * i)) js)) = idx
  | None =>
      existsb (bit_is_clear bitmap)
        (filter nonzero (map (Z.add (8 * i)) js)) = false
  end.
Proof.
  induction 1 as [|j js Hj _ IH]; [reflexivity|].
  cbn [find_free_in_byte map]. rewrite filter_nonzero_cons.
  replace (i * 8 + j) with (8 * i + j) by lia.
  destruct (8 * i + j =? 0); [exact IH|].
  cbn [existsb first_clear].
  rewrite (bit_is_clear_at bitmap i j Hj).
  destruct (Z.land (peek8 bitmap i) (Z.shiftl 1 j) =? 0).
  - split; reflexivity.
  - cbn [orb]. exact IH.
Qed.

Lemma find_free_in_byte_full (bitmap : list byte) (i : Z) (js : list Z) :
  peek8 bitmap i = 255 ->
  Forall (fun j => 0 <= j < 8) js -> find_free_in_byte bitmap i js = None.
Proof.
  intros E. induction 1 as [|j js Hj _ IH]; [reflexivity|].
  cbn [find_free_in_byte]. rewrite E, (full_byte_bit j Hj), IH.
  destruct (i * 8 + j =? 0); reflexivity.
Qed.

Lemma find_free_bytes_first (bitmap : list byte) (m : nat) :
  forall lo,
    find_free_bytes bitmap (zrange lo m)
    = first_clear bitmap (filter nonzero (zrange (8 * lo) (8 * m))).
Proof.
  induction m as [|m IH]; intros lo; [reflexivity|].
  replace (8 * S m)%nat with (8 + 8 * m)%nat by lia.
  rewrite zrange_app, first_clear_filter_app, (zrange_shift 8 (8 * lo)).
  replace (8 * lo + Z.of_nat 8) with (8 * (lo + 1)) by lia.
  rewrite <- IH.
  change (zrange lo (S m)) with (lo :: zrange (lo + 1) m).
  cbn [find_free_bytes].
  pose proof (find_free_in_byte_first bitmap lo (zrange 0 8) bits_of_byte)
    as Hb.
  destruct (Z.eqb_spec (peek8 bitmap lo) 255) as [E|_].
  - rewrite (find_free_in_byte_full bitmap lo _ E bits_of_byte) in Hb.
    rewrite Hb. reflexivity.
  - destruct (find_free_in_byte bitmap lo (zrange 0 8)) as [idx|].
    + destruct Hb as [-> ->]. reflexivity.
    + rewrite Hb. reflexivity.
Qed.

Lemma find_free_inode_free_inode_of (bitmap : list byte) :
  find_free_inode bitmap = free_inode_of bitmap.
Proof.
  unfold find_free_inode, free_inode_of.
  rewrite find_free_bytes_first. reflexivity.
Qed.

(** X16.  The two versions of the search for a free inode agree on every
    bitmap: [find_free_inode] of the second copy, which passes over the
    bytes that are [0xFF] and over index 0, returns what the loop of
    [journal_create] returns. *)
Theorem find_free_inode_agrees (bitmap : list byte) :
  find_free_inode bitmap = free_inode_of bitmap.
Proof.
  exact (find_free_inode_free_inode_of bitmap).
Qed.

(** X18.  [set_bit] on a bitmap that holds the byte of bit [index]: the
    bitmap keeps its length, bit [index] is set afterwards, and every other
    bit is as it was. *)
Theorem set_bit_spec (bitmap : list byte) (index : Z) :
  0 <= index -> index / 8 < Z.of_nat (length bitmap) ->
  length (set_bit bitmap index) = length bitmap
  /\ bit_is_clear (set_bit bitmap index) index = false
  /\ (forall i, 0 <= i -> i <> index ->
                bit_is_clear (set_bit bitmap index) i
                = bit_is_clear bitmap i).
Proof.
  intros H0 Hin. split; [|split].
  - unfold set_bit. apply length_pwrite_in.
    + apply Z.div_pos; lia.
    + cbn [length]. lia.
  - rewrite bit_is_clear_set_bit by lia. rewrite Z.eqb_refl. reflexivity.
  - intros i Hi Hne. rewrite bit_is_clear_set_bit by lia.
    destruct (Z.eqb_spec i index); [contradiction|reflexivity].
Qed.

Lemma set_bit_spec_witness :
  let bitmap := [x01; x00] in
  length (set_bit bitmap 9) = length bitmap
  /\ bit_is_clear (set_bit bitmap 9) 9 = false
  /\ (forall i, 0 <= i -> i <> 9 ->
                bit_is_clear (set_bit bitmap 9) i = bit_is_clear bitmap i).
Proof.
  apply (set_bit_spec [x01; x00] 9).
  - lia.
  - vm_compute. reflexivity.
Defined.

(** ** The highest used directory slot *)

Lemma fold_highest (used : Z -> bool) (n : nat) :
  forall lo h0,
    let r := fold_left (fun h i => if used i then i else h) (zrange lo n) h0 in
    (r = h0 /\ forall i, lo <= i < lo + Z.of_nat n -> used i = false)
    \/ (lo <= r < lo + Z.of_nat n /\ used r = true
        /\ forall i, r < i < lo + Z.of_nat n -> used i = false).
Proof.
  induction n as [|n IH]; intros lo h0 r.
  - left. split; [reflexivity|]. intros i Hi. cbn in Hi. lia.
  - unfold r. cbn [zrange fold_left].
    destruct (IH (lo + 1) (if used lo then lo else h0)) as [(E & Hno)|(Hr & Hu & Hno)].
    + rewrite E. destruct (used lo) eqn:Hlo.
      * right. split; [lia|]. split; [exact Hlo|].
        intros i Hi. apply Hno. lia.
      * left. split; [reflexivity|]. intros i Hi.
        destruct (Z.eq_dec i lo) as [->|Hne]; [exact Hlo|apply Hno; lia].
    + right. split; [lia|]. split; [exact Hu|].
      intros i Hi. apply Hno. lia.
Qed.

Lemma highest_used_cases (dirents : list byte) :
  let h := highest_used_of dirents in
  get_highest_dirent dirents = h
  /\ ((h = -1 /\ forall i, 0 <= i < MAX_DIRENTS ->
                           dirent_used dirents i = false)
      \/ (0 <= h < MAX_DIRENTS /\ dirent_used dirents h = true
          /\ forall i, h < i < MAX_DIRENTS ->
                       dirent_used dirents i = false)).
Proof.
  intros h. split; [reflexivity|].
  pose proof (fold_highest (dirent_used dirents) (Z.to_nat MAX_DIRENTS) 0 (-1))
    as H.
  cbv zeta in H. rewrite MAX_DIRENTS_nat, <- MAX_DIRENTS_val in H.
  exact H.
Qed.

(** X19.  The search for the highest used slot, in both versions of the
    program: [-1] exactly when no slot of the directory block is used,
    otherwise a used slot above which every slot is unused. *)
Theorem highest_used_spec (dirents : list byte) :
  let h := highest_used_of dirents in
  get_highest_dirent dirents = h
  /\ ((h = -1 /\ forall i, 0 <= i < MAX_DIRENTS ->
                           dirent_used dirents i = false)
      \/ (0 <= h < MAX_DIRENTS /\ dirent_used dirents h = true
          /\ forall i, h < i < MAX_DIRENTS ->
                       dirent_used dirents i = false)).
Proof.
  exact (highest_used_cases dirents).
Qed.

(** ** The block store *)

(** X20.  [write_block] then [read_block]: the block written reads back; the
    image grows to the end of that block when it lay beyond the end of
    the image, and keeps its length otherwise; every other block that
    could be read before reads the same. *)
Theorem block_write_read (d : disk) (b : Z) (data : list byte) :
  0 <= b < 2^20 -> Z.of_nat (length data) = BLOCK_SIZE ->
  read_block (write_block d b data) b = Some data
  /\ Z.of_nat (length (write_block d b data))
     = Z.max (Z.of_nat (length d)) ((b + 1) * BLOCK_SIZE)
  /\ (forall b' x, 0 <= b' < 2^20 -> b' <> b ->
                   read_block d b' = Some x ->
                   read_block (write_block d b data) b' = Some x).
Proof.
  intros Hb Hlen. split; [|split].
  - apply read_block_write_same, Hlen.
  - unfold write_block. rewrite length_pwrite, block_pos.
    rewrite (Z.mod_small b) by lia. unfold BLOCK_SIZE in *. lia.
  - intros b' x Hb' Hne Hx.
    apply (read_block_write_other d b' b data x Hx); [lia|].
    rewrite !block_pos, (Z.mod_small b), (Z.mod_small b') by lia.
    unfold BLOCK_SIZE. lia.
Qed.

Lemma block_write_read_witness :
  let d := [x01; x02] in
  let data := block_of x41 in
  read_block (write_block d 1 data) 1 = Some data
  /\ Z.of_nat (length (write_block d 1 data))
     = Z.max (Z.of_nat (length d)) ((1 + 1) * BLOCK_SIZE)
  /\ (forall b' x, 0 <= b' < 2^20 -> b' <> 1 ->
                   read_block d b' = Some x ->
                   read_block (write_block d 1 data) b' = Some x).
Proof.
  apply (block_write_read [x01; x02] 1 (block_of x41)).
  - lia.
  - apply block_of_length.
Defined.

(** X21.  Block numbers are taken modulo [2^20]: the seek offset
    [block_no * BLOCK_SIZE] is a product of 32 bits, and nothing compares
    a block number with the number of blocks.  Block [b + 2^20] is
    block [b], for reading and for writing. *)
Theorem block_number_wraps (d : disk) (b : Z) (data : list byte) :
  read_block d b = read_block d (b mod 2^20)
  /\ write_block d b data = write_block d (b mod 2^20) data
  /\ read_block d (b + 2^20) = read_block d b
  /\ write_block d (b + 2^20) data = write_block d b data.
Proof.
  assert (E1 : wrap32 (b * BLOCK_SIZE) = wrap32 (b mod 2^20 * BLOCK_SIZE)).
  { rewrite !block_pos, Z.mod_mod by lia. reflexivity. }
  assert (E2 : wrap32 ((b + 2^20) * BLOCK_SIZE) = wrap32 (b * BLOCK_SIZE)).
  { rewrite !block_pos. f_equal.
    rewrite <- (Z.mul_1_l (2^20)) at 1. apply Z.mod_add. lia. }
  unfold read_block, write_block. rewrite <- E1, E2. auto.
Qed.

(** ** The outcomes of a create call *)

(** The header a create call reads on a journal that holds the log [rs]
    or was never used. *)
Lemma state_header (sb : superblock) (d : disk) (rs : list record) :
  journal_state sb d rs ->
  exists jh, read_journal_bytes sb d 0 sizeof_journal_header = Some jh
             /\ used_of jh
                = sizeof_journal_header + Z.of_nat (length (enc_records rs)).
Proof.
  intros [Hh|(-> & jh & Hjh & Hm)].
  - pose proof (journal_holds_header sb d rs Hh) as Hhdr.
    destruct Hh as (_ & Hm32 & _). cbv zeta in Hm32.
    eexists. split; [exact Hhdr|].
    unfold used_of.
    rewrite enc_journal_header_magic, enc_journal_header_used.
    destruct (Z.eqb_spec (wrap32 JOURNAL_MAGIC) JOURNAL_MAGIC) as [_|Hm];
      [|exfalso; apply Hm; reflexivity].
    apply wrap32_small. unfold sizeof_journal_header in *. lia.
  - exists jh. split; [exact Hjh|]. unfold used_of.
    destruct (Z.eqb_spec (peek32 jh 0) JOURNAL_MAGIC);
      [contradiction|reflexivity].
Qed.

Lemma create_checks_in_order (sb : superblock) (t : Z) (filename : list byte)
  (d : disk) (bm ib0 ib1 dir : list byte) (rs : list record) :
  formatted sb d -> meta sb d bm ib0 ib1 dir -> journal_state sb d rs ->
  sizeof_journal_header + Z.of_nat (length (enc_records rs))
  <= JOURNAL_BLOCKS * BLOCK_SIZE ->
  let used := sizeof_journal_header + Z.of_nat (length (enc_records rs)) in
  let name := cstr filename in
  let st := fst (journal_create sb t filename d) in
  (27 < Z.of_nat (length name) -> st = NameTooLong)
  /\ (Z.of_nat (length name) <= 27 ->
      (JOURNAL_BLOCKS * BLOCK_SIZE < used + needed_space -> st = JournalFull)
      /\ (used + needed_space <= JOURNAL_BLOCKS * BLOCK_SIZE ->
          ((forall i, 1 <= i < MAX_INODES -> bit_is_clear bm i = false) ->
           st = NoFreeInodes)
          /\ ((exists i, 1 <= i < MAX_INODES /\ bit_is_clear bm i = true) ->
              (conflict dir name -> st = AlreadyExists)
              /\ (~ conflict dir name ->
                  (all_used dir -> st = DirectoryFull)
                  /\ (~ all_used dir ->
                      st = Created (free_inode_of bm)
                      /\ 1 <= free_inode_of bm < MAX_INODES))))).
Proof.
  intros (Hopen & ib0' & Hib0' & Hlay) [M1 M2 M3 M4] Hst Hcap used name st.
  assert (ib0' = ib0) by congruence. subst ib0'.
  destruct (layout_journal _ _ _ Hlay)
    as (Hjs & Hjin & Hmax & B0 & Bbm & Bi0 & Bi1 & Brt).
  assert (Hw1 : wrap32 (sb_inode_start sb + 1) = sb_inode_start sb + 1)
    by (apply wrap32_small; unfold blk_in, BLOCK_SIZE in *; lia).
  destruct (state_header sb d rs Hst) as (jh & Hjh & Hused).
  fold used in Hused, Hcap.
  assert (Hu0 : 0 <= used) by (unfold used, sizeof_journal_header; lia).
  assert (Hns : needed_space = 16420) by reflexivity.
  assert (Hjs' : JOURNAL_BLOCKS * BLOCK_SIZE = 65536) by reflexivity.
  unfold st, journal_create. fold name. fold needed_space.
  split.
  { intros Hlong.
    destruct (Z.gtb_spec (Z.of_nat (length name)) 27); [reflexivity|lia]. }
  intros Hn.
  destruct (Z.gtb_spec (Z.of_nat (length name)) 27); [lia|].
  rewrite Hjh. fold (used_of jh). rewrite Hused.
  rewrite (wrap32_small (used + needed_space)) by lia.
  split.
  { intros Hfull.
    destruct (Z.gtb_spec (used + needed_space) (JOURNAL_BLOCKS * BLOCK_SIZE));
      [reflexivity|lia]. }
  intros Hfit.
  destruct (Z.gtb_spec (used + needed_space) (JOURNAL_BLOCKS * BLOCK_SIZE));
    [lia|].
  rewrite M1.
  pose proof (free_inode_of_spec bm) as Hk. cbv zeta in Hk.
  split.
  { intros Hall. destruct Hk as [(-> & _)|(Hkr & Hclear & _)];
      [reflexivity|].
    rewrite (Hall _ Hkr) in Hclear. discriminate. }
  intros (i & Hi & Hbit).
  destruct Hk as [(_ & Hall)|(Hkr & _)];
    [rewrite (Hall i Hi) in Hbit; discriminate|].
  destruct (Z.eqb_spec (free_inode_of bm) (-1)); [lia|].
  rewrite M2, Hw1, M3, M4.
  assert (Hcs : cstr name = name) by apply cstr_idem.
  split.
  { intros Hc. apply (conflict_iff dir name Hcs Hn) in Hc.
    apply (scan_dirents_None dir name _ (-1)) in Hc.
    rewrite Hc. reflexivity. }
  intros Hnc.
  rewrite (scan_dirents_no_conflict dir name Hcs Hn Hnc).
  pose proof (first_empty_cases dir) as Hfe. cbv zeta in Hfe.
  split.
  { intros Hall. destruct Hfe as [(-> & _)|(Hr & Hfree & _)];
      [reflexivity|].
    rewrite (Hall _ Hr) in Hfree. discriminate. }
  intros Hnall. destruct Hfe as [(_ & Hall)|(Hr & _)]; [contradiction|].
  destruct (Z.eqb_spec (first_empty dir (zrange 0 (Z.to_nat MAX_DIRENTS)))
              (-1)); [lia|].
  split; [reflexivity|exact Hkr].
Qed.

(** X3.  The checks of [journal_create] in the order it makes them, on a
    formatted image whose journal is unused or holds the log [rs]: the
    length of the name, the room in the journal (for four data records
    and a commit record), a free inode among 1 to 63, an entry of the
    same name, a free slot.  The first check that fails names the
    status; when none fails the call logs the file under the lowest free
    inode: its bit is clear and the bits of the inodes from 1 up to it
    are set. *)
Theorem create_outcome (sb : superblock) (t : Z) (filename : list byte)
  (d : disk) (bm ib0 ib1 dir : list byte) (rs : list record) :
  formatted sb d -> meta sb d bm ib0 ib1 dir -> journal_state sb d rs ->
  sizeof_journal_header + Z.of_nat (length (enc_records rs))
  <= JOURNAL_BLOCKS * BLOCK_SIZE ->
  let used := sizeof_journal_header + Z.of_nat (length (enc_records rs)) in
  let name := cstr filename in
  let st := fst (journal_create sb t filename d) in
  (27 < Z.of_nat (length name) -> st = NameTooLong)
  /\ (Z.of_nat (length name) <= 27 ->
      (JOURNAL_BLOCKS * BLOCK_SIZE < used + needed_space -> st = JournalFull)
      /\ (used + needed_space <= JOURNAL_BLOCKS * BLOCK_SIZE ->
          ((forall i, 1 <= i < MAX_INODES -> bit_is_clear bm i = false) ->
           st = NoFreeInodes)
          /\ ((exists i, 1 <= i < MAX_INODES /\ bit_is_clear bm i = true) ->
              (conflict dir name -> st = AlreadyExists)
              /\ (~ conflict dir name ->
                  (all_used dir -> st = DirectoryFull)
                  /\ (~ all_used dir ->
                      st = Created (free_inode_of bm)
                      /\ 1 <= free_inode_of bm < MAX_INODES
                      /\ bit_is_clear bm (free_inode_of bm) = true
                      /\ (forall j, 1 <= j < free_inode_of bm ->
                                    bit_is_clear bm j = false)))))).
Proof.
  intros Hfm Hmeta Hst Hcap used name st.
  pose proof (create_checks_in_order sb t filename d bm ib0 ib1 dir rs
                Hfm Hmeta Hst Hcap) as H.
  cbv zeta in H. fold used name st in H.
  destruct H as [H1 H2]. split; [exact H1|].
  intros Hn. destruct (H2 Hn) as [H3 H4]. split; [exact H3|].
  intros Hc. destruct (H4 Hc) as [H5 H6]. split; [exact H5|].
  intros Hex. destruct (H6 Hex) as [H7 H8]. split; [exact H7|].
  intros Hnc. destruct (H8 Hnc) as [H9 H10]. split; [exact H9|].
  intros Hnu. destruct (H10 Hnu) as [H11 H12].
  split; [exact H11|]. split; [exact H12|].
  pose proof (free_inode_of_spec bm) as Hsp. cbv zeta in Hsp.
  destruct Hsp as [[E _]|(_ & Hclear & Hlow)]; [lia|].
  split; [exact Hclear|exact Hlow].
Qed.

Lemma file_inode_times (t : Z) :
  peek32 (file_inode_bytes t) 40 = wrap32 t
  /\ peek32 (file_inode_bytes t) 44 = wrap32 t.
Proof.
  split.
  - change (file_inode_bytes t)
      with ((enc16 INODE_FILE ++ enc16 1 ++ enc32 0
             ++ enc32 0 ++ enc32 0 ++ enc32 0 ++ enc32 0
             ++ enc32 0 ++ enc32 0 ++ enc32 0 ++ enc32 0)
            ++ enc32 t ++ enc32 t).
    rewrite <- (peek32_enc32 t (enc32 t)).
    match goal with
    | |- peek32 (?P ++ _) _ = _ => change 40 with (Z.of_nat (length P) + 0)
    end.
    apply peek32_at. lia.
  - change (file_inode_bytes t)
      with ((enc16 INODE_FILE ++ enc16 1 ++ enc32 0
             ++ enc32 0 ++ enc32 0 ++ enc32 0 ++ enc32 0
             ++ enc32 0 ++ enc32 0 ++ enc32 0 ++ enc32 0 ++ enc32 t)
            ++ enc32 t ++ []).
    rewrite <- (peek32_enc32 t []).
    match goal with
    | |- peek32 (?P ++ _) _ = _ => change 44 with (Z.of_nat (length P) + 0)
    end.
    apply peek32_at. lia.
Qed.

Lemma init_file_inode_times (blk : list byte) (idx t : Z) :
  0 <= idx ->
  inode_ctime (init_file_inode blk idx t) idx = wrap32 t
  /\ inode_mtime (init_file_inode blk idx t) idx = wrap32 t.
Proof.
  intros Hi. rewrite init_file_inode_eq by assumption.
  unfold inode_ctime, inode_mtime, inode_off, sizeof_inode, off_ctime,
    off_mtime.
  assert (Hl : Z.of_nat (length (file_inode_bytes t)) = 48) by reflexivity.
  destruct (file_inode_times t) as [Hc Hm].
  split; rewrite peek32_pwrite_in by lia.
  - replace (128 * idx + 40 - 128 * idx) with 40 by lia. exact Hc.
  - replace (128 * idx + 44 - 128 * idx) with 44 by lia. exact Hm.
Qed.

(** The bytes of an inode-table block outside the 48 assigned bytes of
    inode [idx] stay. *)
Lemma init_file_inode_peek8 (blk : list byte) (idx t p : Z) :
  0 <= idx -> 0 <= p ->
  p < inode_off idx \/ inode_off idx + 48 <= p ->
  peek8 (init_file_inode blk idx t) p = peek8 blk p.
Proof.
  intros Hi Hp Hout. rewrite init_file_inode_eq by assumption.
  apply peek8_pwrite_other; [unfold inode_off, sizeof_inode; lia|exact Hp|].
  change (Z.of_nat (length (file_inode_bytes t))) with 48. exact Hout.
Qed.

Lemma size_write_peek8 (blk : list byte) (h p : Z) :
  0 <= p -> p < 4 \/ 8 <= p ->
  peek8 (size_write blk h) p = peek8 blk p.
Proof.
  intros Hp Hout. unfold size_write.
  destruct (h >=? 0); [|reflexivity].
  apply peek8_pwrite_other; [unfold inode_off, off_size; lia|exact Hp|].
  change (Z.of_nat (length (enc32 ((h + 1) * sizeof_dirent)))) with 4.
  unfold inode_off, off_size, sizeof_inode. lia.
Qed.

Lemma size_write_size (blk : list byte) (h : Z) :
  -1 <= h < MAX_DIRENTS ->
  inode_size (size_write blk h) 0
  = if 0 <=? h then sizeof_dirent * (h + 1) else inode_size blk 0.
Proof.
  intros Hh. unfold size_write.
  destruct (Z.geb_spec h 0) as [H0|H0]; destruct (Z.leb_spec 0 h) as [H1|H1].
  2, 3: exfalso; lia.
  2: reflexivity.
  unfold inode_size. rewrite peek32_pwrite_enc32
    by (unfold inode_off, off_size; lia).
  rewrite MAX_DIRENTS_val in Hh.
  rewrite wrap32_small by (unfold sizeof_dirent; lia). lia.
Qed.

(** The four blocks of [prepare], each as the writes the source makes. *)
Lemma prepare_blocks (bm ib0 ib1 dir : list byte) (root k slot t : Z)
  (filename : list byte) :
  let s := prepare bm ib0 ib1 dir root k slot t filename in
  st_inode_bitmap s = set_bit bm k
  /\ st_dir_block s = set_dirent dir slot k filename
  /\ st_inode_block0 s
     = size_write (if INODES_PER_BLOCK <=? k then ib0
                   else init_file_inode ib0 k t)
         (highest_used_of (set_dirent dir slot k filename))
  /\ st_inode_block1 s
     = (if INODES_PER_BLOCK <=? k
        then init_file_inode ib1 (k - INODES_PER_BLOCK) t else ib1).
Proof. repeat split. Qed.

Lemma size_write_peek32_hi (blk : list byte) (h off : Z) :
  8 <= off -> peek32 (size_write blk h) off = peek32 blk off.
Proof.
  intros Ho. unfold peek32. rewrite !size_write_peek8 by lia. reflexivity.
Qed.

Section Staged.

Variables (bm ib0 ib1 dir : list byte) (root k slot t : Z)
  (filename : list byte).

Hypothesis Hk : 1 <= k < MAX_INODES.

Hypothesis Hslot : 0 <= slot < MAX_DIRENTS.

Let s := prepare bm ib0 ib1 dir root k slot t filename.

(** Block 0 of the inode table: the four size bytes of inode 0 and, when
    inode [k] lies in this block, its 48 assigned bytes may change. *)
Lemma staged_block0_peek8 (p : Z) :
  0 <= p -> p < 4 \/ 8 <= p ->
  (k < INODES_PER_BLOCK -> p < inode_off k \/ inode_off k + 48 <= p) ->
  peek8 (st_inode_block0 s) p = peek8 ib0 p.
Proof.
  intros Hp H4 Hin.
  destruct (prepare_blocks bm ib0 ib1 dir root k slot t filename)
    as (_ & _ & E0 & _).
  fold s in E0. rewrite E0, size_write_peek8 by assumption.
  destruct (Z.leb_spec INODES_PER_BLOCK k); [reflexivity|].
  apply init_file_inode_peek8; [lia|exact Hp|apply Hin; lia].
Qed.

(** Block 1: the 48 assigned bytes of inode [k] when it lies there. *)
Lemma staged_block1_peek8 (p : Z) :
  0 <= p ->
  (INODES_PER_BLOCK <= k ->
   p < inode_off (k - INODES_PER_BLOCK)
   \/ inode_off (k - INODES_PER_BLOCK) + 48 <= p) ->
  peek8 (st_inode_block1 s) p = peek8 ib1 p.
Proof.
  intros Hp Hin.
  destruct (prepare_blocks bm ib0 ib1 dir root k slot t filename)
    as (_ & _ & _ & E1).
  fold s in E1. rewrite E1.
  destruct (Z.leb_spec INODES_PER_BLOCK k); [|reflexivity].
  apply init_file_inode_peek8; [lia|exact Hp|apply Hin; lia].
Qed.

(** The directory block: the 32 bytes of entry [slot]. *)
Lemma staged_dir_peek8 (p : Z) :
  0 <= p -> p < dirent_off slot \/ dirent_off slot + sizeof_dirent <= p ->
  peek8 (st_dir_block s) p = peek8 dir p.
Proof.
  intros Hp Hout.
  change (st_dir_block s) with (set_dirent dir slot k filename).
  rewrite set_dirent_eq by lia.
  apply peek8_pwrite_other;
    [unfold dirent_off, sizeof_dirent; lia|exact Hp|].
  rewrite length_app, name_field_length.
  change (length (enc32 k)) with 4%nat.
  unfold sizeof_dirent in Hout. lia.
Qed.

(** The bitmap: the byte of bit [k]. *)
Lemma staged_bitmap_peek8 (p : Z) :
  0 <= p -> p <> k / 8 ->
  peek8 (st_inode_bitmap s) p = peek8 bm p.
Proof.
  intros Hp Hne.
  change (st_inode_bitmap s) with (set_bit bm k). unfold set_bit.
  assert (0 <= k / 8) by (apply Z.div_pos; lia).
  apply peek8_pwrite_other; [lia|exact Hp|]. cbn [length]. lia.
Qed.

(** The times of the new inode. *)
Lemma staged_new_inode_times :
  let blk := if k <? INODES_PER_BLOCK
             then st_inode_block0 s else st_inode_block1 s in
  let idx := k mod INODES_PER_BLOCK in
  inode_ctime blk idx = wrap32 t /\ inode_mtime blk idx = wrap32 t.
Proof.
  destruct (prepare_blocks bm ib0 ib1 dir root k slot t filename)
    as (_ & _ & E0 & E1).
  fold s in E0, E1. cbv zeta. rewrite INODES_PER_BLOCK_val in *.
  unfold MAX_INODES in Hk.
  destruct (Z.ltb_spec k 32) as [Hlt|Hge].
  - rewrite (Z.mod_small k 32) by lia. rewrite E0.
    destruct (Z.leb_spec 32 k); [lia|].
    unfold inode_ctime, inode_mtime.
    rewrite !size_write_peek32_hi
      by (unfold inode_off, sizeof_inode, off_ctime, off_mtime; lia).
    apply init_file_inode_times. lia.
  - replace (k mod 32) with (k - 32)
      by (apply (Z.mod_unique k 32 1 (k - 32)); lia).
    rewrite E1. destruct (Z.leb_spec 32 k); [|lia].
    apply init_file_inode_times. lia.
Qed.

(** Inode 0, the root directory: its size is set from the highest used
    slot of the new directory block; nothing else of it changes. *)
Lemma staged_root_inode :
  let h := highest_used_of (st_dir_block s) in
  inode_size (st_inode_block0 s) 0
  = (if 0 <=? h then sizeof_dirent * (h + 1) else inode_size ib0 0)
  /\ inode_type (st_inode_block0 s) 0 = inode_type ib0 0
  /\ inode_links (st_inode_block0 s) 0 = inode_links ib0 0
  /\ (forall j, 0 <= j < 8 ->
                inode_direct (st_inode_block0 s) 0 j = inode_direct ib0 0 j)
  /\ inode_ctime (st_inode_block0 s) 0 = inode_ctime ib0 0
  /\ inode_mtime (st_inode_block0 s) 0 = inode_mtime ib0 0.
Proof.
  intros h.
  assert (Hh : -1 <= h < MAX_DIRENTS).
  { destruct (highest_used_cases (st_dir_block s)) as (_ & [(E & _)|(Hr & _)]);
      fold h in E || fold h in Hr; rewrite MAX_DIRENTS_val in *; lia. }
  assert (Hfar : forall p, 0 <= p < 48 -> p < 4 \/ 8 <= p ->
                   peek8 (st_inode_block0 s) p = peek8 ib0 p).
  { intros p Hp H4. apply staged_block0_peek8; [lia|exact H4|].
    intros _. left. unfold inode_off, sizeof_inode. lia. }
  split.
  { destruct (prepare_blocks bm ib0 ib1 dir root k slot t filename)
      as (_ & _ & E0 & _).
    fold s in E0. rewrite E0.
    change (set_dirent dir slot k filename) with (st_dir_block s).
    fold h. rewrite size_write_size by exact Hh.
    destruct (0 <=? h); [reflexivity|].
    destruct (Z.leb_spec INODES_PER_BLOCK k); [reflexivity|].
    unfold inode_size. apply init_file_inode_peek32_other; [lia| |].
    - unfold inode_off, off_size, sizeof_inode. lia.
    - left. unfold inode_off, off_size, sizeof_inode. lia. }
  unfold inode_type, inode_links, inode_direct, inode_ctime, inode_mtime,
    inode_off, sizeof_inode, off_type, off_links, off_direct, off_ctime,
    off_mtime, peek16, peek32.
  repeat split; try intros j Hj; rewrite !Hfar by lia; reflexivity.
Qed.

End Staged.

(** ** What a create call and the install after it leave in the
       metadata blocks *)

(** X7.  After [create filename] and install on a formatted image: the new
    inode has one link and creation and modification time
    [time (NULL)] (in 32 bits); the size of the root directory inode is
    32 times the number of slots up to the highest used one (which, for
    a name that is not empty, is at least the slot of the new entry);
    type, link count, direct pointers and times of the root inode are
    as before. *)
Theorem create_install_inodes (sb : superblock) (t : Z)
  (filename : list byte) (d : disk) (bm ib0 ib1 dir : list byte) :
  formatted sb d -> journal_state sb d [] ->
  meta sb d bm ib0 ib1 dir ->
  Z.of_nat (length (cstr filename)) <= 27 ->
  (exists i, 1 <= i < MAX_INODES /\ bit_is_clear bm i = true) ->
  (exists j, 0 <= j < MAX_DIRENTS /\ dirent_used dir j = false) ->
  ~ conflict dir (cstr filename) ->
  exists k slot d1 d2 bm' ib0' ib1' dir',
    journal_create sb t filename d = (Created k, d1)
    /\ journal_install sb d1 = Done (Installed, 1, d2)
    /\ meta sb d2 bm' ib0' ib1' dir'
    /\ lowest_empty dir slot
    /\ (let blk := if k <? INODES_PER_BLOCK then ib0' else ib1' in
        let idx := k mod INODES_PER_BLOCK in
        inode_links blk idx = 1
        /\ inode_ctime blk idx = wrap32 t
        /\ inode_mtime blk idx = wrap32 t)
    /\ (let h := highest_used_of dir' in
        inode_size ib0' 0
        = (if 0 <=? h then sizeof_dirent * (h + 1) else inode_size ib0 0)
        /\ (cstr filename <> [] -> slot <= h))
    /\ inode_type ib0' 0 = inode_type ib0 0
    /\ inode_links ib0' 0 = inode_links ib0 0
    /\ (forall j, 0 <= j < 8 -> inode_direct ib0' 0 j = inode_direct ib0 0 j)
    /\ inode_ctime ib0' 0 = inode_ctime ib0 0
    /\ inode_mtime ib0' 0 = inode_mtime ib0 0.
Proof.
  intros Hfm Hst Hmeta Hlen Hino Hfree Hnc.
  destruct (create_then_install sb t filename d bm ib0 ib1 dir Hfm Hst Hmeta
              Hlen Hino Hfree Hnc) as (k & slot & d1 & d2 & Hres).
  cbv zeta in Hres.
  destruct Hres as (Hc & Hi & Ek & Hkr & Hclear & Hlow & Hm2 & _ & _).
  set (s := prepare bm ib0 ib1 dir (inode_direct ib0 0 0) k slot (wrap32 t)
              (cstr filename)) in *.
  exists k, slot, d1, d2, (st_inode_bitmap s), (st_inode_block0 s),
    (st_inode_block1 s), (st_dir_block s).
  pose proof Hlow as (Hsr & Hsfree & _).
  split; [exact Hc|]. split; [exact Hi|]. split; [exact Hm2|].
  split; [exact Hlow|].
  split.
  { destruct (prepare_new_inode bm ib0 ib1 dir (inode_direct ib0 0 0) k slot
                (wrap32 t) (cstr filename) Hkr) as (_ & P2 & _).
    destruct (staged_new_inode_times bm ib0 ib1 dir (inode_direct ib0 0 0) k
                slot (wrap32 t) (cstr filename) Hkr) as (T1 & T2).
    fold s in P2, T1, T2. cbv zeta.
    rewrite (wrap32_small (wrap32 t)) in T1, T2 by apply wrap32_range.
    auto. }
  destruct (staged_root_inode bm ib0 ib1 dir (inode_direct ib0 0 0) k slot
              (wrap32 t) (cstr filename) Hkr Hsr)
    as (R1 & R2 & R3 & R4 & R5 & R6).
  fold s in R1, R2, R3, R4, R5, R6.
  split; [|auto 6].
  cbv zeta. split; [exact R1|].
  intros Hne.
  assert (Hused : dirent_used (st_dir_block s) slot = true).
  { change (st_dir_block s) with (set_dirent dir slot k (cstr filename)).
    destruct (set_dirent_slot dir slot k (cstr filename)) as (_ & _ & E3);
      [lia|unfold MAX_INODES in Hkr; lia|apply cstr_idem|exact Hlen|].
    rewrite E3. destruct (cstr filename); [contradiction|reflexivity]. }
  destruct (highest_used_cases (st_dir_block s))
    as (_ & [(_ & Hall)|(Hr & _ & Habove)]).
  - rewrite (Hall slot Hsr) in Hused. discriminate.
  - destruct (Z.le_gt_cases slot (highest_used_of (st_dir_block s)))
      as [Hle|Hgt]; [exact Hle|].
    rewrite (Habove slot) in Hused by lia. discriminate.
Qed.

(** X8.  After [create filename] and install on a formatted image, the only
    bytes of the metadata blocks that may differ from before are: the
    bitmap byte of the new inode's bit (of which only that bit changes),
    the 48 assigned bytes of the new inode, the four size bytes of inode
    0, and the 32 bytes of the directory entry written.  Every entry
    that was in use keeps its inode number and name. *)
Theorem create_install_frame (sb : superblock) (t : Z)
  (filename : list byte) (d : disk) (bm ib0 ib1 dir : list byte) :
  formatted sb d -> journal_state sb d [] ->
  meta sb d bm ib0 ib1 dir ->
  Z.of_nat (length (cstr filename)) <= 27 ->
  (exists i, 1 <= i < MAX_INODES /\ bit_is_clear bm i = true) ->
  (exists j, 0 <= j < MAX_DIRENTS /\ dirent_used dir j = false) ->
  ~ conflict dir (cstr filename) ->
  exists k slot d1 d2 bm' ib0' ib1' dir',
    journal_create sb t filename d = (Created k, d1)
    /\ journal_install sb d1 = Done (Installed, 1, d2)
    /\ meta sb d2 bm' ib0' ib1' dir'
    /\ (forall i, 0 <= i -> i <> k ->
                  bit_is_clear bm' i = bit_is_clear bm i)
    /\ (forall p, 0 <= p -> p <> k / 8 -> peek8 bm' p = peek8 bm p)
    /\ (forall p, 0 <= p -> p < 4 \/ 8 <= p ->
          (k < INODES_PER_BLOCK ->
           p < inode_off k \/ inode_off k + 48 <= p) ->
          peek8 ib0' p = peek8 ib0 p)
    /\ (forall p, 0 <= p ->
          (INODES_PER_BLOCK <= k ->
           p < inode_off (k - INODES_PER_BLOCK)
           \/ inode_off (k - INODES_PER_BLOCK) + 48 <= p) ->
          peek8 ib1' p = peek8 ib1 p)
    /\ (forall p, 0 <= p ->
          p < dirent_off slot \/ dirent_off slot + sizeof_dirent <= p ->
          peek8 dir' p = peek8 dir p)
    /\ (forall i, 0 <= i < MAX_DIRENTS -> dirent_used dir i = true ->
          dirent_used dir' i = true
          /\ dirent_inode dir' i = dirent_inode dir i
          /\ dirent_name dir' i = dirent_name dir i).
Proof.
  intros Hfm Hst Hmeta Hlen Hino Hfree Hnc.
  destruct (create_then_install sb t filename d bm ib0 ib1 dir Hfm Hst Hmeta
              Hlen Hino Hfree Hnc) as (k & slot & d1 & d2 & Hres).
  cbv zeta in Hres.
  destruct Hres as (Hc & Hi & Ek & Hkr & Hclear & Hlow & Hm2 & _ & _).
  set (s := prepare bm ib0 ib1 dir (inode_direct ib0 0 0) k slot (wrap32 t)
              (cstr filename)) in *.
  exists k, slot, d1, d2, (st_inode_bitmap s), (st_inode_block0 s),
    (st_inode_block1 s), (st_dir_block s).
  pose proof Hlow as (Hsr & Hsfree & _).
  assert (Hdl : Z.of_nat (length dir) = BLOCK_SIZE)
    by (destruct Hmeta as [_ _ _ M4]; exact (read_block_length _ _ _ M4)).
  split; [exact Hc|]. split; [exact Hi|]. split; [exact Hm2|].
  split.
  { intros i Hi0 Hne. change (st_inode_bitmap s) with (set_bit bm k).
    rewrite bit_is_clear_set_bit by lia.
    destruct (Z.eqb_spec i k); [contradiction|reflexivity]. }
  split; [intros p Hp Hne; apply staged_bitmap_peek8; assumption|].
  split; [intros p Hp H4 Hin; apply staged_block0_peek8; assumption|].
  split; [intros p Hp Hin; apply staged_block1_peek8; assumption|].
  split; [intros p Hp Hout; apply staged_dir_peek8; assumption|].
  intros i Hir Hu.
  assert (Hne : i <> slot) by (intros ->; rewrite Hu in Hsfree; discriminate).
  change (st_dir_block s) with (set_dirent dir slot k (cstr filename)).
  destruct (set_dirent_other dir slot k (cstr filename) i) as (O1 & O2 & O3);
    [lia|lia|exact Hne| |].
  { pose proof MAX_DIRENTS_val as Hmd. rewrite Hmd in Hir.
    unfold dirent_off, sizeof_dirent, BLOCK_SIZE in *. lia. }
  rewrite O3. auto.
Qed.

Section Creates.

Variables (sb : superblock) (t : Z) (bm ib0 ib1 dir : list byte).

Hypothesis Hino : exists i, 1 <= i < MAX_INODES /\ bit_is_clear bm i = true.

Hypothesis Hslot : exists j, 0 <= j < MAX_DIRENTS /\ dirent_used dir j = false.

Hypothesis Hbm : Z.of_nat (length bm) = BLOCK_SIZE.

Hypothesis Hib0 : Z.of_nat (length ib0) = BLOCK_SIZE.

Hypothesis Hib1 : Z.of_nat (length ib1) = BLOCK_SIZE.

Hypothesis Hdir : Z.of_nat (length dir) = BLOCK_SIZE.

Let k := free_inode_of bm.

Let slot := first_empty dir (zrange 0 (Z.to_nat MAX_DIRENTS)).

Let tsize := (if INODES_PER_BLOCK <=? k then 4 else 3) * sizeof_data_record
             + sizeof_commit_record.

Lemma free_inode_found : 1 <= k < MAX_INODES /\ bit_is_clear bm k = true.
Proof.
  destruct Hino as (i & Hi & Hbit).
  pose proof (free_inode_of_spec bm) as H. cbv zeta in H. fold k in H.
  destruct H as [(_ & Hall)|(Hk & Hc & _)]; [|auto].
  rewrite (Hall i Hi) in Hbit. discriminate.
Qed.

Lemma free_slot_found : lowest_empty dir slot.
Proof.
  destruct Hslot as (j & Hj & Hfree).
  pose proof (first_empty_cases dir) as H. cbv zeta in H. fold slot in H.
  destruct H as [(_ & Hall)|Hl]; [|exact Hl].
  rewrite (Hall j Hj) in Hfree. discriminate.
Qed.

Lemma staged_for_from (name : list byte) :
  staged_from bm ib0 ib1 dir (staged_for bm ib0 ib1 dir t name).
Proof.
  exists slot, (wrap32 t), (cstr name).
  split; [apply free_slot_found|reflexivity].
Qed.

Lemma staged_for_wf (name : list byte) :
  staged_wf (staged_for bm ib0 ib1 dir t name).
Proof.
  apply prepare_wf; try assumption;
    [apply free_inode_found|apply free_slot_found].
Qed.

(** The log of the transactions of [done] takes [tsize] bytes each. *)
Lemma staged_log_length (done : list (list byte)) :
  Z.of_nat (length (enc_records
                      (flat_map (staged_records sb)
                         (map (staged_for bm ib0 ib1 dir t) done))))
  = Z.of_nat (length done) * tsize.
Proof.
  induction done as [|n done IH]; [reflexivity|].
  cbn [map flat_map]. rewrite enc_records_app, length_app, Nat2Z.inj_add, IH.
  rewrite (staged_records_length sb _ (staged_for_wf n)).
  change (st_inode_in_block1 (staged_for bm ib0 ib1 dir t n))
    with (INODES_PER_BLOCK <=? k).
  fold tsize. cbn [length]. lia.
Qed.

Lemma tsize_cases :
  (tsize = 12316 /\ creates_cap bm = 4%nat)
  \/ (tsize = 16420 /\ creates_cap bm = 3%nat).
Proof.
  unfold tsize, creates_cap. fold k.
  destruct (INODES_PER_BLOCK <=? k); [right|left]; split; reflexivity.
Qed.

Lemma create_each_run (names : list (list byte)) :
  forall (d : disk) (done : list (list byte)),
    (length done <= creates_cap bm)%nat ->
    formatted sb d -> meta sb d bm ib0 ib1 dir ->
    journal_state sb d
      (flat_map (staged_records sb) (map (staged_for bm ib0 ib1 dir t) done)) ->
    Forall (name_ok dir) names ->
    let m := Nat.min (length names) (creates_cap bm - length done) in
    let r := create_each sb t names d in
    fst r = repeat (Created k) m ++ repeat JournalFull (length names - m)
    /\ formatted sb (snd r)
    /\ meta sb (snd r) bm ib0 ib1 dir
    /\ journal_state sb (snd r)
         (flat_map (staged_records sb)
            (map (staged_for bm ib0 ib1 dir t) (done ++ firstn m names))).
Proof.
  induction names as [|n rest IH]; intros d done Hdone Hfm Hmeta Hst Hok m r.
  - unfold m, r. cbn [length Nat.min create_each fst snd repeat app firstn].
    rewrite app_nil_r. auto.
  - inversion Hok as [|? ? (Hlen & Hnc) Hok']; subst.
    pose proof (staged_log_length done) as Hlog.
    pose proof tsize_cases as Hts.
    assert (Hcap : sizeof_journal_header
                   + Z.of_nat (length (enc_records
                        (flat_map (staged_records sb)
                           (map (staged_for bm ib0 ib1 dir t) done))))
                   <= JOURNAL_BLOCKS * BLOCK_SIZE).
    { rewrite Hlog. unfold sizeof_journal_header, JOURNAL_BLOCKS, BLOCK_SIZE.
      destruct Hts as [(-> & E)|(-> & E)]; rewrite E in Hdone; nia. }
    destruct (create_checks_in_order sb t n d bm ib0 ib1 dir _ Hfm Hmeta Hst Hcap)
      as (_ & Hrest).
    destruct (Hrest Hlen) as (Hfull & Hfit). clear Hrest.
    rewrite Hlog in Hfull, Hfit.
    assert (Hns : needed_space = 16420) by reflexivity.
    unfold sizeof_journal_header, JOURNAL_BLOCKS, BLOCK_SIZE in Hfull, Hfit.
    unfold r. cbn [create_each]. cbv zeta.
    destruct (journal_create sb t n d) as [st d1] eqn:Hc. cbn [fst snd].
    cbn [fst] in Hfull, Hfit.
    destruct (Nat.lt_ge_cases (length done) (creates_cap bm)) as [Hlt|Hge].
    + (* room for one more transaction *)
      assert (Est : st = Created k).
      { destruct Hfit as (_ & Hfree);
          [destruct Hts as [(-> & E)|(-> & E)]; rewrite E in Hlt; nia|].
        destruct (Hfree Hino) as (_ & Hnoc).
        destruct (Hnoc Hnc) as (_ & Hsl).
        destruct Hsl as (E & _); [|exact E].
        intros Hall. destruct Hslot as (j & Hj & Hf).
        rewrite (Hall j Hj) in Hf. discriminate. }
      subst st.
      destruct (create_on_formatted _ _ _ _ _ _ _ Hfm Hst Hcap Hc)
        as (bm' & ib0' & ib1' & dir' & slot' & Hres). cbv zeta in Hres.
      destruct Hres as (Hm & _ & _ & _ & Hlow & _ & _ & Hfm1 & Hm1 & _ & Hh
                        & _).
      destruct (meta_inj _ _ _ _ _ _ _ _ _ _ Hmeta Hm) as (-> & -> & -> & ->).
      assert (slot' = slot)
        by (apply (lowest_empty_unique dir); [exact Hlow|apply free_slot_found]).
      subst slot'.
      assert (Hst1 : journal_state sb d1
                (flat_map (staged_records sb)
                   (map (staged_for bm ib0 ib1 dir t) (done ++ [n])))).
      { left. rewrite map_app, flat_map_app. cbn [map flat_map].
        rewrite app_nil_r. exact Hh. }
      destruct (IH d1 (done ++ [n])
                  ltac:(rewrite length_app; cbn [length]; lia)
                  Hfm1 Hm1 Hst1 Hok') as (I1 & I2 & I3 & I4).
      rewrite length_app in I1, I4. cbn [length] in I1, I4.
      unfold m. cbn [length].
      replace (Nat.min (S (length rest)) (creates_cap bm - length done))
        with (S (Nat.min (length rest)
                   (creates_cap bm - (length done + 1)))) by lia.
      cbn [repeat app firstn].
      split; [rewrite I1; f_equal|].
      split; [exact I2|]. split; [exact I3|].
      rewrite <- app_assoc in I4. exact I4.
    + (* the journal is full *)
      assert (Est : st = JournalFull).
      { apply Hfull.
        destruct Hts as [(-> & E)|(-> & E)]; rewrite E in Hge; nia. }
      subst st.
      assert (d1 = d)
        by (apply (journal_create_failed _ _ _ _ _ _ Hc); reflexivity).
      subst d1.
      destruct (IH d done Hdone Hfm Hmeta Hst Hok') as (I1 & I2 & I3 & I4).
      unfold m. cbn [length].
      replace (creates_cap bm - length done)%nat with 0%nat in * by lia.
      rewrite Nat.min_0_r in *. cbn [repeat app firstn] in *.
      rewrite Nat.sub_0_r in *.
      split; [rewrite I1; reflexivity|auto].
Qed.

End Creates.

Lemma meta_lengths (sb : superblock) (d : disk) (bm ib0 ib1 dir : list byte) :
  meta sb d bm ib0 ib1 dir ->
  Z.of_nat (length bm) = BLOCK_SIZE /\ Z.of_nat (length ib0) = BLOCK_SIZE
  /\ Z.of_nat (length ib1) = BLOCK_SIZE /\ Z.of_nat (length dir) = BLOCK_SIZE.
Proof.
  intros [M1 M2 M3 M4].
  repeat split; eapply read_block_length; eassumption.
Qed.

(** X4.  Between two installs the journal takes the transactions of four
    create calls, or of three when the free inode lies in the second
    inode-table block.  On a formatted image with an unused journal, a
    free inode and a free slot, a run of create calls with names that
    pass the checks succeeds (each call with the same inode number) up
    to that number of calls, and every later call is refused with
    "Journal is full". *)
Theorem creates_between_installs (sb : superblock) (t : Z) (d : disk)
  (bm ib0 ib1 dir : list byte) (names : list (list byte)) :
  formatted sb d -> journal_state sb d [] ->
  meta sb d bm ib0 ib1 dir ->
  (exists i, 1 <= i < MAX_INODES /\ bit_is_clear bm i = true) ->
  (exists j, 0 <= j < MAX_DIRENTS /\ dirent_used dir j = false) ->
  Forall (name_ok dir) names ->
  let m := Nat.min (length names) (creates_cap bm) in
  fst (create_each sb t names d)
  = repeat (Created (free_inode_of bm)) m
    ++ repeat JournalFull (length names - m).
Proof.
  intros Hfm Hst Hmeta Hino Hslot Hok m.
  destruct (meta_lengths _ _ _ _ _ _ Hmeta) as (L1 & L2 & L3 & L4).
  destruct (create_each_run sb t bm ib0 ib1 dir Hino Hslot L1 L2 L3 L4 names
              d [] ltac:(cbn [length]; lia) Hfm Hmeta Hst Hok) as (E & _).
  cbn [length] in E. rewrite Nat.sub_0_r in E. exact E.
Qed.

Lemma last_map {A B : Type} (f : A -> B) (l : list A) (a : A) :
  last (map f l) (f a) = f (last l a).
Proof.
  induction l as [|x l IH]; [reflexivity|].
  cbn [map]. destruct l as [|y l]; [reflexivity|].
  cbn [map] in IH |- *. exact IH.
Qed.

(** The create calls of a run, then install: what both leave. *)
Lemma creates_install_blocks (sb : superblock) (t : Z) (d : disk)
  (bm ib0 ib1 dir : list byte) (n : list byte) (names : list (list byte)) :
  formatted sb d -> journal_state sb d [] ->
  meta sb d bm ib0 ib1 dir ->
  (exists i, 1 <= i < MAX_INODES /\ bit_is_clear bm i = true) ->
  (exists j, 0 <= j < MAX_DIRENTS /\ dirent_used dir j = false) ->
  Forall (name_ok dir) (n :: names) ->
  let logged := firstn (creates_cap bm) (n :: names) in
  let s := staged_for bm ib0 ib1 dir t (last logged n) in
  exists d2,
    journal_install sb (snd (create_each sb t (n :: names) d))
    = Done (Installed, Z.of_nat (length logged), d2)
    /\ meta sb d2 (st_inode_bitmap s) (st_inode_block0 s)
         (st_inode_block1 s) (st_dir_block s)
    /\ formatted sb d2 /\ journal_holds sb d2 []
    /\ 1 <= free_inode_of bm < MAX_INODES
    /\ lowest_empty dir (first_empty dir (zrange 0 (Z.to_nat MAX_DIRENTS))).
Proof.
  intros Hfm Hst Hmeta Hino Hslot Hok logged s.
  destruct (meta_lengths _ _ _ _ _ _ Hmeta) as (L1 & L2 & L3 & L4).
  destruct (create_each_run sb t bm ib0 ib1 dir Hino Hslot L1 L2 L3 L4
              (n :: names) d [] ltac:(cbn [length]; lia) Hfm Hmeta Hst Hok)
    as (_ & Hfm1 & Hm1 & Hst1).
  cbn [length app] in Hst1. rewrite Nat.sub_0_r in Hst1.
  assert (Hcap : (1 <= creates_cap bm)%nat)
    by (unfold creates_cap; destruct (_ <=? _); lia).
  assert (Efirst : firstn (Nat.min (S (length names)) (creates_cap bm))
                     (n :: names) = logged).
  { unfold logged. destruct (Nat.le_ge_cases (S (length names)) (creates_cap bm))
      as [Hle|Hge].
    - rewrite Nat.min_l by exact Hle.
      rewrite !firstn_all2 by (cbn [length]; lia). reflexivity.
    - rewrite Nat.min_r by exact Hge. reflexivity. }
  rewrite Efirst in Hst1.
  assert (Elog : exists rest, logged = n :: rest).
  { unfold logged. destruct (creates_cap bm) as [|c]; [lia|].
    cbn [firstn]. eauto. }
  destruct Elog as (rest & Elog).
  destruct (free_inode_found bm Hino) as (Hkr & _).
  pose proof (free_slot_found dir Hslot) as Hlow.
  assert (Hh : journal_holds sb (snd (create_each sb t (n :: names) d))
                 (flat_map (staged_records sb)
                    (map (staged_for bm ib0 ib1 dir t) logged))).
  { destruct Hst1 as [Hh|(E & _)]; [exact Hh|exfalso].
    rewrite Elog in E. cbn [map flat_map] in E. unfold staged_records in E.
    discriminate. }
  rewrite Elog in Hh. cbn [map] in Hh.
  destruct (install_on_formatted sb _ bm ib0 ib1 dir
              (staged_for bm ib0 ib1 dir t n)
              (map (staged_for bm ib0 ib1 dir t) rest) Hfm1 Hm1 Hkr
              ltac:(rewrite <- (map_cons (staged_for bm ib0 ib1 dir t));
                    apply Forall_forall; intros x Hx;
                    apply in_map_iff in Hx as (y & <- & _);
                    apply staged_for_from; assumption)
              Hh) as (d2 & Hi & Hm2 & Hfm2 & Hh2 & _).
  exists d2. rewrite last_map in Hm2.
  assert (Elast : last logged n = last rest n).
  { rewrite Elog. apply last_cons_default. }
  unfold s. rewrite Elast.
  split.
  { rewrite Hi, Elog. cbn [length]. rewrite length_map. reflexivity. }
  auto 6.
Qed.

(** X10.  Install after a run of create calls reports as many transactions
    as calls were logged (all of them, up to the number the journal
    takes), and leaves a formatted image with an empty journal. *)
Theorem install_counts_creates (sb : superblock) (t : Z) (d : disk)
  (bm ib0 ib1 dir : list byte) (names : list (list byte)) :
  formatted sb d -> journal_state sb d [] ->
  meta sb d bm ib0 ib1 dir ->
  (exists i, 1 <= i < MAX_INODES /\ bit_is_clear bm i = true) ->
  (exists j, 0 <= j < MAX_DIRENTS /\ dirent_used dir j = false) ->
  Forall (name_ok dir) names -> names <> [] ->
  exists d2,
    journal_install sb (snd (create_each sb t names d))
    = Done (Installed,
            Z.of_nat (Nat.min (length names) (creates_cap bm)), d2)
    /\ formatted sb d2
    /\ journal_holds sb d2 []
    /\ used_bytes_of sb d2 = Some sizeof_journal_header.
Proof.
  intros Hfm Hst Hmeta Hino Hslot Hok Hne.
  destruct names as [|n names]; [contradiction|].
  destruct (creates_install_blocks sb t d bm ib0 ib1 dir n names Hfm Hst Hmeta
              Hino Hslot Hok) as (d2 & Hi & _ & Hfm2 & Hh2 & _).
  exists d2. rewrite length_firstn, Nat.min_comm in Hi.
  split; [exact Hi|]. split; [exact Hfm2|]. split; [exact Hh2|].
  unfold used_bytes_of.
  rewrite (journal_holds_header sb d2 [] Hh2). cbn [option_map].
  rewrite enc_journal_header_used. reflexivity.
Qed.

(** X9.  A create call does not see the transactions that wait in the
    journal: every call of a run takes the same inode and the same
    directory slot, and install writes the blocks of each transaction
    over those of the one before.  After the run and install, the slot
    holds the name of the last call that was logged, no entry carries
    the name of any other call of the run, and one inode bit was set. *)
Theorem only_last_create_survives (sb : superblock) (t : Z) (d : disk)
  (bm ib0 ib1 dir : list byte) (names : list (list byte)) :
  formatted sb d -> journal_state sb d [] ->
  meta sb d bm ib0 ib1 dir ->
  (exists i, 1 <= i < MAX_INODES /\ bit_is_clear bm i = true) ->
  (exists j, 0 <= j < MAX_DIRENTS /\ dirent_used dir j = false) ->
  Forall (name_ok dir) names -> names <> [] ->
  let k := free_inode_of bm in
  let last_name := last (firstn (creates_cap bm) names) [] in
  exists n d2 bm' ib0' ib1' dir' slot,
    journal_install sb (snd (create_each sb t names d))
    = Done (Installed, n, d2)
    /\ meta sb d2 bm' ib0' ib1' dir'
    /\ lowest_empty dir slot
    /\ dirent_inode dir' slot = k
    /\ cstr (dirent_name dir' slot) = cstr last_name
    /\ (forall name, In name names -> cstr name <> cstr last_name ->
                     ~ conflict dir' (cstr name))
    /\ bit_is_clear bm' k = false
    /\ (forall i, 0 <= i -> i <> k ->
                  bit_is_clear bm' i = bit_is_clear bm i).
Proof.
  intros Hfm Hst Hmeta Hino Hslot Hok Hne k last_name.
  destruct names as [|n names]; [contradiction|].
  destruct (creates_install_blocks sb t d bm ib0 ib1 dir n names Hfm Hst Hmeta
              Hino Hslot Hok) as (d2 & Hi & Hm2 & _ & _ & Hkr & Hlow).
  cbv zeta in Hm2.
  assert (El : last (firstn (creates_cap bm) (n :: names)) n = last_name).
  { unfold last_name.
    assert (Hcap : (1 <= creates_cap bm)%nat)
      by (unfold creates_cap; destruct (_ <=? _); lia).
    destruct (creates_cap bm) as [|c]; [lia|]. cbn [firstn].
    rewrite !last_cons_default. reflexivity. }
  rewrite El in Hm2.
  set (slot := first_empty dir (zrange 0 (Z.to_nat MAX_DIRENTS))) in *.
  set (s := staged_for bm ib0 ib1 dir t last_name) in *.
  exists (Z.of_nat (length (firstn (creates_cap bm) (n :: names)))), d2,
    (st_inode_bitmap s), (st_inode_block0 s), (st_inode_block1 s),
    (st_dir_block s), slot.
  fold k in Hkr.
  destruct (meta_lengths _ _ _ _ _ _ Hmeta) as (_ & _ & _ & Hdl).
  pose proof Hlow as (Hsr & Hsfree & _).
  assert (Hlen : Z.of_nat (length (cstr last_name)) <= 27).
  { destruct (last_In (firstn (creates_cap bm) (n :: names)) [])
      as [E|Hin].
    - fold last_name in E. rewrite <- E. cbn [cstr length]. lia.
    - fold last_name in Hin.
      rewrite Forall_forall in Hok.
      apply (Hok last_name).
      rewrite <- (firstn_skipn (creates_cap bm) (n :: names)).
      apply in_or_app. left. exact Hin. }
  change (st_dir_block s) with (set_dirent dir slot k (cstr last_name)).
  change (st_inode_bitmap s) with (set_bit bm k).
  destruct (set_dirent_slot dir slot k (cstr last_name)) as (E1 & E2 & _);
    [lia|unfold MAX_INODES in Hkr; lia|apply cstr_idem|exact Hlen|].
  split; [exact Hi|]. split; [exact Hm2|]. split; [exact Hlow|].
  split; [exact E1|]. split; [exact E2|].
  split.
  { intros name Hin Hdiff (i & Hir & Hu & Hn).
    destruct (Z.eq_dec i slot) as [->|Hns].
    - rewrite E2 in Hn. congruence.
    - destruct (set_dirent_other dir slot k (cstr last_name) i)
        as (_ & O2 & O3); [lia|lia|exact Hns| |].
      { pose proof MAX_DIRENTS_val as Hmd. rewrite Hmd in Hir.
        unfold dirent_off, sizeof_dirent, BLOCK_SIZE in *. lia. }
      rewrite Forall_forall in Hok. destruct (Hok name Hin) as (_ & Hnc).
      apply Hnc. exists i. rewrite <- O3, <- O2. auto. }
  split.
  { rewrite bit_is_clear_set_bit by lia. rewrite Z.eqb_refl. reflexivity. }
  intros i Hi0 Hne'. rewrite bit_is_clear_set_bit by lia.
  destruct (Z.eqb_spec i k); [contradiction|reflexivity].
Qed.

(** ** What a create call appends to the journal *)

(** X5.  A successful create call on a formatted image appends one
    transaction to the log and keeps the records before it: a data
    record for the inode bitmap block with the new bit set, one for the
    first inode-table block, one for the second inode-table block only
    when the new inode lies there, one for the root directory block with
    the new entry, and a commit record.  [nbytes_used] grows by 12316
    bytes, or by 16420 with the second inode-table block. *)
Theorem create_appends_transaction (sb : superblock) (t : Z)
  (filename : list byte) (d : disk) (bm ib0 ib1 dir : list byte)
  (rs : list record) (k : Z) (d' : disk) :
  formatted sb d -> meta sb d bm ib0 ib1 dir -> journal_state sb d rs ->
  sizeof_journal_header + Z.of_nat (length (enc_records rs))
  <= JOURNAL_BLOCKS * BLOCK_SIZE ->
  journal_create sb t filename d = (Created k, d') ->
  let used := sizeof_journal_header + Z.of_nat (length (enc_records rs)) in
  exists slot ib0' ib1',
    lowest_empty dir slot
    /\ journal_holds sb d'
         (rs ++ [RData (sb_inode_bitmap sb) (set_bit bm k);
                 RData (sb_inode_start sb) ib0']
             ++ (if INODES_PER_BLOCK <=? k
                 then [RData (sb_inode_start sb + 1) ib1'] else [])
             ++ [RData (inode_direct ib0 0 0)
                   (set_dirent dir slot k (cstr filename));
                 RCommit])
    /\ used_bytes_of sb d'
       = Some (used + (if INODES_PER_BLOCK <=? k then 16420 else 12316))
    /\ meta sb d' bm ib0 ib1 dir.
Proof.
  intros Hfm Hmeta Hst Hcap Hc used.
  pose proof Hfm as (_ & ib0x & Hib0x & Hlay).
  destruct (layout_journal _ _ _ Hlay)
    as (_ & _ & Hmax & _ & _ & _ & Bi1 & _).
  assert (Hw1 : wrap32 (sb_inode_start sb + 1) = sb_inode_start sb + 1)
    by (apply wrap32_small; unfold blk_in, BLOCK_SIZE in *; lia).
  destruct (create_on_formatted _ _ _ _ _ _ _ Hfm Hst Hcap Hc)
    as (bm' & ib0' & ib1' & dir' & slot & Hres). cbv zeta in Hres.
  destruct Hres as (Hm & Ek & Hkr & _ & Hlow & _ & _ & _ & Hm' & _ & Hh
                    & Hcap').
  destruct (meta_inj _ _ _ _ _ _ _ _ _ _ Hmeta Hm) as (-> & -> & -> & ->).
  set (s := prepare bm ib0 ib1 dir (inode_direct ib0 0 0) k slot (wrap32 t)
              (cstr filename)) in *.
  exists slot, (st_inode_block0 s), (st_inode_block1 s).
  split; [exact Hlow|].
  assert (Erec : staged_records sb s
                 = [RData (sb_inode_bitmap sb) (set_bit bm k);
                    RData (sb_inode_start sb) (st_inode_block0 s)]
                   ++ (if INODES_PER_BLOCK <=? k
                       then [RData (sb_inode_start sb + 1) (st_inode_block1 s)]
                       else [])
                   ++ [RData (inode_direct ib0 0 0)
                         (set_dirent dir slot k (cstr filename)); RCommit]).
  { unfold staged_records. rewrite Hw1. reflexivity. }
  rewrite <- Erec. split; [exact Hh|]. split; [|exact Hm'].
  unfold used_bytes_of.
  rewrite (journal_holds_header sb d' _ Hh). cbn [option_map].
  rewrite enc_journal_header_used.
  pose proof Hh as (_ & H32 & _). cbv zeta in H32.
  rewrite wrap32_small by (unfold sizeof_journal_header in *; lia).
  rewrite enc_records_app, length_app, Nat2Z.inj_add.
  destruct (meta_lengths _ _ _ _ _ _ Hmeta) as (L1 & L2 & L3 & L4).
  rewrite (staged_records_length sb s)
    by (apply prepare_wf; try assumption; apply Hlow).
  change (st_inode_in_block1 s) with (INODES_PER_BLOCK <=? k).
  unfold used. f_equal.
  destruct (INODES_PER_BLOCK <=? k);
    unfold sizeof_data_record, sizeof_commit_record, BLOCK_SIZE; lia.
Qed.

(** ** A second create call for the same name *)

(** X11.  After [create filename] and install, a second create call for
    the same name (not empty) is refused: with "File already exists" if
    another inode is free, with "No free inodes available" if the first
    call took the last one, since the inode search comes first.  The
    image stays as install left it. *)
Theorem create_again_refused (sb : superblock) (t t' : Z)
  (filename : list byte) (d : disk) (bm ib0 ib1 dir : list byte) :
  formatted sb d -> journal_state sb d [] ->
  meta sb d bm ib0 ib1 dir ->
  0 < Z.of_nat (length (cstr filename)) <= 27 ->
  (exists i, 1 <= i < MAX_INODES /\ bit_is_clear bm i = true) ->
  (exists j, 0 <= j < MAX_DIRENTS /\ dirent_used dir j = false) ->
  ~ conflict dir (cstr filename) ->
  exists k d1 d2,
    journal_create sb t filename d = (Created k, d1)
    /\ journal_install sb d1 = Done (Installed, 1, d2)
    /\ ((exists i, 1 <= i < MAX_INODES /\ i <> k
                   /\ bit_is_clear bm i = true) ->
        journal_create sb t' filename d2 = (AlreadyExists, d2))
    /\ ((forall i, 1 <= i < MAX_INODES -> i <> k ->
                   bit_is_clear bm i = false) ->
        journal_create sb t' filename d2 = (NoFreeInodes, d2)).
Proof.
  intros Hfm Hst Hmeta Hlen Hino Hfree Hnc.
  destruct (create_then_install sb t filename d bm ib0 ib1 dir Hfm Hst Hmeta
              ltac:(lia) Hino Hfree Hnc) as (k & slot & d1 & d2 & Hres).
  cbv zeta in Hres.
  destruct Hres as (Hc & Hi & Ek & Hkr & Hclear & Hlow & Hm2 & Hfm2 & Hh2).
  set (s := prepare bm ib0 ib1 dir (inode_direct ib0 0 0) k slot (wrap32 t)
              (cstr filename)) in *.
  exists k, d1, d2. split; [exact Hc|]. split; [exact Hi|].
  assert (Hcap : sizeof_journal_header
                 + Z.of_nat (length (enc_records [])) <= JOURNAL_BLOCKS * BLOCK_SIZE)
    by (vm_compute; discriminate).
  destruct (create_checks_in_order sb t' filename d2 _ _ _ _ [] Hfm2 Hm2
              (or_introl Hh2) Hcap) as (_ & Hrest).
  destruct (Hrest ltac:(lia)) as (_ & Hfit). clear Hrest.
  destruct (Hfit ltac:(vm_compute; discriminate)) as (Hnone & Hsome).
  clear Hfit.
  pose proof Hlow as (Hsr & _).
  assert (Hbits : forall i, 0 <= i ->
            bit_is_clear (st_inode_bitmap s) i
            = if i =? k then false else bit_is_clear bm i).
  { intros i Hi0. change (st_inode_bitmap s) with (set_bit bm k).
    apply bit_is_clear_set_bit; lia. }
  assert (Hfail : forall st,
            fst (journal_create sb t' filename d2) = st ->
            create_ret st = -1 ->
            journal_create sb t' filename d2 = (st, d2)).
  { intros st E Hret.
    destruct (journal_create sb t' filename d2) as [st' d3] eqn:Hc2.
    cbn [fst] in E. subst st'.
    rewrite (journal_create_failed _ _ _ _ _ _ Hc2 Hret). reflexivity. }
  split.
  - intros (i & Hir & Hne & Hbit).
    apply Hfail; [|reflexivity].
    destruct Hsome as (Hdup & _).
    { exists i. split; [exact Hir|]. rewrite Hbits by lia.
      destruct (Z.eqb_spec i k); [contradiction|exact Hbit]. }
    apply Hdup. exists slot.
    change (st_dir_block s) with (set_dirent dir slot k (cstr filename)).
    destruct (set_dirent_slot dir slot k (cstr filename)) as (_ & E2 & E3);
      [lia|unfold MAX_INODES in Hkr; lia|apply cstr_idem|lia|].
    split; [exact Hsr|]. split; [|exact E2].
    rewrite E3. destruct (Z.eqb_spec (Z.of_nat (length (cstr filename))) 0);
      [lia|reflexivity].
  - intros Hall. apply Hfail; [|reflexivity].
    apply Hnone. intros i Hir. rewrite Hbits by lia.
    destruct (Z.eqb_spec i k); [reflexivity|apply Hall; assumption].
Qed.

Lemma inv_start (sb : superblock) (d : disk) :
  formatted sb d -> bitmap_agrees sb d -> journal_state sb d [] -> inv sb d.
Proof.
  intros Hfm (bm & ib0 & ib1 & Hbm & Hi0 & Hi1 & Hag) Hst.
  pose proof Hfm as (_ & ib0' & Hib0' & Hlay).
  assert (ib0' = ib0) by congruence. subst ib0'.
  destruct (layout_journal _ _ _ Hlay) as (_ & _ & Hmax & _ & _ & _ & _ & Brt).
  split; [exact Hfm|].
  exists bm, ib0, ib1, (sub d (inode_direct ib0 0 0 * BLOCK_SIZE) BLOCK_SIZE).
  split; [constructor; try assumption; apply read_block_in; assumption|].
  split; [exact Hag|]. exists [].
  split; [constructor|]. split; [exact Hst|].
  split; [vm_compute; discriminate|].
  intros E. contradiction.
Qed.

Lemma inv_install_ok (sb : superblock) (d : disk) :
  inv sb d ->
  exists st n d',
    journal_install sb d = Done (st, n, d') /\ install_ret st = 0.
Proof.
  intros (Hfm & bm & ib0 & ib1 & dir & Hmeta & Hag & txs & Hall & Hst
          & Hcap & Hk).
  destruct txs as [|s txs].
  - exists NothingToInstall, 0, d. split; [|reflexivity].
    destruct Hst as [Hh|(_ & jh & Hjh & Hm)].
    + apply journal_install_holds_empty. exact Hh.
    + eapply journal_install_cleared; [exact Hjh|left; exact Hm].
  - destruct Hst as [Hh|(E & _)];
      [|exfalso; cbn [flat_map] in E; unfold staged_records in E;
        discriminate].
    destruct (Hk ltac:(discriminate)) as [Hkr Hclear].
    destruct (install_on_formatted sb d bm ib0 ib1 dir s txs Hfm Hmeta Hkr
                Hall Hh) as (d2 & Hi & _).
    exists Installed, (Z.of_nat (length (s :: txs))), d2.
    split; [exact Hi|reflexivity].
Qed.

(** X14.  On every image that create and install commands leave, starting
    from a formatted image with an unused journal, [journal install]
    exits with status 0: it reads the journal, meets no record it does
    not accept, reads nothing outside its buffer, and clears the
    journal. *)
Theorem install_always_succeeds (sb : superblock) (d0 : disk)
  (cs : list command) (prog : list byte) (rest : list (list byte)) (t : Z) :
  formatted sb d0 -> bitmap_agrees sb d0 -> journal_state sb d0 [] ->
  exists d d',
    run cs d0 = Done d
    /\ main_args (prog :: str_install :: rest) t d = Done (0, d').
Proof.
  intros Hfm Hag Hst.
  destruct (inv_run sb cs d0 (inv_start sb d0 Hfm Hag Hst))
    as (d & Hrun & Hinv).
  destruct (inv_install_ok sb d Hinv) as (st & n & d' & Hi & Hret).
  exists d, d'. split; [exact Hrun|].
  destruct Hinv as ((Hopen & _) & _).
  unfold main_args. rewrite Hopen.
  change (streq str_install str_create) with false.
  change (streq str_install str_install) with true. cbv iota.
  rewrite Hi, Hret. reflexivity.
Qed.

Lemma log_staged_writes (sb : superblock) (used : Z) (s : staged) (d : disk) :
  log_staged sb used s d = do_writes sb (journal_writes sb used s) d.
Proof.
  unfold log_staged, journal_writes, do_writes.
  destruct (st_inode_in_block1 s); reflexivity.
Qed.

(** A journal write past the used region, inside the journal: the image
    stays formatted, its metadata blocks stay, and the journal holds the
    log it held. *)
Lemma write_beyond_used (sb : superblock) (d : disk) (rs : list record)
  (off : Z) (bs bm ib0 ib1 dir : list byte) :
  formatted sb d -> meta sb d bm ib0 ib1 dir -> journal_state sb d rs ->
  sizeof_journal_header + Z.of_nat (length (enc_records rs)) <= off ->
  off + Z.of_nat (length bs) <= JOURNAL_BLOCKS * BLOCK_SIZE ->
  0 < Z.of_nat (length bs) ->
  let d' := write_journal_bytes sb d off bs in
  formatted sb d' /\ meta sb d' bm ib0 ib1 dir /\ journal_state sb d' rs.
Proof.
  intros (Hopen & ib0' & Hib0' & Hlay) [M1 M2 M3 M4] Hst Hoff Hend Hpos d'.
  assert (ib0' = ib0) by congruence. subst ib0'.
  destruct (layout_journal _ _ _ Hlay)
    as (Hjs & Hjin & Hmax & B0 & Bbm & Bi0 & Bi1 & Brt).
  pose proof Hlay as [L1 L2 L3 L4 L5 L6].
  assert (Hoff0 : 0 <= off) by (unfold sizeof_journal_header in Hoff; lia).
  destruct (journal_write_frame sb d off bs Hjs ltac:(lia) Hjin Hmax Hoff0
              Hend Hpos) as (Ld & Fd). fold d' in Ld, Fd.
  assert (R0 : read_block d' 0 = read_block d 0) by (apply Fd; [exact B0|lia]).
  assert (Rbm : read_block d' (sb_inode_bitmap sb) = Some bm)
    by (rewrite Fd; [exact M1|exact Bbm|lia]).
  assert (Ri0 : read_block d' (sb_inode_start sb) = Some ib0)
    by (rewrite Fd; [exact M2|exact Bi0|lia]).
  assert (Ri1 : read_block d' (sb_inode_start sb + 1) = Some ib1)
    by (rewrite Fd; [exact M3|exact Bi1|lia]).
  assert (Rrt : read_block d' (inode_direct ib0 0 0) = Some dir)
    by (rewrite Fd; [exact M4|exact Brt|lia]).
  split.
  { split; [rewrite (open_disk_same d d' R0); exact Hopen|].
    exists ib0. split; [exact Ri0|]. rewrite Ld. exact Hlay. }
  split; [constructor; assumption|].
  assert (Hread : forall n, 0 <= n -> n <= off ->
            read_journal_bytes sb d' 0 n = read_journal_bytes sb d 0 n).
  { intros n Hn0 Hn. unfold d', read_journal_bytes, write_journal_bytes.
    rewrite Z.add_0_r.
    pose proof (wrap32_range (sb_journal_block sb * BLOCK_SIZE)) as Hr.
    fold (journal_start sb) in Hr.
    unfold JOURNAL_BLOCKS, BLOCK_SIZE in *.
    rewrite (wrap32_small (journal_start sb)) by lia.
    rewrite (wrap32_small (journal_start sb + off)) by lia.
    apply pread_pwrite_other; lia. }
  destruct Hst as [(Hwf & H32 & Hr)|(E & jh & Hjh & Hm)].
  - left. split; [exact Hwf|]. split; [exact H32|]. cbv zeta in *.
    rewrite Hread by (unfold sizeof_journal_header in *; lia). exact Hr.
  - right. split; [exact E|]. exists jh. split; [|exact Hm].
    rewrite Hread by (unfold sizeof_journal_header in *; lia). exact Hjh.
Qed.

Lemma do_writes_beyond (sb : superblock) (rs : list record)
  (bm ib0 ib1 dir : list byte) (ws : list (Z * list byte)) :
  Forall (fun w =>
            sizeof_journal_header + Z.of_nat (length (enc_records rs))
            <= fst w
            /\ fst w + Z.of_nat (length (snd w)) <= JOURNAL_BLOCKS * BLOCK_SIZE
            /\ 0 < Z.of_nat (length (snd w))) ws ->
  forall d,
    formatted sb d -> meta sb d bm ib0 ib1 dir -> journal_state sb d rs ->
    formatted sb (do_writes sb ws d)
    /\ meta sb (do_writes sb ws d) bm ib0 ib1 dir
    /\ journal_state sb (do_writes sb ws d) rs.
Proof.
  induction 1 as [|w ws (H1 & H2 & H3) _ IH]; intros d Hfm Hmeta Hst.
  - cbn. auto.
  - unfold do_writes. cbn [fold_left].
    destruct (write_beyond_used sb d rs (fst w) (snd w) bm ib0 ib1 dir
                Hfm Hmeta Hst H1 H2 H3) as (F & M & J).
    apply IH; assumption.
Qed.

Lemma Forall_prefix {A : Type} (P : A -> Prop) (l : list A) :
  Forall P l -> forall n, Forall P (firstn n l).
Proof.
  induction 1 as [|x l Hx _ IH]; intros n.
  - rewrite firstn_nil. constructor.
  - destruct n as [|n]; cbn [firstn]; [constructor|].
    constructor; [exact Hx|apply IH].
Qed.

(** X6.  The journal header is the last thing a create call writes.  If
    the call stops after any number of its journal writes short of that
    last one, the image is formatted, its metadata blocks are untouched
    and the journal holds the log it held before the call: for install
    and for the next create call the interrupted call never ran. *)
Theorem interrupted_create_keeps_log (sb : superblock) (t : Z)
  (filename : list byte) (d : disk) (bm ib0 ib1 dir : list byte)
  (rs : list record) (k : Z) (d' : disk) :
  formatted sb d -> meta sb d bm ib0 ib1 dir -> journal_state sb d rs ->
  sizeof_journal_header + Z.of_nat (length (enc_records rs))
  <= JOURNAL_BLOCKS * BLOCK_SIZE ->
  journal_create sb t filename d = (Created k, d') ->
  exists used s,
    d' = do_writes sb (journal_writes sb used s) d
    /\ forall n, (n < length (journal_writes sb used s))%nat ->
         let dn := do_writes sb (firstn n (journal_writes sb used s)) d in
         formatted sb dn /\ meta sb dn bm ib0 ib1 dir
         /\ journal_state sb dn rs.
Proof.
  intros Hfm Hmeta Hst Hcap Hc.
  apply journal_create_Created in Hc
    as (jh & bm' & ib0' & ib1' & dir' & slot & Hf).
  pose proof Hf as [F1 F2 F3 F4 F5 F6 F7 F8 F9 F10 F11 F12].
  pose proof Hfm as (_ & ib0x & Hib0x & Hlay).
  destruct (layout_journal _ _ _ Hlay)
    as (Hjs & Hjin & Hmax & _ & _ & _ & Bi1 & _).
  assert (Hj32 : journal_start sb + JOURNAL_BLOCKS * BLOCK_SIZE <= 2^32)
    by lia.
  assert (Hw1 : wrap32 (sb_inode_start sb + 1) = sb_inode_start sb + 1)
    by (apply wrap32_small; unfold blk_in, BLOCK_SIZE in *; lia).
  rewrite Hw1 in F8.
  destruct (meta_inj _ _ _ _ _ _ _ _ _ _ Hmeta
              (mk_meta sb d bm' ib0' ib1' dir' F4 F7 F8 F9))
    as (-> & -> & -> & ->).
  destruct (state_header sb d rs Hst) as (jh' & Hjh' & Hused).
  assert (jh' = jh) by congruence. subst jh'.
  assert (Hcap' : used_of jh <= JOURNAL_BLOCKS * BLOCK_SIZE) by lia.
  destruct (create_facts_image _ _ _ _ _ _ _ _ _ _ _ _ Hj32 Hcap' Hf)
    as ((W1 & W2 & W3 & W4) & Hk & Hslot & Hu0 & Hfit & _).
  set (s := prepare bm ib0 ib1 dir (inode_direct ib0 0 0) k slot (wrap32 t)
              (cstr filename)) in *.
  exists (used_of jh), s.
  split; [rewrite <- log_staged_writes; exact F12|].
  intros n Hn dn. unfold dn.
  set (P := fun w : Z * list byte =>
              sizeof_journal_header + Z.of_nat (length (enc_records rs))
              <= fst w
              /\ fst w + Z.of_nat (length (snd w))
                 <= JOURNAL_BLOCKS * BLOCK_SIZE
              /\ 0 < Z.of_nat (length (snd w))).
  apply (do_writes_beyond sb rs bm ib0 ib1 dir); try assumption.
  fold P.
  assert (Hns : needed_space = 16420) by reflexivity.
  assert (Hsd : sizeof_data_record = 4104) by reflexivity.
  assert (Hsc : sizeof_commit_record = 4) by reflexivity.
  assert (Hjb : JOURNAL_BLOCKS * BLOCK_SIZE = 65536) by reflexivity.
  assert (Hlc : Z.of_nat (length enc_commit_record) = 4) by reflexivity.
  assert (Hld : forall b x, Z.of_nat (length x) = BLOCK_SIZE ->
                  Z.of_nat (length (enc_data_record b x)) = 4104)
    by (intros b x Hx; rewrite enc_data_record_length, Hx; reflexivity).
  revert Hn. unfold journal_writes.
  rewrite Hsd, Hsc.
  rewrite (wrap32_small (used_of jh + 4104)) by lia.
  rewrite (wrap32_small (used_of jh + 4104 + 4104)) by lia.
  destruct (st_inode_in_block1 s).
  - rewrite (wrap32_small (used_of jh + 4104 + 4104 + 4104)) by lia.
    rewrite (wrap32_small (used_of jh + 4104 + 4104 + 4104 + 4104)) by lia.
    cbn [app length]. intros Hn.
    match goal with
    | |- Forall P (firstn n [?a; ?b; ?c; ?e; ?f; ?g]) =>
        replace (firstn n [a; b; c; e; f; g])
          with (firstn n [a; b; c; e; f])
          by (do 6 (destruct n as [|n]; [reflexivity|]); lia)
    end.
    apply Forall_prefix.
    repeat constructor; unfold P; cbn [fst snd];
      rewrite ?Hlc, ?Hld by assumption; lia.
  - rewrite (wrap32_small (used_of jh + 4104 + 4104 + 4104)) by lia.
    cbn [app length]. intros Hn.
    match goal with
    | |- Forall P (firstn n [?a; ?b; ?e; ?f; ?g]) =>
        replace (firstn n [a; b; e; f; g])
          with (firstn n [a; b; e; f])
          by (do 5 (destruct n as [|n]; [reflexivity|]); lia)
    end.
    apply Forall_prefix.
    repeat constructor; unfold P; cbn [fst snd];
      rewrite ?Hlc, ?Hld by assumption; lia.
Qed.

(** ** The record loop on a buffer that holds records and more *)

(** The record loop runs through the encoded records [rs] as [replay]
    does, whatever follows them in the buffer. *)
Lemma install_loop_through {S : Type} (wr : S -> Z -> list byte -> S)
  (buf tail : list byte) (u : Z) :
  u = Z.of_nat (length buf) -> u + 65536 <= 2^32 ->
  forall rs pre pending t st fuel,
    Forall wf_record rs ->
    buf = pre ++ enc_records rs ++ tail ->
    install_loop wr (length rs + fuel) buf u (Z.of_nat (length pre))
      pending t st
    = install_loop wr fuel buf u
        (Z.of_nat (length pre) + Z.of_nat (length (enc_records rs)))
        (snd (fst (replay wr rs pending t st)))
        (fst (fst (replay wr rs pending t st)))
        (snd (replay wr rs pending t st)).
Proof.
  intros Hu Hmax.
  induction rs as [|r rs IH]; intros pre pending t st fuel Hwf Hbuf.
  - cbn [length Nat.add replay fst snd].
    change (enc_records []) with (@nil byte). cbn [length].
    rewrite Z.add_0_r. reflexivity.
  - inversion Hwf as [|r' rs' Hr Hrs]; subst r' rs'.
    unfold enc_records in Hbuf |- *. cbn [flat_map] in Hbuf |- *.
    fold (enc_records rs) in Hbuf |- *. rewrite <- app_assoc in Hbuf.
    pose proof (enc_record_length r Hr) as Hlen.
    assert (Hbl : Z.of_nat (length buf)
                  = Z.of_nat (length pre) + Z.of_nat (length (enc_record r))
                    + Z.of_nat (length (enc_records rs))
                    + Z.of_nat (length tail)).
    { rewrite Hbuf, !length_app. lia. }
    assert (Hnext : buf = (pre ++ enc_record r) ++ enc_records rs ++ tail)
      by (rewrite <- app_assoc; exact Hbuf).
    assert (Hoff : Z.of_nat (length pre)
                   + Z.of_nat (length (enc_record r ++ enc_records rs))
                   = Z.of_nat (length (pre ++ enc_record r))
                     + Z.of_nat (length (enc_records rs)))
      by (rewrite !length_app; lia).
    rewrite Hoff.
    set (off := Z.of_nat (length pre)) in *.
    assert (Hty : peek16 buf off
                  = peek16 (enc_record r ++ enc_records rs ++ tail) 0).
    { rewrite Hbuf. unfold off. rewrite <- (Z.add_0_r (Z.of_nat (length pre))).
      apply peek16_at. lia. }
    assert (Hsz : peek16 buf (off + 2)
                  = peek16 (enc_record r ++ enc_records rs ++ tail) 2).
    { rewrite Hbuf. apply peek16_at. lia. }
    cbn [length Nat.add install_loop].
    destruct r as [b data|]; cbn [replay enc_record] in *.
    + destruct Hr as [Hb Hdl].
      unfold sizeof_data_record, BLOCK_SIZE in *.
      rewrite enc_data_record_type in Hty.
      rewrite enc_data_record_size in Hsz.
      unfold sizeof_data_record, BLOCK_SIZE in Hsz.
      destruct (Z.ltb_spec off u); [|lia].
      unfold in_buf, sizeof_rec_header.
      destruct (Z.leb_spec 0 off); [|lia].
      destruct (Z.leb_spec (off + 4) (Z.of_nat (length buf))); [|lia].
      cbn [andb negb]. rewrite Hsz, Hty.
      assert (Hw : wrap32 (off + (4 + 4 + 4096)) = off + (4 + 4 + 4096))
        by (apply wrap32_small; lia).
      rewrite Hw. cbn [Z.eqb orb].
      destruct (Z.gtb_spec (off + (4 + 4 + 4096)) u); [lia|].
      change (REC_DATA =? REC_DATA) with true. cbn iota.
      assert (Hoff' : off + (4 + 4 + 4096)
                      = Z.of_nat (length (pre ++ enc_data_record b data))).
      { rewrite length_app. unfold off. lia. }
      destruct (Z.of_nat (length pending) <? 16).
      * destruct (Z.leb_spec (off + (4 + 4 + 4096)) (Z.of_nat (length buf)));
          [|lia].
        cbn [negb].
        assert (Hblk : peek32 buf (off + 4) = b).
        { rewrite Hbuf. unfold off. rewrite peek32_at by lia.
          apply enc_data_record_block, Hb. }
        assert (Hdat : sub buf (off + 8) 4096 = data).
        { rewrite Hbuf. unfold off. rewrite sub_at by lia.
          rewrite <- Hdl. apply enc_data_record_data. }
        rewrite Hblk, Hdat, Hoff'.
        apply IH; [exact Hrs|exact Hnext].
      * rewrite Hoff'.
        apply IH; [exact Hrs|exact Hnext].
    + unfold sizeof_commit_record in *.
      rewrite enc_commit_record_type in Hty.
      rewrite enc_commit_record_size in Hsz.
      unfold sizeof_commit_record in Hsz.
      destruct (Z.ltb_spec off u); [|lia].
      unfold in_buf, sizeof_rec_header.
      destruct (Z.leb_spec 0 off); [|lia].
      destruct (Z.leb_spec (off + 4) (Z.of_nat (length buf))); [|lia].
      cbn [andb negb]. rewrite Hsz, Hty.
      assert (Hw : wrap32 (off + 4) = off + 4) by (apply wrap32_small; lia).
      rewrite Hw. cbn [Z.eqb orb].
      destruct (Z.gtb_spec (off + 4) u); [lia|].
      change (REC_COMMIT =? REC_DATA) with false.
      change (REC_COMMIT =? REC_COMMIT) with true. cbn iota.
      assert (Hoff' : off + 4 = Z.of_nat (length (pre ++ enc_commit_record))).
      { rewrite length_app. unfold off. lia. }
      rewrite Hoff'.
      apply IH; [exact Hrs|exact Hnext].
Qed.

(** What the loop reads at the bytes [tail] that follow the records. *)
Lemma tail_header (pre mid tail : list byte) :
  4 <= Z.of_nat (length tail) ->
  let buf := pre ++ mid ++ tail in
  let off := Z.of_nat (length pre) + Z.of_nat (length mid) in
  peek16 buf off = peek16 tail 0
  /\ peek16 buf (off + 2) = peek16 tail 2
  /\ in_buf buf off sizeof_rec_header = true.
Proof.
  intros Ht buf off. unfold buf, off.
  rewrite app_assoc, <- Nat2Z.inj_add, <- length_app.
  split; [|split].
  - rewrite <- (Z.add_0_r (Z.of_nat (length (pre ++ mid)))).
    apply peek16_at. lia.
  - apply peek16_at. lia.
  - unfold in_buf, sizeof_rec_header. rewrite (length_app (pre ++ mid)).
    apply andb_true_intro. split; [apply Z.leb_le|apply Z.leb_le]; lia.
Qed.



Lemma open_run_mono (rs : list record) :
  forall a b, (a <= b)%nat -> (open_run rs a <= open_run rs b)%nat.
Proof.
  induction rs as [|r rs IH]; intros a b Hab; [exact Hab|].
  destruct r; cbn [open_run]; [apply IH; lia|lia].
Qed.

Lemma replay_pending_length {S : Type} (wr : S -> Z -> list byte -> S)
  (rs : list record) :
  forall pending t st,
    (open_run rs (length pending) < 16)%nat ->
    (length (snd (fst (replay wr rs pending t st))) < 16)%nat.
Proof.
  induction rs as [|r rs IH]; intros pending t st H; [exact H|].
  destruct r as [b data|]; cbn [replay open_run] in *; [|apply IH; exact H].
  pose proof (open_run_mono rs (length pending) (Datatypes.S (length pending))
                ltac:(lia)) as Hm.
  apply IH.
  destruct (Z.of_nat (length pending) <? 16); [|lia].
  rewrite length_app. cbn [length].
  replace (length pending + 1)%nat with (Datatypes.S (length pending)) by lia.
  exact H.
Qed.

(** X13.  The check of the record loop compares the size field of a record
    with the used region, but a data record is copied as 4104 bytes
    whatever its size field says.  When the used region ends inside a
    data record whose size field passes the check (after a log with
    fewer than 16 data records since the last commit), install reads
    past the end of its buffer [journal_data]: undefined behaviour. *)
Theorem install_reads_past_buffer (sb : superblock) (d : disk)
  (rs : list record) (tail : list byte) :
  let u := sizeof_journal_header + Z.of_nat (length (enc_records rs))
           + Z.of_nat (length tail) in
  Forall wf_record rs -> u + 65536 <= 2^32 -> cut_short tail ->
  (open_run rs 0 < 16)%nat ->
  read_journal_bytes sb d 0 u
  = Some (enc_journal_header JOURNAL_MAGIC u ++ enc_records rs ++ tail) ->
  journal_install sb d = Undefined.
Proof.
  intros u Hwf Hmax ((Ht4 & Ht) & Hdata & Hs0 & Hs) Hrun Hr.
  assert (Hu8 : sizeof_journal_header < u)
    by (unfold u, sizeof_journal_header; lia).
  assert (Hhdr : read_journal_bytes sb d 0 sizeof_journal_header
                 = Some (enc_journal_header JOURNAL_MAGIC u)).
  { unfold read_journal_bytes in *.
    apply (pread_prefix d _ (enc_journal_header JOURNAL_MAGIC u)
             (enc_records rs ++ tail)).
    rewrite <- Hr. f_equal.
    rewrite length_app, Nat2Z.inj_add.
    change (Z.of_nat (length (enc_journal_header JOURNAL_MAGIC u)))
      with sizeof_journal_header.
    unfold u. lia. }
  unfold journal_install. rewrite Hhdr.
  rewrite enc_journal_header_magic, enc_journal_header_used.
  change (wrap32 JOURNAL_MAGIC) with JOURNAL_MAGIC.
  change (JOURNAL_MAGIC =? JOURNAL_MAGIC) with true. cbn [negb].
  rewrite (wrap32_small u) by (unfold u, sizeof_journal_header in *; lia).
  destruct (Z.leb_spec u sizeof_journal_header); [lia|].
  rewrite Hr.
  set (buf := enc_journal_header JOURNAL_MAGIC u ++ enc_records rs ++ tail).
  assert (Hbl : u = Z.of_nat (length buf)).
  { unfold buf. rewrite !length_app, !Nat2Z.inj_add, enc_journal_header_length.
    unfold u. lia. }
  assert (Hfuel : (length rs < Z.to_nat u)%nat).
  { unfold sizeof_journal_header in Hu8.
    destruct rs as [|r rs']; [cbn [length]; lia|].
    destruct (enc_records_nonempty (r :: rs') Hwf ltac:(discriminate))
      as [Hlen _].
    unfold u, sizeof_journal_header in *. lia. }
  replace (Z.to_nat u)
    with (length rs + Datatypes.S (Z.to_nat u - length rs - 1))%nat by lia.
  change sizeof_journal_header
    with (Z.of_nat (length (enc_journal_header JOURNAL_MAGIC u))) at 1.
  rewrite (install_loop_through write_block buf tail u Hbl Hmax rs
             (enc_journal_header JOURNAL_MAGIC u) [] 0 d _ Hwf eq_refl).
  destruct (tail_header (enc_journal_header JOURNAL_MAGIC u)
              (enc_records rs) tail Ht4) as (Hty & Hsz & Hin).
  fold buf in Hty, Hsz, Hin.
  pose proof (replay_pending_length write_block rs [] 0 d Hrun) as Hpl.
  set (off := Z.of_nat (length (enc_journal_header JOURNAL_MAGIC u))
              + Z.of_nat (length (enc_records rs))) in *.
  assert (Hoff : off + Z.of_nat (length tail) = u).
  { unfold off, u. rewrite enc_journal_header_length. reflexivity. }
  destruct (replay write_block rs [] 0 d) as [[t' p'] d']. cbn [fst snd] in *.
  cbn [install_loop].
  destruct (Z.ltb_spec off u); [|lia].
  rewrite Hin. cbn [negb]. rewrite Hsz, Hty, Hdata.
  rewrite (wrap32_small (off + peek16 tail 2)) by lia.
  destruct (Z.eqb_spec (peek16 tail 2) 0) as [E0|N0]; [lia|].
  cbn [orb].
  destruct (Z.gtb_spec (off + peek16 tail 2) u) as [Hgt|Hle]; [lia|].
  change (REC_DATA =? REC_DATA) with true. cbv iota.
  destruct (Z.ltb_spec (Z.of_nat (length p')) 16); [|lia].
  unfold in_buf.
  destruct (Z.leb_spec 0 off); [|lia].
  destruct (Z.leb_spec (off + sizeof_data_record) (Z.of_nat (length buf)));
    [lia|].
  reflexivity.
Qed.

Lemma journal_create_v2_agrees (sb : superblock) (t : Z)
  (filename : list byte) (d : disk) :
  let r1 := journal_create sb t filename d in
  match journal_create_v2 sb t filename d with
  | Done (ret, d') =>
      read_failed (fst r1) = false
      /\ d' = snd r1
      /\ ret = (if create_ret (fst r1) =? 0 then 1 else 0)
  | Undefined => read_failed (fst r1) = true
  | OutOfFuel => False
  end.
Proof.
  unfold journal_create, journal_create_v2.
  destruct (Z.of_nat (length (cstr filename)) >? 27); [repeat split|].
  destruct (read_journal_bytes sb d 0 sizeof_journal_header) as [jh|];
    [|reflexivity].
  destruct (wrap32 _ >? _); [repeat split|].
  destruct (read_block d (sb_inode_bitmap sb)) as [bm|]; [|reflexivity].
  rewrite find_free_inode_free_inode_of.
  destruct (free_inode_of bm =? -1); [repeat split|].
  destruct (read_block d (sb_inode_start sb)) as [ib0|]; [|reflexivity].
  destruct (read_block d (wrap32 (sb_inode_start sb + 1))) as [ib1|];
    [|reflexivity].
  destruct (read_block d (inode_direct ib0 0 0)) as [dir|]; [|reflexivity].
  pose proof (find_free_dirent_loop_scan dir (cstr filename)
                (zrange 0 (Z.to_nat MAX_DIRENTS)) (-1) false eq_refl) as H.
  unfold find_free_dirent.
  assert (Hpos : forall i, In i (zrange 0 (Z.to_nat MAX_DIRENTS)) -> 0 <= i)
    by (intros i Hi; apply zrange_In in Hi; lia).
  specialize (H Hpos).
  destruct (scan_dirents dir (cstr filename)
              (zrange 0 (Z.to_nat MAX_DIRENTS)) (-1)) as [fd|].
  - rewrite H.
    destruct (Z.eqb_spec fd (-1)) as [He|Hne]; [repeat split|].
    change (0 =? -1) with false. change (0 =? -2) with false. cbn [orb].
    destruct (Z.eqb_spec fd (-1)); [contradiction|].
    repeat split.
  - destruct (find_free_dirent_loop dir (cstr filename)
                (zrange 0 (Z.to_nat MAX_DIRENTS)) (-1) false) as [res fs].
    cbn [fst] in H. subst res. repeat split.
Qed.

(** X15.  The two copies of [journal_create] agree.  On every image and
    name, unless a read fails, the second copy (with [find_free_inode],
    [find_free_dirent] and [get_highest_dirent]) leaves the image the
    first leaves and returns [TRUE] exactly when the first returns 0; a
    read fails for the one exactly when it fails for the other, where
    the first reports an error and the second goes on with an
    indeterminate buffer. *)
Theorem create_versions_agree (sb : superblock) (t : Z)
  (filename : list byte) (d : disk) :
  let r1 := journal_create sb t filename d in
  match journal_create_v2 sb t filename d with
  | Done (ret, d') =>
      read_failed (fst r1) = false
      /\ d' = snd r1
      /\ ret = (if create_ret (fst r1) =? 0 then 1 else 0)
  | Undefined => read_failed (fst r1) = true
  | OutOfFuel => False
  end.
Proof.
  exact (journal_create_v2_agrees sb t filename d).
Qed.

Lemma fresh_no_f1_txt : ~ conflict fresh_dir (f_txt x31).
Proof.
  intros Hc.
  apply conflict_iff in Hc; [|reflexivity|cbn [length f_txt]; lia].
  apply (scan_dirents_None fresh_dir (f_txt x31) _ (-1)) in Hc.
  vm_compute in Hc. discriminate.
Qed.

Lemma two_names_ok : Forall (name_ok fresh_dir) two_names.
Proof.
  repeat constructor.
  - vm_compute. discriminate.
  - exact fresh_no_a_txt.
  - vm_compute. discriminate.
  - exact fresh_no_f1_txt.
Qed.

Lemma create_outcome_witness :
  let sb := fresh_sb in
  let t := 0 in
  let filename := a_txt in
  let d := fresh_image in
  let bm := fresh_bitmap in
  let ib0 := fresh_ib0 in
  let ib1 := fresh_ib1 in
  let dir := fresh_dir in
  let rs := @nil record in
  let used := sizeof_journal_header + Z.of_nat (length (enc_records rs)) in
  let name := cstr filename in
  let st := fst (journal_create sb t filename d) in
  (27 < Z.of_nat (length name) -> st = NameTooLong)
  /\ (Z.of_nat (length name) <= 27 ->
      (JOURNAL_BLOCKS * BLOCK_SIZE < used + needed_space -> st = JournalFull)
      /\ (used + needed_space <= JOURNAL_BLOCKS * BLOCK_SIZE ->
          ((forall i, 1 <= i < MAX_INODES -> bit_is_clear bm i = false) ->
           st = NoFreeInodes)
          /\ ((exists i, 1 <= i < MAX_INODES /\ bit_is_clear bm i = true) ->
              (conflict dir name -> st = AlreadyExists)
              /\ (~ conflict dir name ->
                  (all_used dir -> st = DirectoryFull)
                  /\ (~ all_used dir ->
                      st = Created (free_inode_of bm)
                      /\ 1 <= free_inode_of bm < MAX_INODES
                      /\ bit_is_clear bm (free_inode_of bm) = true
                      /\ (forall j, 1 <= j < free_inode_of bm ->
                                    bit_is_clear bm j = false)))))).
Proof.
  apply (create_outcome fresh_sb 0 a_txt fresh_image fresh_bitmap fresh_ib0 fresh_ib1 fresh_dir (@nil record)).
  - exact fresh_formatted.
  - exact fresh_meta.
  - exact fresh_unused.
  - vm_compute. discriminate.
Defined.

Lemma create_install_inodes_witness :
  let sb := fresh_sb in
  let t := 0 in
  let filename := a_txt in
  let d := fresh_image in
  let bm := fresh_bitmap in
  let ib0 := fresh_ib0 in
  let ib1 := fresh_ib1 in
  let dir := fresh_dir in
  exists k slot d1 d2 bm' ib0' ib1' dir',
    journal_create sb t filename d = (Created k, d1)
    /\ journal_install sb d1 = Done (Installed, 1, d2)
    /\ meta sb d2 bm' ib0' ib1' dir'
    /\ lowest_empty dir slot
    /\ (let blk := if k <? INODES_PER_BLOCK then ib0' else ib1' in
        let idx := k mod INODES_PER_BLOCK in
        inode_links blk idx = 1
        /\ inode_ctime blk idx = wrap32 t
        /\ inode_mtime blk idx = wrap32 t)
    /\ (let h := highest_used_of dir' in
        inode_size ib0' 0
        = (if 0 <=? h then sizeof_dirent * (h + 1) else inode_size ib0 0)
        /\ (cstr filename <> [] -> slot <= h))
    /\ inode_type ib0' 0 = inode_type ib0 0
    /\ inode_links ib0' 0 = inode_links ib0 0
    /\ (forall j, 0 <= j < 8 -> inode_direct ib0' 0 j = inode_direct ib0 0 j)
    /\ inode_ctime ib0' 0 = inode_ctime ib0 0
    /\ inode_mtime ib0' 0 = inode_mtime ib0 0.
Proof.
  apply (create_install_inodes fresh_sb 0 a_txt fresh_image fresh_bitmap fresh_ib0 fresh_ib1 fresh_dir).
  - exact fresh_formatted.
  - exact fresh_unused.
  - exact fresh_meta.
  - vm_compute. discriminate.
  - exact fresh_free_inode.
  - exact fresh_free_slot.
  - exact fresh_no_a_txt.
Defined.

Lemma create_install_frame_witness :
  let sb := fresh_sb in
  let t := 0 in
  let filename := a_txt in
  let d := fresh_image in
  let bm := fresh_bitmap in
  let ib0 := fresh_ib0 in
  let ib1 := fresh_ib1 in
  let dir := fresh_dir in
  exists k slot d1 d2 bm' ib0' ib1' dir',
    journal_create sb t filename d = (Created k, d1)
    /\ journal_install sb d1 = Done (Installed, 1, d2)
    /\ meta sb d2 bm' ib0' ib1' dir'
    /\ (forall i, 0 <= i -> i <> k ->
                  bit_is_clear bm' i = bit_is_clear bm i)
    /\ (forall p, 0 <= p -> p <> k / 8 -> peek8 bm' p = peek8 bm p)
    /\ (forall p, 0 <= p -> p < 4 \/ 8 <= p ->
          (k < INODES_PER_BLOCK ->
           p < inode_off k \/ inode_off k + 48 <= p) ->
          peek8 ib0' p = peek8 ib0 p)
    /\ (forall p, 0 <= p ->
          (INODES_PER_BLOCK <= k ->
           p < inode_off (k - INODES_PER_BLOCK)
           \/ inode_off (k - INODES_PER_BLOCK) + 48 <= p) ->
          peek8 ib1' p = peek8 ib1 p)
    /\ (forall p, 0 <= p ->
          p < dirent_off slot \/ dirent_off slot + sizeof_dirent <= p ->
          peek8 dir' p = peek8 dir p)
    /\ (forall i, 0 <= i < MAX_DIRENTS -> dirent_used dir i = true ->
          dirent_used dir' i = true
          /\ dirent_inode dir' i = dirent_inode dir i
          /\ dirent_name dir' i = dirent_name dir i).
Proof.
  apply (create_install_frame fresh_sb 0 a_txt fresh_image fresh_bitmap fresh_ib0 fresh_ib1 fresh_dir).
  - exact fresh_formatted.
  - exact fresh_unused.
  - exact fresh_meta.
  - vm_compute. discriminate.
  - exact fresh_free_inode.
  - exact fresh_free_slot.
  - exact fresh_no_a_txt.
Defined.

Lemma creates_between_installs_witness :
  let sb := fresh_sb in
  let t := 0 in
  let d := fresh_image in
  let bm := fresh_bitmap in
  let ib0 := fresh_ib0 in
  let ib1 := fresh_ib1 in
  let dir := fresh_dir in
  let names := two_names in
  let m := Nat.min (length names) (creates_cap bm) in
  fst (create_each sb t names d)
  = repeat (Created (free_inode_of bm)) m
    ++ repeat JournalFull (length names - m).
Proof.
  apply (creates_between_installs fresh_sb 0 fresh_image fresh_bitmap fresh_ib0 fresh_ib1 fresh_dir two_names).
  - exact fresh_formatted.
  - exact fresh_unused.
  - exact fresh_meta.
  - exact fresh_free_inode.
  - exact fresh_free_slot.
  - exact two_names_ok.
Defined.

Lemma install_counts_creates_witness :
  let sb := fresh_sb in
  let t := 0 in
  let d := fresh_image in
  let bm := fresh_bitmap in
  let ib0 := fresh_ib0 in
  let ib1 := fresh_ib1 in
  let dir := fresh_dir in
  let names := two_names in
  exists d2,
    journal_install sb (snd (create_each sb t names d))
    = Done (Installed,
            Z.of_nat (Nat.min (length names) (creates_cap bm)), d2)
    /\ formatted sb d2
    /\ journal_holds sb d2 []
    /\ used_bytes_of sb d2 = Some sizeof_journal_header.
Proof.
  apply (install_counts_creates fresh_sb 0 fresh_image fresh_bitmap fresh_ib0 fresh_ib1 fresh_dir two_names).
  - exact fresh_formatted.
  - exact fresh_unused.
  - exact fresh_meta.
  - exact fresh_free_inode.
  - exact fresh_free_slot.
  - exact two_names_ok.
  - discriminate.
Defined.

Lemma only_last_create_survives_witness :
  let sb := fresh_sb in
  let t := 0 in
  let d := fresh_image in
  let bm := fresh_bitmap in
  let ib0 := fresh_ib0 in
  let ib1 := fresh_ib1 in
  let dir := fresh_dir in
  let names := two_names in
  let k := free_inode_of bm in
  let last_name := last (firstn (creates_cap bm) names) [] in
  exists n d2 bm' ib0' ib1' dir' slot,
    journal_install sb (snd (create_each sb t names d))
    = Done (Installed, n, d2)
    /\ meta sb d2 bm' ib0' ib1' dir'
    /\ lowest_empty dir slot
    /\ dirent_inode dir' slot = k
    /\ cstr (dirent_name dir' slot) = cstr last_name
    /\ (forall name, In name names -> cstr name <> cstr last_name ->
                     ~ conflict dir' (cstr name))
    /\ bit_is_clear bm' k = false
    /\ (forall i, 0 <= i -> i <> k ->
                  bit_is_clear bm' i = bit_is_clear bm i).
Proof.
  apply (only_last_create_survives fresh_sb 0 fresh_image fresh_bitmap fresh_ib0 fresh_ib1 fresh_dir two_names).
  - exact fresh_formatted.
  - exact fresh_unused.
  - exact fresh_meta.
  - exact fresh_free_inode.
  - exact fresh_free_slot.
  - exact two_names_ok.
  - discriminate.
Defined.

Lemma create_appends_transaction_witness :
  let sb := fresh_sb in
  let t := 0 in
  let filename := a_txt in
  let d := fresh_image in
  let bm := fresh_bitmap in
  let ib0 := fresh_ib0 in
  let ib1 := fresh_ib1 in
  let dir := fresh_dir in
  let rs := @nil record in
  let k := 1 in
  let d' := snd (journal_create fresh_sb 0 a_txt fresh_image) in
  let used := sizeof_journal_header + Z.of_nat (length (enc_records rs)) in
  exists slot ib0' ib1',
    lowest_empty dir slot
    /\ journal_holds sb d'
         (rs ++ [RData (sb_inode_bitmap sb) (set_bit bm k);
                 RData (sb_inode_start sb) ib0']
             ++ (if INODES_PER_BLOCK <=? k
                 then [RData (sb_inode_start sb + 1) ib1'] else [])
             ++ [RData (inode_direct ib0 0 0)
                   (set_dirent dir slot k (cstr filename));
                 RCommit])
    /\ used_bytes_of sb d'
       = Some (used + (if INODES_PER_BLOCK <=? k then 16420 else 12316))
    /\ meta sb d' bm ib0 ib1 dir.
Proof.
  apply (create_appends_transaction fresh_sb 0 a_txt fresh_image fresh_bitmap fresh_ib0 fresh_ib1 fresh_dir (@nil record) 1 (snd (journal_create fresh_sb 0 a_txt fresh_image))).
  - exact fresh_formatted.
  - exact fresh_meta.
  - exact fresh_unused.
  - vm_compute. discriminate.
  - exact create_fresh_a_txt.
Defined.

Lemma interrupted_create_keeps_log_witness :
  let sb := fresh_sb in
  let t := 0 in
  let filename := a_txt in
  let d := fresh_image in
  let bm := fresh_bitmap in
  let ib0 := fresh_ib0 in
  let ib1 := fresh_ib1 in
  let dir := fresh_dir in
  let rs := @nil record in
  let k := 1 in
  let d' := snd (journal_create fresh_sb 0 a_txt fresh_image) in
  exists used s,
    d' = do_writes sb (journal_writes sb used s) d
    /\ forall n, (n < length (journal_writes sb used s))%nat ->
         let dn := do_writes sb (firstn n (journal_writes sb used s)) d in
         formatted sb dn /\ meta sb dn bm ib0 ib1 dir
         /\ journal_state sb dn rs.
Proof.
  apply (interrupted_create_keeps_log fresh_sb 0 a_txt fresh_image fresh_bitmap fresh_ib0 fresh_ib1 fresh_dir (@nil record) 1 (snd (journal_create fresh_sb 0 a_txt fresh_image))).
  - exact fresh_formatted.
  - exact fresh_meta.
  - exact fresh_unused.
  - vm_compute. discriminate.
  - exact create_fresh_a_txt.
Defined.

Lemma create_again_refused_witness :
  let sb := fresh_sb in
  let t := 0 in
  let t' := 1 in
  let filename := a_txt in
  let d := fresh_image in
  let bm := fresh_bitmap in
  let ib0 := fresh_ib0 in
  let ib1 := fresh_ib1 in
  let dir := fresh_dir in
  exists k d1 d2,
    journal_create sb t filename d = (Created k, d1)
    /\ journal_install sb d1 = Done (Installed, 1, d2)
    /\ ((exists i, 1 <= i < MAX_INODES /\ i <> k
                   /\ bit_is_clear bm i = true) ->
        journal_create sb t' filename d2 = (AlreadyExists, d2))
    /\ ((forall i, 1 <= i < MAX_INODES -> i <> k ->
                   bit_is_clear bm i = false) ->
        journal_create sb t' filename d2 = (NoFreeInodes, d2)).
Proof.
  apply (create_again_refused fresh_sb 0 1 a_txt fresh_image fresh_bitmap fresh_ib0 fresh_ib1 fresh_dir).
  - exact fresh_formatted.
  - exact fresh_unused.
  - exact fresh_meta.
  - cbn [length a_txt cstr]. vm_compute. split; [reflexivity|discriminate].
  - exact fresh_free_inode.
  - exact fresh_free_slot.
  - exact fresh_no_a_txt.
Defined.

Lemma install_always_succeeds_witness :
  let sb := fresh_sb in
  let d0 := fresh_image in
  let cs := [CmdCreate a_txt 0; CmdCreate (f_txt x31) 1] in
  let prog := @nil byte in
  let rest := @nil (list byte) in
  let t := 2 in
  exists d d',
    run cs d0 = Done d
    /\ main_args (prog :: str_install :: rest) t d = Done (0, d').
Proof.
  apply (install_always_succeeds fresh_sb fresh_image ([CmdCreate a_txt 0; CmdCreate (f_txt x31) 1]) (@nil byte) (@nil (list byte)) 2).
  - exact fresh_formatted.
  - exact fresh_bitmap_agrees.
  - exact fresh_unused.
Defined.




Lemma image_cut_holds :
  let u := sizeof_journal_header + Z.of_nat (length (enc_records []))
           + Z.of_nat (length cut_tail) in
  read_journal_bytes fresh_sb image_cut 0 u
  = Some (enc_journal_header JOURNAL_MAGIC u ++ enc_records [] ++ cut_tail).
Proof.
  intros u. unfold image_cut, read_journal_bytes, write_journal_bytes.
  fold u.
  assert (E : u = Z.of_nat (length (enc_journal_header JOURNAL_MAGIC u
                                    ++ enc_records [] ++ cut_tail)))
    by (vm_compute; reflexivity).
  rewrite E at 2. apply pread_pwrite_same. apply wrap32_range.
Qed.

Lemma cut_tail_short : cut_short cut_tail.
Proof.
  split; [vm_compute; split; [discriminate|reflexivity]|].
  split; [vm_compute; reflexivity|].
  vm_compute. split; [reflexivity|discriminate].
Qed.

Lemma install_reads_past_buffer_witness :
  journal_install fresh_sb image_cut = Undefined.
Proof.
  apply (install_reads_past_buffer fresh_sb image_cut [] cut_tail).
  - constructor.
  - vm_compute. discriminate.
  - exact cut_tail_short.
  - cbn [open_run]. lia.
  - exact image_cut_holds.
Defined.

(** A create call, whatever its result, keeps the length of a formatted
    image and every block outside the journal. *)
Lemma create_keeps_blocks (sb : superblock) (t : Z) (filename : list byte)
  (d : disk) (st : create_status) (d' : disk) (rs : list record) :
  formatted sb d -> journal_state sb d rs ->
  sizeof_journal_header + Z.of_nat (length (enc_records rs))
  <= JOURNAL_BLOCKS * BLOCK_SIZE ->
  journal_create sb t filename d = (st, d') ->
  length d' = length d
  /\ (forall b, blk_in (Z.of_nat (length d)) b ->
                b < sb_journal_block sb
                \/ sb_journal_block sb + JOURNAL_BLOCKS <= b ->
                read_block d' b = read_block d b).
Proof.
  intros Hfm Hst Hcap Hc.
  destruct st as [k| | | | | | | | |];
    try (rewrite (journal_create_failed _ _ _ _ _ _ Hc eq_refl);
         split; [reflexivity|intros; reflexivity]).
  destruct Hfm as (Hopen & ib0' & Hib0' & Hlay).
  apply journal_create_Created in Hc
    as (jh & bm & ib0 & ib1 & dir & slot & Hf).
  pose proof Hf as [F1 F2 F3 F4 F5 F6 F7 F8 F9 F10 F11 F12].
  assert (ib0' = ib0) by congruence. subst ib0'.
  destruct (layout_journal _ _ _ Hlay)
    as (Hjs & Hjin & Hmax & B0 & Bbm & Bi0 & Bi1 & Brt).
  pose proof Hlay as [L1 L2 L3 L4 L5 L6].
  assert (Hj32 : journal_start sb + JOURNAL_BLOCKS * BLOCK_SIZE <= 2^32)
    by lia.
  assert (Hused : used_of jh
                  = sizeof_journal_header
                    + Z.of_nat (length (enc_records rs))).
  { destruct Hst as [Hh|(-> & jh' & Hjh' & Hm)].
    - pose proof (journal_holds_header sb d rs Hh) as Hhdr.
      assert (Ejh : jh = enc_journal_header JOURNAL_MAGIC
                           (sizeof_journal_header
                            + Z.of_nat (length (enc_records rs))))
        by congruence.
      destruct Hh as (_ & Hm32 & _). cbv zeta in Hm32.
      unfold used_of. rewrite Ejh.
      rewrite enc_journal_header_magic, enc_journal_header_used.
      destruct (Z.eqb_spec (wrap32 JOURNAL_MAGIC) JOURNAL_MAGIC) as [_|Hm];
        [|exfalso; apply Hm; reflexivity].
      apply wrap32_small. unfold sizeof_journal_header in *. lia.
    - assert (jh' = jh) by congruence. subst jh'.
      unfold used_of. destruct (Z.eqb_spec (peek32 jh 0) JOURNAL_MAGIC);
        [contradiction|reflexivity]. }
  assert (Hcap' : used_of jh <= JOURNAL_BLOCKS * BLOCK_SIZE) by lia.
  destruct (create_facts_image _ _ _ _ _ _ _ _ _ _ _ _ Hj32 Hcap' Hf)
    as (Hwf & Hk & Hslot & Hu0 & Hfit & Hd').
  set (s := prepare bm ib0 ib1 dir (inode_direct ib0 0 0) k slot (wrap32 t)
              (cstr filename)) in *.
  pose proof (staged_records_length sb s Hwf) as Hlen.
  set (recs := enc_records (staged_records sb s)) in *.
  assert (HL : 0 < Z.of_nat (length recs) <= needed_space).
  { rewrite Hlen. unfold needed_space, sizeof_data_record,
      sizeof_commit_record, BLOCK_SIZE.
    destruct (st_inode_in_block1 s); lia. }
  destruct (journal_write_frame sb d (used_of jh) recs Hjs ltac:(lia)
              Hjin Hmax Hu0 ltac:(lia) ltac:(lia)) as (Ld1 & Fd1).
  set (d1 := write_journal_bytes sb d (used_of jh) recs) in *.
  set (hdr := enc_journal_header JOURNAL_MAGIC
                (used_of jh + Z.of_nat (length recs))) in *.
  destruct (journal_write_frame sb d1 0 hdr Hjs ltac:(lia)
              ltac:(rewrite Ld1; exact Hjin) ltac:(rewrite Ld1; exact Hmax)
              ltac:(lia)
              ltac:(unfold JOURNAL_BLOCKS, BLOCK_SIZE;
                    change (Z.of_nat (length hdr)) with 8; lia)
              ltac:(change (Z.of_nat (length hdr)) with 8; lia))
    as (Ld2 & Fd2).
  rewrite <- Hd' in Ld2, Fd2. rewrite Ld1 in Ld2, Fd2.
  split; [exact Ld2|].
  intros b Hb Hout. rewrite Fd2, Fd1 by assumption. reflexivity.
Qed.

(** Install on a formatted image whose journal holds transactions staged
    on it keeps every block other than the journal and the four metadata
    blocks, and the root directory pointer of inode 0. *)
Lemma install_keeps_blocks (sb : superblock) (d : disk)
  (bm ib0 ib1 dir : list byte) (s : staged) (txs : list staged) :
  formatted sb d -> meta sb d bm ib0 ib1 dir ->
  1 <= free_inode_of bm < MAX_INODES ->
  Forall (staged_from bm ib0 ib1 dir) (s :: txs) ->
  journal_holds sb d (flat_map (staged_records sb) (s :: txs)) ->
  exists n d2 ib0',
    journal_install sb d = Done (Installed, n, d2)
    /\ length d2 = length d
    /\ read_block d2 (sb_inode_start sb) = Some ib0'
    /\ inode_direct ib0' 0 0 = inode_direct ib0 0 0
    /\ (forall b, blk_in (Z.of_nat (length d)) b ->
                  b < sb_journal_block sb
                  \/ sb_journal_block sb + JOURNAL_BLOCKS <= b ->
                  b <> sb_inode_bitmap sb -> b <> sb_inode_start sb ->
                  b <> sb_inode_start sb + 1 -> b <> inode_direct ib0 0 0 ->
                  read_block d2 b = read_block d b).
Proof.
  intros Hfm Hmeta Hk Hall Hh.
  destruct (install_on_formatted sb d bm ib0 ib1 dir s txs Hfm Hmeta Hk
              Hall Hh) as (d2 & Hi & [N1 N2 N3 N4] & _ & _ & Hlen).
  destruct Hfm as (Hopen & ib0' & Hib0' & Hlay).
  destruct Hmeta as [M1 M2 M3 M4].
  assert (ib0' = ib0) by congruence. subst ib0'.
  destruct (layout_journal _ _ _ Hlay)
    as (Hjs & Hjin & Hmax & B0 & Bbm & Bi0 & Bi1 & Brt).
  pose proof Hlay as [L1 L2 L3 L4 L5 L6].
  assert (Hne : flat_map (staged_records sb) (s :: txs) <> []).
  { cbn [flat_map]. unfold staged_records. discriminate. }
  exists (Z.of_nat (length (s :: txs))), d2, (st_inode_block0 (last txs s)).
  split; [exact Hi|]. split; [exact Hlen|]. split; [exact N2|].
  split.
  { pose proof (last_In txs s) as Hz.
    rewrite Forall_forall in Hall. apply Hall in Hz.
    destruct Hz as (slot & t & name & Hslot & Ez).
    rewrite Ez. apply prepare_root_pointer. exact Hk. }
  rewrite (journal_install_transactions sb d _ Hh Hne) in Hi.
  rewrite transactions_staged_all, calls_of_staged, length_map in Hi.
  pose proof (read_block_length _ _ _ M1) as Lbm.
  pose proof (read_block_length _ _ _ M2) as Li0.
  pose proof (read_block_length _ _ _ M3) as Li1.
  pose proof (read_block_length _ _ _ M4) as Ldir.
  destruct (apply_staged_all sb bm ib0 ib1 dir txs Lbm Li0 Li1 Ldir Hk d s
              Hlay (fun _ => M3) Hall) as (A1 & A2 & A3 & A4 & A5 & A6).
  set (d1 := apply_pending write_block
               (concat (map (staged_writes sb) (s :: txs))) d) in *.
  set (hdr := enc_journal_header JOURNAL_MAGIC sizeof_journal_header) in *.
  destruct (journal_write_frame sb d1 0 hdr Hjs ltac:(lia)
              ltac:(rewrite A5; exact Hjin) ltac:(rewrite A5; exact Hmax)
              ltac:(lia)
              ltac:(unfold JOURNAL_BLOCKS, BLOCK_SIZE;
                    change (Z.of_nat (length hdr)) with 8; lia)
              ltac:(change (Z.of_nat (length hdr)) with 8; lia))
    as (Ld2 & Fd2).
  rewrite A5 in Fd2.
  assert (Ed2 : d2 = write_journal_bytes sb d1 0 hdr) by congruence.
  intros b Hb Hout Hn1 Hn2 Hn3 Hn4.
  rewrite Ed2, Fd2 by assumption.
  apply A6; assumption.
Qed.

(** A run of commands on an image that satisfies the invariant keeps the
    length of the image, the root directory pointer and every block other
    than the journal and the four metadata blocks. *)
Lemma run_keeps_blocks (sb : superblock) (cs : list command) :
  forall d ib0,
    inv sb d -> read_block d (sb_inode_start sb) = Some ib0 ->
    exists d' ib0',
      run cs d = Done d'
      /\ length d' = length d
      /\ read_block d' (sb_inode_start sb) = Some ib0'
      /\ inode_direct ib0' 0 0 = inode_direct ib0 0 0
      /\ (forall b, blk_in (Z.of_nat (length d)) b ->
                    b < sb_journal_block sb
                    \/ sb_journal_block sb + JOURNAL_BLOCKS <= b ->
                    b <> sb_inode_bitmap sb -> b <> sb_inode_start sb ->
                    b <> sb_inode_start sb + 1 ->
                    b <> inode_direct ib0 0 0 ->
                    read_block d' b = read_block d b).
Proof.
  induction cs as [|c cs IH]; intros d ib0 Hinv Hib0.
  - exists d, ib0. split; [reflexivity|]. split; [reflexivity|].
    split; [exact Hib0|]. split; [reflexivity|]. intros; reflexivity.
  - cbn [run]. unfold main.
    pose proof Hinv as (Hfm & bm & ib0' & ib1 & dir & Hmeta & Hag & txs
                        & Hall & Hst & Hcap & Hk).
    pose proof Hfm as (Hopen & ib0'' & Hib0'' & Hlay).
    pose proof Hmeta as [M1 M2 M3 M4].
    assert (ib0' = ib0) by congruence. subst ib0'.
    assert (ib0'' = ib0) by congruence. subst ib0''.
    destruct (layout_journal _ _ _ Hlay)
      as (Hjs & Hjin & Hmax & B0 & Bbm & Bi0 & Bi1 & Brt).
    pose proof Hlay as [L1 L2 L3 L4 L5 L6].
    rewrite Hopen.
    destruct c as [filename t|].
    + pose proof (inv_create sb d t filename Hinv) as Hinv'.
      destruct (journal_create sb t filename d) as [st d1] eqn:Hc.
      cbn [snd] in Hinv'.
      destruct (create_keeps_blocks sb t filename d st d1 _ Hfm Hst Hcap Hc)
        as (Ld1 & Fd1).
      assert (Hib1 : read_block d1 (sb_inode_start sb) = Some ib0)
        by (rewrite Fd1; [exact Hib0|exact Bi0|lia]).
      destruct (IH d1 ib0 Hinv' Hib1) as (d' & ib0' & Hr & Ld & Hi & Hp & Fd).
      exists d', ib0'. split; [exact Hr|]. split; [congruence|].
      split; [exact Hi|]. split; [exact Hp|].
      intros b Hb Hout Hn1 Hn2 Hn3 Hn4.
      rewrite Fd; [apply Fd1; assumption|rewrite Ld1; exact Hb|assumption..].
    + destruct txs as [|s txs].
      * assert (Hi : journal_install sb d = Done (NothingToInstall, 0, d)).
        { destruct Hst as [Hh|(_ & jh & Hjh & Hm)].
          - apply journal_install_holds_empty. exact Hh.
          - eapply journal_install_cleared; [exact Hjh|left; exact Hm]. }
        rewrite Hi. apply IH; assumption.
      * destruct Hst as [Hh|(E & _)];
          [|exfalso; cbn [flat_map] in E; unfold staged_records in E;
            discriminate].
        destruct (Hk ltac:(discriminate)) as [Hkr Hclear].
        destruct (install_keeps_blocks sb d bm ib0 ib1 dir s txs Hfm Hmeta
                    Hkr Hall Hh)
          as (n & d2 & ib0' & Hi & Ld2 & Hib2 & Hp2 & Fd2).
        destruct (inv_install sb d Hinv) as (st' & n' & d2' & Hi' & Hinv2).
        assert (d2' = d2) by congruence. subst d2'.
        rewrite Hi.
        destruct (IH d2 ib0' Hinv2 Hib2) as (d' & ib0'' & Hr & Ld & Hi2 & Hp
                                             & Fd).
        exists d', ib0''. split; [exact Hr|]. split; [congruence|].
        split; [exact Hi2|]. split; [congruence|].
        intros b Hb Hout Hn1 Hn2 Hn3 Hn4.
        rewrite Fd; [apply Fd2; assumption|rewrite Ld2; exact Hb
                    |assumption..|rewrite Hp2; exact Hn4].
Qed.

(** X22.  The journaling commands never touch a data block, the data
    bitmap or the superblock, and never change the size of the image.
    After any sequence of create and install commands on a formatted
    image (bitmap in agreement with the inode table, journal unused or
    empty), the image has the length it had, inode 0 points to the root
    directory block it pointed to, and every block other than the 16
    journal blocks, the inode bitmap, the two inode-table blocks and the
    root directory block reads as before. *)
Theorem commands_keep_other_blocks (sb : superblock) (d0 : disk)
  (cs : list command) (ib0 : list byte) :
  formatted sb d0 -> bitmap_agrees sb d0 -> journal_state sb d0 [] ->
  read_block d0 (sb_inode_start sb) = Some ib0 ->
  exists d ib0',
    run cs d0 = Done d
    /\ length d = length d0
    /\ read_block d 0 = read_block d0 0
    /\ read_block d (sb_inode_start sb) = Some ib0'
    /\ inode_direct ib0' 0 0 = inode_direct ib0 0 0
    /\ (forall b, 0 <= b -> (b + 1) * BLOCK_SIZE <= Z.of_nat (length d0) ->
                  b < sb_journal_block sb
                  \/ sb_journal_block sb + JOURNAL_BLOCKS <= b ->
                  b <> sb_inode_bitmap sb -> b <> sb_inode_start sb ->
                  b <> sb_inode_start sb + 1 ->
                  b <> inode_direct ib0 0 0 ->
                  read_block d b = read_block d0 b).
Proof.
  intros Hfm Hag Hst Hib0.
  pose proof (inv_start sb d0 Hfm Hag Hst) as Hinv.
  destruct (run_keeps_blocks sb cs d0 ib0 Hinv Hib0)
    as (d & ib0' & Hr & Ld & Hi & Hp & Fd).
  exists d, ib0'. split; [exact Hr|]. split; [exact Ld|].
  destruct Hfm as (_ & ib & Hib & Hlay).
  assert (ib = ib0) by congruence. subst ib.
  destruct (layout_journal _ _ _ Hlay)
    as (Hjs & Hjin & Hmax & B0 & Bbm & Bi0 & Bi1 & Brt).
  pose proof Hlay as [L1 L2 L3 L4 L5 L6].
  split; [apply Fd; [exact B0|unfold JOURNAL_BLOCKS in *; lia..]|].
  split; [exact Hi|]. split; [exact Hp|].
  intros b Hb0 Hb1. apply Fd. split; assumption.
Qed.

Lemma commands_keep_other_blocks_witness :
  let sb := fresh_sb in
  let d0 := fresh_image in
  let cs := [CmdCreate a_txt 0; CmdInstall; CmdCreate (f_txt x31) 1] in
  let ib0 := fresh_ib0 in
  exists d ib0',
    run cs d0 = Done d
    /\ length d = length d0
    /\ read_block d 0 = read_block d0 0
    /\ read_block d (sb_inode_start sb) = Some ib0'
    /\ inode_direct ib0' 0 0 = inode_direct ib0 0 0
    /\ (forall b, 0 <= b -> (b + 1) * BLOCK_SIZE <= Z.of_nat (length d0) ->
                  b < sb_journal_block sb
                  \/ sb_journal_block sb + JOURNAL_BLOCKS <= b ->
                  b <> sb_inode_bitmap sb -> b <> sb_inode_start sb ->
                  b <> sb_inode_start sb + 1 ->
                  b <> inode_direct ib0 0 0 ->
                  read_block d b = read_block d0 b).
Proof.
  apply (commands_keep_other_blocks fresh_sb fresh_image
           [CmdCreate a_txt 0; CmdInstall; CmdCreate (f_txt x31) 1]
           fresh_ib0).
  - exact fresh_formatted.
  - exact fresh_bitmap_agrees.
  - exact fresh_unused.
  - exact (m_block0 _ _ _ _ _ _ fresh_meta).
Defined.

(** An install that fails has written nothing. *)
Lemma journal_install_failed (sb : superblock) (d : disk)
  (s : install_status) (n : Z) (d' : disk) :
  journal_install sb d = Done (s, n, d') -> install_ret s = -1 -> d' = d.
Proof.
  unfold journal_install. intros H Hs.
  destruct (read_journal_bytes sb d 0 sizeof_journal_header) as [jh|];
    [|congruence].
  destruct (negb (peek32 jh 0 =? JOURNAL_MAGIC)); [congruence|].
  destruct (peek32 jh 4 <=? sizeof_journal_header); [congruence|].
  destruct (read_journal_bytes sb d 0 (peek32 jh 4)) as [buf|];
    [|congruence].
  destruct (install_loop _ _ _ _ _ _ _ _) as [[[t p] d1]| |];
    [|discriminate..].
  injection H as <- _ _. discriminate.
Qed.

(** X23.  The exit status of the program is 0 or 1, and a run that exits
    with status 1 has left the image as it was (writes to the image are
    taken to succeed): a call without a command, with a command other
    than [create] and [install], [create] without a file name, an image
    whose superblock cannot be read or has the wrong magic number, and
    every create or install that reports an error.  Status 0 comes only
    from [create] with a file name and from [install]. *)
Theorem failed_command_keeps_image (argv : list (list byte)) (t : Z)
  (d : disk) (status : Z) (d' : disk) :
  main_args argv t d = Done (status, d') ->
  (status = 0 \/ status = 1)
  /\ (status = 1 -> d' = d)
  /\ (status = 0 ->
      exists sb prog command rest,
        argv = prog :: command :: rest
        /\ open_disk d = Some sb
        /\ (streq command str_create = true /\ rest <> []
            \/ streq command str_install = true)).
Proof.
  unfold main_args. intros H.
  destruct argv as [|prog [|command rest]];
    [injection H as <- <-; split; [right; reflexivity|];
     split; [reflexivity|discriminate]..|].
  destruct (open_disk d) as [sb|];
    [|injection H as <- <-; split; [right; reflexivity|];
      split; [reflexivity|discriminate]].
  destruct (streq command str_create) eqn:Ec.
  - destruct rest as [|filename rest];
      [injection H as <- <-; split; [right; reflexivity|];
       split; [reflexivity|discriminate]|].
    destruct (journal_create sb t filename d) as [s d1] eqn:Hc.
    injection H as <- <-.
    destruct (Z.eqb_spec (create_ret s) 0) as [E|E].
    + split; [left; reflexivity|]. split; [discriminate|].
      intros _. exists sb, prog, command, (filename :: rest).
      split; [reflexivity|]. split; [reflexivity|].
      left. split; [exact Ec|discriminate].
    + split; [right; reflexivity|]. split; [|discriminate].
      intros _. apply (journal_create_failed _ _ _ _ _ _ Hc).
      destruct s; [exfalso; apply E|..]; reflexivity.
  - destruct (streq command str_install) eqn:Ei;
      [|injection H as <- <-; split; [right; reflexivity|];
        split; [reflexivity|discriminate]].
    destruct (journal_install sb d) as [[[s n] d1]| |] eqn:Hi;
      [|discriminate..].
    injection H as <- <-.
    destruct (Z.eqb_spec (install_ret s) 0) as [E|E].
    + split; [left; reflexivity|]. split; [discriminate|].
      intros _. exists sb, prog, command, rest.
      split; [reflexivity|]. split; [reflexivity|].
      right. exact Ei.
    + split; [right; reflexivity|]. split; [|discriminate].
      intros _. apply (journal_install_failed _ _ _ _ _ Hi).
      destruct s; [exfalso; apply E; reflexivity..|reflexivity|reflexivity].
Qed.

Lemma failed_command_keeps_image_witness :
  let argv := [@nil byte; str_create] in
  let t := 0 in
  let d := fresh_image in
  let status := 1 in
  let d' := fresh_image in
  (status = 0 \/ status = 1)
  /\ (status = 1 -> d' = d)
  /\ (status = 0 ->
      exists sb prog command rest,
        argv = prog :: command :: rest
        /\ open_disk d = Some sb
        /\ (streq command str_create = true /\ rest <> []
            \/ streq command str_install = true)).
Proof.
  apply (failed_command_keeps_image [@nil byte; str_create] 0 fresh_image
           1 fresh_image).
  unfold main_args.
  rewrite (proj1 fresh_formatted).
  reflexivity.
Defined.

(** X24.  [write_journal_bytes] then [read_journal_bytes] at the same
    offset: the bytes written read back; the image grows to the end of
    the bytes written when they end beyond the end of the image, with
    zeros in between, and keeps its length otherwise; every range of the
    journal and every block that could be read before and does not
    overlap the bytes written reads the same.  The position is the sum
    of the start of the journal and the offset in 32 bits. *)
Theorem journal_write_read (sb : superblock) (d : disk) (offset : Z)
  (buffer : list byte) :
  buffer <> [] ->
  let p := wrap32 (journal_start sb + offset) in
  let n := Z.of_nat (length buffer) in
  let d' := write_journal_bytes sb d offset buffer in
  read_journal_bytes sb d' offset n = Some buffer
  /\ Z.of_nat (length d') = Z.max (Z.of_nat (length d)) (p + n)
  /\ (forall o m x,
         0 < m ->
         wrap32 (journal_start sb + o) + m <= p
         \/ p + n <= wrap32 (journal_start sb + o) ->
         read_journal_bytes sb d o m = Some x ->
         read_journal_bytes sb d' o m = Some x)
  /\ (forall b x,
         0 <= b < 2^20 ->
         (b + 1) * BLOCK_SIZE <= p \/ p + n <= b * BLOCK_SIZE ->
         read_block d b = Some x ->
         read_block d' b = Some x).
Proof.
  intros Hne p n d'.
  pose proof (wrap32_range (journal_start sb + offset)) as Hp. fold p in Hp.
  unfold d', write_journal_bytes, read_journal_bytes. fold p.
  split; [apply pread_pwrite_same; lia|].
  split; [rewrite length_pwrite; unfold n; lia|].
  split.
  - intros o m x Hm Hout Hx.
    pose proof (wrap32_range (journal_start sb + o)) as Ho.
    destruct (pread_Some _ _ _ _ Hx) as (Hin & _).
    rewrite pread_pwrite_other; [exact Hx|lia..|exact Hout].
  - intros b x Hb Hout Hx. unfold read_block in *.
    rewrite block_pos in *. rewrite (Z.mod_small b) in * by lia.
    destruct (pread_Some _ _ _ _ Hx) as (Hin & _).
    rewrite pread_pwrite_other; [exact Hx|unfold BLOCK_SIZE in *; lia..].
Qed.

Lemma journal_write_read_witness :
  let sb := fresh_sb in
  let d := fresh_image in
  let offset := 8 in
  let buffer := enc_commit_record in
  let p := wrap32 (journal_start sb + offset) in
  let n := Z.of_nat (length buffer) in
  let d' := write_journal_bytes sb d offset buffer in
  read_journal_bytes sb d' offset n = Some buffer
  /\ Z.of_nat (length d') = Z.max (Z.of_nat (length d)) (p + n)
  /\ (forall o m x,
         0 < m ->
         wrap32 (journal_start sb + o) + m <= p
         \/ p + n <= wrap32 (journal_start sb + o) ->
         read_journal_bytes sb d o m = Some x ->
         read_journal_bytes sb d' o m = Some x)
  /\ (forall b x,
         0 <= b < 2^20 ->
         (b + 1) * BLOCK_SIZE <= p \/ p + n <= b * BLOCK_SIZE ->
         read_block d b = Some x ->
         read_block d' b = Some x).
Proof.
  apply (journal_write_read fresh_sb fresh_image 8 enc_commit_record).
  discriminate.
Defined.

Lemma journal_install_v2_agrees (sb : superblock) (d : disk) :
  match journal_install_v2 sb d, journal_install sb d with
  | Done (ret, n, d'), Done (s, n1, d1) =>
      ret = 1 /\ install_ret s = 0 /\ n = n1 /\ d' = d1
  | Undefined, Done (s, _, d1) => install_ret s = -1 /\ d1 = d
  | Undefined, Undefined => True
  | OutOfFuel, OutOfFuel => True
  | _, _ => False
  end.
Proof.
  unfold journal_install_v2, journal_install.
  destruct (read_journal_bytes sb d 0 sizeof_journal_header) as [jh|];
    [|split; reflexivity].
  destruct (negb (peek32 jh 0 =? JOURNAL_MAGIC)); [repeat split|].
  destruct (peek32 jh 4 <=? sizeof_journal_header); [repeat split|].
  destruct (read_journal_bytes sb d 0 (peek32 jh 4)) as [buf|];
    [|split; reflexivity].
  destruct (install_loop _ _ _ _ _ _ _ _) as [[[t p] d1]| |];
    [repeat split|exact I..].
Qed.

(** X25.  The two copies of [journal_install] agree.  Where no read
    fails, the second copy leaves the image the first leaves, counts
    the same number of transactions and returns [TRUE] where the first
    returns 0.  Where the first copy reports that it cannot read the
    journal, and leaves the image as it was, the second goes on with an
    indeterminate header or buffer. *)
Theorem install_versions_agree (sb : superblock) (d : disk) :
  match journal_install_v2 sb d, journal_install sb d with
  | Done (ret, n, d'), Done (s, n1, d1) =>
      ret = 1 /\ install_ret s = 0 /\ n = n1 /\ d' = d1
  | Undefined, Done (s, _, d1) => install_ret s = -1 /\ d1 = d
  | Undefined, Undefined => True
  | OutOfFuel, OutOfFuel => True
  | _, _ => False
  end.
Proof.
  exact (journal_install_v2_agrees sb d).
Qed.

(** X26.  The two copies of the program agree.  For every command line
    and image, unless a read fails, the second copy exits with the
    status of the first and leaves the same image.  Where a read fails
    the first copy exits with status 1 and leaves the image as it was,
    and the second goes on with indeterminate contents; on an image with
    no bytes at all both exit with status 1. *)
Theorem main_versions_agree (argv : list (list byte)) (t : Z) (d : disk) :
  match main_args_v2 argv t d, main_args argv t d with
  | Done r2, Done r1 => r2 = r1
  | Undefined, Done (status, d1) => status = 1 /\ d1 = d
  | Undefined, Undefined => True
  | OutOfFuel, OutOfFuel => True
  | _, _ => False
  end.
Proof.
  unfold main_args_v2, main_args, open_disk_v2, open_disk.
  destruct argv as [|prog [|command rest]]; [reflexivity..|].
  destruct (read_block d 0) as [b|];
    [|destruct d; [reflexivity|split; reflexivity]].
  cbv zeta.
  destruct (sb_magic (decode_superblock b) =? SUPERBLOCK_MAGIC);
    [|reflexivity].
  set (sb := decode_superblock b).
  destruct (streq command str_create).
  - destruct rest as [|filename rest]; [reflexivity|].
    pose proof (journal_create_v2_agrees sb t filename d) as H.
    cbv zeta in H.
    destruct (journal_create_v2 sb t filename d) as [[ret d2]| |];
      destruct (journal_create sb t filename d) as [s d1] eqn:Hc;
      cbn [fst snd] in H.
    + destruct H as (_ & -> & ->).
      destruct (create_ret s =? 0); reflexivity.
    + pose proof (journal_create_failed _ _ _ _ _ _ Hc) as Hd.
      destruct s; try discriminate H;
        (split; [reflexivity|apply Hd; reflexivity]).
    + contradiction.
  - destruct (streq command str_install); [|reflexivity].
    pose proof (journal_install_v2_agrees sb d) as H.
    destruct (journal_install_v2 sb d) as [[[ret n] d2]| |];
      destruct (journal_install sb d) as [[[s n1] d1]| |];
      try contradiction; try exact I.
    + destruct H as (-> & -> & _ & ->). reflexivity.
    + destruct H as (-> & ->). split; reflexivity.
Qed.
